(** * Babe: recursive block codec (second format, magic [BAB2])

    A shallow embedding of the codec engine: parameters, block analysis,
    stripe partition, palette construction, bit I/O, the recursive region
    encoder and decoder, painting, edge smoothing, [Encode] and [Decode].

    Conventions.
    - Go [int], [int32] and [int64] values are modelled in [Z].  Every
      integer that reaches an addition or subtraction is bounded by the image
      dimensions and by 255 times the pixel count, far below the 64-bit
      limit, so these are written as plain [Z] operations.  Explicit
      conversions ([uint16(..)], [uint8(..)], [byte(..)]) are written with
      their reduction, and products with a parameter go through [GoInt.mul64]
      or [GoInt.mul32].
    - Go's [/] and [%] on integers truncate toward zero: [Z.quot], [Z.rem].
    - [byte] and [uint8] values stored in memory are [Byte.byte].
    - [float64] is the primitive binary64 type.
    - [runtime.NumCPU()] is a parameter [numCPU] of every function that
      reads it (directly or through the package variable [encoderStripes]).
    - goroutines that work on disjoint data are run one after the other in
      index order. *)

From Stdlib Require Import String.
From Stdlib Require Import ZArith List Bool Lia ZifyBool.
From Stdlib.Strings Require Import Byte.
From Stdlib Require Import Floats Uint63.
Import ListNotations.
Open Scope Z_scope.

(* ------------------------------------------------------------------------- *)
(** ** Machine integers, bytes, floats *)

Module GoInt.

Definition wrap (bits z : Z) : Z :=
  (z + 2 ^ (bits - 1)) mod 2 ^ bits - 2 ^ (bits - 1).

Definition mul64 (a b : Z) : Z := wrap 64 (a * b).
Definition mul32 (a b : Z) : Z := wrap 32 (a * b).
Definition uint16 (z : Z) : Z := z mod 65536.
Definition uint8 (z : Z) : Z := z mod 256.

End GoInt.

Definition b2z (b : byte) : Z := Z.of_N (Byte.to_N b).

Definition z2b (z : Z) : byte :=
  match Byte.of_N (Z.to_N (GoInt.uint8 z)) with
  | Some b => b
  | None => x00
  end.

Fixpoint zrangeFrom (start : Z) (n : nat) : list Z :=
  match n with
  | O => []
  | S n => start :: zrangeFrom (start + 1) n
  end.

(** [for i := 0; i < n; i++]: the values [i] takes, in order. *)
Definition zrange (n : Z) : list Z := zrangeFrom 0 (Z.to_nat n).

Module F64.

Definition of_int (z : Z) : float := PrimFloat.of_uint63 (Uint63.of_Z z).

(** Conversion of a finite float to an integer: the fraction is discarded. *)
Definition to_int (f : float) : Z :=
  match Prim2SF f with
  | S754_finite s m e =>
      let a := if 0 <=? e then Z.shiftl (Zpos m) e else Z.shiftr (Zpos m) (- e) in
      if s then - a else a
  | _ => 0
  end.

(** A decimal constant [n/d], rounded once to binary64. *)
Definition const (n d : Z) : float := PrimFloat.div (of_int n) (of_int d).

End F64.

(* ------------------------------------------------------------------------- *)
(** ** Errors *)

Inductive error : Type :=
| ErrInvalidMagic
| EOF
| ErrUnexpectedEOF
| ErrZstd
| Errorf (msg : string)
| Panic (msg : string)
| OutOfFuel.

Inductive result (A : Type) : Type :=
| Ok (a : A)
| Err (e : error).
Arguments Ok {A} a.
Arguments Err {A} e.
Arguments Errorf msg%_string.
Arguments Panic msg%_string.

Definition bind {A B} (c : result A) (k : A -> result B) : result B :=
  match c with
  | Ok a => k a
  | Err e => Err e
  end.

Notation "x <- c ;; k" := (bind c (fun x => k))
  (at level 61, c at next level, right associativity).
Notation "' p <- c ;; k" := (bind c (fun x => match x with p => k end))
  (at level 61, p pattern, c at next level, right associativity).

(* ------------------------------------------------------------------------- *)
(** ** image/color and image *)

Module color.

Record RGBA : Type := mk { R : byte; G : byte; B : byte; A : byte }.

Definition zero : RGBA := mk x00 x00 x00 x00.

End color.

Module image.

Record Point : Type := Pt { X : Z; Y : Z }.
Record Rectangle : Type := mkRect { Min : Point; Max : Point }.

Definition Dx (r : Rectangle) : Z := X (Max r) - X (Min r).
Definition Dy (r : Rectangle) : Z := Y (Max r) - Y (Min r).

(** [image.Rect]: the corners are put in order. *)
Definition Rect (x0 y0 x1 y1 : Z) : Rectangle :=
  let '(x0, x1) := if x1 <? x0 then (x1, x0) else (x0, x1) in
  let '(y0, y1) := if y1 <? y0 then (y1, y0) else (y0, y1) in
  mkRect (Pt x0 y0) (Pt x1 y1).

Definition In (x y : Z) (r : Rectangle) : bool :=
  (X (Min r) <=? x) && (x <? X (Max r)) && (Y (Min r) <=? y) && (y <? Y (Max r)).

(** The pixel store of [*image.RGBA], addressed by coordinates. *)
Record RGBA : Type := mkRGBA { Pix : Z -> Z -> color.RGBA; Bounds : Rectangle }.

Definition NewRGBA (r : Rectangle) : RGBA := mkRGBA (fun _ _ => color.zero) r.

Definition RGBAAt (p : RGBA) (x y : Z) : color.RGBA :=
  if In x y (Bounds p) then Pix p x y else color.zero.

Definition SetRGBA (p : RGBA) (x y : Z) (c : color.RGBA) : RGBA :=
  if In x y (Bounds p)
  then mkRGBA (fun x' y' => if (x' =? x) && (y' =? y) then c else Pix p x' y')
              (Bounds p)
  else p.

End image.

(* ------------------------------------------------------------------------- *)
(** ** Parameters and helpers *)

Record codec2Params : Type := mkParams {
  minBlock : Z;
  maxGrad : Z;
  colorTol : Z
}.

Record leafColor : Type := mkLeafColor { leaf_c : color.RGBA }.

Record leafJob : Type := mkLeafJob {
  job_x : Z; job_y : Z; job_w : Z; job_h : Z;
  job_pal : Z;
  job_idx : Z
}.

Record leafRef : Type := mkLeafRef { ref_pal : Z; ref_idx : byte }.

Record palette : Type := mkPalette { pal_colors : list color.RGBA }.

Record stripeInfo : Type := mkStripe { stripe_y : Z; stripe_h : Z }.

Definition clampQuality (q : Z) : Z :=
  let q := if q <? 1 then 1 else q in
  if 100 <? q then 100 else q.

(** [paramsForQuality]; the line it prints is left out. *)
Definition paramsForQuality (q : Z) : codec2Params :=
  let q := if q <? 1 then 1 else q in
  let q := if 100 <? q then 100 else q in
  let qi := 100 - q in
  mkParams 1 (1 + qi)
           (1 + F64.to_int (PrimFloat.mul (F64.of_int qi) (F64.const 12 100))).

(** [toRGBA]: the source is copied into a raster whose bounds start at
    (0,0).  The source is taken as an RGBA raster already. *)
Definition toRGBA (src : image.RGBA) : image.RGBA :=
  let b := image.Bounds src in
  image.mkRGBA
    (fun x y => image.RGBAAt src (x + image.X (image.Min b)) (y + image.Y (image.Min b)))
    (image.Rect 0 0 (image.Dx b) (image.Dy b)).

Definition luma (c : color.RGBA) : Z :=
  (299 * b2z (color.R c) + 587 * b2z (color.G c) + 114 * b2z (color.B c) + 500) ÷ 1000.

(** The running values of the scan in [analyzeBlock]. *)
Record blockScan : Type := mkScan {
  minL : Z; maxL : Z;
  minLBorder : Z; maxLBorder : Z;
  minLInner : Z; maxLInner : Z;
  haveBorder : bool; haveInner : bool;
  sumR : Z; sumG : Z; sumB : Z;
  count : Z
}.

Definition scan0 : blockScan :=
  mkScan 255 0 255 0 255 0 false false 0 0 0 0.

(** One iteration of the inner loop of [analyzeBlock]. *)
Definition scanPixel (img : image.RGBA) (x y w h : Z) (yy : Z) (s : blockScan) (xx : Z)
  : blockScan :=
  let px := x + xx in
  let py := y + yy in
  let b := image.Bounds img in
  if (px <? image.X (image.Min b)) || (py <? image.Y (image.Min b))
     || (image.X (image.Max b) <=? px) || (image.Y (image.Max b) <=? py)
  then s
  else
    let c := image.RGBAAt img px py in
    let l := luma c in
    let isBorder := (xx =? 0) || (yy =? 0) || (xx =? w - 1) || (yy =? h - 1) in
    mkScan
      (if l <? minL s then l else minL s)
      (if maxL s <? l then l else maxL s)
      (if isBorder then (if l <? minLBorder s then l else minLBorder s) else minLBorder s)
      (if isBorder then (if maxLBorder s <? l then l else maxLBorder s) else maxLBorder s)
      (if isBorder then minLInner s else (if l <? minLInner s then l else minLInner s))
      (if isBorder then maxLInner s else (if maxLInner s <? l then l else maxLInner s))
      (if isBorder then true else haveBorder s)
      (if isBorder then haveInner s else true)
      (sumR s + b2z (color.R c)) (sumG s + b2z (color.G c))
      (sumB s + b2z (color.B c)) (count s + 1).

Definition scanBlock (img : image.RGBA) (x y w h : Z) : blockScan :=
  fold_left
    (fun s yy => fold_left (scanPixel img x y w h yy) (zrange w) s)
    (zrange h) scan0.

(** [analyzeBlock]: total, border and inner energy, and the average color. *)
Definition analyzeBlock (img : image.RGBA) (x y w h : Z)
  : Z * Z * Z * color.RGBA :=
  let s := scanBlock img x y w h in
  if count s =? 0
  then (0, 0, 0, color.mk x00 x00 x00 xff)
  else
    let totalEnergy := maxL s - minL s in
    let borderEnergy := if haveBorder s then maxLBorder s - minLBorder s else 0 in
    let innerEnergy := if haveInner s then maxLInner s - minLInner s else 0 in
    (totalEnergy, borderEnergy, innerEnergy,
     color.mk (z2b (sumR s ÷ count s)) (z2b (sumG s ÷ count s))
              (z2b (sumB s ÷ count s)) xff).

(* ------------------------------------------------------------------------- *)
(** ** Stripes *)

(** [splitStripes]; [encoderStripes] is the package variable, set to
    [runtime.NumCPU()] when the process starts.  [minBlock] is 1 in every
    call (a zero would stop the Go program at the division). *)
Definition splitStripes (encoderStripes : Z) (totalH minBlock : Z) : list stripeInfo :=
  if totalH <=? 0 then [mkStripe 0 0]
  else
    let n := encoderStripes in
    let n := if n <? 1 then 1 else n in
    let maxByHeight := totalH ÷ minBlock in
    let maxByHeight := if maxByHeight <? 1 then 1 else maxByHeight in
    let n := if maxByHeight <? n then maxByHeight else n in
    if n =? 1 then [mkStripe 0 totalH]
    else
      let base := totalH ÷ n in
      let rem := Z.rem totalH n in
      fst (fold_left
             (fun (st : list stripeInfo * Z) i =>
                let '(stripes, y) := st in
                let h := base in
                let h := if i <? rem then h + 1 else h in
                (stripes ++ [mkStripe y h], y + h))
             (zrange n) ([], 0)).

(* ------------------------------------------------------------------------- *)
(** ** First pass: leaf colors and tree pattern *)

(** The edge test of [collectRegionColors]. *)
Definition edgeDominated (params : codec2Params) (w h borderEnergy innerEnergy : Z) : bool :=
  if (0 <? borderEnergy) && (0 <? innerEnergy)
  then
    if (GoInt.mul32 innerEnergy 2 <=? borderEnergy)
       && ((GoInt.mul64 (minBlock params) 2 <? w) || (GoInt.mul64 (minBlock params) 2 <? h))
    then true
    else false
  else false.

(** [collectRegionColors] appends to [leaves] and [pattern]; both are passed
    in and returned.  [fuel] bounds the recursion depth. *)
Fixpoint collectRegionColors (fuel : nat) (img : image.RGBA) (x y w h : Z)
  (params : codec2Params) (leaves : list leafColor) (pattern : list bool)
  : result (list leafColor * list bool) :=
  match fuel with
  | O => Err OutOfFuel
  | S fuel =>
    if (w <=? minBlock params) && (h <=? minBlock params)
    then
      let pattern := pattern ++ [true] in
      let '(_, _, _, avg) := analyzeBlock img x y w h in
      Ok (leaves ++ [mkLeafColor avg], pattern)
    else
      let '(energy, borderEnergy, innerEnergy, avg) := analyzeBlock img x y w h in
      if energy =? 0
      then Ok (leaves ++ [mkLeafColor avg], pattern ++ [true])
      else
        let edgeDom := edgeDominated params w h borderEnergy innerEnergy in
        if negb edgeDom && (energy <=? maxGrad params)
           && (w <=? GoInt.mul64 4 (minBlock params))
           && (h <=? GoInt.mul64 4 (minBlock params))
        then Ok (leaves ++ [mkLeafColor avg], pattern ++ [true])
        else
          if (h <=? w) && (minBlock params <=? w ÷ 2)
          then
            let pattern := pattern ++ [false] in
            let w1 := w ÷ 2 in
            let w2 := w - w1 in
            '(leaves, pattern) <- collectRegionColors fuel img x y w1 h params leaves pattern ;;
            collectRegionColors fuel img (x + w1) y w2 h params leaves pattern
          else
            let h1 := h ÷ 2 in
            let h2 := h - h1 in
            if h1 <? minBlock params
            then
              let pattern := pattern ++ [true] in
              let '(_, _, _, avg) := analyzeBlock img x y w h in
              Ok (leaves ++ [mkLeafColor avg], pattern)
            else
              let pattern := pattern ++ [false] in
              '(leaves, pattern) <- collectRegionColors fuel img x y w h1 params leaves pattern ;;
              collectRegionColors fuel img x (y + h1) w h2 params leaves pattern
  end.

(** Enough recursion depth for a region: each split shortens one side. *)
Definition regionFuel (w h : Z) : nat := S (Z.to_nat w + Z.to_nat h).

(** The first error among the stripe results, as the check loop finds it. *)
Fixpoint firstErr {A} (results : list (result A)) : option error :=
  match results with
  | [] => None
  | Ok _ :: rest => firstErr rest
  | Err e :: _ => Some e
  end.

Fixpoint okValues {A} (results : list (result A)) : list A :=
  match results with
  | [] => []
  | Ok a :: rest => a :: okValues rest
  | Err _ :: rest => okValues rest
  end.

(** [collectRegionColorsStriped]: one independent run per stripe, the results
    glued top to bottom. *)
Definition collectRegionColorsStriped (numCPU : Z) (img : image.RGBA)
  (params : codec2Params) : result (list leafColor * list bool) :=
  let w := image.Dx (image.Bounds img) in
  let h := image.Dy (image.Bounds img) in
  let stripes := splitStripes numCPU h (minBlock params) in
  if Z.of_nat (length stripes) =? 1
  then collectRegionColors (regionFuel w h) img 0 0 w h params [] []
  else
    let results :=
      map (fun s =>
             collectRegionColors (regionFuel w (stripe_h s)) img 0 (stripe_y s) w
                                 (stripe_h s) params [] [])
          stripes in
    match firstErr results with
    | Some e => Err e
    | None =>
        Ok (concat (map fst (okValues results)), concat (map snd (okValues results)))
    end.

(* ------------------------------------------------------------------------- *)
(** ** Palettes *)

Definition closeColor (a b : color.RGBA) (tol : Z) : bool :=
  let dr := b2z (color.R a) - b2z (color.R b) in
  let dr := if dr <? 0 then - dr else dr in
  let dg := b2z (color.G a) - b2z (color.G b) in
  let dg := if dg <? 0 then - dg else dg in
  let db := b2z (color.B a) - b2z (color.B b) in
  let db := if db <? 0 then - db else db in
  (dr <=? tol) && (dg <=? tol) && (db <=? tol).

(** The search loop of [buildPalettes]: the index of the first close color,
    counted from [j], or -1. *)
Fixpoint findClose (lc : color.RGBA) (colors : list color.RGBA) (tol : Z) (j : Z) : Z :=
  match colors with
  | [] => -1
  | pc :: rest => if closeColor lc pc tol then j else findClose lc rest tol (j + 1)
  end.

Definition len {A} (l : list A) : Z := Z.of_nat (length l).

Definition index {A} (l : list A) (i : Z) : option A :=
  if i <? 0 then None else nth_error l (Z.to_nat i).

(** [l[i] = v] for an index in range. *)
Definition setIndex {A} (l : list A) (i : Z) (v : A) : list A :=
  firstn (Z.to_nat i) l ++ v :: skipn (S (Z.to_nat i)) l.

(** The loop of [buildPalettes] from leaf number [i] on.  [refs] holds the
    entries written so far. *)
Fixpoint buildPalettesFrom (params : codec2Params) (i : Z) (leaves : list leafColor)
  (pals : list palette) (curPalID : Z) (refs : list leafRef)
  : result (list palette * list leafRef) :=
  match leaves with
  | [] => Ok (pals, refs)
  | lf :: rest =>
      let '(pals, curPalID) :=
        if (0 <? i) && (Z.rem i 256 =? 0)
        then (pals ++ [mkPalette []], curPalID + 1)
        else (pals, curPalID) in
      match index pals curPalID with
      | None => Err (Panic "index out of range")
      | Some p =>
          let found := findClose (leaf_c lf) (pal_colors p) (colorTol params) 0 in
          if found <? 0
          then
            if 256 <=? len (pal_colors p)
            then Err (Errorf "buildPalettes: palette %d exceeded 256 colors")
            else
              let p := mkPalette (pal_colors p ++ [leaf_c lf]) in
              let pals := setIndex pals curPalID p in
              let found := len (pal_colors p) - 1 in
              buildPalettesFrom params (i + 1) rest pals curPalID
                (refs ++ [mkLeafRef (GoInt.uint16 curPalID) (z2b found)])
          else
            buildPalettesFrom params (i + 1) rest pals curPalID
              (refs ++ [mkLeafRef (GoInt.uint16 curPalID) (z2b found)])
      end
  end.

Definition buildPalettes (leaves : list leafColor) (params : codec2Params)
  : result (list palette * list leafRef) :=
  match leaves with
  | [] => Ok ([], [])
  | _ => buildPalettesFrom params 0 leaves [mkPalette []] 0 []
  end.

(* ------------------------------------------------------------------------- *)
(** ** BitWriter / BitReader *)

(** The writer appends to the buffer it was created over; every write to a
    [bytes.Buffer] returns a nil error, so the write operations are total. *)
Record BitWriter : Type := mkBitWriter {
  bw_buf : list byte;
  bw_acc : byte;
  bw_nbit : Z
}.

Definition NewBitWriter (buf : list byte) : BitWriter := mkBitWriter buf x00 0.

Definition WriteBit (bw : BitWriter) (v : bool) : BitWriter :=
  let acc :=
    if v then z2b (Z.lor (b2z (bw_acc bw)) (Z.shiftl 1 (7 - bw_nbit bw)))
    else bw_acc bw in
  let nbit := bw_nbit bw + 1 in
  if nbit =? 8
  then mkBitWriter (bw_buf bw ++ [acc]) x00 0
  else mkBitWriter (bw_buf bw) acc nbit.

Definition WriteByte (bw : BitWriter) (b : byte) : BitWriter :=
  if bw_nbit bw =? 0
  then mkBitWriter (bw_buf bw ++ [b]) (bw_acc bw) (bw_nbit bw)
  else
    fold_left
      (fun bw i =>
         let bit := negb (Z.land (b2z b) (Z.shiftl 1 (7 - i)) =? 0) in
         WriteBit bw bit)
      (zrange 8) bw.

Definition Flush (bw : BitWriter) : BitWriter :=
  if bw_nbit bw =? 0 then bw
  else mkBitWriter (bw_buf bw ++ [bw_acc bw]) x00 0.

Record BitReader : Type := mkBitReader {
  br_data : list byte;
  br_pos : Z;
  br_acc : byte;
  br_nbit : Z
}.

Definition NewBitReaderFromBytes (b : list byte) : BitReader := mkBitReader b 0 x00 0.

Definition ReadBit (br : BitReader) : result (bool * BitReader) :=
  br <-
    (if br_nbit br =? 0
     then
       if len (br_data br) <=? br_pos br then Err EOF
       else
         match index (br_data br) (br_pos br) with
         | Some b => Ok (mkBitReader (br_data br) (br_pos br + 1) b (br_nbit br))
         | None => Err (Panic "index out of range")
         end
     else Ok br) ;;
  let bit := negb (Z.land (b2z (br_acc br)) (Z.shiftl 1 (7 - br_nbit br)) =? 0) in
  let nbit := br_nbit br + 1 in
  let nbit := if nbit =? 8 then 0 else nbit in
  Ok (bit, mkBitReader (br_data br) (br_pos br) (br_acc br) nbit).

Definition ReadByte (br : BitReader) : result (byte * BitReader) :=
  if br_nbit br =? 0
  then
    if len (br_data br) <=? br_pos br then Err EOF
    else
      match index (br_data br) (br_pos br) with
      | Some b => Ok (b, mkBitReader (br_data br) (br_pos br + 1) (br_acc br) (br_nbit br))
      | None => Err (Panic "index out of range")
      end
  else
    fold_left
      (fun st i =>
         '(b, br) <- st ;;
         '(bit, br) <- ReadBit br ;;
         Ok (if bit then z2b (Z.lor (b2z b) (Z.shiftl 1 (7 - i))) else b, br))
      (zrange 8) (Ok (x00, br)).

(* ------------------------------------------------------------------------- *)
(** ** Recursive region encode / decode *)

Definition encodeLeaf (bw : BitWriter) (local : byte) : BitWriter :=
  let bw := WriteBit bw true in
  WriteByte bw local.

(** [encodeRegion]; its unused image argument is dropped.  The cursors
    [leafPos] and [patPos] are passed in and returned with the writer. *)
Fixpoint encodeRegion (fuel : nat) (x y w h : Z) (params : codec2Params)
  (bw : BitWriter) (leafLocal : list byte) (leafPos : Z)
  (pattern : list bool) (patPos : Z) : result (BitWriter * Z * Z) :=
  match fuel with
  | O => Err OutOfFuel
  | S fuel =>
    if len pattern <=? patPos
    then Err (Errorf "encodeRegion: pattern overflow")
    else
      match index pattern patPos with
      | None => Err (Panic "index out of range")
      | Some isLeaf =>
        let patPos := patPos + 1 in
        if isLeaf
        then
          if len leafLocal <=? leafPos
          then Err (Errorf "encodeRegion: leaf index overflow")
          else
            match index leafLocal leafPos with
            | None => Err (Panic "index out of range")
            | Some local => Ok (encodeLeaf bw local, leafPos + 1, patPos)
            end
        else
          let bw := WriteBit bw false in
          if (h <=? w) && (minBlock params <=? w ÷ 2)
          then
            let w1 := w ÷ 2 in
            let w2 := w - w1 in
            '(bw, leafPos, patPos) <-
              encodeRegion fuel x y w1 h params bw leafLocal leafPos pattern patPos ;;
            encodeRegion fuel (x + w1) y w2 h params bw leafLocal leafPos pattern patPos
          else
            let h1 := h ÷ 2 in
            let h2 := h - h1 in
            if h1 <? minBlock params
            then Err (Errorf "encodeRegion: inconsistent pattern/geometry (h1 < minBlock for internal node)")
            else
              '(bw, leafPos, patPos) <-
                encodeRegion fuel x y w h1 params bw leafLocal leafPos pattern patPos ;;
              encodeRegion fuel x (y + h1) w h2 params bw leafLocal leafPos pattern patPos
      end
  end.

(** The leaf branch of [decodeRegionJobs] (it occurs twice in the source,
    with different messages): read the local index, check it, add a job. *)
Definition decodeLeafJob (fallback : bool) (x y w h : Z) (br : BitReader)
  (palettes : list (list color.RGBA)) (leafCounter : Z) (jobs : list leafJob)
  : result (BitReader * Z * list leafJob) :=
  '(b, br) <- ReadByte br ;;
  let palID := leafCounter ÷ 256 in
  if (palID <? 0) || (len palettes <=? palID)
  then Err (Errorf (if fallback
                    then "decodeRegionJobs: palette id %d out of range (fallback)"
                    else "decodeRegionJobs: palette id %d out of range"))
  else
    match index palettes palID with
    | None => Err (Panic "index out of range")
    | Some p =>
      let local := b2z b in
      if (local <? 0) || (len p <=? local)
      then Err (Errorf (if fallback
                        then "decodeRegionJobs: local color index %d out of range for palette %d (fallback)"
                        else "decodeRegionJobs: local color index %d out of range for palette %d"))
      else Ok (br, leafCounter + 1, jobs ++ [mkLeafJob x y w h palID local])
    end.

Fixpoint decodeRegionJobs (fuel : nat) (x y w h : Z) (params : codec2Params)
  (br : BitReader) (palettes : list (list color.RGBA)) (leafCounter : Z)
  (jobs : list leafJob) : result (BitReader * Z * list leafJob) :=
  match fuel with
  | O => Err OutOfFuel
  | S fuel =>
    '(isLeaf, br) <- ReadBit br ;;
    if isLeaf
    then decodeLeafJob false x y w h br palettes leafCounter jobs
    else
      if (h <=? w) && (minBlock params <=? w ÷ 2)
      then
        let w1 := w ÷ 2 in
        let w2 := w - w1 in
        '(br, leafCounter, jobs) <-
          decodeRegionJobs fuel x y w1 h params br palettes leafCounter jobs ;;
        decodeRegionJobs fuel (x + w1) y w2 h params br palettes leafCounter jobs
      else
        let h1 := h ÷ 2 in
        let h2 := h - h1 in
        if h1 <=? 0
        then decodeLeafJob true x y w h br palettes leafCounter jobs
        else
          '(br, leafCounter, jobs) <-
            decodeRegionJobs fuel x y w h1 params br palettes leafCounter jobs ;;
          decodeRegionJobs fuel x (y + h1) w h2 params br palettes leafCounter jobs
  end.

(* ------------------------------------------------------------------------- *)
(** ** Painting *)

(** The calls [dst.SetRGBA(px, py, c)] one job makes, in loop order. *)
Definition jobWrites (bounds : image.Rectangle) (c : color.RGBA) (job : leafJob)
  : list (Z * Z * color.RGBA) :=
  flat_map
    (fun yy =>
       flat_map
         (fun xx =>
            let px := job_x job + xx in
            let py := job_y job + yy in
            if (px <? image.X (image.Min bounds)) || (py <? image.Y (image.Min bounds))
               || (image.X (image.Max bounds) <=? px) || (image.Y (image.Max bounds) <=? py)
            then []
            else [(px, py, c)])
         (zrange (job_w job)))
    (zrange (job_h job)).

(** [palettes[job.pal][job.idx]]. *)
Definition jobColor (palettes : list (list color.RGBA)) (job : leafJob)
  : result color.RGBA :=
  match index palettes (job_pal job) with
  | None => Err (Panic "index out of range")
  | Some p =>
    match index p (job_idx job) with
    | None => Err (Panic "index out of range")
    | Some c => Ok c
    end
  end.

(** The body of one painting goroutine over its slice of jobs. *)
Fixpoint workerWrites (bounds : image.Rectangle) (palettes : list (list color.RGBA))
  (js : list leafJob) : result (list (Z * Z * color.RGBA)) :=
  match js with
  | [] => Ok []
  | job :: rest =>
      c <- jobColor palettes job ;;
      ws <- workerWrites bounds palettes rest ;;
      Ok (jobWrites bounds c job ++ ws)
  end.

(** The slices [jobs[start:end]] handed to the workers; the loop stops at
    the first [start] past the end. *)
Fixpoint jobChunks (jobs : list leafJob) (chunk : Z) (wIdxs : list Z) : list (list leafJob) :=
  match wIdxs with
  | [] => []
  | wIdx :: rest =>
      let start := wIdx * chunk in
      let end_ := start + chunk in
      if len jobs <=? start then []
      else
        let end_ := if len jobs <? end_ then len jobs else end_ in
        firstn (Z.to_nat (end_ - start)) (skipn (Z.to_nat start) jobs)
          :: jobChunks jobs chunk rest
  end.

(** All pixel writes of [paintLeafJobsParallel], worker after worker. *)
Definition paintWrites (numCPU : Z) (bounds : image.Rectangle)
  (palettes : list (list color.RGBA)) (jobs : list leafJob)
  : result (list (Z * Z * color.RGBA)) :=
  if len jobs =? 0 then Ok []
  else
    let workers := numCPU in
    let workers := if workers <? 1 then 1 else workers in
    let workers := if len jobs <? workers then len jobs else workers in
    let chunk := (len jobs + workers - 1) ÷ workers in
    fold_left
      (fun acc js => ws <- acc ;; ws' <- workerWrites bounds palettes js ;; Ok (ws ++ ws'))
      (jobChunks jobs chunk (zrange workers)) (Ok []).

Definition applyWrites (dst : image.RGBA) (ws : list (Z * Z * color.RGBA)) : image.RGBA :=
  fold_left (fun d '(px, py, c) => image.SetRGBA d px py c) ws dst.

Definition paintLeafJobsParallel (numCPU : Z) (dst : image.RGBA)
  (palettes : list (list color.RGBA)) (jobs : list leafJob) : result image.RGBA :=
  ws <- paintWrites numCPU (image.Bounds dst) palettes jobs ;;
  Ok (applyWrites dst ws).

(* ------------------------------------------------------------------------- *)
(** ** Edge smoothing *)

Definition neigh (x y : Z) : list (Z * Z) :=
  [(x - 1, y); (x + 1, y); (x, y - 1); (x, y + 1);
   (x - 1, y - 1); (x + 1, y - 1); (x - 1, y + 1); (x + 1, y + 1)].

Definition outside (b : image.Rectangle) (p : Z * Z) : bool :=
  (fst p <? image.X (image.Min b)) || (image.X (image.Max b) <=? fst p)
  || (snd p <? image.Y (image.Min b)) || (image.Y (image.Max b) <=? snd p).

(** The first neighbor loop: [(edge, maxDl)]. *)
Definition edgeScan (src : image.RGBA) (tol : Z) (lc : Z) (ps : list (Z * Z)) : bool * Z :=
  fold_left
    (fun (st : bool * Z) p =>
       let '(edge, maxDl) := st in
       if outside (image.Bounds src) p then st
       else
         let nc := image.RGBAAt src (fst p) (snd p) in
         let ln := luma nc in
         let dl := ln - lc in
         let dl := if dl <? 0 then - dl else dl in
         let maxDl := if maxDl <? dl then dl else maxDl in
         let edge := if GoInt.mul64 tol 2 <? dl then true else edge in
         (edge, maxDl))
    ps (false, 0).

(** The second neighbor loop: channel sums and the neighbor count. *)
Definition neighSums (src : image.RGBA) (ps : list (Z * Z)) : Z * Z * Z * Z :=
  fold_left
    (fun (st : Z * Z * Z * Z) p =>
       let '(sumNR, sumNG, sumNB, nCount) := st in
       if outside (image.Bounds src) p then st
       else
         let nc := image.RGBAAt src (fst p) (snd p) in
         (sumNR + b2z (color.R nc), sumNG + b2z (color.G nc),
          sumNB + b2z (color.B nc), nCount + 1))
    ps (0, 0, 0, 0).

Definition blendChannel (cv : byte) (avgN alpha : float) : byte :=
  let out := PrimFloat.add
               (PrimFloat.mul (F64.of_int (b2z cv)) (PrimFloat.sub (F64.of_int 1) alpha))
               (PrimFloat.mul avgN alpha) in
  z2b (F64.to_int (PrimFloat.add out (F64.const 5 10))).

(** The color [smoothEdges] stores at [(x, y)]. *)
Definition smoothPixel (src : image.RGBA) (tol : Z) (x y : Z) : color.RGBA :=
  let c := image.RGBAAt src x y in
  let lc := luma c in
  let '(edge, maxDl) := edgeScan src tol lc (neigh x y) in
  if negb edge then c
  else
    let '(sumNR, sumNG, sumNB, nCount) := neighSums src (neigh x y) in
    if nCount =? 0 then c
    else
      let avgNR := PrimFloat.div (F64.of_int sumNR) (F64.of_int nCount) in
      let avgNG := PrimFloat.div (F64.of_int sumNG) (F64.of_int nCount) in
      let avgNB := PrimFloat.div (F64.of_int sumNB) (F64.of_int nCount) in
      let alpha :=
        if maxDl <? GoInt.mul64 tol 3 then F64.const 4 10
        else if maxDl <? GoInt.mul64 tol 5 then F64.const 3 10
        else F64.const 1 10 in
      color.mk (blendChannel (color.R c) avgNR alpha)
               (blendChannel (color.G c) avgNG alpha)
               (blendChannel (color.B c) avgNB alpha) xff.

Definition smoothEdges (src : image.RGBA) (tol : Z) : image.RGBA :=
  let b := image.Bounds src in
  fold_left
    (fun dst y =>
       fold_left (fun dst x => image.SetRGBA dst x y (smoothPixel src tol x y))
                 (map (Z.add (image.X (image.Min b))) (zrange (image.Dx b))) dst)
    (map (Z.add (image.Y (image.Min b))) (zrange (image.Dy b)))
    (image.NewRGBA b).

(* ------------------------------------------------------------------------- *)
(** ** The byte-stream compressor (zstd), at its interface *)

(** [compress n raw] is the frame a writer with concurrency [n] produces;
    [decompress] reads a frame back and may reject its input. *)
Record Zstd : Type := mkZstd {
  compress : Z -> list byte -> list byte;
  decompress : list byte -> result (list byte);
  decompress_compress : forall n raw, decompress (compress n raw) = Ok raw
}.

(* ------------------------------------------------------------------------- *)
(** ** Encode *)

Definition magicCodec2 : list byte := ["B"; "A"; "B"; "2"]%byte.

(** [binary.Write(.., binary.BigEndian, v)] for a [uint16]. *)
Definition putUint16 (v : Z) : list byte := [z2b (v ÷ 256); z2b v].

(** The loop of [Encode] that writes the palettes after their count. *)
Fixpoint writePalettes (raw : list byte) (pals : list palette) : result (list byte) :=
  match pals with
  | [] => Ok raw
  | p :: rest =>
      if 255 <? len (pal_colors p)
      then Err (Errorf "_encode: palette size %d exceeds 255")
      else
        let raw := raw ++ [z2b (len (pal_colors p))] in
        let raw :=
          fold_left (fun raw c => raw ++ [color.R c] ++ [color.G c] ++ [color.B c])
                    (pal_colors p) raw in
        writePalettes raw rest
  end.

(** The loop of [Encode] over the stripes, on one shared writer. *)
Fixpoint encodeStripes (w : Z) (params : codec2Params) (bw : BitWriter)
  (leafLocal : list byte) (leafPos : Z) (pattern : list bool) (patPos : Z)
  (stripes : list stripeInfo) : result (BitWriter * Z * Z) :=
  match stripes with
  | [] => Ok (bw, leafPos, patPos)
  | s :: rest =>
      '(bw, leafPos, patPos) <-
        encodeRegion (S (length pattern)) 0 (stripe_y s) w (stripe_h s) params bw
                     leafLocal leafPos pattern patPos ;;
      encodeStripes w params bw leafLocal leafPos pattern patPos rest
  end.

(** The raw payload [Encode] hands to the compressor: palettes, then the
    bit-packed tree. *)
Definition encodePayload (numCPU : Z) (rgba : image.RGBA) (w h : Z)
  (params : codec2Params) : result (list byte) :=
  '(leaves, pattern) <- collectRegionColorsStriped numCPU rgba params ;;
  '(pals, refs) <- buildPalettes leaves params ;;
  let leafLocal := map ref_idx refs in
  let raw := putUint16 (GoInt.uint16 (len pals)) in
  raw <- writePalettes raw pals ;;
  let bw := NewBitWriter raw in
  let stripes := splitStripes numCPU h (minBlock params) in
  '(bw, _, _) <- encodeStripes w params bw leafLocal 0 pattern 0 stripes ;;
  let bw := Flush bw in
  Ok (bw_buf bw).

Definition Encode (z : Zstd) (numCPU : Z) (img : image.RGBA) (quality : Z)
  : result (list byte) :=
  let quality := if quality <? 1 then 1 else quality in
  let quality := if 100 <? quality then 100 else quality in
  let rgba := toRGBA img in
  let b := magicCodec2 in
  let w := GoInt.uint16 (image.Dx (image.Bounds rgba)) in
  let h := GoInt.uint16 (image.Dy (image.Bounds rgba)) in
  let b := b ++ putUint16 w in
  let b := b ++ putUint16 h in
  let b := b ++ [z2b quality] in
  let params := paramsForQuality quality in
  raw <- encodePayload numCPU rgba w h params ;;
  Ok (b ++ compress z numCPU raw).

(* ------------------------------------------------------------------------- *)
(** ** Decode *)

(** [binary.Read(.., binary.BigEndian, &v)] for a [uint16]: the value and the
    rest of the input. *)
Definition readUint16 (r : list byte) : result (Z * list byte) :=
  match r with
  | [] => Err EOF
  | [_] => Err ErrUnexpectedEOF
  | hi :: lo :: rest => Ok (b2z hi * 256 + b2z lo, rest)
  end.

(** [io.ReadFull] of three bytes. *)
Definition readRGB (r : list byte) : result (color.RGBA * list byte) :=
  match r with
  | [] => Err EOF
  | [_] | [_; _] => Err ErrUnexpectedEOF
  | r0 :: g0 :: b0 :: rest => Ok (color.mk r0 g0 b0 xff, rest)
  end.

Fixpoint readColors (sz : nat) (r : list byte) : result (list color.RGBA * list byte) :=
  match sz with
  | O => Ok ([], r)
  | S sz =>
      '(c, r) <- readRGB r ;;
      '(cs, r) <- readColors sz r ;;
      Ok (c :: cs, r)
  end.

Fixpoint readPalettes (numPalettes : nat) (r : list byte)
  : result (list (list color.RGBA) * list byte) :=
  match numPalettes with
  | O => Ok ([], r)
  | S n =>
      match r with
      | [] => Err EOF
      | szByte :: r =>
          let sz := b2z szByte in
          if sz <? 0 then Err (Errorf "codec2: negative palette size")
          else
            '(p, r) <- readColors (Z.to_nat sz) r ;;
            '(ps, r) <- readPalettes n r ;;
            Ok (p :: ps, r)
      end
  end.

(** The loop of [Decode] over the stripes, on one reader. *)
Fixpoint decodeStripes (fuel : nat) (w : Z) (params : codec2Params) (br : BitReader)
  (palettes : list (list color.RGBA)) (leafCounter : Z) (jobs : list leafJob)
  (stripes : list stripeInfo) : result (BitReader * Z * list leafJob) :=
  match stripes with
  | [] => Ok (br, leafCounter, jobs)
  | s :: rest =>
      '(br, leafCounter, jobs) <-
        decodeRegionJobs fuel 0 (stripe_y s) w (stripe_h s) params br palettes
                         leafCounter jobs ;;
      decodeStripes fuel w params br palettes leafCounter jobs rest
  end.

Fixpoint bytesEqb (a b : list byte) : bool :=
  match a, b with
  | [], [] => true
  | x :: a, y :: b => Byte.eqb x y && bytesEqb a b
  | _, _ => false
  end.

(** [Decode] from the decompressed payload on.  The raster [dst] is
    allocated from the header before the payload is read; the allocation is
    taken to succeed. *)
Definition decodePayload (numCPU : Z) (w h : Z) (params : codec2Params)
  (plain : list byte) : result image.RGBA :=
  let dst := image.NewRGBA (image.Rect 0 0 w h) in
  if len plain <? 2 then Err (Errorf "codec2: truncated payload (no palette)")
  else
    '(numPalettes, reader) <- readUint16 plain ;;
    '(palettes, reader) <- readPalettes (Z.to_nat numPalettes) reader ;;
    let offset := len plain - len reader in
    if (offset <? 0) || (len plain <? offset)
    then Err (Errorf "codec2: invalid palette offset")
    else
      let br := NewBitReaderFromBytes (skipn (Z.to_nat offset) plain) in
      let stripes := splitStripes numCPU h (minBlock params) in
      '(_, _, jobs) <-
        decodeStripes (S (8 * length plain)) w params br palettes 0 [] stripes ;;
      dst <- paintLeafJobsParallel numCPU dst palettes jobs ;;
      Ok (smoothEdges dst (maxGrad params)).

Definition Decode (z : Zstd) (numCPU : Z) (data : list byte) : result image.RGBA :=
  match data with
  | [] => Err EOF
  | _ =>
    if negb (bytesEqb (firstn 4 (data ++ [x00; x00; x00; x00])) magicCodec2)
    then Err ErrInvalidMagic
    else
      let r := skipn 4 data in
      '(w16, r) <- readUint16 r ;;
      '(h16, r) <- readUint16 r ;;
      match r with
      | [] => Err EOF
      | qByte :: r =>
          let quality := b2z qByte in
          let quality := if quality <? 1 then 1 else quality in
          let quality := if 100 <? quality then 100 else quality in
          let params := paramsForQuality quality in
          plain <- decompress z r ;;
          decodePayload numCPU w16 h16 params plain
      end
  end.

(** The palettes an [Encode] run builds (its first two passes). *)
Definition encoderPalettes (numCPU : Z) (img : image.RGBA) (quality : Z)
  : result (list palette) :=
  let params := paramsForQuality (clampQuality quality) in
  '(leaves, _) <- collectRegionColorsStriped numCPU (toRGBA img) params ;;
  '(pals, _) <- buildPalettes leaves params ;;
  Ok pals.

(* ------------------------------------------------------------------------- *)
(** ** The Palette Builder, as the specification words it *)

(** Two colors are equal for merging when every channel differs by at most
    the tolerance. *)
Definition within (tol : Z) (a b : color.RGBA) : bool :=
  (Z.abs (b2z (color.R a) - b2z (color.R b)) <=? tol)
  && (Z.abs (b2z (color.G a) - b2z (color.G b)) <=? tol)
  && (Z.abs (b2z (color.B a) - b2z (color.B b)) <=? tol).

(** The first palette entry, in insertion order, within the tolerance. *)
Fixpoint firstWithin (tol : Z) (lc : color.RGBA) (pal : list color.RGBA) : option nat :=
  match pal with
  | [] => None
  | pc :: rest =>
      if within tol lc pc then Some O else option_map S (firstWithin tol lc rest)
  end.

(** One group: each leaf in order reuses the first entry within the
    tolerance, otherwise its color is appended.  The result is the palette
    and the entry chosen for each leaf. *)
Fixpoint placeGroup (tol : Z) (pal : list color.RGBA) (group : list leafColor)
  : list color.RGBA * list nat :=
  match group with
  | [] => (pal, [])
  | lf :: rest =>
      match firstWithin tol (leaf_c lf) pal with
      | Some j =>
          let '(pal', ixs) := placeGroup tol pal rest in (pal', j :: ixs)
      | None =>
          let '(pal', ixs) := placeGroup tol (pal ++ [leaf_c lf]) rest in
          (pal', length pal :: ixs)
      end
  end.

(** Group number [k]: the leaves [256 k .. 256 k + 255]. *)
Definition group (leaves : list leafColor) (k : nat) : list leafColor :=
  firstn 256 (skipn (256 * k) leaves).

Definition groupCount (leaves : list leafColor) : nat :=
  Z.to_nat ((len leaves + 255) / 256).

(** One fresh palette per group. *)
Definition specPalettes (tol : Z) (leaves : list leafColor) : list (list color.RGBA) :=
  map (fun k => fst (placeGroup tol [] (group leaves k))) (seq 0 (groupCount leaves)).

(** Per leaf, in order: the group number and the entry in the group's palette. *)
Definition specRefs (tol : Z) (leaves : list leafColor) : list (nat * nat) :=
  flat_map (fun k => map (pair k) (snd (placeGroup tol [] (group leaves k))))
           (seq 0 (groupCount leaves)).

(** The reference the code stores for entry [j] of palette [k]. *)
Definition storedRef (kj : nat * nat) : leafRef :=
  mkLeafRef (GoInt.uint16 (Z.of_nat (fst kj))) (z2b (Z.of_nat (snd kj))).

(** What a [leafRef] names: entry [idx] of palette number [pal]. *)
Definition resolveRef (pals : list palette) (r : leafRef) : option color.RGBA :=
  match index pals (ref_pal r) with
  | Some p => index (pal_colors p) (b2z (ref_idx r))
  | None => None
  end.

(* ------------------------------------------------------------------------- *)
(** ** The wire grammar, as the specification words it *)

(** The eight bits of a byte, most significant first. *)
Definition byteBits (b : byte) : list bool :=
  map (fun i => Z.testbit (b2z b) (7 - i)) (zrange 8).

Definition bytesBits (bs : list byte) : list bool := flat_map byteBits bs.

(** A tree of regions: a leaf carries its local palette index. *)
Inductive node : Type :=
| Leaf (local : byte)
| Internal (a b : node).

(** [node := leaf-bit (1) leaf-body | internal-bit (0) node node], with
    [leaf-body] the 8-bit local index. *)
Fixpoint nodeBits (t : node) : list bool :=
  match t with
  | Leaf local => true :: byteBits local
  | Internal a b => false :: nodeBits a ++ nodeBits b
  end.

(** The local indices of the leaves, in traversal order. *)
Fixpoint leavesOf (t : node) : list byte :=
  match t with
  | Leaf local => [local]
  | Internal a b => leavesOf a ++ leavesOf b
  end.

(** One flag per node in traversal order: true for a leaf. *)
Fixpoint flagsOf (t : node) : list bool :=
  match t with
  | Leaf _ => [true]
  | Internal a b => false :: flagsOf a ++ flagsOf b
  end.

(** The split rule on the geometry alone: an internal node of a [w] by [h]
    region is halved along the width when [w >= h] and [w/2 >= minBlock],
    otherwise along the height, which needs [h/2 >= minBlock]. *)
Fixpoint fits (params : codec2Params) (w h : Z) (t : node) : Prop :=
  match t with
  | Leaf _ => True
  | Internal a b =>
      if (h <=? w) && (minBlock params <=? w ÷ 2)
      then fits params (w ÷ 2) h a /\ fits params (w - w ÷ 2) h b
      else minBlock params <= h ÷ 2 /\
           fits params w (h ÷ 2) a /\ fits params w (h - h ÷ 2) b
  end.

(** The paint jobs of a tree laid over the region [(x, y, w, h)], the first
    leaf being leaf number [ordinal] of the image: the palette number is the
    leaf ordinal divided by 256. *)
Fixpoint treeJobs (params : codec2Params) (x y w h : Z) (ordinal : Z) (t : node)
  : list leafJob :=
  match t with
  | Leaf local => [mkLeafJob x y w h (ordinal ÷ 256) (b2z local)]
  | Internal a b =>
      if (h <=? w) && (minBlock params <=? w ÷ 2)
      then treeJobs params x y (w ÷ 2) h ordinal a
           ++ treeJobs params (x + w ÷ 2) y (w - w ÷ 2) h (ordinal + len (leavesOf a)) b
      else treeJobs params x y w (h ÷ 2) ordinal a
           ++ treeJobs params x (y + h ÷ 2) w (h - h ÷ 2) (ordinal + len (leavesOf a)) b
  end.

(** The palette table of the payload: per palette its size in one byte,
    then its colors as (R,G,B) triples. *)
Definition rgbBytes (c : color.RGBA) : list byte := [color.R c; color.G c; color.B c].

Definition paletteBytes (p : palette) : list byte :=
  z2b (len (pal_colors p)) :: flat_map rgbBytes (pal_colors p).

(** A color read back from the table is opaque. *)
Definition opaque (c : color.RGBA) : color.RGBA :=
  color.mk (color.R c) (color.G c) (color.B c) xff.

(** The bits a writer has taken so far, and the bits a reader has left. *)
Definition written (bw : BitWriter) : list bool :=
  bytesBits (bw_buf bw) ++ firstn (Z.to_nat (bw_nbit bw)) (byteBits (bw_acc bw)).

Definition remaining (br : BitReader) : list bool :=
  (if br_nbit br =? 0 then [] else skipn (Z.to_nat (br_nbit br)) (byteBits (br_acc br)))
  ++ bytesBits (skipn (Z.to_nat (br_pos br)) (br_data br)).

(* ------------------------------------------------------------------------- *)
(** ** Sample inputs *)

(** A compressor that stores its input unchanged. *)
Definition storeZstd : Zstd :=
  mkZstd (fun _ raw => raw) (fun frame => Ok frame) (fun _ _ => eq_refl).

Definition rgb (r g b : Z) : color.RGBA := color.mk (z2b r) (z2b g) (z2b b) xff.

(** A [w] by [h] raster at the origin whose pixel at [(x, y)] is [f x y]. *)
Definition rasterOf (w h : Z) (f : Z -> Z -> color.RGBA) : image.RGBA :=
  image.mkRGBA f (image.Rect 0 0 w h).

Definition flatImage (w h : Z) (c : color.RGBA) : image.RGBA :=
  rasterOf w h (fun _ _ => c).


(** 65536 full groups of black leaves, then a black and a white leaf. *)
Definition manyLeaves : list leafColor :=
  repeat (mkLeafColor (rgb 0 0 0)) (256 * Z.to_nat 65536)
  ++ [mkLeafColor (rgb 0 0 0); mkLeafColor (rgb 255 255 255)].

(** The artifact of the 4 by 4 raster filled with (200,100,50), quality 50,
    one stripe, under [storeZstd]: header, one palette of one color, one leaf. *)
Definition sampleArtifact : list byte :=
  magicCodec2 ++ [x00; x04; x00; x04; x32]
  ++ [x00; x01; x01; xc8; x64; x32] ++ [x80; x00].

(** A 256 by 1 raster of 256 colors, any two of them at least 16 apart in
    red or green. *)
Definition manyColors : image.RGBA :=
  rasterOf 256 1 (fun x _ => rgb (16 * Z.rem x 16) (16 * (x ÷ 16)) 0).

(** A 65536 by 1 raster, black but for its first pixel. *)
Definition wideImage : image.RGBA :=
  rasterOf 65536 1 (fun x _ => if x =? 0 then rgb 255 255 255 else rgb 0 0 0).

(** A 1 by 4 raster, black over white. *)
Definition twoTone : image.RGBA :=
  rasterOf 1 4 (fun _ y => if y <? 2 then rgb 0 0 0 else rgb 255 255 255).

(** 259 leaves in two groups: 255 dark leaves and a red one, then, past the
    group boundary, red, dark, red. *)
Definition twoGroups : list leafColor :=
  repeat (mkLeafColor (rgb 10 10 10)) 255
  ++ [mkLeafColor (rgb 200 0 0);
      mkLeafColor (rgb 200 0 0); mkLeafColor (rgb 10 10 10); mkLeafColor (rgb 200 0 0)].

(** A 2 by 2 artifact with one palette of one color whose only leaf names
    entry 5 of it. *)
Definition badIndexArtifact : list byte :=
  magicCodec2 ++ [x00; x02; x00; x02; x32]
  ++ [x00; x01; x01; xc8; x64; x32] ++ [x82; x80].

(* ------------------------------------------------------------------------- *)
(** ** Predicates of the statements *)

Definition writeInside (bounds : image.Rectangle) (w : Z * Z * color.RGBA) : Prop :=
  image.In (fst (fst w)) (snd (fst w)) bounds = true.

Definition scanInRange (s : blockScan) : Prop :=
  0 <= minL s <= 255 /\ 0 <= maxL s <= 255 /\
  0 <= minLBorder s <= 255 /\ 0 <= maxLBorder s <= 255 /\
  0 <= minLInner s <= 255 /\ 0 <= maxLInner s <= 255.

(** Where the loop stands when leaf number [i] opens group number
    [length pre]: at the very start, over the one empty palette that was
    prepared, or at a later multiple of 256, over the finished palettes. *)
Definition groupStart (pre actual : list palette) (cur i : Z) : Prop :=
  (pre = [] /\ actual = [mkPalette []] /\ cur = 0 /\ i = 0) \/
  (1 <= len pre /\ actual = pre /\ cur = len pre - 1 /\ i = 256 * len pre).

(** The pending bits of a writer sit at the top of [acc]; the rest is zero. *)
Definition lowZero (acc : byte) (nbit : Z) : bool :=
  forallb (fun i => negb (Z.testbit (b2z acc) (7 - i))) (skipn (Z.to_nat nbit) (zrange 8)).

Definition writerOk (bw : BitWriter) : Prop :=
  0 <= bw_nbit bw < 8 /\ lowZero (bw_acc bw) (bw_nbit bw) = true.

Definition setBit (acc : byte) (nbit : Z) (v : bool) : byte :=
  if v then z2b (Z.lor (b2z acc) (Z.shiftl 1 (7 - nbit))) else acc.

(** A later writer state has only appended to the buffer. *)
Definition extends (bw bw' : BitWriter) : Prop :=
  exists ext, bw_buf bw' = bw_buf bw ++ ext.

Definition readerOk (br : BitReader) : Prop :=
  0 <= br_nbit br < 8 /\ 0 <= br_pos br <= len (br_data br).

(** The byte the bit loop of [ReadByte] builds from the bits it reads. *)
Definition readAcc (b0 : byte) (ibs : list (Z * bool)) : byte :=
  fold_left
    (fun b (ib : Z * bool) =>
       if snd ib then z2b (Z.lor (b2z b) (Z.shiftl 1 (7 - fst ib))) else b)
    ibs b0.

(** The palette table has an entry for every leaf of the list, the first
    leaf being leaf number [ordinal]. *)
Definition leavesResolve (palettes : list (list color.RGBA)) (ordinal : Z)
  (locals : list byte) : Prop :=
  forall j local, nth_error locals j = Some local ->
    exists P, index palettes ((ordinal + Z.of_nat j) ÷ 256) = Some P /\ b2z local < len P.

(** The entries of [xs] are the entries of [L] from position [pos] on. *)
Definition sliceAt {A} (L : list A) (pos : Z) (xs : list A) : Prop :=
  forall j x, nth_error xs j = Some x -> index L (pos + Z.of_nat j) = Some x.

Definition jobValid (palettes : list (list color.RGBA)) (job : leafJob) : Prop :=
  exists c, jobColor palettes job = Ok c.

(** Per stripe, the leaves and pattern flags the first pass found. *)
Definition stripeRuns (img : image.RGBA) (w : Z) (params : codec2Params)
  (stripes : list stripeInfo) (runs : list (list leafColor * list bool)) : Prop :=
  Forall2
    (fun s run =>
       exists fuel,
         collectRegionColors fuel img 0 (stripe_y s) w (stripe_h s) params [] [] = Ok run)
    stripes runs.

(* ------------------------------------------------------------------------- *)
(** ** Sequences of bit operations *)

(** [n] successive calls of [ReadBit], the bits in reading order. *)
Fixpoint readBits (n : nat) (br : BitReader) : result (list bool * BitReader) :=
  match n with
  | O => Ok ([], br)
  | S n =>
      '(b, br) <- ReadBit br ;;
      '(bs, br) <- readBits n br ;;
      Ok (b :: bs, br)
  end.

(** A call on the writer, or the matching call on the reader with the value
    it returned. *)
Inductive bitOp : Type :=
| OpBit (v : bool)
| OpByte (b : byte).

Definition writeOp (bw : BitWriter) (op : bitOp) : BitWriter :=
  match op with
  | OpBit v => WriteBit bw v
  | OpByte b => WriteByte bw b
  end.

(** The reader is driven by the kinds of [shape]; the values of [shape] are
    not looked at. *)
Fixpoint readOps (shape : list bitOp) (br : BitReader) : result (list bitOp * BitReader) :=
  match shape with
  | [] => Ok ([], br)
  | OpBit _ :: rest =>
      '(v, br) <- ReadBit br ;;
      '(ops, br) <- readOps rest br ;;
      Ok (OpBit v :: ops, br)
  | OpByte _ :: rest =>
      '(b, br) <- ReadByte br ;;
      '(ops, br) <- readOps rest br ;;
      Ok (OpByte b :: ops, br)
  end.

(** The bits an operation puts on the wire. *)
Definition opBits (op : bitOp) : list bool :=
  match op with
  | OpBit v => [v]
  | OpByte b => byteBits b
  end.

(** The error values the codec returns by design; a [Panic] is a run-time
    fault of the Go program, [OutOfFuel] is the recursion budget of this
    development. *)
Definition codecError (e : error) : Prop :=
  match e with
  | Panic _ | OutOfFuel => False
  | _ => True
  end.

(* ------------------------------------------------------------------------- *)
(** ** Color key *)

Definition uint32 (z : Z) : Z := z mod 2 ^ 32.

(** [rgbKey]: the three color bytes packed into one [uint32]. *)
Definition rgbKey (c : color.RGBA) : Z :=
  Z.lor (Z.lor (uint32 (Z.shiftl (uint32 (b2z (color.R c))) 16))
               (uint32 (Z.shiftl (uint32 (b2z (color.G c))) 8)))
        (uint32 (b2z (color.B c))).

(* ------------------------------------------------------------------------- *)
(** ** Stripe lists *)

(** The stripes lie one under the other from row [y] on: each starts where
    the one before it ends. *)
Fixpoint stacked (y : Z) (stripes : list stripeInfo) : Prop :=
  match stripes with
  | [] => True
  | s :: rest => stripe_y s = y /\ stacked (y + stripe_h s) rest
  end.

Definition totalHeight (stripes : list stripeInfo) : Z :=
  fold_right (fun s acc => stripe_h s + acc) 0 stripes.

(** The running values of the scan of [analyzeBlock] stay ordered: the
    border and inner bounds lie within the total bounds once they are set. *)
Definition scanOrdered (s : blockScan) : Prop :=
  0 <= count s /\
  (count s = 0 -> minL s = 255 /\ maxL s = 0) /\
  (0 < count s -> 0 <= minL s <= maxL s /\ maxL s <= 255) /\
  (if haveBorder s
   then 0 < count s /\ minL s <= minLBorder s <= maxLBorder s /\ maxLBorder s <= maxL s
   else minLBorder s = 255 /\ maxLBorder s = 0) /\
  (if haveInner s
   then 0 < count s /\ minL s <= minLInner s <= maxLInner s /\ maxLInner s <= maxL s
   else minLInner s = 255 /\ maxLInner s = 0).

(* ------------------------------------------------------------------------- *)
(** ** Rectangles of jobs *)

(** The pixel [(px, py)] lies in the rectangle [(x, y, w, h)]. *)
Definition inRegion (x y w h : Z) (px py : Z) : bool :=
  (x <=? px) && (px <? x + w) && (y <=? py) && (py <? y + h).

Definition jobCovers (px py : Z) (job : leafJob) : bool :=
  inRegion (job_x job) (job_y job) (job_w job) (job_h job) px py.

(** How many jobs of the list cover the pixel. *)
Definition coverCount (px py : Z) (jobs : list leafJob) : nat :=
  length (filter (jobCovers px py) jobs).

(** The job painted last over the pixel: the last job of the list whose
    rectangle covers it. *)
Fixpoint topJob (px py : Z) (jobs : list leafJob) : option leafJob :=
  match jobs with
  | [] => None
  | job :: rest =>
      match topJob px py rest with
      | Some j => Some j
      | None => if jobCovers px py job then Some job else None
      end
  end.

(* ------------------------------------------------------------------------- *)
(** ** The block measures of the first format *)

(** The first copy of the codec in the source file measures a block with two
    separate scans; they are kept under [V1]. *)
Module V1.

(** One iteration of the inner loop of [gradEnergy]: the running
    [(minL, maxL)]. *)
Definition lumaStep (img : image.RGBA) (x y yy : Z) (st : Z * Z) (xx : Z) : Z * Z :=
  let px := x + xx in
  let py := y + yy in
  let b := image.Bounds img in
  if (px <? image.X (image.Min b)) || (py <? image.Y (image.Min b))
     || (image.X (image.Max b) <=? px) || (image.Y (image.Max b) <=? py)
  then st
  else
    let c := image.RGBAAt img px py in
    let l := luma c in
    ((if l <? fst st then l else fst st), (if snd st <? l then l else snd st)).

Definition gradEnergy (img : image.RGBA) (x y w h : Z) : Z :=
  let st :=
    fold_left (fun st yy => fold_left (lumaStep img x y yy) (zrange w) st)
              (zrange h) (255, 0) in
  if snd st <? fst st then 0 else snd st - fst st.

(** One iteration of the inner loop of [computeLeafColor]: the running
    [(sumR, sumG, sumB, count)]. *)
Definition sumStep (img : image.RGBA) (x y yy : Z) (st : Z * Z * Z * Z) (xx : Z)
  : Z * Z * Z * Z :=
  let px := x + xx in
  let py := y + yy in
  let b := image.Bounds img in
  if (px <? image.X (image.Min b)) || (py <? image.Y (image.Min b))
     || (image.X (image.Max b) <=? px) || (image.Y (image.Max b) <=? py)
  then st
  else
    let c := image.RGBAAt img px py in
    let '(sumR, sumG, sumB, count) := st in
    (sumR + b2z (color.R c), sumG + b2z (color.G c), sumB + b2z (color.B c), count + 1).

Definition computeLeafColor (img : image.RGBA) (x y w h : Z) : color.RGBA :=
  let '(sumR, sumG, sumB, count) :=
    fold_left (fun st yy => fold_left (sumStep img x y yy) (zrange w) st)
              (zrange h) (0, 0, 0, 0) in
  if count =? 0 then color.mk x00 x00 x00 xff
  else color.mk (z2b (sumR ÷ count)) (z2b (sumG ÷ count)) (z2b (sumB ÷ count)) xff.

(** The map [m] of [buildPalette] (exact color key to palette index), as the
    list of its assignments, newest first. *)
Definition lookupKey (m : list (Z * Z)) (k : Z) : option Z :=
  match find (fun kv => fst kv =? k) m with
  | Some kv => Some (snd kv)
  | None => None
  end.

(** The loop of [buildPalette]; [indexPairs] holds the entries written so
    far. *)
Fixpoint buildPaletteFrom (params : codec2Params) (leaves : list leafColor)
  (palette : list color.RGBA) (m : list (Z * Z)) (indexPairs : list Z)
  : result (list color.RGBA * list Z) :=
  match leaves with
  | [] => Ok (palette, indexPairs)
  | lf :: rest =>
      let k := rgbKey (leaf_c lf) in
      match lookupKey m k with
      | Some idx => buildPaletteFrom params rest palette m (indexPairs ++ [idx])
      | None =>
          let found := findClose (leaf_c lf) palette (colorTol params) 0 in
          if 0 <=? found
          then
            let idx := GoInt.uint16 found in
            buildPaletteFrom params rest palette ((k, idx) :: m) (indexPairs ++ [idx])
          else
            if 65535 <=? len palette
            then Err (Errorf "palette too large")
            else
              let idx := GoInt.uint16 (len palette) in
              buildPaletteFrom params rest (palette ++ [leaf_c lf]) ((k, idx) :: m)
                               (indexPairs ++ [idx])
      end
  end.

Definition buildPalette (leaves : list leafColor) (params : codec2Params)
  : result (list color.RGBA * list Z) :=
  buildPaletteFrom params leaves [] [] [].

End V1.

(* ------------------------------------------------------------------------- *)
(** ** Blocks of the decoded raster *)

(** The average color [analyzeBlock] finds in the rectangle of a job. *)
Definition blockAvg (img : image.RGBA) (job : leafJob) : color.RGBA :=
  let '(_, _, _, avg) :=
    analyzeBlock img (job_x job) (job_y job) (job_w job) (job_h job) in
  avg.

(** The jobs of one tree per stripe, the leaves numbered through. *)
Fixpoint forestJobs (params : codec2Params) (w : Z) (stripes : list stripeInfo)
  (ts : list node) (ordinal : Z) : list leafJob :=
  match stripes, ts with
  | s :: stripes, t :: ts =>
      treeJobs params 0 (stripe_y s) w (stripe_h s) ordinal t
      ++ forestJobs params w stripes ts (ordinal + len (leavesOf t))
  | _, _ => []
  end.

(** Palette number and palette entry of the leaves from number [ordinal] on. *)
Fixpoint numbered (ordinal : Z) (locals : list byte) : list (Z * Z) :=
  match locals with
  | [] => []
  | l :: rest => (ordinal ÷ 256, b2z l) :: numbered (ordinal + 1) rest
  end.

(* ------------------------------------------------------------------------- *)
(** ** The one-palette builder *)

(** The inner loop of [buildPalette] over the leaves of one group.
    [indexPairs] holds the entries written so far: the loops fill the slice
    from the front, one entry per leaf. *)
Fixpoint paletteGroup (params : codec2Params) (leaves : list leafColor)
  (localColors : list color.RGBA) (localToGlobal : list Z)
  (globalPalette : list color.RGBA) (indexPairs : list Z)
  : result (list color.RGBA * list Z) :=
  match leaves with
  | [] => Ok (globalPalette, indexPairs)
  | lf :: rest =>
      let c := leaf_c lf in
      let found := findClose c localColors (colorTol params) 0 in
      if 0 <=? found
      then
        match index localToGlobal found with
        | None => Err (Panic "index out of range")
        | Some gidx =>
            paletteGroup params rest localColors localToGlobal globalPalette
                         (indexPairs ++ [gidx])
        end
      else
        if 65535 <=? len globalPalette
        then Err (Errorf "palette too large")
        else
          let gidx := GoInt.uint16 (len globalPalette) in
          paletteGroup params rest (localColors ++ [c]) (localToGlobal ++ [gidx])
                       (globalPalette ++ [c]) (indexPairs ++ [gidx])
  end.

(** The outer loop: [base] advances by the group size while it is below
    [len leaves]; [fuel] bounds the number of groups. *)
Fixpoint paletteGroups (params : codec2Params) (leaves : list leafColor) (fuel : nat)
  (base : Z) (globalPalette : list color.RGBA) (indexPairs : list Z)
  : result (list color.RGBA * list Z) :=
  match fuel with
  | O => Err OutOfFuel
  | S fuel =>
      if len leaves <=? base then Ok (globalPalette, indexPairs)
      else
        let end_ := base + 256 in
        let end_ := if len leaves <? end_ then len leaves else end_ in
        '(globalPalette, indexPairs) <-
          paletteGroup params
            (firstn (Z.to_nat (end_ - base)) (skipn (Z.to_nat base) leaves))
            [] [] globalPalette indexPairs ;;
        paletteGroups params leaves fuel (base + 256) globalPalette indexPairs
  end.

(** [buildPalette]: one global palette and 16-bit indices into it. *)
Definition buildPalette (leaves : list leafColor) (params : codec2Params)
  : result (list color.RGBA * list Z) :=
  paletteGroups params leaves (S (length leaves)) 0 [] [].

(** The index of a leaf in the glued palettes: the entry in the palette of
    its group, moved by the sizes of the palettes before it. *)
Definition globalIndices (tol : Z) (leaves : list leafColor) : list Z :=
  flat_map
    (fun k =>
       map (fun j => len (concat (firstn k (specPalettes tol leaves))) + Z.of_nat j)
           (snd (placeGroup tol [] (group leaves k))))
    (seq 0 (groupCount leaves)).

(* ------------------------------------------------------------------------- *)
(** ** Errors of the encoder, size of the decoded raster *)

(** The errors of the second pass. *)
Definition regionError (e : error) : Prop :=
  e = Errorf "encodeRegion: pattern overflow" \/
  e = Errorf "encodeRegion: leaf index overflow" \/
  e = Errorf "encodeRegion: inconsistent pattern/geometry (h1 < minBlock for internal node)".

(** The errors [Encode] returns: its palette-size guard and the errors of
    the second pass. *)
Definition encodeError (e : error) : Prop :=
  e = Errorf "_encode: palette size %d exceeds 255" \/ regionError e.

(** [Decode] allocates the raster of the header's size, four bytes per
    pixel, before it reads the payload, and the embedding takes the
    allocation to succeed.  What is stated of [Decode] on arbitrary bytes is
    stated for headers of at most [maxPixels] pixels, a raster of 64 MiB. *)
Definition maxPixels : Z := 16777216.

(** The header of [data], when it has one, announces at most [maxPixels]
    pixels. *)
Definition smallHeader (data : list byte) : Prop :=
  forall wh wl hh hl rest,
    data = magicCodec2 ++ wh :: wl :: hh :: hl :: rest ->
    (256 * b2z wh + b2z wl) * (256 * b2z hh + b2z hl) <= maxPixels.

(** A 4096 by 4096 checkerboard of black and white pixels. *)
Definition checker : image.RGBA :=
  rasterOf 4096 4096 (fun x y => if Z.even (x + y) then rgb 0 0 0 else rgb 255 255 255).

(* ========================================================================= *)
(** * Properties *)

(** [lia] after the divisions and remainders are replaced by their equations. *)
Ltac dlia := zify; Z.to_euclidean_division_equations; lia.

(* ------------------------------------------------------------------------- *)
(** ** Bytes, ranges, results *)

Lemma b2z_range (b : byte) : 0 <= b2z b < 256.
Proof.
  unfold b2z. pose proof (Byte.to_N_bounded b). lia.
Qed.

Lemma z2b_b2z (b : byte) : z2b (b2z b) = b.
Proof.
  unfold z2b, b2z, GoInt.uint8.
  pose proof (Byte.to_N_bounded b).
  rewrite Z.mod_small by lia.
  rewrite N2Z.id, Byte.of_to_N. reflexivity.
Qed.

Lemma b2z_z2b (z : Z) : 0 <= z < 256 -> b2z (z2b z) = z.
Proof.
  intros Hz. unfold z2b, b2z, GoInt.uint8.
  rewrite Z.mod_small by lia.
  destruct (Byte.of_N (Z.to_N z)) as [b|] eqn:E.
  - apply Byte.to_of_N in E. rewrite E. lia.
  - apply Byte.of_N_None_iff in E. lia.
Qed.

Lemma in_zrangeFrom (n : nat) : forall s i,
  In i (zrangeFrom s n) <-> s <= i < s + Z.of_nat n.
Proof.
  induction n as [|n IH]; intros s i; simpl.
  - lia.
  - rewrite IH. lia.
Qed.

Lemma in_zrange (n i : Z) : In i (zrange n) <-> 0 <= i < n.
Proof.
  unfold zrange. rewrite in_zrangeFrom. lia.
Qed.

Lemma zrange_nonpos (n : Z) : n <= 0 -> zrange n = [].
Proof.
  intros H. unfold zrange. replace (Z.to_nat n) with O by lia. reflexivity.
Qed.

Lemma length_zrangeFrom (n : nat) : forall s, length (zrangeFrom s n) = n.
Proof.
  induction n; intros; simpl; auto.
Qed.

Lemma luma_range (c : color.RGBA) : 0 <= luma c <= 255.
Proof.
  unfold luma.
  pose proof (b2z_range (color.R c)); pose proof (b2z_range (color.G c));
    pose proof (b2z_range (color.B c)).
  rewrite Z.quot_div_nonneg by lia.
  split.
  - apply Z.div_pos; lia.
  - apply Z.lt_succ_r. apply Z.div_lt_upper_bound; lia.
Qed.

Lemma wrap_small (bits z : Z) :
  0 < bits -> - 2 ^ (bits - 1) <= z < 2 ^ (bits - 1) -> GoInt.wrap bits z = z.
Proof.
  intros Hb Hz. unfold GoInt.wrap.
  assert (E : 2 ^ bits = 2 * 2 ^ (bits - 1)).
  { replace bits with (Z.succ (bits - 1)) at 1 by lia. apply Z.pow_succ_r. lia. }
  rewrite Z.mod_small; lia.
Qed.

Lemma mul64_small (a b : Z) :
  - 2 ^ 63 <= a * b < 2 ^ 63 -> GoInt.mul64 a b = a * b.
Proof.
  intros H. unfold GoInt.mul64. apply wrap_small; simpl; lia.
Qed.


Lemma fold_left_flat_map {A B C} (f : A -> C -> A) (g : B -> list C) (l : list B) :
  forall a, fold_left f (flat_map g l) a = fold_left (fun a x => fold_left f (g x) a) l a.
Proof.
  induction l as [|x l IH]; intros a; simpl.
  - reflexivity.
  - rewrite fold_left_app. apply IH.
Qed.

(* ------------------------------------------------------------------------- *)
(** ** Rasters *)

Lemma SetRGBA_Bounds (p : image.RGBA) (x y : Z) (c : color.RGBA) :
  image.Bounds (image.SetRGBA p x y c) = image.Bounds p.
Proof.
  unfold image.SetRGBA. destruct (image.In x y (image.Bounds p)); reflexivity.
Qed.

Lemma RGBAAt_SetRGBA (p : image.RGBA) (x y x' y' : Z) (c : color.RGBA) :
  image.RGBAAt (image.SetRGBA p x y c) x' y' =
  if (x' =? x) && (y' =? y) && image.In x y (image.Bounds p)
  then c else image.RGBAAt p x' y'.
Proof.
  unfold image.RGBAAt, image.SetRGBA.
  destruct (image.In x y (image.Bounds p)) eqn:Ein; simpl.
  - destruct ((x' =? x) && (y' =? y)) eqn:E; simpl.
    + apply andb_true_iff in E. destruct E as [E1 E2].
      apply Z.eqb_eq in E1, E2. subst. rewrite Ein. reflexivity.
    + reflexivity.
  - rewrite andb_false_r. reflexivity.
Qed.

Lemma applyWrites_Bounds (ws : list (Z * Z * color.RGBA)) : forall dst,
  image.Bounds (applyWrites dst ws) = image.Bounds dst.
Proof.
  unfold applyWrites.
  induction ws as [|[[px py] c] ws IH]; intros dst; simpl.
  - reflexivity.
  - rewrite IH. apply SetRGBA_Bounds.
Qed.

(* ------------------------------------------------------------------------- *)
(** ** Edge smoothing *)

Lemma fold_left_map_arg {A B C} (f : A -> C -> A) (g : B -> C) (l : list B) :
  forall a, fold_left f (map g l) a = fold_left (fun a x => f a (g x)) l a.
Proof.
  induction l as [|x l IH]; intros a; simpl; auto.
Qed.

Lemma fold_left_ext {A B} (f g : A -> B -> A) (l : list B) :
  (forall a x, f a x = g a x) -> forall a, fold_left f l a = fold_left g l a.
Proof.
  intros H. induction l as [|x l IH]; intros a; simpl.
  - reflexivity.
  - rewrite H. apply IH.
Qed.

Section GridFill.

Variable f : Z -> Z -> color.RGBA.

Definition put (d : image.RGBA) (p : Z * Z) : image.RGBA :=
  image.SetRGBA d (fst p) (snd p) (f (fst p) (snd p)).

Lemma fill_Bounds (L : list (Z * Z)) : forall d,
  image.Bounds (fold_left put L d) = image.Bounds d.
Proof.
  induction L as [|p L IH]; intros d; simpl.
  - reflexivity.
  - rewrite IH. apply SetRGBA_Bounds.
Qed.

Lemma fill_At_gen (L : list (Z * Z)) (x y : Z) : forall d,
  image.In x y (image.Bounds d) = true ->
  image.RGBAAt (fold_left put L d) x y =
  if existsb (fun p => (x =? fst p) && (y =? snd p)) L
  then f x y else image.RGBAAt d x y.
Proof.
  induction L as [|p L IH]; intros d Hb; simpl.
  - reflexivity.
  - rewrite IH by (unfold put; rewrite SetRGBA_Bounds; exact Hb).
    destruct (existsb _ L); [rewrite orb_true_r; reflexivity|].
    rewrite orb_false_r. unfold put. rewrite RGBAAt_SetRGBA.
    destruct ((x =? fst p) && (y =? snd p)) eqn:E; simpl; [|reflexivity].
    apply andb_true_iff in E. destruct E as [E1 E2].
    apply Z.eqb_eq in E1, E2. subst. rewrite Hb. reflexivity.
Qed.

Lemma fill_At (L : list (Z * Z)) (x y : Z) (d : image.RGBA) :
  In (x, y) L -> image.In x y (image.Bounds d) = true ->
  image.RGBAAt (fold_left put L d) x y = f x y.
Proof.
  intros Hin Hb. rewrite fill_At_gen by exact Hb.
  replace (existsb _ L) with true; [reflexivity|].
  symmetry. apply existsb_exists. exists (x, y). split; [exact Hin|].
  simpl. rewrite !Z.eqb_refl. reflexivity.
Qed.

End GridFill.

Lemma smoothEdges_grid (src : image.RGBA) (tol : Z) :
  smoothEdges src tol =
  fold_left (put (smoothPixel src tol))
    (flat_map
       (fun y => map (fun x => (x, y))
                     (map (Z.add (image.X (image.Min (image.Bounds src))))
                          (zrange (image.Dx (image.Bounds src)))))
       (map (Z.add (image.Y (image.Min (image.Bounds src))))
            (zrange (image.Dy (image.Bounds src)))))
    (image.NewRGBA (image.Bounds src)).
Proof.
  unfold smoothEdges. rewrite fold_left_flat_map.
  apply fold_left_ext. intros d y. symmetry.
  rewrite (fold_left_map_arg (put (smoothPixel src tol)) (fun x => (x, y))).
  reflexivity.
Qed.

Lemma smoothEdges_Bounds (src : image.RGBA) (tol : Z) :
  image.Bounds (smoothEdges src tol) = image.Bounds src.
Proof.
  rewrite smoothEdges_grid, fill_Bounds. reflexivity.
Qed.

Lemma smoothEdges_At (src : image.RGBA) (tol x y : Z) :
  image.In x y (image.Bounds src) = true ->
  image.RGBAAt (smoothEdges src tol) x y = smoothPixel src tol x y.
Proof.
  intros Hin. rewrite smoothEdges_grid.
  apply fill_At; [|exact Hin].
  unfold image.In in Hin. rewrite !andb_true_iff in Hin.
  destruct Hin as [[[H1 H2] H3] H4].
  apply Z.leb_le in H1, H3. apply Z.ltb_lt in H2, H4.
  apply in_flat_map. exists y. split.
  - apply in_map_iff. exists (y - image.Y (image.Min (image.Bounds src))). split; [lia|].
    apply in_zrange. unfold image.Dy. lia.
  - apply in_map_iff. exists x. split; [reflexivity|].
    apply in_map_iff. exists (x - image.X (image.Min (image.Bounds src))). split; [lia|].
    apply in_zrange. unfold image.Dx. lia.
Qed.

Lemma edgeScan_quiet (src : image.RGBA) (tol lc : Z) (ps : list (Z * Z)) :
  - 2 ^ 62 <= tol < 2 ^ 62 ->
  (forall p, In p ps -> outside (image.Bounds src) p = false ->
             Z.abs (luma (image.RGBAAt src (fst p) (snd p)) - lc) <= 2 * tol) ->
  fst (edgeScan src tol lc ps) = false.
Proof.
  intros Htol. unfold edgeScan. rewrite mul64_small by lia.
  set (st0 := (false, 0)).
  assert (Hst : fst st0 = false) by reflexivity.
  clearbody st0. revert st0 Hst.
  induction ps as [|p ps IH]; intros [edge m] Hst H; cbn [fold_left].
  - exact Hst.
  - cbn [fst] in Hst. subst edge. destruct (outside (image.Bounds src) p) eqn:Eo.
    + apply IH; [reflexivity|]. intros q Hq. apply H. right. exact Hq.
    + specialize (H p (or_introl eq_refl) Eo) as Hp.
      set (dl0 := luma (image.RGBAAt src (fst p) (snd p)) - lc) in *.
      replace (tol * 2 <? (if dl0 <? 0 then - dl0 else dl0)) with false.
      * apply IH; [reflexivity|]. intros q Hq. apply H. right. exact Hq.
      * symmetry. apply Z.ltb_ge. destruct (dl0 <? 0) eqn:E; lia.
Qed.

Lemma maxGrad_paramsForQuality (q : Z) : 1 <= maxGrad (paramsForQuality q) <= 100.
Proof.
  unfold paramsForQuality. cbn [maxGrad].
  destruct (q <? 1) eqn:E1.
  - change (100 <? 1) with false. cbn iota. lia.
  - destruct (100 <? q) eqn:E2; [lia|].
    apply Z.ltb_ge in E1, E2. lia.
Qed.

(** C8: a pixel inside the raster whose luma differs from that of each
    in-bounds neighbor by at most [2 * tol], where [tol] is the [maxGrad] of
    the decoding parameters, comes out of [smoothEdges] equal to the source
    pixel in all four channels. *)
Theorem smoothEdges_keeps_quiet_pixel (src : image.RGBA) (q x y : Z) :
  let tol := maxGrad (paramsForQuality q) in
  image.In x y (image.Bounds src) = true ->
  (forall p, In p (neigh x y) -> outside (image.Bounds src) p = false ->
             Z.abs (luma (image.RGBAAt src (fst p) (snd p))
                    - luma (image.RGBAAt src x y)) <= 2 * tol) ->
  image.RGBAAt (smoothEdges src tol) x y = image.RGBAAt src x y.
Proof.
  intros tol Hin Hq.
  rewrite smoothEdges_At by exact Hin.
  unfold smoothPixel.
  pose proof (maxGrad_paramsForQuality q) as Ht. fold tol in Ht.
  pose proof (edgeScan_quiet src tol (luma (image.RGBAAt src x y)) (neigh x y)
                ltac:(lia) Hq) as He.
  destruct (edgeScan src tol (luma (image.RGBAAt src x y)) (neigh x y)) as [edge maxDl].
  simpl in He. subst edge. reflexivity.
Qed.

Lemma smoothEdges_keeps_quiet_pixel_witness :
  image.RGBAAt (smoothEdges (flatImage 2 2 (rgb 200 100 50)) 51) 0 0 =
  image.RGBAAt (flatImage 2 2 (rgb 200 100 50)) 0 0.
Proof.
  apply (smoothEdges_keeps_quiet_pixel (flatImage 2 2 (rgb 200 100 50)) 50 0 0).
  - reflexivity.
  - intros p Hin Hout. simpl in Hin.
    repeat (destruct Hin as [<-|Hin];
            [first [ discriminate Hout | vm_compute; discriminate ] |]).
    contradiction.
Defined.

(* ------------------------------------------------------------------------- *)
(** ** Painting *)

Lemma jobWrites_inside (bounds : image.Rectangle) (c : color.RGBA) (job : leafJob) :
  Forall (writeInside bounds) (jobWrites bounds c job).
Proof.
  unfold jobWrites. apply Forall_forall. intros w Hw.
  apply in_flat_map in Hw. destruct Hw as [yy [_ Hw]].
  apply in_flat_map in Hw. destruct Hw as [xx [_ Hw]].
  destruct ((job_x job + xx <? image.X (image.Min bounds))
            || (job_y job + yy <? image.Y (image.Min bounds))
            || (image.X (image.Max bounds) <=? job_x job + xx)
            || (image.Y (image.Max bounds) <=? job_y job + yy)) eqn:E.
  - contradiction.
  - destruct Hw as [<-|[]]. unfold writeInside, image.In. simpl.
    rewrite !orb_false_iff in E. destruct E as [[[E1 E2] E3] E4].
    apply Z.ltb_ge in E1, E2. apply Z.leb_gt in E3, E4.
    rewrite !andb_true_iff, !Z.leb_le, !Z.ltb_lt. lia.
Qed.

Lemma workerWrites_inside (bounds : image.Rectangle) (palettes : list (list color.RGBA))
  (js : list leafJob) : forall ws,
  workerWrites bounds palettes js = Ok ws -> Forall (writeInside bounds) ws.
Proof.
  induction js as [|job js IH]; intros ws H; simpl in H.
  - inversion H. constructor.
  - destruct (jobColor palettes job) as [c|e]; simpl in H; [|discriminate].
    destruct (workerWrites bounds palettes js) as [ws'|e]; simpl in H; [|discriminate].
    inversion H. apply Forall_app. split.
    + apply jobWrites_inside.
    + apply IH. reflexivity.
Qed.

Lemma paintWrites_inside (numCPU : Z) (bounds : image.Rectangle)
  (palettes : list (list color.RGBA)) (jobs : list leafJob) (ws : list (Z * Z * color.RGBA)) :
  paintWrites numCPU bounds palettes jobs = Ok ws -> Forall (writeInside bounds) ws.
Proof.
  unfold paintWrites. destruct (len jobs =? 0).
  - intros H. inversion H. constructor.
  - generalize (jobChunks jobs
       ((len jobs + (if len jobs <? (if numCPU <? 1 then 1 else numCPU)
                     then len jobs else if numCPU <? 1 then 1 else numCPU) - 1)
        ÷ (if len jobs <? (if numCPU <? 1 then 1 else numCPU)
           then len jobs else if numCPU <? 1 then 1 else numCPU))
       (zrange (if len jobs <? (if numCPU <? 1 then 1 else numCPU)
                then len jobs else if numCPU <? 1 then 1 else numCPU))).
    intros chunks.
    assert (G : forall acc ws0, acc = Ok ws0 -> Forall (writeInside bounds) ws0 ->
              fold_left
                (fun acc js => ws <- acc ;; ws' <- workerWrites bounds palettes js ;;
                               Ok (ws ++ ws')) chunks acc = Ok ws ->
              Forall (writeInside bounds) ws).
    { induction chunks as [|js chunks IH]; intros acc ws0 Hacc Hws0 H; simpl in H.
      - rewrite Hacc in H. inversion H. subst. exact Hws0.
      - rewrite Hacc in H. simpl in H.
        destruct (workerWrites bounds palettes js) as [ws'|e] eqn:Ew; simpl in H.
        + eapply IH; [reflexivity| |exact H].
          apply Forall_app. split; [exact Hws0|].
          eapply workerWrites_inside. exact Ew.
        + exfalso. clear -H. induction chunks as [|c cs IHc]; simpl in H.
          * discriminate.
          * apply IHc. exact H. }
    intros H. eapply G; [reflexivity| |exact H]. constructor.
Qed.

Lemma bind_Ok {A B} (c : result A) (k : A -> result B) (b : B) :
  bind c k = Ok b -> exists a, c = Ok a /\ k a = Ok b.
Proof.
  destruct c as [a|e]; simpl; intros H.
  - exists a. split; [reflexivity|exact H].
  - discriminate.
Qed.

Ltac bindOk H a Ha :=
  apply bind_Ok in H; destruct H as [a [Ha H]].

Lemma decodePayload_paints (numCPU w h : Z) (params : codec2Params) (plain : list byte)
  (img : image.RGBA) :
  decodePayload numCPU w h params plain = Ok img ->
  exists palettes jobs ws,
    paintWrites numCPU (image.Rect 0 0 w h) palettes jobs = Ok ws /\
    img = smoothEdges (applyWrites (image.NewRGBA (image.Rect 0 0 w h)) ws)
                      (maxGrad params).
Proof.
  unfold decodePayload. intros H.
  destruct (len plain <? 2); [discriminate|].
  bindOk H r1 H1. destruct r1 as [numPalettes reader].
  bindOk H r2 H2. destruct r2 as [palettes reader'].
  destruct ((len plain - len reader' <? 0) || (len plain <? len plain - len reader'));
    [discriminate|].
  bindOk H r3 H3. destruct r3 as [[br lc] jobs].
  bindOk H dst H4.
  unfold paintLeafJobsParallel in H4. bindOk H4 ws H5.
  exists palettes, jobs, ws. split.
  - exact H5.
  - inversion H. inversion H4. reflexivity.
Qed.

(** C10: whenever [Decode] accepts an artifact, whatever rectangles its jobs
    carry, every [SetRGBA] call of the painting phase addresses a pixel inside
    the destination raster [0,W) x [0,H); the decoded raster is the smoothed
    result of exactly these writes. *)
Theorem Decode_paints_inside_bounds (z : Zstd) (numCPU : Z) (data : list byte)
  (img : image.RGBA) :
  Decode z numCPU data = Ok img ->
  exists W H tol palettes jobs ws,
    paintWrites numCPU (image.Rect 0 0 W H) palettes jobs = Ok ws /\
    Forall (writeInside (image.Rect 0 0 W H)) ws /\
    img = smoothEdges (applyWrites (image.NewRGBA (image.Rect 0 0 W H)) ws) tol.
Proof.
  unfold Decode. intros H.
  destruct data as [|d0 data]; [discriminate|].
  destruct (negb _); [discriminate|].
  bindOk H r1 H1. destruct r1 as [w16 r].
  bindOk H r2 H2. destruct r2 as [h16 r'].
  destruct r' as [|qByte r'']; [discriminate|].
  bindOk H plain H3.
  apply decodePayload_paints in H. destruct H as [palettes [jobs [ws [Hp Himg]]]].
  exists w16, h16, (maxGrad (paramsForQuality
                      (if 100 <? (if b2z qByte <? 1 then 1 else b2z qByte)
                       then 100 else if b2z qByte <? 1 then 1 else b2z qByte))).
  exists palettes, jobs, ws.
  split; [exact Hp|]. split; [|exact Himg].
  eapply paintWrites_inside. exact Hp.
Qed.

Lemma Decode_paints_inside_bounds_witness :
  exists img,
    Decode storeZstd 1 sampleArtifact = Ok img /\
    exists W H tol palettes jobs ws,
      paintWrites 1 (image.Rect 0 0 W H) palettes jobs = Ok ws /\
      Forall (writeInside (image.Rect 0 0 W H)) ws /\
      img = smoothEdges (applyWrites (image.NewRGBA (image.Rect 0 0 W H)) ws) tol.
Proof.
  eexists. split.
  - vm_compute. reflexivity.
  - apply (Decode_paints_inside_bounds storeZstd 1 sampleArtifact).
    vm_compute. reflexivity.
Defined.

(* ------------------------------------------------------------------------- *)
(** ** Block analysis *)

Lemma scanPixel_in_range (img : image.RGBA) (x y w h yy xx : Z) (s : blockScan) :
  scanInRange s -> scanInRange (scanPixel img x y w h yy s xx).
Proof.
  unfold scanInRange, scanPixel. intros H.
  destruct (_ || _ || _ || _); [exact H|].
  pose proof (luma_range (image.RGBAAt img (x + xx) (y + yy))) as Hl.
  set (l := luma (image.RGBAAt img (x + xx) (y + yy))) in *.
  cbn [minL maxL minLBorder maxLBorder minLInner maxLInner].
  destruct ((xx =? 0) || (yy =? 0) || (xx =? w - 1) || (yy =? h - 1));
    repeat match goal with
           | |- context [if ?b then _ else _] => destruct b
           end; lia.
Qed.

Lemma scanBlock_in_range (img : image.RGBA) (x y w h : Z) :
  scanInRange (scanBlock img x y w h).
Proof.
  unfold scanBlock.
  assert (H0 : scanInRange scan0) by (unfold scanInRange, scan0; simpl; lia).
  revert H0. generalize scan0. generalize (zrange h) as rows.
  induction rows as [|yy rows IH]; intros s Hs; simpl.
  - exact Hs.
  - apply IH. revert s Hs. generalize (zrange w) as cols.
    induction cols as [|xx cols IHc]; intros s Hs; simpl.
    + exact Hs.
    + apply IHc. apply scanPixel_in_range. exact Hs.
Qed.

Lemma analyzeBlock_ranges (img : image.RGBA) (x y w h : Z) :
  forall energy borderEnergy innerEnergy avg,
  analyzeBlock img x y w h = (energy, borderEnergy, innerEnergy, avg) ->
  -255 <= energy <= 255 /\ -255 <= borderEnergy <= 255 /\ -255 <= innerEnergy <= 255.
Proof.
  intros energy be ie avg. unfold analyzeBlock.
  pose proof (scanBlock_in_range img x y w h) as H. unfold scanInRange in H.
  destruct (count (scanBlock img x y w h) =? 0).
  - intros E. inversion E. lia.
  - intros E. inversion E.
    destruct (haveBorder _), (haveInner _); lia.
Qed.

Lemma scanBlock_empty (img : image.RGBA) (x y w h : Z) :
  w <= 0 \/ h <= 0 -> scanBlock img x y w h = scan0.
Proof.
  unfold scanBlock. intros [Hw|Hh].
  - rewrite (zrange_nonpos w Hw). simpl.
    generalize scan0. induction (zrange h) as [|yy rows IH]; intros s; simpl; auto.
  - rewrite (zrange_nonpos h Hh). reflexivity.
Qed.

Lemma analyzeBlock_empty (img : image.RGBA) (x y w h : Z) :
  w <= 0 \/ h <= 0 -> fst (fst (fst (analyzeBlock img x y w h))) = 0.
Proof.
  intros H. unfold analyzeBlock. rewrite scanBlock_empty by exact H. reflexivity.
Qed.

Lemma analyzeBlock_single (img : image.RGBA) (x y : Z) :
  fst (fst (fst (analyzeBlock img x y 1 1))) = 0.
Proof.
  unfold analyzeBlock, scanBlock.
  change (zrange 1) with [0]. cbn [fold_left].
  unfold scanPixel.
  destruct (_ || _ || _ || _); [reflexivity|].
  pose proof (luma_range (image.RGBAAt img (x + 0) (y + 0))) as Hl.
  set (l := luma (image.RGBAAt img (x + 0) (y + 0))) in *.
  cbn [count minL maxL scan0 haveBorder haveInner].
  change (0 + 1 =? 0) with false. cbn iota. cbn [fst].
  destruct (l <? 255) eqn:E1; destruct (0 <? l) eqn:E2;
    try apply Z.ltb_ge in E1; try apply Z.ltb_ge in E2; lia.
Qed.

(** A region with luma spread holds at least two pixels. *)
Lemma energy_needs_two_pixels (img : image.RGBA) (x y w h : Z) :
  fst (fst (fst (analyzeBlock img x y w h))) <> 0 ->
  1 <= w /\ 1 <= h /\ 3 <= w + h.
Proof.
  intros H.
  assert (Hw : 1 <= w).
  { destruct (Z_le_gt_dec w 0) as [Hw|Hw]; [|lia].
    exfalso. apply H. apply analyzeBlock_empty. left. exact Hw. }
  assert (Hh : 1 <= h).
  { destruct (Z_le_gt_dec h 0) as [Hh|Hh]; [|lia].
    exfalso. apply H. apply analyzeBlock_empty. right. exact Hh. }
  split; [exact Hw|]. split; [exact Hh|].
  destruct (Z.eq_dec w 1) as [->|]; [|lia].
  destruct (Z.eq_dec h 1) as [->|]; [|lia].
  exfalso. apply H. apply analyzeBlock_single.
Qed.

(* ------------------------------------------------------------------------- *)
(** ** The first pass terminates *)

Lemma quot2_bounds (w : Z) : 2 <= w -> 1 <= w ÷ 2 /\ w ÷ 2 < w /\ 1 <= w - w ÷ 2 < w.
Proof.
  intros H. rewrite Z.quot_div_nonneg by lia.
  pose proof (Z.div_mod w 2 ltac:(lia)).
  pose proof (Z.mod_pos_bound w 2 ltac:(lia)). lia.
Qed.

Lemma collectRegionColors_total (n : nat) :
  forall img params x y w h leaves pattern,
  (Z.to_nat w + Z.to_nat h <= S n)%nat ->
  exists r, forall fuel, (n <= fuel)%nat ->
    collectRegionColors (S fuel) img x y w h params leaves pattern = Ok r.
Proof.
  induction n as [|n IH]; intros img params x y w h leaves pattern Hn.
  - (* at most one pixel: a leaf at once *)
    assert (E0 : fst (fst (fst (analyzeBlock img x y w h))) = 0).
    { destruct (Z_le_gt_dec w 0); [apply analyzeBlock_empty; lia|].
      destruct (Z_le_gt_dec h 0); [apply analyzeBlock_empty; lia|].
      replace w with 1 by lia. replace h with 1 by lia. apply analyzeBlock_single. }
    destruct (analyzeBlock img x y w h) as [[[energy be] ie] avg] eqn:EA.
    simpl in E0. subst energy.
    exists (leaves ++ [mkLeafColor avg], pattern ++ [true]).
    intros fuel _. cbn [collectRegionColors]. rewrite EA.
    destruct ((w <=? minBlock params) && (h <=? minBlock params)); reflexivity.
  - destruct (analyzeBlock img x y w h) as [[[energy be] ie] avg] eqn:EA.
    destruct ((w <=? minBlock params) && (h <=? minBlock params)) eqn:E1.
    { exists (leaves ++ [mkLeafColor avg], pattern ++ [true]).
      intros fuel _. cbn [collectRegionColors]. rewrite EA, E1. reflexivity. }
    destruct (energy =? 0) eqn:E2.
    { exists (leaves ++ [mkLeafColor avg], pattern ++ [true]).
      intros fuel _. cbn [collectRegionColors]. rewrite EA, E1, E2. reflexivity. }
    destruct (negb (edgeDominated params w h be ie) && (energy <=? maxGrad params)
              && (w <=? GoInt.mul64 4 (minBlock params))
              && (h <=? GoInt.mul64 4 (minBlock params))) eqn:E3.
    { exists (leaves ++ [mkLeafColor avg], pattern ++ [true]).
      intros fuel _. cbn [collectRegionColors]. rewrite EA, E1, E2, E3. reflexivity. }
    assert (Hpix : 1 <= w /\ 1 <= h /\ 3 <= w + h).
    { apply (energy_needs_two_pixels img x y). rewrite EA. simpl.
      apply Z.eqb_neq. exact E2. }
    destruct Hpix as [Hw [Hh Hwh]].
    destruct ((h <=? w) && (minBlock params <=? w ÷ 2)) eqn:E4.
    + (* split by width *)
      apply andb_true_iff in E4. destruct E4 as [E4a E4b]. apply Z.leb_le in E4a.
      pose proof (quot2_bounds w ltac:(lia)) as Hq.
      destruct (IH img params x y (w ÷ 2) h leaves (pattern ++ [false]) ltac:(lia))
        as [[leaves1 pattern1] H1].
      destruct (IH img params (x + w ÷ 2) y (w - w ÷ 2) h leaves1 pattern1 ltac:(lia))
        as [r2 H2].
      exists r2. intros fuel Hf.
      cbn [collectRegionColors]. rewrite EA, E1, E2, E3.
      apply Z.leb_le in E4a. rewrite E4a, E4b. cbn [andb].
      destruct fuel as [|fuel]; [lia|].
      rewrite (H1 fuel) by lia. cbn [bind]. apply H2. lia.
    + destruct (h ÷ 2 <? minBlock params) eqn:E5.
      * exists (leaves ++ [mkLeafColor avg], pattern ++ [true]).
        intros fuel _. cbn [collectRegionColors]. rewrite EA, E1, E2, E3, E4, E5.
        reflexivity.
      * assert (Hh2 : 2 <= h).
        { apply Z.ltb_ge in E5.
          destruct (Z.eq_dec h 1) as [->|]; [|lia].
          change (1 ÷ 2) with 0 in E5.
          pose proof (Z.quot_pos w 2 ltac:(lia) ltac:(lia)).
          apply andb_false_iff in E4. destruct E4 as [E4|E4]; apply Z.leb_gt in E4; lia. }
        pose proof (quot2_bounds h Hh2) as Hq.
        destruct (IH img params x y w (h ÷ 2) leaves (pattern ++ [false]) ltac:(lia))
          as [[leaves1 pattern1] H1].
        destruct (IH img params x (y + h ÷ 2) w (h - h ÷ 2) leaves1 pattern1 ltac:(lia))
          as [r2 H2].
        exists r2. intros fuel Hf.
        cbn [collectRegionColors]. rewrite EA, E1, E2, E3, E4, E5.
        destruct fuel as [|fuel]; [lia|].
        rewrite (H1 fuel) by lia. cbn [bind]. apply H2. lia.
Qed.

(** C7: for every region with [w >= 1] and [h >= 1] and every parameter
    record, the recursion of the classifier ends: with a recursion budget of
    [w + h] or more the first pass returns its leaves and pattern, and the
    result does not depend on the budget: no path of the recursion is
    longer than [w + h] nested calls. *)
Theorem collectRegionColors_terminates (img : image.RGBA) (params : codec2Params)
  (x y w h : Z) (leaves : list leafColor) (pattern : list bool) :
  1 <= w -> 1 <= h ->
  exists leaves' pattern', forall fuel, (Z.to_nat (w + h) <= fuel)%nat ->
    collectRegionColors fuel img x y w h params leaves pattern = Ok (leaves', pattern').
Proof.
  intros Hw Hh.
  destruct (collectRegionColors_total (Z.to_nat (w + h) - 1) img params x y w h
              leaves pattern ltac:(lia)) as [[leaves' pattern'] H].
  exists leaves', pattern'. intros fuel Hf.
  destruct fuel as [|fuel]; [lia|]. apply H. lia.
Qed.

Lemma collectRegionColors_terminates_witness :
  exists leaves' pattern', forall fuel, (Z.to_nat (2 + 2) <= fuel)%nat ->
    collectRegionColors fuel (flatImage 2 2 (rgb 200 100 50)) 0 0 2 2
                        (paramsForQuality 50) [] [] = Ok (leaves', pattern').
Proof.
  apply (collectRegionColors_terminates (flatImage 2 2 (rgb 200 100 50))
           (paramsForQuality 50) 0 0 2 2 [] []); lia.
Defined.

(* ------------------------------------------------------------------------- *)
(** ** The edge test *)





(* ------------------------------------------------------------------------- *)
(** ** The palette builder against its specification *)

Lemma len_app {A} (a b : list A) : len (a ++ b) = len a + len b.
Proof. unfold len. rewrite length_app. lia. Qed.

Lemma len_cons {A} (x : A) (l : list A) : len (x :: l) = 1 + len l.
Proof. unfold len. simpl length. lia. Qed.

Lemma len_nonneg {A} (l : list A) : 0 <= len l.
Proof. unfold len. lia. Qed.

Lemma index_app_last {A} (pre : list A) (p : A) : index (pre ++ [p]) (len pre) = Some p.
Proof.
  unfold index, len. replace (Z.of_nat (length pre) <? 0) with false by lia.
  rewrite Nat2Z.id, nth_error_app2, Nat.sub_diag by lia. reflexivity.
Qed.

Lemma setIndex_app_last {A} (pre : list A) (p p' : A) :
  setIndex (pre ++ [p]) (len pre) p' = pre ++ [p'].
Proof.
  unfold setIndex, len. rewrite Nat2Z.id.
  rewrite firstn_app, Nat.sub_diag, firstn_all. simpl firstn. rewrite app_nil_r.
  rewrite skipn_all2 by (rewrite length_app; simpl; lia). reflexivity.
Qed.

Lemma closeColor_within (a b : color.RGBA) (tol : Z) : closeColor a b tol = within tol a b.
Proof.
  unfold closeColor, within.
  repeat match goal with
         | |- context [if ?d <? 0 then - ?d else ?d] =>
             replace (if d <? 0 then - d else d) with (Z.abs d)
               by (destruct (d <? 0) eqn:E; lia)
         end.
  reflexivity.
Qed.

Lemma findClose_firstWithin (lc : color.RGBA) (tol : Z) (pal : list color.RGBA) :
  forall j, findClose lc pal tol j =
            match firstWithin tol lc pal with
            | Some k => j + Z.of_nat k
            | None => -1
            end.
Proof.
  induction pal as [|pc pal IH]; intros j; simpl.
  - reflexivity.
  - rewrite closeColor_within. destruct (within tol lc pc).
    + simpl. lia.
    + rewrite IH. destruct (firstWithin tol lc pal); simpl; lia.
Qed.

Lemma firstWithin_lt (tol : Z) (lc : color.RGBA) (pal : list color.RGBA) :
  forall k, firstWithin tol lc pal = Some k -> (k < length pal)%nat.
Proof.
  induction pal as [|pc pal IH]; intros k; simpl.
  - discriminate.
  - destruct (within tol lc pc).
    + intros E. inversion E. lia.
    + destruct (firstWithin tol lc pal) as [k'|]; simpl; [|discriminate].
      intros E. inversion E. specialize (IH k' eq_refl). lia.
Qed.

Lemma buildPalettesFrom_cons (params : codec2Params) (i : Z) (lf : leafColor)
  (rest : list leafColor) (pals : list palette) (curPalID : Z) (refs : list leafRef) :
  buildPalettesFrom params i (lf :: rest) pals curPalID refs =
  let '(pals, curPalID) :=
    if (0 <? i) && (Z.rem i 256 =? 0)
    then (pals ++ [mkPalette []], curPalID + 1)
    else (pals, curPalID) in
  match index pals curPalID with
  | None => Err (Panic "index out of range")
  | Some p =>
      let found := findClose (leaf_c lf) (pal_colors p) (colorTol params) 0 in
      if found <? 0
      then
        if 256 <=? len (pal_colors p)
        then Err (Errorf "buildPalettes: palette %d exceeded 256 colors")
        else
          let p := mkPalette (pal_colors p ++ [leaf_c lf]) in
          let pals := setIndex pals curPalID p in
          let found := len (pal_colors p) - 1 in
          buildPalettesFrom params (i + 1) rest pals curPalID
            (refs ++ [mkLeafRef (GoInt.uint16 curPalID) (z2b found)])
      else
        buildPalettesFrom params (i + 1) rest pals curPalID
          (refs ++ [mkLeafRef (GoInt.uint16 curPalID) (z2b found)])
  end.
Proof. reflexivity. Qed.

(** A run of leaves that stays inside the current group. *)
Lemma run_in_group (params : codec2Params) (g : list leafColor) :
  forall q r P pre refs rest,
  0 <= q -> 0 <= r -> (r = 0 -> q = 0) -> r + len g <= 256 -> len P <= r ->
  buildPalettesFrom params (256 * q + r) (g ++ rest) (pre ++ [mkPalette P]) (len pre) refs =
  buildPalettesFrom params (256 * q + r + len g) rest
    (pre ++ [mkPalette (fst (placeGroup (colorTol params) P g))]) (len pre)
    (refs ++ map (fun j => storedRef (length pre, j))
                 (snd (placeGroup (colorTol params) P g))).
Proof.
  induction g as [|lf g IH]; intros q r P pre refs rest Hq Hr Hr0 Hg HP.
  - simpl. rewrite app_nil_r. f_equal. unfold len. simpl. lia.
  - rewrite len_cons in Hg. pose proof (len_nonneg g) as Hg0.
    simpl app. rewrite buildPalettesFrom_cons.
    replace ((0 <? 256 * q + r) && (Z.rem (256 * q + r) 256 =? 0)) with false.
    2:{ symmetry. apply andb_false_iff.
        destruct (Z.eq_dec r 0) as [->|Hne].
        - left. rewrite (Hr0 eq_refl). reflexivity.
        - right. apply Z.eqb_neq. dlia. }
    rewrite index_app_last. cbn [pal_colors].
    rewrite findClose_firstWithin. cbn [placeGroup].
    destruct (firstWithin (colorTol params) (leaf_c lf) P) as [k|] eqn:Ek.
    + replace (0 + Z.of_nat k <? 0) with false by lia.
      replace (256 * q + r + 1) with (256 * q + (r + 1)) by lia.
      rewrite IH by lia.
      destruct (placeGroup (colorTol params) P g) as [P' ixs] eqn:Epg. cbn [fst snd map].
      rewrite <- app_assoc. cbn [app]. rewrite len_cons.
      replace (256 * q + (r + 1) + len g) with (256 * q + r + (1 + len g)) by lia.
      reflexivity.
    + change (-1 <? 0) with true. cbn iota.
      replace (256 <=? len P) with false by lia.
      rewrite setIndex_app_last.
      replace (256 * q + r + 1) with (256 * q + (r + 1)) by lia.
      rewrite IH by (try rewrite len_app; unfold len in *; simpl length in *; lia).
      destruct (placeGroup (colorTol params) (P ++ [leaf_c lf]) g) as [P' ixs] eqn:Epg.
      cbn [fst snd map pal_colors].
      rewrite <- app_assoc. cbn [app]. rewrite len_cons.
      replace (256 * q + (r + 1) + len g) with (256 * q + r + (1 + len g)) by lia.
      replace (len (P ++ [leaf_c lf]) - 1) with (Z.of_nat (length P))
        by (rewrite len_app; unfold len; simpl; lia).
      reflexivity.
Qed.

Lemma group_step (params : codec2Params) (lf : leafColor) (g rest : list leafColor)
  (pre actual : list palette) (cur i : Z) (refs : list leafRef) :
  len (lf :: g) <= 256 ->
  groupStart pre actual cur i ->
  buildPalettesFrom params i ((lf :: g) ++ rest) actual cur refs =
  buildPalettesFrom params (i + len (lf :: g)) rest
    (pre ++ [mkPalette (fst (placeGroup (colorTol params) [] (lf :: g)))]) (len pre)
    (refs ++ map (fun j => storedRef (length pre, j))
                 (snd (placeGroup (colorTol params) [] (lf :: g)))).
Proof.
  intros Hg [[-> [-> [-> ->]]]|[Hpre [-> [-> ->]]]].
  - pose proof (run_in_group params (lf :: g) 0 0 [] [] refs rest) as H.
    cbn [app] in H. apply H; try lia. reflexivity.
  - rewrite len_cons in Hg. pose proof (len_nonneg g).
    cbn [app]. rewrite buildPalettesFrom_cons.
    replace ((0 <? 256 * len pre) && (Z.rem (256 * len pre) 256 =? 0)) with true.
    2:{ symmetry. apply andb_true_iff. split; [lia|]. apply Z.eqb_eq. dlia. }
    replace (len pre - 1 + 1) with (len pre) by lia.
    rewrite index_app_last. cbn [pal_colors findClose].
    change (-1 <? 0) with true. cbn iota.
    change (256 <=? len (@nil color.RGBA)) with false. cbn iota.
    rewrite setIndex_app_last. cbn [app].
    pose proof (run_in_group params g (len pre) 1 [leaf_c lf] pre
                  (refs ++ [mkLeafRef (GoInt.uint16 (len pre)) (z2b (len [leaf_c lf] - 1))])
                  rest) as Hrun.
    rewrite Hrun; [| lia | lia | lia | lia | unfold len; simpl; lia].
    change (len [leaf_c lf] - 1) with 0.
    cbn [placeGroup firstWithin app].
    destruct (placeGroup (colorTol params) [leaf_c lf] g) as [P' ixs].
    cbn [fst snd map length]. rewrite <- app_assoc. cbn [app]. rewrite len_cons.
    replace (256 * len pre + 1 + len g) with (256 * len pre + (1 + len g)) by lia.
    reflexivity.
Qed.

Lemma groupCount_S (L : list leafColor) (m : nat) :
  groupCount L = S m ->
  exists lf g, firstn 256 L = lf :: g /\ len (lf :: g) <= 256 /\
               groupCount (skipn 256 L) = m /\
               (m <> O -> len (lf :: g) = 256).
Proof.
  unfold groupCount, len. intros H.
  destruct (firstn 256 L) as [|lf g] eqn:E.
  - exfalso. assert (Hl : length (firstn 256 L) = O) by (rewrite E; reflexivity).
    rewrite length_firstn in Hl. dlia.
  - exists lf, g. split; [reflexivity|].
    assert (Hl : length (firstn 256 L) = length (lf :: g)) by (rewrite E; reflexivity).
    rewrite length_firstn in Hl. rewrite length_skipn.
    split; [dlia|]. split; [dlia|]. intros Hm. dlia.
Qed.

Lemma group_O (L : list leafColor) : group L 0 = firstn 256 L.
Proof. reflexivity. Qed.

Lemma group_S (L : list leafColor) (k : nat) : group L (S k) = group (skipn 256 L) k.
Proof.
  unfold group. rewrite skipn_skipn. do 2 f_equal. lia.
Qed.

Lemma groupStart_index (pre actual : list palette) (cur i : Z) :
  groupStart pre actual cur i -> i = 256 * len pre.
Proof.
  intros [[-> [_ [_ ->]]]|[_ [_ [_ ->]]]]; reflexivity.
Qed.

Lemma flat_map_map_arg {A B C} (f : B -> list C) (g : A -> B) (l : list A) :
  flat_map f (map g l) = flat_map (fun x => f (g x)) l.
Proof.
  induction l as [|x l IH]; simpl; [reflexivity|]. rewrite IH. reflexivity.
Qed.

Lemma map_flat_map_out {A B C} (f : B -> C) (g : A -> list B) (l : list A) :
  map f (flat_map g l) = flat_map (fun x => map f (g x)) l.
Proof.
  induction l as [|x l IH]; simpl; [reflexivity|]. rewrite map_app, IH. reflexivity.
Qed.

Lemma groupCount_O (L : list leafColor) : groupCount L = O -> L = [].
Proof.
  unfold groupCount, len. intros H. destruct L as [|x L]; [reflexivity|].
  simpl length in H. exfalso. dlia.
Qed.

Section AllGroups.

Variable params : codec2Params.

Let palOf (L : list leafColor) (k : nat) : palette :=
  mkPalette (fst (placeGroup (colorTol params) [] (group L k))).

Let refsOf (L : list leafColor) (base k : nat) : list leafRef :=
  map (fun j => storedRef ((base + k)%nat, j))
      (snd (placeGroup (colorTol params) [] (group L k))).

Lemma all_groups (m : nat) :
  forall L pre actual cur i refs,
  groupCount L = S m ->
  groupStart pre actual cur i ->
  buildPalettesFrom params i L actual cur refs =
  Ok (pre ++ map (palOf L) (seq 0 (S m)),
      refs ++ flat_map (refsOf L (length pre)) (seq 0 (S m))).
Proof.
  induction m as [|m IH]; intros L pre actual cur i refs Hm Hst.
  - destruct (groupCount_S L _ Hm) as [lf [g [Eg [Hlen [Hrest _]]]]].
    apply groupCount_O in Hrest.
    rewrite <- (firstn_skipn 256 L) at 1. rewrite Eg, Hrest.
    rewrite (group_step params lf g [] pre actual cur i refs Hlen Hst).
    cbn [buildPalettesFrom seq map flat_map]. unfold palOf, refsOf.
    rewrite group_O, Eg, Nat.add_0_r, app_nil_r. reflexivity.
  - destruct (groupCount_S L _ Hm) as [lf [g [Eg [Hlen [Hrest Hfull]]]]].
    specialize (Hfull ltac:(discriminate)).
    pose proof (groupStart_index _ _ _ _ Hst) as Hi.
    rewrite <- (firstn_skipn 256 L) at 1. rewrite Eg.
    rewrite (group_step params lf g (skipn 256 L) pre actual cur i refs Hlen Hst).
    rewrite (IH (skipn 256 L)
                (pre ++ [mkPalette (fst (placeGroup (colorTol params) [] (lf :: g)))]));
      [|exact Hrest|].
    2:{ right. rewrite !len_app. unfold len in *. simpl length in *.
        repeat split; lia. }
    f_equal. f_equal.
    + rewrite <- app_assoc. cbn [app]. f_equal.
      change (seq 0 (S (S m))) with (0%nat :: seq 1 (S m)).
      rewrite <- seq_shift. cbn [map]. rewrite map_map. f_equal.
      * unfold palOf. rewrite group_O, Eg. reflexivity.
      * apply map_ext. intros k. unfold palOf. rewrite group_S. reflexivity.
    + rewrite <- app_assoc. f_equal.
      change (seq 0 (S (S m))) with (0%nat :: seq 1 (S m)).
      rewrite <- seq_shift. cbn [flat_map]. rewrite flat_map_map_arg. f_equal.
      * unfold refsOf. rewrite group_O, Eg, Nat.add_0_r. reflexivity.
      * apply flat_map_ext. intros k. unfold refsOf. rewrite group_S.
        rewrite length_app. simpl length.
        replace (length pre + 1 + k)%nat with (length pre + S k)%nat by lia.
        reflexivity.
Qed.

(** The code computes what the specification words: one palette per group
    of 256 consecutive leaves, filled by first match or append. *)
Lemma buildPalettes_spec (leaves : list leafColor) :
  buildPalettes leaves params =
  Ok (map mkPalette (specPalettes (colorTol params) leaves),
      map storedRef (specRefs (colorTol params) leaves)).
Proof.
  unfold buildPalettes, specPalettes, specRefs.
  destruct (groupCount leaves) as [|m] eqn:Em.
  - rewrite (groupCount_O leaves Em). reflexivity.
  - destruct leaves as [|lf rest]; [discriminate|].
    rewrite (all_groups m (lf :: rest) [] [mkPalette []] 0 0 [] Em).
    2:{ left. repeat split; reflexivity. }
    cbn [app]. f_equal. f_equal.
    + rewrite map_map. reflexivity.
    + rewrite map_flat_map_out.
      apply flat_map_ext. intros k. unfold refsOf. rewrite map_map. reflexivity.
Qed.

End AllGroups.

Lemma placeGroup_facts (tol : Z) (g : list leafColor) :
  forall P,
  length (snd (placeGroup tol P g)) = length g /\
  (exists ext, fst (placeGroup tol P g) = P ++ ext /\ (length ext <= length g)%nat) /\
  Forall (fun j => (j < length (fst (placeGroup tol P g)))%nat) (snd (placeGroup tol P g)).
Proof.
  induction g as [|lf g IH]; intros P; cbn [placeGroup].
  - simpl. split; [reflexivity|]. split; [|constructor].
    exists []. rewrite app_nil_r. split; [reflexivity|]. simpl. lia.
  - destruct (firstWithin tol (leaf_c lf) P) as [j|] eqn:Ej.
    + destruct (IH P) as [H1 [[ext [H2 H3]] H4]].
      destruct (placeGroup tol P g) as [P' ixs]. cbn [fst snd] in *.
      split; [simpl; lia|]. split.
      * exists ext. split; [exact H2|]. simpl. lia.
      * constructor; [|exact H4].
        apply firstWithin_lt in Ej. rewrite H2, length_app. lia.
    + destruct (IH (P ++ [leaf_c lf])) as [H1 [[ext [H2 H3]] H4]].
      destruct (placeGroup tol (P ++ [leaf_c lf]) g) as [P' ixs]. cbn [fst snd] in *.
      split; [simpl; lia|]. split.
      * exists (leaf_c lf :: ext). split; [rewrite H2, <- app_assoc; reflexivity|].
        simpl. lia.
      * constructor; [|exact H4]. rewrite H2, !length_app. simpl. lia.
Qed.

Lemma group_length (L : list leafColor) (k : nat) :
  length (group L k) = Nat.min 256 (length L - 256 * k).
Proof.
  unfold group. rewrite length_firstn, length_skipn. reflexivity.
Qed.

(** Blocks of 256 glued in order: entry [256 q + r] lies in block [q]. *)
Lemma nth_error_blocks {A} (m : nat) :
  forall (R : nat -> list A) (q r : nat),
  (forall k, (S k < m)%nat -> length (R k) = 256%nat) ->
  (q < m)%nat -> (r < 256)%nat ->
  nth_error (flat_map R (seq 0 m)) (256 * q + r) = nth_error (R q) r.
Proof.
  induction m as [|m IH]; intros R q r Hfull Hq Hr; [lia|].
  change (seq 0 (S m)) with (0%nat :: seq 1 m). rewrite <- seq_shift.
  cbn [flat_map]. rewrite flat_map_map_arg.
  destruct q as [|q].
  - replace (256 * 0 + r)%nat with r by lia.
    destruct m as [|m].
    + simpl. rewrite app_nil_r. reflexivity.
    + destruct (Nat.lt_ge_cases r (length (R 0%nat))) as [Hlt|Hge].
      * apply nth_error_app1. exact Hlt.
      * rewrite (Hfull 0%nat) in Hge by lia. lia.
  - rewrite nth_error_app2 by (rewrite (Hfull 0%nat) by lia; lia).
    rewrite (Hfull 0%nat) by lia.
    replace (256 * S q + r - 256)%nat with (256 * q + r)%nat by lia.
    apply (IH (fun x => R (S x))); [|lia|exact Hr].
    intros k Hk. apply Hfull. lia.
Qed.

Lemma length_flat_map_blocks {A} (m : nat) :
  forall (R : nat -> list A),
  length (flat_map R (seq 0 m)) = fold_right (fun k acc => (length (R k) + acc)%nat) O (seq 0 m).
Proof.
  intros R. induction (seq 0 m) as [|k l IH]; simpl; [reflexivity|].
  rewrite length_app, IH. reflexivity.
Qed.

Lemma nth_error_seq0 (m q : nat) : (q < m)%nat -> nth_error (seq 0 m) q = Some q.
Proof.
  intros H. rewrite (nth_error_nth' _ O) by (rewrite length_seq; exact H).
  rewrite seq_nth by exact H. reflexivity.
Qed.

Lemma groupCount_bounds (L : list leafColor) (q r : nat) :
  (r < 256)%nat -> (256 * q + r < length L)%nat -> (q < groupCount L)%nat.
Proof.
  unfold groupCount, len. intros Hr H. dlia.
Qed.

Lemma group_full (L : list leafColor) (k : nat) :
  (S k < groupCount L)%nat -> length (group L k) = 256%nat.
Proof.
  unfold groupCount, len. rewrite group_length. intros H. dlia.
Qed.

Lemma specPalettes_length (tol : Z) (L : list leafColor) :
  length (specPalettes tol L) = groupCount L.
Proof.
  unfold specPalettes. rewrite length_map, length_seq. reflexivity.
Qed.

Lemma specPalettes_nth (tol : Z) (L : list leafColor) (q : nat) :
  (q < groupCount L)%nat ->
  nth_error (specPalettes tol L) q = Some (fst (placeGroup tol [] (group L q))).
Proof.
  intros H. unfold specPalettes.
  rewrite nth_error_map, nth_error_seq0 by exact H. reflexivity.
Qed.

Lemma specPalettes_small (tol : Z) (L : list leafColor) :
  Forall (fun p => (length p <= 256)%nat) (specPalettes tol L).
Proof.
  unfold specPalettes. apply Forall_forall. intros p Hp.
  apply in_map_iff in Hp. destruct Hp as [k [<- _]].
  destruct (placeGroup_facts tol (group L k) []) as [_ [[ext [-> Hext]] _]].
  simpl. rewrite group_length in Hext. lia.
Qed.

(** Leaf number [256 q + r] refers to entry [j] of palette [q], and the
    entry exists. *)
Lemma specRefs_nth (tol : Z) (L : list leafColor) (q r : nat) :
  (r < 256)%nat -> (256 * q + r < length L)%nat ->
  exists j,
    nth_error (specRefs tol L) (256 * q + r) = Some (q, j) /\
    nth_error (snd (placeGroup tol [] (group L q))) r = Some j /\
    (j < length (fst (placeGroup tol [] (group L q))))%nat.
Proof.
  intros Hr Hi. pose proof (groupCount_bounds L q r Hr Hi) as Hq.
  unfold specRefs.
  rewrite nth_error_blocks; [| |exact Hq|exact Hr].
  2:{ intros k Hk. rewrite length_map.
      destruct (placeGroup_facts tol (group L k) []) as [-> _].
      apply group_full. exact Hk. }
  destruct (placeGroup_facts tol (group L q) []) as [Hlen [_ Hall]].
  assert (Hrl : (r < length (snd (placeGroup tol [] (group L q))))%nat).
  { rewrite Hlen, group_length. lia. }
  destruct (nth_error (snd (placeGroup tol [] (group L q))) r) as [j|] eqn:Ej.
  2:{ apply nth_error_None in Ej. lia. }
  exists j. rewrite nth_error_map, Ej. split; [reflexivity|]. split; [reflexivity|].
  rewrite Forall_forall in Hall. apply Hall. eapply nth_error_In. exact Ej.
Qed.

Lemma specRefs_length (tol : Z) (L : list leafColor) :
  length (specRefs tol L) = length L.
Proof.
  destruct (Nat.lt_trichotomy (length (specRefs tol L)) (length L)) as [H|[H|H]];
    [|exact H|].
  - exfalso.
    set (i := length (specRefs tol L)) in *.
    assert (E : nth_error (specRefs tol L) i = None) by (apply nth_error_None; lia).
    destruct (specRefs_nth tol L (Z.to_nat (Z.of_nat i / 256)) (Z.to_nat (Z.of_nat i mod 256)))
      as [j [Hj _]]; [dlia|dlia|].
    replace (256 * Z.to_nat (Z.of_nat i / 256) + Z.to_nat (Z.of_nat i mod 256))%nat
      with i in Hj by dlia.
    congruence.
  - exfalso.
    (* every entry comes from a leaf of some group *)
    assert (G : forall m, (m <= groupCount L)%nat ->
              (length (flat_map (fun k => map (pair k) (snd (placeGroup tol [] (group L k))))
                                (seq 0 m)) <= Nat.min (length L) (256 * m))%nat).
    { induction m as [|m IH]; intros Hm; [simpl; lia|].
      rewrite seq_S, flat_map_app, length_app. cbn [flat_map]. rewrite app_nil_r.
      rewrite length_map. simpl Nat.add.
      destruct (placeGroup_facts tol (group L m) []) as [-> _].
      rewrite group_length. specialize (IH ltac:(lia)). lia. }
    specialize (G (groupCount L) (le_n _)). unfold specRefs in H. lia.
Qed.

Lemma index_nth_error {A} (l : list A) (i : Z) :
  0 <= i -> index l i = nth_error l (Z.to_nat i).
Proof.
  intros H. unfold index. replace (i <? 0) with false by lia. reflexivity.
Qed.

Lemma index_Some_lt {A} (l : list A) (i : Z) (a : A) :
  index l i = Some a -> 0 <= i < len l.
Proof.
  unfold index, len. destruct (i <? 0) eqn:E; [discriminate|].
  intros H. assert (Hn : nth_error l (Z.to_nat i) <> None) by congruence.
  apply nth_error_Some in Hn. lia.
Qed.

Lemma index_lt_Some {A} (l : list A) (i : Z) :
  0 <= i < len l -> exists a, index l i = Some a.
Proof.
  unfold len. intros H. rewrite index_nth_error by lia.
  destruct (nth_error l (Z.to_nat i)) as [a|] eqn:E; [exists a; reflexivity|].
  apply nth_error_None in E. lia.
Qed.

(** What [buildPalettes] returns, leaf by leaf: leaf [i] gets entry [j] of
    the palette of its group [i / 256], and that entry exists. *)
Lemma buildPalettes_leaf (params : codec2Params) (leaves : list leafColor) (i : Z) :
  0 <= i < len leaves ->
  exists pals refs j P,
    buildPalettes leaves params = Ok (pals, refs) /\
    index refs i = Some (storedRef (Z.to_nat (i / 256), j)) /\
    index pals (i / 256) = Some (mkPalette P) /\
    (j < length P)%nat /\ (length P <= 256)%nat.
Proof.
  intros Hi. rewrite buildPalettes_spec.
  set (q := Z.to_nat (i / 256)). set (r := Z.to_nat (i mod 256)).
  assert (Hr : (r < 256)%nat) by (unfold r; dlia).
  assert (Hqr : Z.to_nat i = (256 * q + r)%nat) by (unfold q, r; dlia).
  assert (Hlt : (256 * q + r < length leaves)%nat) by (unfold len in Hi; lia).
  destruct (specRefs_nth (colorTol params) leaves q r Hr Hlt) as [j [Hj [_ Hjlt]]].
  exists (map mkPalette (specPalettes (colorTol params) leaves)),
         (map storedRef (specRefs (colorTol params) leaves)),
         j, (fst (placeGroup (colorTol params) [] (group leaves q))).
  split; [reflexivity|]. split; [|split; [|split]].
  - rewrite index_nth_error by lia. rewrite Hqr, nth_error_map, Hj. reflexivity.
  - rewrite index_nth_error by dlia. fold q.
    rewrite nth_error_map, specPalettes_nth; [reflexivity|].
    apply (groupCount_bounds leaves q r Hr Hlt).
  - exact Hjlt.
  - pose proof (specPalettes_small (colorTol params) leaves) as Hs.
    rewrite Forall_forall in Hs. apply Hs.
    eapply nth_error_In. apply specPalettes_nth.
    apply (groupCount_bounds leaves q r Hr Hlt).
Qed.

Lemma buildPalettes_lengths (params : codec2Params) (leaves : list leafColor) :
  exists pals refs,
    buildPalettes leaves params = Ok (pals, refs) /\
    len refs = len leaves /\
    len pals = (len leaves + 255) / 256 /\
    Forall (fun p => len (pal_colors p) <= 256) pals.
Proof.
  rewrite buildPalettes_spec. eexists _, _. split; [reflexivity|].
  unfold len. rewrite !length_map, specRefs_length, specPalettes_length.
  split; [reflexivity|]. split; [unfold groupCount, len; dlia|].
  apply Forall_forall. intros p Hp. apply in_map_iff in Hp.
  destruct Hp as [P [<- HP]].
  pose proof (specPalettes_small (colorTol params) leaves) as Hs.
  rewrite Forall_forall in Hs. specialize (Hs P HP). simpl. lia.
Qed.

(** C5 (amended): for every sequence of leaves the builder returns, without
    failing, one palette per group of 256 consecutive leaves, each filled in
    leaf order by first match within [colorTol] or append; every palette has
    at most 256 entries; the reference of leaf [i] holds the number of its
    group reduced to 16 bits and an existing entry of the palette of that
    group; and when there are at most 2^24 leaves (65536 palettes, the range
    of the 16-bit palette number) the reference names palette [i / 256]
    itself and resolves. *)
Theorem buildPalettes_groups_and_refs (leaves : list leafColor) (params : codec2Params) :
  exists pals refs,
    buildPalettes leaves params = Ok (pals, refs) /\
    pals = map mkPalette (specPalettes (colorTol params) leaves) /\
    refs = map storedRef (specRefs (colorTol params) leaves) /\
    Forall (fun p => len (pal_colors p) <= 256) pals /\
    (forall i, 0 <= i < len leaves ->
       exists r p c,
         index refs i = Some r /\ ref_pal r = (i ÷ 256) mod 65536 /\
         index pals (i ÷ 256) = Some p /\
         index (pal_colors p) (b2z (ref_idx r)) = Some c) /\
    (len leaves <= 16777216 ->
     forall i, 0 <= i < len leaves ->
       exists r c, index refs i = Some r /\ ref_pal r = i ÷ 256 /\
                   resolveRef pals r = Some c).
Proof.
  destruct (buildPalettes_lengths params leaves) as [pals [refs [E [_ [_ Hsmall]]]]].
  exists pals, refs. split; [exact E|].
  pose proof E as E'. rewrite buildPalettes_spec in E'. inversion E' as [[Ep Er]].
  split; [reflexivity|]. split; [reflexivity|]. rewrite Ep, Er.
  split; [exact Hsmall|].
  assert (Hleaf : forall i, 0 <= i < len leaves ->
            exists r p c,
              index refs i = Some r /\ ref_pal r = (i ÷ 256) mod 65536 /\
              index pals (i ÷ 256) = Some p /\
              index (pal_colors p) (b2z (ref_idx r)) = Some c).
  { intros i Hi.
    destruct (buildPalettes_leaf params leaves i Hi)
      as [pals' [refs' [j [P [E2 [Hr [Hp [Hj HP]]]]]]]].
    rewrite E in E2. inversion E2; subst pals' refs'.
    exists (storedRef (Z.to_nat (i / 256), j)), (mkPalette P).
    destruct (nth_error P j) as [c|] eqn:Ec; [|apply nth_error_None in Ec; lia].
    exists c. split; [exact Hr|].
    replace (i ÷ 256) with (i / 256) by dlia.
    split; [unfold storedRef; cbn [ref_pal fst]; unfold GoInt.uint16; f_equal; dlia|].
    split; [exact Hp|].
    unfold storedRef. cbn [ref_idx snd pal_colors].
    rewrite b2z_z2b by lia. rewrite index_nth_error by lia.
    rewrite Nat2Z.id. exact Ec. }
  split; [exact Hleaf|].
  intros Hmax i Hi.
  destruct (Hleaf i Hi) as [r [p [c [Hr [Hpal [Hp Hc]]]]]].
  exists r, c. split; [exact Hr|].
  assert (Hpal' : ref_pal r = i ÷ 256) by (rewrite Hpal; apply Z.mod_small; dlia).
  split; [exact Hpal'|].
  unfold resolveRef. rewrite Hpal', Hp. exact Hc.
Qed.

Lemma buildPalettes_groups_and_refs_witness :
  exists pals refs,
    buildPalettes twoGroups (paramsForQuality 50) = Ok (pals, refs) /\
    pals = map mkPalette (specPalettes (colorTol (paramsForQuality 50)) twoGroups) /\
    refs = map storedRef (specRefs (colorTol (paramsForQuality 50)) twoGroups) /\
    Forall (fun p => len (pal_colors p) <= 256) pals /\
    (forall i, 0 <= i < len twoGroups ->
       exists r p c,
         index refs i = Some r /\ ref_pal r = (i ÷ 256) mod 65536 /\
         index pals (i ÷ 256) = Some p /\
         index (pal_colors p) (b2z (ref_idx r)) = Some c) /\
    (len twoGroups <= 16777216 ->
     forall i, 0 <= i < len twoGroups ->
       exists r c, index refs i = Some r /\ ref_pal r = i ÷ 256 /\
                   resolveRef pals r = Some c).
Proof.
  apply (buildPalettes_groups_and_refs twoGroups (paramsForQuality 50)).
Defined.

(** The two groups of [twoGroups]: the first palette is (dark, red), the
    second, started afresh at leaf 256, is (red, dark); leaves 256 and 258
    share entry 0 of the second palette. *)
Lemma twoGroups_palettes :
  exists refs,
    buildPalettes twoGroups (paramsForQuality 50) =
      Ok ([mkPalette [rgb 10 10 10; rgb 200 0 0];
           mkPalette [rgb 200 0 0; rgb 10 10 10]], refs) /\
    skipn 254 refs =
      [mkLeafRef 0 x00; mkLeafRef 0 x01; mkLeafRef 1 x00; mkLeafRef 1 x01; mkLeafRef 1 x00].
Proof.
  eexists. split; vm_compute; reflexivity.
Qed.

Lemma colorTol_50 : colorTol (paramsForQuality 50) = 7.
Proof. vm_compute. reflexivity. Qed.

(** After [q] full groups of black leaves, with [q] a multiple of 65536, the
    16-bit palette number of the next group is 0 again. *)
Lemma wrapped_palette_number (q : nat) :
  (1 <= q)%nat -> Z.of_nat q mod 65536 = 0 ->
  exists pals refs r,
    buildPalettes
      (repeat (mkLeafColor (rgb 0 0 0)) (256 * q)
       ++ [mkLeafColor (rgb 0 0 0); mkLeafColor (rgb 255 255 255)])
      (paramsForQuality 50) = Ok (pals, refs) /\
    index refs (256 * Z.of_nat q + 1) = Some r /\
    ref_pal r = 0 /\
    resolveRef pals r = None.
Proof.
  intros Hq Hmod.
  set (a := mkLeafColor (rgb 0 0 0)). set (b := mkLeafColor (rgb 255 255 255)).
  set (L := repeat a (256 * q) ++ [a; b]).
  assert (HL : length L = (256 * q + 2)%nat).
  { unfold L. rewrite length_app, repeat_length. simpl. lia. }
  assert (Hlast : group L q = [a; b]).
  { unfold group, L. rewrite skipn_app, repeat_length, Nat.sub_diag.
    rewrite skipn_all2 by (rewrite repeat_length; lia). reflexivity. }
  assert (Hfirst : group L 0 = repeat a 256).
  { rewrite group_O. unfold L. destruct q as [|q']; [lia|].
    replace (256 * S q')%nat with (256 + 256 * q')%nat by lia.
    rewrite repeat_app, <- app_assoc.
    rewrite firstn_app, repeat_length, Nat.sub_diag, firstn_O.
    rewrite app_nil_r. apply firstn_all2. rewrite repeat_length. lia. }
  rewrite buildPalettes_spec, colorTol_50.
  destruct (specRefs_nth 7 L q 1 ltac:(lia) ltac:(lia)) as [j [Hj [Hix _]]].
  rewrite Hlast in Hix.
  assert (Ej : j = 1%nat).
  { vm_compute in Hix. inversion Hix. reflexivity. }
  subst j.
  eexists _, _, (storedRef (q, 1%nat)). split; [reflexivity|]. split; [|split].
  - rewrite index_nth_error by lia.
    replace (Z.to_nat (256 * Z.of_nat q + 1)) with (256 * q + 1)%nat by lia.
    rewrite nth_error_map, Hj. reflexivity.
  - unfold storedRef, GoInt.uint16. cbn [ref_pal fst]. exact Hmod.
  - unfold resolveRef, storedRef, GoInt.uint16. cbn [ref_pal ref_idx fst snd].
    rewrite Hmod. rewrite index_nth_error by lia.
    change (Z.to_nat 0) with O.
    rewrite nth_error_map, specPalettes_nth by (apply (groupCount_bounds L 0 0); lia).
    rewrite Hfirst. cbn [option_map pal_colors].
    vm_compute. reflexivity.
Qed.

(** C5, as stated, fails at [manyLeaves]: leaf number 16777217 is the
    second leaf of group 65536, whose palette is (black, white); the stored
    reference is palette 0, entry 1, and palette 0 holds one entry only. *)
Lemma palette_number_wraps_at_65536 :
  exists pals refs r,
    buildPalettes manyLeaves (paramsForQuality 50) = Ok (pals, refs) /\
    index refs 16777217 = Some r /\
    ref_pal r = 0 /\
    resolveRef pals r = None.
Proof.
  destruct (wrapped_palette_number (Z.to_nat 65536)) as [pals [refs [r [E [Hr [Hp Hres]]]]]].
  - lia.
  - reflexivity.
  - exists pals, refs, r. split; [exact E|]. split; [|split; [exact Hp|exact Hres]].
    rewrite <- Hr. f_equal.
Qed.

(* ------------------------------------------------------------------------- *)
(** ** Bit I/O *)

Lemma small_cases (n : Z) :
  0 <= n < 8 -> n = 0 \/ n = 1 \/ n = 2 \/ n = 3 \/ n = 4 \/ n = 5 \/ n = 6 \/ n = 7.
Proof. lia. Qed.

Lemma setBit_bits (acc : byte) (nbit : Z) (v : bool) :
  0 <= nbit < 8 -> lowZero acc nbit = true ->
  firstn (S (Z.to_nat nbit)) (byteBits (setBit acc nbit v)) =
    firstn (Z.to_nat nbit) (byteBits acc) ++ [v] /\
  lowZero (setBit acc nbit v) (nbit + 1) = true.
Proof.
  intros Hn Hz.
  destruct (small_cases nbit Hn) as [->|[->|[->|[->|[->|[->|[->| ->]]]]]]];
    destruct acc; vm_compute in Hz; try discriminate Hz;
    destruct v; vm_compute; split; reflexivity.
Qed.

Lemma byteBits_length (b : byte) : length (byteBits b) = 8%nat.
Proof. reflexivity. Qed.

Lemma bytesBits_app (a b : list byte) : bytesBits (a ++ b) = bytesBits a ++ bytesBits b.
Proof. apply flat_map_app. Qed.

Lemma bytesBits_length (bs : list byte) : length (bytesBits bs) = (8 * length bs)%nat.
Proof.
  induction bs as [|b bs IH]; [reflexivity|].
  change (bytesBits (b :: bs)) with (byteBits b ++ bytesBits bs).
  rewrite length_app, byteBits_length, IH. simpl length. lia.
Qed.

Lemma maskBits_byteBits (b : byte) :
  map (fun i => negb (Z.land (b2z b) (Z.shiftl 1 (7 - i)) =? 0)) (zrange 8) = byteBits b.
Proof. destruct b; reflexivity. Qed.

Lemma extends_refl (bw : BitWriter) : extends bw bw.
Proof. exists []. rewrite app_nil_r. reflexivity. Qed.

Lemma extends_trans (a b c : BitWriter) : extends a b -> extends b c -> extends a c.
Proof.
  intros [e1 H1] [e2 H2]. exists (e1 ++ e2). rewrite H2, H1, app_assoc. reflexivity.
Qed.

Lemma WriteBit_written (bw : BitWriter) (v : bool) :
  writerOk bw ->
  written (WriteBit bw v) = written bw ++ [v] /\
  writerOk (WriteBit bw v) /\ extends bw (WriteBit bw v).
Proof.
  intros [Hn Hz].
  destruct (setBit_bits (bw_acc bw) (bw_nbit bw) v Hn Hz) as [Hbits Hlow].
  unfold WriteBit. fold (setBit (bw_acc bw) (bw_nbit bw) v).
  destruct (bw_nbit bw + 1 =? 8) eqn:E.
  - apply Z.eqb_eq in E. unfold written, writerOk, extends. cbn [bw_buf bw_acc bw_nbit].
    split; [|split].
    + rewrite bytesBits_app. change (Z.to_nat 0) with O. cbn [firstn].
      rewrite app_nil_r, <- app_assoc. f_equal.
      rewrite <- Hbits. unfold bytesBits. cbn [flat_map]. rewrite app_nil_r.
      symmetry. apply firstn_all2. rewrite byteBits_length. lia.
    + split; [lia|reflexivity].
    + eexists. reflexivity.
  - apply Z.eqb_neq in E. unfold written, writerOk, extends. cbn [bw_buf bw_acc bw_nbit].
    split; [|split].
    + rewrite <- app_assoc. f_equal.
      replace (Z.to_nat (bw_nbit bw + 1)) with (S (Z.to_nat (bw_nbit bw))) by lia.
      exact Hbits.
    + split; [lia|exact Hlow].
    + exists []. rewrite app_nil_r. reflexivity.
Qed.

Lemma writeBits_written (bits : list bool) : forall bw,
  writerOk bw ->
  written (fold_left WriteBit bits bw) = written bw ++ bits /\
  writerOk (fold_left WriteBit bits bw) /\ extends bw (fold_left WriteBit bits bw).
Proof.
  induction bits as [|v bits IH]; intros bw Hok; cbn [fold_left].
  - rewrite app_nil_r. split; [reflexivity|]. split; [exact Hok|apply extends_refl].
  - destruct (WriteBit_written bw v Hok) as [H1 [H2 H3]].
    destruct (IH (WriteBit bw v) H2) as [H4 [H5 H6]].
    split; [|split].
    + rewrite H4, H1, <- app_assoc. reflexivity.
    + exact H5.
    + eapply extends_trans; eassumption.
Qed.

Lemma WriteByte_written (bw : BitWriter) (b : byte) :
  writerOk bw ->
  written (WriteByte bw b) = written bw ++ byteBits b /\
  writerOk (WriteByte bw b) /\ extends bw (WriteByte bw b).
Proof.
  intros Hok. unfold WriteByte. destruct (bw_nbit bw =? 0) eqn:E.
  - apply Z.eqb_eq in E. destruct Hok as [Hn Hz].
    unfold written, writerOk, extends. cbn [bw_buf bw_acc bw_nbit]. rewrite E in *.
    change (Z.to_nat 0) with O. cbn [firstn]. rewrite !app_nil_r, bytesBits_app.
    split; [|split].
    + unfold bytesBits at 2. cbn [flat_map]. rewrite app_nil_r. reflexivity.
    + split; [lia|exact Hz].
    + eexists. reflexivity.
  - rewrite <- (fold_left_map_arg WriteBit
                  (fun i => negb (Z.land (b2z b) (Z.shiftl 1 (7 - i)) =? 0))).
    rewrite maskBits_byteBits. apply writeBits_written. exact Hok.
Qed.

Lemma encodeLeaf_written (bw : BitWriter) (local : byte) :
  writerOk bw ->
  written (encodeLeaf bw local) = written bw ++ nodeBits (Leaf local) /\
  writerOk (encodeLeaf bw local) /\ extends bw (encodeLeaf bw local).
Proof.
  intros Hok. unfold encodeLeaf.
  destruct (WriteBit_written bw true Hok) as [H1 [H2 H3]].
  destruct (WriteByte_written (WriteBit bw true) local H2) as [H4 [H5 H6]].
  split; [|split].
  - rewrite H4, H1, <- app_assoc. reflexivity.
  - exact H5.
  - eapply extends_trans; eassumption.
Qed.

Lemma Flush_written (bw : BitWriter) :
  writerOk bw ->
  exists pad, bytesBits (bw_buf (Flush bw)) = written bw ++ pad /\ extends bw (Flush bw).
Proof.
  intros [Hn Hz]. unfold Flush, written, extends. destruct (bw_nbit bw =? 0) eqn:E.
  - apply Z.eqb_eq in E. rewrite E. exists []. change (Z.to_nat 0) with O.
    cbn [firstn]. rewrite !app_nil_r. split; [reflexivity|].
    exists []. rewrite app_nil_r. reflexivity.
  - exists (skipn (Z.to_nat (bw_nbit bw)) (byteBits (bw_acc bw))).
    cbn [bw_buf]. rewrite bytesBits_app, <- app_assoc, firstn_skipn.
    split; [|eexists; reflexivity].
    unfold bytesBits at 2. cbn [flat_map]. rewrite app_nil_r. reflexivity.
Qed.

Lemma NewBitWriter_ok (buf : list byte) :
  writerOk (NewBitWriter buf) /\ written (NewBitWriter buf) = bytesBits buf.
Proof.
  unfold NewBitWriter, writerOk, written. cbn [bw_buf bw_acc bw_nbit].
  change (Z.to_nat 0) with O. cbn [firstn]. rewrite app_nil_r.
  split; [split; [lia|reflexivity]|reflexivity].
Qed.

Lemma readAcc_byteBits (b : byte) : readAcc x00 (combine (zrange 8) (byteBits b)) = b.
Proof. destruct b; reflexivity. Qed.

Lemma maskBit_nth (d : byte) (n : Z) :
  0 <= n < 8 ->
  negb (Z.land (b2z d) (Z.shiftl 1 (7 - n)) =? 0) = nth (Z.to_nat n) (byteBits d) false.
Proof.
  intros Hn.
  destruct (small_cases n Hn) as [->|[->|[->|[->|[->|[->|[->| ->]]]]]]];
    destruct d; reflexivity.
Qed.

Lemma skipn_nth_cons {A} (l : list A) (d : A) : forall n,
  (n < length l)%nat -> skipn n l = nth n l d :: skipn (S n) l.
Proof.
  induction l as [|a l IH]; intros n Hn; simpl in Hn; [lia|].
  destruct n as [|n]; [reflexivity|].
  cbn [skipn nth]. apply IH. lia.
Qed.

Lemma skipn_cons_nth_error {A} (l : list A) (d : A) (ds : list A) : forall n,
  skipn n l = d :: ds ->
  nth_error l n = Some d /\ skipn (S n) l = ds /\ (n < length l)%nat.
Proof.
  induction l as [|a l IH]; intros n H.
  - destruct n; discriminate.
  - destruct n as [|n].
    + inversion H. subst. simpl. split; [reflexivity|]. split; [reflexivity|lia].
    + cbn [skipn] in H. destruct (IH n H) as [H1 [H2 H3]].
      split; [exact H1|]. split; [exact H2|simpl; lia].
Qed.

Lemma app_eq_by_length {A} (a a' b b' : list A) :
  length a = length a' -> a ++ b = a' ++ b' -> a = a' /\ b = b'.
Proof.
  revert a'. induction a as [|x a IH]; intros [|x' a'] Hl H; try discriminate.
  - split; [reflexivity|exact H].
  - inversion H. simpl in Hl. destruct (IH a' ltac:(lia) H2) as [-> ->].
    split; reflexivity.
Qed.

Lemma cons_eq_inv {A} (x y : A) (l l' : list A) : x :: l = y :: l' -> x = y /\ l = l'.
Proof. intros H. inversion H. split; reflexivity. Qed.

Lemma ReadBit_cons (br : BitReader) (b : bool) (rest : list bool) :
  readerOk br -> remaining br = b :: rest ->
  exists br', ReadBit br = Ok (b, br') /\ remaining br' = rest /\
              readerOk br' /\ br_data br' = br_data br.
Proof.
  intros [Hn Hp] Hrem. unfold ReadBit. unfold remaining in Hrem.
  destruct (br_nbit br =? 0) eqn:E.
  - apply Z.eqb_eq in E. cbn [app] in Hrem.
    destruct (skipn (Z.to_nat (br_pos br)) (br_data br)) as [|d ds] eqn:Es;
      [discriminate|].
    destruct (skipn_cons_nth_error _ _ _ _ Es) as [Hnth [Hds Hlt]].
    replace (len (br_data br) <=? br_pos br) with false by (unfold len; lia).
    rewrite index_nth_error, Hnth by lia. cbn [bind br_data br_pos br_acc br_nbit].
    rewrite E. cbn [Z.add].
    rewrite (maskBit_nth d 0) by lia.
    change (bytesBits (d :: ds)) with (skipn 0 (byteBits d) ++ bytesBits ds) in Hrem.
    rewrite (skipn_nth_cons (byteBits d) false 0) in Hrem
      by (rewrite byteBits_length; lia).
    cbn [app] in Hrem. apply cons_eq_inv in Hrem. destruct Hrem as [Hb Hrest].
    change (Z.to_nat 0) with O. rewrite Hb. eexists. split; [reflexivity|].
    unfold remaining, readerOk. cbn [br_data br_pos br_acc br_nbit].
    change (1 =? 8) with false. cbn iota. change (1 =? 0) with false. cbn iota.
    replace (Z.to_nat (br_pos br + 1)) with (S (Z.to_nat (br_pos br))) by lia.
    rewrite Hds. split; [exact Hrest|]. split; [|reflexivity].
    unfold len. lia.
  - apply Z.eqb_neq in E. cbn [bind].
    rewrite (skipn_nth_cons (byteBits (br_acc br)) false) in Hrem
      by (rewrite byteBits_length; lia).
    cbn [app] in Hrem. apply cons_eq_inv in Hrem. destruct Hrem as [Hb Hrest].
    rewrite (maskBit_nth (br_acc br) (br_nbit br)) by lia.
    rewrite Hb. eexists. split; [reflexivity|].
    unfold remaining, readerOk. cbn [br_data br_pos br_acc br_nbit].
    destruct (br_nbit br + 1 =? 8) eqn:E8.
    + apply Z.eqb_eq in E8. change (0 =? 0) with true. cbn iota. cbn [app].
      rewrite <- Hrest.
      rewrite (skipn_all2 (byteBits (br_acc br)))
        by (rewrite byteBits_length; lia).
      split; [reflexivity|]. split; [lia|reflexivity].
    + apply Z.eqb_neq in E8.
      replace (br_nbit br + 1 =? 0) with false by lia.
      replace (Z.to_nat (br_nbit br + 1)) with (S (Z.to_nat (br_nbit br))) by lia.
      split; [exact Hrest|]. split; [lia|reflexivity].
Qed.

Lemma readBits_fold (ixs : list Z) : forall (bits : list bool) b0 br rest,
  length ixs = length bits ->
  readerOk br -> remaining br = bits ++ rest ->
  exists br',
    fold_left
      (fun st i =>
         '(b, br) <- st ;;
         '(bit, br) <- ReadBit br ;;
         Ok (if bit then z2b (Z.lor (b2z b) (Z.shiftl 1 (7 - i))) else b, br))
      ixs (Ok (b0, br)) = Ok (readAcc b0 (combine ixs bits), br') /\
    remaining br' = rest /\ readerOk br' /\ br_data br' = br_data br.
Proof.
  induction ixs as [|i ixs IH]; intros bits b0 br rest Hl Hok Hrem.
  - destruct bits; [|discriminate]. exists br. cbn [fold_left combine readAcc].
    split; [reflexivity|]. split; [exact Hrem|]. split; [exact Hok|reflexivity].
  - destruct bits as [|bit bits]; [discriminate|]. cbn [app] in Hrem.
    destruct (ReadBit_cons br bit (bits ++ rest) Hok Hrem) as [br1 [H1 [H2 [H3 H4]]]].
    cbn [fold_left bind]. rewrite H1. cbn [bind].
    destruct (IH bits (if bit then z2b (Z.lor (b2z b0) (Z.shiftl 1 (7 - i))) else b0)
                 br1 rest ltac:(simpl in Hl; lia) H3 H2) as [br' [H5 [H6 [H7 H8]]]].
    exists br'. split; [exact H5|]. split; [exact H6|]. split; [exact H7|congruence].
Qed.

Lemma ReadByte_bits (br : BitReader) (b : byte) (rest : list bool) :
  readerOk br -> remaining br = byteBits b ++ rest ->
  exists br', ReadByte br = Ok (b, br') /\ remaining br' = rest /\
              readerOk br' /\ br_data br' = br_data br.
Proof.
  intros Hok Hrem. unfold ReadByte. destruct (br_nbit br =? 0) eqn:E.
  - destruct Hok as [Hn Hp]. unfold remaining in Hrem. rewrite E in Hrem.
    cbn [app] in Hrem.
    destruct (skipn (Z.to_nat (br_pos br)) (br_data br)) as [|d ds] eqn:Es;
      [discriminate|].
    destruct (skipn_cons_nth_error _ _ _ _ Es) as [Hnth [Hds Hlt]].
    change (bytesBits (d :: ds)) with (byteBits d ++ bytesBits ds) in Hrem.
    apply app_eq_by_length in Hrem; [|reflexivity]. destruct Hrem as [Hd Hrest].
    assert (Edb : d = b).
    { rewrite <- (readAcc_byteBits d), <- (readAcc_byteBits b), Hd. reflexivity. }
    subst d.
    replace (len (br_data br) <=? br_pos br) with false by (unfold len; lia).
    rewrite index_nth_error, Hnth by lia.
    eexists. split; [reflexivity|].
    unfold remaining, readerOk. cbn [br_data br_pos br_acc br_nbit]. rewrite E.
    replace (Z.to_nat (br_pos br + 1)) with (S (Z.to_nat (br_pos br))) by lia.
    rewrite Hds. split; [exact Hrest|]. split; [|reflexivity].
    unfold len. lia.
  - destruct (readBits_fold (zrange 8) (byteBits b) x00 br rest eq_refl Hok Hrem)
      as [br' [H1 H2]].
    exists br'. rewrite H1, readAcc_byteBits. split; [reflexivity|exact H2].
Qed.

(* ------------------------------------------------------------------------- *)
(** ** The decoder follows the grammar *)

Lemma leavesResolve_app (palettes : list (list color.RGBA)) (ordinal : Z)
  (l1 l2 : list byte) :
  leavesResolve palettes ordinal (l1 ++ l2) ->
  leavesResolve palettes ordinal l1 /\ leavesResolve palettes (ordinal + len l1) l2.
Proof.
  intros H. split; intros j local Hj.
  - apply H. rewrite nth_error_app1; [exact Hj|].
    apply nth_error_Some. congruence.
  - specialize (H (length l1 + j)%nat local).
    rewrite nth_error_app2, Nat.add_comm, Nat.add_sub in H by lia.
    destruct (H Hj) as [P [HP Hlt]]. exists P. split; [|exact Hlt].
    rewrite <- HP. f_equal. f_equal. unfold len. lia.
Qed.

Lemma decodeLeafJob_ok (fallback : bool) (x y w h : Z) (br : BitReader)
  (palettes : list (list color.RGBA)) (leafCounter : Z) (jobs : list leafJob)
  (local : byte) (rest : list bool) :
  readerOk br -> remaining br = byteBits local ++ rest ->
  0 <= leafCounter ->
  leavesResolve palettes leafCounter [local] ->
  exists br',
    decodeLeafJob fallback x y w h br palettes leafCounter jobs =
      Ok (br', leafCounter + 1,
          jobs ++ [mkLeafJob x y w h (leafCounter ÷ 256) (b2z local)]) /\
    remaining br' = rest /\ readerOk br' /\ br_data br' = br_data br.
Proof.
  intros Hok Hrem Hlc Hres.
  destruct (ReadByte_bits br local rest Hok Hrem) as [br' [H1 H2]].
  destruct (Hres O local eq_refl) as [P [HP Hlt]].
  rewrite Z.add_0_r in HP.
  exists br'. split; [|exact H2].
  unfold decodeLeafJob. rewrite H1. cbn [bind]. rewrite HP.
  pose proof (index_Some_lt _ _ _ HP) as Hr.
  replace ((leafCounter ÷ 256 <? 0) || (len palettes <=? leafCounter ÷ 256)) with false by lia.
  pose proof (b2z_range local).
  replace ((b2z local <? 0) || (len P <=? b2z local)) with false by lia.
  reflexivity.
Qed.

Lemma decodeRegionJobs_tree (params : codec2Params) (palettes : list (list color.RGBA))
  (t : node) :
  forall fuel x y w h br lc jobs rest,
  1 <= minBlock params ->
  fits params w h t ->
  (length (nodeBits t) <= fuel)%nat ->
  readerOk br -> remaining br = nodeBits t ++ rest ->
  0 <= lc ->
  leavesResolve palettes lc (leavesOf t) ->
  exists br',
    decodeRegionJobs fuel x y w h params br palettes lc jobs =
      Ok (br', lc + len (leavesOf t), jobs ++ treeJobs params x y w h lc t) /\
    remaining br' = rest /\ readerOk br' /\ br_data br' = br_data br.
Proof.
  induction t as [local|a IHa b IHb];
    intros fuel x y w h br lc jobs rest Hmb Hfit Hfuel Hok Hrem Hlc Hres.
  - destruct fuel as [|fuel]; [simpl in Hfuel; lia|].
    cbn [nodeBits app] in Hrem.
    destruct (ReadBit_cons br true _ Hok Hrem) as [br1 [H1 [H2 [H3 H4]]]].
    destruct (decodeLeafJob_ok false x y w h br1 palettes lc jobs local rest H3 H2 Hlc Hres)
      as [br' [H5 [H6 [H7 H8]]]].
    exists br'. cbn [decodeRegionJobs]. rewrite H1. cbn [bind].
    rewrite H5. cbn [leavesOf treeJobs]. split; [reflexivity|].
    split; [exact H6|]. split; [exact H7|congruence].
  - destruct fuel as [|fuel]; [simpl in Hfuel; lia|].
    cbn [nodeBits] in Hrem, Hfuel. rewrite length_cons, length_app in Hfuel.
    cbn [app] in Hrem. rewrite <- app_assoc in Hrem.
    destruct (ReadBit_cons br false _ Hok Hrem) as [br1 [H1 [H2 [H3 H4]]]].
    cbn [leavesOf] in Hres. apply leavesResolve_app in Hres. destruct Hres as [Hra Hrb].
    cbn [decodeRegionJobs]. rewrite H1. cbn [bind].
    cbn [fits] in Hfit. cbn [treeJobs leavesOf].
    pose proof (len_nonneg (leavesOf a)) as Hla.
    destruct ((h <=? w) && (minBlock params <=? w ÷ 2)) eqn:Ec.
    + destruct Hfit as [Hfa Hfb].
      destruct (IHa fuel x y (w ÷ 2) h br1 lc jobs (nodeBits b ++ rest)
                    Hmb Hfa ltac:(lia) H3 H2 Hlc Hra) as [br2 [H5 [H6 [H7 H8]]]].
      rewrite H5. cbn [bind].
      destruct (IHb fuel (x + w ÷ 2) y (w - w ÷ 2) h br2 (lc + len (leavesOf a))
                    (jobs ++ treeJobs params x y (w ÷ 2) h lc a) rest
                    Hmb Hfb ltac:(lia) H7 H6 ltac:(lia) Hrb) as [br3 [H9 [H10 [H11 H12]]]].
      rewrite H9. exists br3. rewrite len_app, <- app_assoc, Z.add_assoc.
      split; [reflexivity|]. split; [exact H10|]. split; [exact H11|congruence].
    + destruct Hfit as [Hh1 [Hfa Hfb]].
      replace (h ÷ 2 <=? 0) with false by lia.
      destruct (IHa fuel x y w (h ÷ 2) br1 lc jobs (nodeBits b ++ rest)
                    Hmb Hfa ltac:(lia) H3 H2 Hlc Hra) as [br2 [H5 [H6 [H7 H8]]]].
      rewrite H5. cbn [bind].
      destruct (IHb fuel x (y + h ÷ 2) w (h - h ÷ 2) br2 (lc + len (leavesOf a))
                    (jobs ++ treeJobs params x y w (h ÷ 2) lc a) rest
                    Hmb Hfb ltac:(lia) H7 H6 ltac:(lia) Hrb) as [br3 [H9 [H10 [H11 H12]]]].
      rewrite H9. exists br3. rewrite len_app, <- app_assoc, Z.add_assoc.
      split; [reflexivity|]. split; [exact H10|]. split; [exact H11|congruence].
Qed.

(* ------------------------------------------------------------------------- *)
(** ** The encoder emits the grammar *)

Lemma sliceAt_one {A} (L : list A) (pos : Z) (x : A) :
  index L pos = Some x -> sliceAt L pos [x].
Proof.
  intros H j x' Hj. destruct j as [|j].
  - simpl in Hj. inversion Hj. subst. rewrite Z.add_0_r. exact H.
  - simpl in Hj. destruct j; discriminate.
Qed.

Lemma sliceAt_app {A} (L : list A) (pos : Z) (xs ys : list A) :
  sliceAt L pos xs -> sliceAt L (pos + len xs) ys -> sliceAt L pos (xs ++ ys).
Proof.
  intros Hx Hy j x Hj.
  destruct (Nat.lt_ge_cases j (length xs)) as [Hlt|Hge].
  - rewrite nth_error_app1 in Hj by exact Hlt. apply Hx. exact Hj.
  - rewrite nth_error_app2 in Hj by exact Hge.
    specialize (Hy _ _ Hj). rewrite <- Hy. f_equal. unfold len. lia.
Qed.

Lemma sliceAt_cons {A} (L : list A) (pos : Z) (x : A) (xs : list A) :
  index L pos = Some x -> sliceAt L (pos + 1) xs -> sliceAt L pos (x :: xs).
Proof.
  intros H Hxs. change (x :: xs) with ([x] ++ xs).
  apply sliceAt_app; [apply sliceAt_one; exact H|exact Hxs].
Qed.

Lemma encodeRegion_tree (params : codec2Params) (leafLocal : list byte)
  (pattern : list bool) (fuel : nat) :
  forall x y w h bw lp pp bw' lp' pp',
  encodeRegion fuel x y w h params bw leafLocal lp pattern pp = Ok (bw', lp', pp') ->
  writerOk bw -> 0 <= lp -> 0 <= pp ->
  exists t,
    written bw' = written bw ++ nodeBits t /\
    writerOk bw' /\ extends bw bw' /\
    fits params w h t /\
    lp' = lp + len (leavesOf t) /\ pp' = pp + len (flagsOf t) /\
    sliceAt leafLocal lp (leavesOf t) /\ sliceAt pattern pp (flagsOf t).
Proof.
  induction fuel as [|fuel IH]; intros x y w h bw lp pp bw' lp' pp' H Hok Hlp Hpp;
    [discriminate|].
  cbn [encodeRegion] in H.
  destruct (len pattern <=? pp); [discriminate|].
  destruct (index pattern pp) as [isLeaf|] eqn:Epat; [|discriminate].
  destruct isLeaf.
  - destruct (len leafLocal <=? lp); [discriminate|].
    destruct (index leafLocal lp) as [local|] eqn:Eloc; [|discriminate].
    inversion H; subst bw' lp' pp'.
    destruct (encodeLeaf_written bw local Hok) as [H1 [H2 H3]].
    exists (Leaf local). cbn [leavesOf flagsOf fits].
    split; [exact H1|]. split; [exact H2|]. split; [exact H3|]. split; [exact I|].
    split; [reflexivity|]. split; [reflexivity|].
    split; apply sliceAt_one; assumption.
  - destruct (WriteBit_written bw false Hok) as [W1 [W2 W3]].
    destruct ((h <=? w) && (minBlock params <=? w ÷ 2)) eqn:Ec.
    + bindOk H r1 H1. destruct r1 as [[bw1 lp1] pp1].
      destruct (IH _ _ _ _ _ _ _ _ _ _ H1 W2 Hlp ltac:(lia))
        as [a [A1 [A2 [A3 [A4 [A5 [A6 [A7 A8]]]]]]]].
      pose proof (len_nonneg (leavesOf a)). pose proof (len_nonneg (flagsOf a)).
      destruct (IH _ _ _ _ _ _ _ _ _ _ H A2 ltac:(lia) ltac:(lia))
        as [b [B1 [B2 [B3 [B4 [B5 [B6 [B7 B8]]]]]]]].
      exists (Internal a b). cbn [nodeBits leavesOf flagsOf fits]. rewrite Ec.
      split; [rewrite B1, A1, W1, <- !app_assoc; reflexivity|].
      split; [exact B2|].
      split; [eapply extends_trans; [exact W3|eapply extends_trans; eassumption]|].
      split; [split; assumption|].
      split; [rewrite len_app; lia|].
      split; [rewrite len_cons, len_app; lia|].
      split.
      * apply sliceAt_app; [exact A7|]. rewrite <- A5. exact B7.
      * apply sliceAt_cons; [exact Epat|].
        apply sliceAt_app; [exact A8|]. rewrite <- A6. exact B8.
    + destruct (h ÷ 2 <? minBlock params) eqn:Eh; [discriminate|].
      bindOk H r1 H1. destruct r1 as [[bw1 lp1] pp1].
      destruct (IH _ _ _ _ _ _ _ _ _ _ H1 W2 Hlp ltac:(lia))
        as [a [A1 [A2 [A3 [A4 [A5 [A6 [A7 A8]]]]]]]].
      pose proof (len_nonneg (leavesOf a)). pose proof (len_nonneg (flagsOf a)).
      destruct (IH _ _ _ _ _ _ _ _ _ _ H A2 ltac:(lia) ltac:(lia))
        as [b [B1 [B2 [B3 [B4 [B5 [B6 [B7 B8]]]]]]]].
      exists (Internal a b). cbn [nodeBits leavesOf flagsOf fits]. rewrite Ec.
      split; [rewrite B1, A1, W1, <- !app_assoc; reflexivity|].
      split; [exact B2|].
      split; [eapply extends_trans; [exact W3|eapply extends_trans; eassumption]|].
      split; [split; [lia|split; assumption]|].
      split; [rewrite len_app; lia|].
      split; [rewrite len_cons, len_app; lia|].
      split.
      * apply sliceAt_app; [exact A7|]. rewrite <- A5. exact B7.
      * apply sliceAt_cons; [exact Epat|].
        apply sliceAt_app; [exact A8|]. rewrite <- A6. exact B8.
Qed.

Lemma nodeBits_length (t : node) :
  length (nodeBits t) = (length (flagsOf t) + 8 * length (leavesOf t))%nat.
Proof.
  induction t as [local|a IHa b IHb]; cbn [nodeBits flagsOf leavesOf].
  - reflexivity.
  - rewrite !length_cons, !length_app, IHa, IHb. lia.
Qed.

(** C6: a successful run of [encodeRegion] emits the bits of a tree [t] in
    the grammar [node := 1 index8 | 0 node node]: one structure bit per node
    (its flag in the pattern) and after each leaf bit the 8-bit local index
    taken from [leafLocal], nothing else, so no axis and no size; the tree
    splits where the geometric rule splits; and [decodeRegionJobs], given
    these bits and the same region, reads the same tree in the same order:
    it emits one job per leaf, with the rectangles of the rule, the local
    index read, and the palette number [ordinal / 256] of the running leaf
    ordinal, and it stops right after the last bit of the tree. *)
Theorem encoder_and_decoder_share_the_grammar (params : codec2Params)
  (leafLocal : list byte) (pattern : list bool) (fuel : nat)
  (x y w h : Z) (bw bw' : BitWriter) (lp pp lp' pp' : Z) :
  1 <= minBlock params ->
  writerOk bw -> 0 <= lp -> 0 <= pp ->
  encodeRegion fuel x y w h params bw leafLocal lp pattern pp = Ok (bw', lp', pp') ->
  exists t,
    written bw' = written bw ++ nodeBits t /\
    length (nodeBits t) = (length (flagsOf t) + 8 * length (leavesOf t))%nat /\
    fits params w h t /\
    sliceAt pattern pp (flagsOf t) /\ pp' = pp + len (flagsOf t) /\
    sliceAt leafLocal lp (leavesOf t) /\ lp' = lp + len (leavesOf t) /\
    forall dfuel br palettes ordinal jobs rest,
      (length (nodeBits t) <= dfuel)%nat ->
      readerOk br -> remaining br = nodeBits t ++ rest ->
      0 <= ordinal -> leavesResolve palettes ordinal (leavesOf t) ->
      exists br',
        decodeRegionJobs dfuel x y w h params br palettes ordinal jobs =
          Ok (br', ordinal + len (leavesOf t),
              jobs ++ treeJobs params x y w h ordinal t) /\
        remaining br' = rest.
Proof.
  intros Hmb Hok Hlp Hpp H.
  destruct (encodeRegion_tree params leafLocal pattern fuel _ _ _ _ _ _ _ _ _ _
              H Hok Hlp Hpp) as [t [T1 [T2 [T3 [T4 [T5 [T6 [T7 T8]]]]]]]].
  exists t. split; [exact T1|]. split; [apply nodeBits_length|].
  split; [exact T4|]. split; [exact T8|]. split; [exact T6|].
  split; [exact T7|]. split; [exact T5|].
  intros dfuel br palettes ordinal jobs rest Hf Hbr Hrem Hord Hres.
  destruct (decodeRegionJobs_tree params palettes t dfuel x y w h br ordinal jobs rest
              Hmb T4 Hf Hbr Hrem Hord Hres) as [br' [D1 [D2 _]]].
  exists br'. split; [exact D1|exact D2].
Qed.

Lemma encoder_and_decoder_share_the_grammar_witness :
  exists t,
    written (mkBitWriter [x40; x60] x40 3) = written (NewBitWriter []) ++ nodeBits t /\
    length (nodeBits t) = (length (flagsOf t) + 8 * length (leavesOf t))%nat /\
    fits (paramsForQuality 50) 2 1 t /\
    sliceAt [false; true; true] 0 (flagsOf t) /\ 3 = 0 + len (flagsOf t) /\
    sliceAt [x01; x02] 0 (leavesOf t) /\ 2 = 0 + len (leavesOf t) /\
    forall dfuel br palettes ordinal jobs rest,
      (length (nodeBits t) <= dfuel)%nat ->
      readerOk br -> remaining br = nodeBits t ++ rest ->
      0 <= ordinal -> leavesResolve palettes ordinal (leavesOf t) ->
      exists br',
        decodeRegionJobs dfuel 0 0 2 1 (paramsForQuality 50) br palettes ordinal jobs =
          Ok (br', ordinal + len (leavesOf t),
              jobs ++ treeJobs (paramsForQuality 50) 0 0 2 1 ordinal t) /\
        remaining br' = rest.
Proof.
  apply (encoder_and_decoder_share_the_grammar (paramsForQuality 50)
           [x01; x02] [false; true; true] 3 0 0 2 1 (NewBitWriter [])
           (mkBitWriter [x40; x60] x40 3) 0 0 2 3).
  - vm_compute. discriminate.
  - split; [simpl; lia|reflexivity].
  - lia.
  - lia.
  - vm_compute. reflexivity.
Defined.

(* ------------------------------------------------------------------------- *)
(** ** Stripes: one tree after the other *)

Lemma encodeStripes_forest (w : Z) (params : codec2Params) (leafLocal : list byte)
  (pattern : list bool) (stripes : list stripeInfo) :
  forall bw lp pp bw' lp' pp',
  encodeStripes w params bw leafLocal lp pattern pp stripes = Ok (bw', lp', pp') ->
  writerOk bw -> 0 <= lp -> 0 <= pp ->
  exists ts,
    written bw' = written bw ++ flat_map nodeBits ts /\
    writerOk bw' /\ extends bw bw' /\
    Forall2 (fun s t => fits params w (stripe_h s) t) stripes ts /\
    lp' = lp + len (flat_map leavesOf ts) /\
    sliceAt leafLocal lp (flat_map leavesOf ts).
Proof.
  induction stripes as [|s stripes IH]; intros bw lp pp bw' lp' pp' H Hok Hlp Hpp;
    cbn [encodeStripes] in H.
  - inversion H; subst. exists []. cbn [flat_map]. rewrite app_nil_r.
    split; [reflexivity|]. split; [exact Hok|]. split; [apply extends_refl|].
    split; [constructor|]. split; [unfold len; simpl; lia|].
    intros j x Hj. destruct j; discriminate.
  - bindOk H r1 H1. destruct r1 as [[bw1 lp1] pp1].
    destruct (encodeRegion_tree _ _ _ _ _ _ _ _ _ _ _ _ _ _ H1 Hok Hlp Hpp)
      as [t [T1 [T2 [T3 [T4 [T5 [T6 [T7 T8]]]]]]]].
    pose proof (len_nonneg (leavesOf t)). pose proof (len_nonneg (flagsOf t)).
    destruct (IH _ _ _ _ _ _ H T2 ltac:(lia) ltac:(lia))
      as [ts [S1 [S2 [S3 [S4 [S5 S6]]]]]].
    exists (t :: ts). cbn [flat_map].
    split; [rewrite S1, T1, <- app_assoc; reflexivity|].
    split; [exact S2|]. split; [eapply extends_trans; eassumption|].
    split; [constructor; assumption|].
    split; [rewrite len_app; lia|].
    apply sliceAt_app; [exact T7|]. rewrite <- T5. exact S6.
Qed.

Lemma decodeStripes_forest (w : Z) (params : codec2Params)
  (palettes : list (list color.RGBA)) (stripes : list stripeInfo) :
  forall ts fuel br lc jobs rest,
  1 <= minBlock params ->
  Forall2 (fun s t => fits params w (stripe_h s) t) stripes ts ->
  (length (flat_map nodeBits ts) <= fuel)%nat ->
  readerOk br -> remaining br = flat_map nodeBits ts ++ rest ->
  0 <= lc ->
  leavesResolve palettes lc (flat_map leavesOf ts) ->
  exists br' jobs',
    decodeStripes fuel w params br palettes lc jobs stripes =
      Ok (br', lc + len (flat_map leavesOf ts), jobs') /\
    remaining br' = rest.
Proof.
  induction stripes as [|s stripes IH];
    intros ts fuel br lc jobs rest Hmb Hfit Hfuel Hok Hrem Hlc Hres;
    inversion Hfit as [|s' t stripes' ts' Ht Hts]; subst.
  - exists br, jobs. cbn [decodeStripes flat_map]. unfold len. simpl length.
    rewrite Z.add_0_r. split; [reflexivity|exact Hrem].
  - cbn [flat_map] in *. rewrite length_app in Hfuel. rewrite <- app_assoc in Hrem.
    apply leavesResolve_app in Hres. destruct Hres as [Hr1 Hr2].
    destruct (decodeRegionJobs_tree params palettes t fuel 0 (stripe_y s) w (stripe_h s)
                br lc jobs _ Hmb Ht ltac:(lia) Hok Hrem Hlc Hr1)
      as [br1 [D1 [D2 [D3 D4]]]].
    pose proof (len_nonneg (leavesOf t)).
    destruct (IH ts' fuel br1 (lc + len (leavesOf t))
                 (jobs ++ treeJobs params 0 (stripe_y s) w (stripe_h s) lc t) rest
                 Hmb Hts ltac:(lia) D3 D2 ltac:(lia) Hr2) as [br' [jobs' [E1 E2]]].
    exists br', jobs'. cbn [decodeStripes]. rewrite D1. cbn [bind].
    rewrite E1, len_app, Z.add_assoc. split; [reflexivity|exact E2].
Qed.

(* ------------------------------------------------------------------------- *)
(** ** Jobs handed to the painter are valid *)

Lemma decodeLeafJob_valid (fallback : bool) (x y w h : Z) (br br' : BitReader)
  (palettes : list (list color.RGBA)) (lc lc' : Z) (jobs jobs' : list leafJob) :
  decodeLeafJob fallback x y w h br palettes lc jobs = Ok (br', lc', jobs') ->
  Forall (jobValid palettes) jobs -> Forall (jobValid palettes) jobs'.
Proof.
  unfold decodeLeafJob. intros H Hj.
  bindOk H r1 H1. destruct r1 as [b br1].
  destruct ((lc ÷ 256 <? 0) || (len palettes <=? lc ÷ 256)); [discriminate|].
  destruct (index palettes (lc ÷ 256)) as [p|] eqn:Ep; [|discriminate].
  destruct ((b2z b <? 0) || (len p <=? b2z b)) eqn:Eb; [discriminate|].
  inversion H; subst. apply Forall_app. split; [exact Hj|].
  constructor; [|constructor].
  destruct (index_lt_Some p (b2z b) ltac:(lia)) as [c Hc].
  exists c. unfold jobColor. cbn [job_pal job_idx]. rewrite Ep, Hc. reflexivity.
Qed.

Lemma decodeRegionJobs_valid (params : codec2Params) (palettes : list (list color.RGBA))
  (fuel : nat) :
  forall x y w h br lc jobs br' lc' jobs',
  decodeRegionJobs fuel x y w h params br palettes lc jobs = Ok (br', lc', jobs') ->
  Forall (jobValid palettes) jobs -> Forall (jobValid palettes) jobs'.
Proof.
  induction fuel as [|fuel IH]; intros x y w h br lc jobs br' lc' jobs' H Hj;
    [discriminate|].
  cbn [decodeRegionJobs] in H.
  bindOk H r1 H1. destruct r1 as [isLeaf br1].
  destruct isLeaf; [eapply decodeLeafJob_valid; eassumption|].
  destruct ((h <=? w) && (minBlock params <=? w ÷ 2)).
  - bindOk H r2 H2. destruct r2 as [[br2 lc2] jobs2].
    eapply IH; [exact H|]. eapply IH; eassumption.
  - destruct (h ÷ 2 <=? 0); [eapply decodeLeafJob_valid; eassumption|].
    bindOk H r2 H2. destruct r2 as [[br2 lc2] jobs2].
    eapply IH; [exact H|]. eapply IH; eassumption.
Qed.

Lemma decodeStripes_valid (fuel : nat) (w : Z) (params : codec2Params)
  (palettes : list (list color.RGBA)) (stripes : list stripeInfo) :
  forall br lc jobs br' lc' jobs',
  decodeStripes fuel w params br palettes lc jobs stripes = Ok (br', lc', jobs') ->
  Forall (jobValid palettes) jobs -> Forall (jobValid palettes) jobs'.
Proof.
  induction stripes as [|s stripes IH]; intros br lc jobs br' lc' jobs' H Hj;
    cbn [decodeStripes] in H.
  - inversion H; subst. exact Hj.
  - bindOk H r1 H1. destruct r1 as [[br1 lc1] jobs1].
    eapply IH; [exact H|]. eapply decodeRegionJobs_valid; eassumption.
Qed.

Lemma Forall_firstn_skipn {A} (P : A -> Prop) (n : nat) (l : list A) :
  Forall P l -> Forall P (firstn n l) /\ Forall P (skipn n l).
Proof.
  intros H. rewrite <- (firstn_skipn n l) in H. apply Forall_app in H. exact H.
Qed.

Lemma workerWrites_ok (bounds : image.Rectangle) (palettes : list (list color.RGBA))
  (js : list leafJob) :
  Forall (jobValid palettes) js -> exists ws, workerWrites bounds palettes js = Ok ws.
Proof.
  induction js as [|job js IH]; intros H.
  - exists []. reflexivity.
  - inversion H as [|? ? [c Hc] Hjs]; subst. destruct (IH Hjs) as [ws Hws].
    eexists. cbn [workerWrites]. rewrite Hc. cbn [bind]. rewrite Hws. reflexivity.
Qed.

Lemma jobChunks_valid (palettes : list (list color.RGBA)) (jobs : list leafJob)
  (chunk : Z) (wIdxs : list Z) :
  Forall (jobValid palettes) jobs ->
  Forall (Forall (jobValid palettes)) (jobChunks jobs chunk wIdxs).
Proof.
  intros H. induction wIdxs as [|wIdx rest IH]; cbn [jobChunks].
  - constructor.
  - destruct (len jobs <=? wIdx * chunk); [constructor|].
    constructor; [|exact IH].
    apply Forall_firstn_skipn. apply Forall_firstn_skipn. exact H.
Qed.

Lemma paintWrites_ok (numCPU : Z) (bounds : image.Rectangle)
  (palettes : list (list color.RGBA)) (jobs : list leafJob) :
  Forall (jobValid palettes) jobs ->
  exists ws, paintWrites numCPU bounds palettes jobs = Ok ws.
Proof.
  intros H. unfold paintWrites. destruct (len jobs =? 0); [exists []; reflexivity|].
  match goal with
  | |- context [jobChunks jobs ?c ?ws] =>
      pose proof (jobChunks_valid palettes jobs c ws H) as Hc;
      generalize dependent (jobChunks jobs c ws)
  end.
  intros chunks Hc. generalize (@nil (Z * Z * color.RGBA)) as ws0.
  induction chunks as [|js chunks IH]; intros ws0; cbn [fold_left].
  - exists ws0. reflexivity.
  - inversion Hc as [|? ? Hjs Hrest]; subst.
    destruct (workerWrites_ok bounds palettes js Hjs) as [ws' Hws].
    cbn [bind]. rewrite Hws. cbn [bind]. apply IH. exact Hrest.
Qed.

Lemma paintLeafJobsParallel_ok (numCPU : Z) (dst : image.RGBA)
  (palettes : list (list color.RGBA)) (jobs : list leafJob) :
  Forall (jobValid palettes) jobs ->
  exists dst', paintLeafJobsParallel numCPU dst palettes jobs = Ok dst' /\
               image.Bounds dst' = image.Bounds dst.
Proof.
  intros H. unfold paintLeafJobsParallel.
  destruct (paintWrites_ok numCPU (image.Bounds dst) palettes jobs H) as [ws Hws].
  rewrite Hws. cbn [bind]. eexists. split; [reflexivity|]. apply applyWrites_Bounds.
Qed.

(* ------------------------------------------------------------------------- *)
(** ** Header and palette table read back *)

Lemma b2z_z2b_mod (z : Z) : b2z (z2b z) = z mod 256.
Proof.
  assert (E : z2b z = z2b (z mod 256)).
  { unfold z2b, GoInt.uint8. rewrite Z.mod_mod by lia. reflexivity. }
  rewrite E. apply b2z_z2b. apply Z.mod_pos_bound. lia.
Qed.

Lemma readUint16_putUint16 (v : Z) (rest : list byte) :
  0 <= v < 65536 -> readUint16 (putUint16 v ++ rest) = Ok (v, rest).
Proof.
  intros Hv. unfold putUint16, readUint16. cbn [app].
  rewrite !b2z_z2b_mod. do 2 f_equal. dlia.
Qed.

Lemma write_colors (cs : list color.RGBA) : forall raw,
  fold_left (fun raw c => raw ++ [color.R c] ++ [color.G c] ++ [color.B c]) cs raw =
  raw ++ flat_map rgbBytes cs.
Proof.
  induction cs as [|c cs IH]; intros raw; cbn [fold_left flat_map].
  - rewrite app_nil_r. reflexivity.
  - rewrite IH, <- app_assoc. reflexivity.
Qed.

Lemma writePalettes_cases (raw : list byte) (pals : list palette) :
  match writePalettes raw pals with
  | Ok raw' =>
      Forall (fun p => len (pal_colors p) <= 255) pals /\
      raw' = raw ++ flat_map paletteBytes pals
  | Err e =>
      Exists (fun p => 255 < len (pal_colors p)) pals /\
      e = Errorf "_encode: palette size %d exceeds 255"
  end.
Proof.
  revert raw. induction pals as [|p pals IH]; intros raw; cbn [writePalettes].
  - split; [constructor|]. cbn [flat_map]. rewrite app_nil_r. reflexivity.
  - destruct (Z.ltb_spec 255 (len (pal_colors p))) as [Hgt|Hle].
    + split; [left; exact Hgt|reflexivity].
    + rewrite write_colors.
      specialize (IH ((raw ++ [z2b (len (pal_colors p))]) ++ flat_map rgbBytes (pal_colors p))).
      destruct (writePalettes _ pals) as [raw'|e].
      * destruct IH as [Hall ->]. split; [constructor; assumption|].
        cbn [flat_map]. unfold paletteBytes at 2. rewrite <- !app_assoc. reflexivity.
      * destruct IH as [Hex ->]. split; [right; exact Hex|reflexivity].
Qed.

Lemma writePalettes_inv (pals : list palette) : forall raw raw',
  writePalettes raw pals = Ok raw' ->
  Forall (fun p => len (pal_colors p) <= 255) pals /\
  raw' = raw ++ flat_map paletteBytes pals.
Proof.
  induction pals as [|p pals IH]; intros raw raw' H; cbn [writePalettes] in H.
  - inversion H. cbn [flat_map]. rewrite app_nil_r. split; [constructor|reflexivity].
  - destruct (255 <? len (pal_colors p)) eqn:E; [discriminate|].
    rewrite write_colors in H. destruct (IH _ _ H) as [Hall Hraw].
    split; [constructor; [lia|exact Hall]|].
    rewrite Hraw. cbn [flat_map]. unfold paletteBytes at 2.
    rewrite <- !app_assoc. reflexivity.
Qed.

Lemma writePalettes_ok (pals : list palette) : forall raw,
  Forall (fun p => len (pal_colors p) <= 255) pals ->
  writePalettes raw pals = Ok (raw ++ flat_map paletteBytes pals).
Proof.
  induction pals as [|p pals IH]; intros raw H; cbn [writePalettes flat_map].
  - rewrite app_nil_r. reflexivity.
  - inversion H as [|? ? Hp Hrest]; subst.
    replace (255 <? len (pal_colors p)) with false by lia.
    rewrite write_colors, (IH _ Hrest). unfold paletteBytes at 2.
    rewrite <- !app_assoc. reflexivity.
Qed.

Lemma readColors_ok (cs : list color.RGBA) (rest : list byte) :
  readColors (length cs) (flat_map rgbBytes cs ++ rest) = Ok (map opaque cs, rest).
Proof.
  induction cs as [|c cs IH]; cbn [length readColors flat_map map].
  - reflexivity.
  - unfold rgbBytes at 1. cbn [app readRGB bind]. rewrite IH. reflexivity.
Qed.

Lemma readPalettes_ok (pals : list palette) (rest : list byte) :
  Forall (fun p => len (pal_colors p) <= 255) pals ->
  readPalettes (length pals) (flat_map paletteBytes pals ++ rest) =
  Ok (map (fun p => map opaque (pal_colors p)) pals, rest).
Proof.
  induction pals as [|p pals IH]; intros H; cbn [length readPalettes flat_map map].
  - reflexivity.
  - inversion H as [|? ? Hp Hrest]; subst.
    unfold paletteBytes at 1. cbn [app]. rewrite <- app_assoc.
    pose proof (len_nonneg (pal_colors p)).
    rewrite b2z_z2b by lia.
    replace (len (pal_colors p) <? 0) with false by lia.
    unfold len at 1. rewrite Nat2Z.id, readColors_ok. cbn [bind].
    rewrite (IH Hrest). reflexivity.
Qed.

(* ------------------------------------------------------------------------- *)
(** ** Decoding what was encoded *)

Lemma index_map {A B} (f : A -> B) (l : list A) (i : Z) :
  index (map f l) i = option_map f (index l i).
Proof.
  unfold index. destruct (i <? 0); [reflexivity|]. apply nth_error_map.
Qed.

Lemma len_map {A B} (f : A -> B) (l : list A) : len (map f l) = len l.
Proof. unfold len. rewrite length_map. reflexivity. Qed.

Lemma skipn_prefix {A} (pre ext : list A) :
  skipn (Z.to_nat (len (pre ++ ext) - len ext)) (pre ++ ext) = ext.
Proof.
  rewrite len_app. replace (Z.to_nat (len pre + len ext - len ext)) with (length pre)
    by (unfold len; lia).
  rewrite skipn_app, skipn_all, Nat.sub_diag. reflexivity.
Qed.

Lemma decodePayload_of_encoded (numCPU w h : Z) (params : codec2Params)
  (pals : list palette) (leafLocal : list byte) (pattern : list bool)
  (raw1 : list byte) (bw : BitWriter) (lp pp : Z) :
  1 <= minBlock params ->
  len pals <= 65535 ->
  writePalettes (putUint16 (GoInt.uint16 (len pals))) pals = Ok raw1 ->
  encodeStripes w params (NewBitWriter raw1) leafLocal 0 pattern 0
                (splitStripes numCPU h (minBlock params)) = Ok (bw, lp, pp) ->
  (forall i local, index leafLocal i = Some local ->
     exists p, index pals (i ÷ 256) = Some p /\ b2z local < len (pal_colors p)) ->
  exists img,
    decodePayload numCPU w h params (bw_buf (Flush bw)) = Ok img /\
    image.Bounds img = image.Rect 0 0 w h.
Proof.
  intros Hmb Hnp Hwp Henc Hvalid.
  pose proof (len_nonneg pals) as Hnp0.
  destruct (writePalettes_inv _ _ _ Hwp) as [Hall Hraw1].
  assert (Eu : GoInt.uint16 (len pals) = len pals)
    by (unfold GoInt.uint16; apply Z.mod_small; lia).
  rewrite Eu in Hraw1.
  destruct (NewBitWriter_ok raw1) as [Hok0 Hw0].
  destruct (encodeStripes_forest _ _ _ _ _ _ _ _ _ _ _ Henc Hok0 ltac:(lia) ltac:(lia))
    as [ts [S1 [S2 [[ext1 S3] [S4 [S5 S6]]]]]].
  destruct (Flush_written bw S2) as [pad [F1 [ext2 F2]]].
  cbn [NewBitWriter bw_buf] in S3.
  set (payload := bw_buf (Flush bw)) in *.
  assert (Epay : payload = raw1 ++ (ext1 ++ ext2)).
  { rewrite F2, S3, app_assoc. reflexivity. }
  assert (Ebits : bytesBits (ext1 ++ ext2) = flat_map nodeBits ts ++ pad).
  { rewrite Epay, bytesBits_app, S1, Hw0, <- app_assoc in F1.
    apply app_inv_head in F1. exact F1. }
  set (tree := ext1 ++ ext2) in *.
  set (palettes := map (fun p => map opaque (pal_colors p)) pals).
  unfold decodePayload.
  assert (Elen : len payload = 2 + len (flat_map paletteBytes pals) + len tree).
  { rewrite Epay, Hraw1, !len_app. unfold putUint16, len. simpl length. lia. }
  pose proof (len_nonneg (flat_map paletteBytes pals)). pose proof (len_nonneg tree).
  replace (len payload <? 2) with false by lia.
  rewrite Epay, Hraw1, <- !app_assoc.
  rewrite readUint16_putUint16 by lia. cbn [bind].
  replace (Z.to_nat (len pals)) with (length pals) by (unfold len; lia).
  rewrite readPalettes_ok by exact Hall. cbn [bind]. fold palettes.
  rewrite !app_assoc.
  replace ((len ((putUint16 (len pals) ++ flat_map paletteBytes pals) ++ tree) - len tree <? 0)
           || (len ((putUint16 (len pals) ++ flat_map paletteBytes pals) ++ tree)
               <? len ((putUint16 (len pals) ++ flat_map paletteBytes pals) ++ tree) - len tree))
    with false by (rewrite !len_app; pose proof (len_nonneg (putUint16 (len pals))); lia).
  rewrite skipn_prefix.
  assert (Hbr : readerOk (NewBitReaderFromBytes tree) /\
                remaining (NewBitReaderFromBytes tree) = flat_map nodeBits ts ++ pad).
  { unfold readerOk, remaining, NewBitReaderFromBytes.
    cbn [br_nbit br_pos br_data br_acc]. change (0 =? 0) with true. cbn iota.
    change (Z.to_nat 0) with O. cbn [skipn app]. split; [lia|exact Ebits]. }
  destruct Hbr as [Hbr1 Hbr2].
  assert (Hres : leavesResolve palettes 0 (flat_map leavesOf ts)).
  { intros j local Hj. specialize (S6 j local Hj).
    destruct (Hvalid _ _ S6) as [p [Hp Hlt]].
    exists (map opaque (pal_colors p)). unfold palettes.
    rewrite index_map, Hp, len_map. split; [reflexivity|exact Hlt]. }
  assert (Hfuel : (length (flat_map nodeBits ts)
                   <= S (8 * length ((putUint16 (len pals) ++ flat_map paletteBytes pals)
                                     ++ tree)))%nat).
  { assert (Hl : length (bytesBits tree) = (length (flat_map nodeBits ts) + length pad)%nat)
      by (rewrite Ebits, length_app; reflexivity).
    rewrite bytesBits_length in Hl. rewrite !length_app. lia. }
  destruct (decodeStripes_forest w params palettes _ ts _ _ 0 [] pad
              Hmb S4 Hfuel Hbr1 Hbr2 ltac:(lia) Hres) as [br' [jobs [D1 D2]]].
  rewrite D1. cbn [bind].
  assert (Hjobs : Forall (jobValid palettes) jobs).
  { eapply decodeStripes_valid; [exact D1|constructor]. }
  destruct (paintLeafJobsParallel_ok numCPU (image.NewRGBA (image.Rect 0 0 w h))
              palettes jobs Hjobs) as [dst [P1 P2]].
  rewrite P1. cbn [bind]. eexists. split; [reflexivity|].
  rewrite smoothEdges_Bounds, P2. reflexivity.
Qed.

Lemma Decode_header (z : Zstd) (numCPU w h q : Z) (frame : list byte) :
  0 <= w < 65536 -> 0 <= h < 65536 -> 1 <= q <= 100 ->
  Decode z numCPU (((magicCodec2 ++ putUint16 w) ++ putUint16 h) ++ [z2b q] ++ frame) =
  (plain <- decompress z frame ;; decodePayload numCPU w h (paramsForQuality q) plain).
Proof.
  intros Hw Hh Hq. unfold Decode, magicCodec2. rewrite <- !app_assoc. cbn [app].
  cbn [firstn bytesEqb Byte.eqb negb andb skipn].
  change (Byte.eqb "B" "B") with true. change (Byte.eqb "A" "A") with true.
  change (Byte.eqb "2" "2") with true. cbn [andb negb].
  change (putUint16 w ++ putUint16 h ++ z2b q :: frame)
    with (putUint16 w ++ (putUint16 h ++ z2b q :: frame)).
  rewrite readUint16_putUint16 by lia. cbn [bind].
  rewrite readUint16_putUint16 by lia. cbn [bind].
  rewrite b2z_z2b by lia.
  replace (q <? 1) with false by lia. replace (100 <? q) with false by lia.
  reflexivity.
Qed.

Lemma clampQuality_range (q : Z) : 1 <= clampQuality q <= 100.
Proof.
  unfold clampQuality. destruct (q <? 1) eqn:E1.
  - change (100 <? 1) with false. cbn iota. lia.
  - destruct (100 <? q) eqn:E2; lia.
Qed.

Lemma uint16_range (v : Z) : 0 <= GoInt.uint16 v < 65536.
Proof. unfold GoInt.uint16. apply Z.mod_pos_bound. lia. Qed.

(** What a successful [Encode] returns: the header, then the compressed
    payload of [encodePayload]. *)
Lemma Encode_inv (z : Zstd) (numCPU : Z) (img : image.RGBA) (quality : Z)
  (art : list byte) :
  Encode z numCPU img quality = Ok art ->
  exists raw,
    encodePayload numCPU (toRGBA img)
      (GoInt.uint16 (image.Dx (image.Bounds (toRGBA img))))
      (GoInt.uint16 (image.Dy (image.Bounds (toRGBA img))))
      (paramsForQuality (clampQuality quality)) = Ok raw /\
    art = ((magicCodec2 ++ putUint16 (GoInt.uint16 (image.Dx (image.Bounds (toRGBA img)))))
           ++ putUint16 (GoInt.uint16 (image.Dy (image.Bounds (toRGBA img)))))
          ++ [z2b (clampQuality quality)] ++ compress z numCPU raw.
Proof.
  unfold Encode. fold (clampQuality quality). intros H.
  bindOk H raw H1. exists raw. split; [exact H1|].
  inversion H. rewrite <- !app_assoc. reflexivity.
Qed.

Lemma minBlock_paramsForQuality (q : Z) : minBlock (paramsForQuality q) = 1.
Proof. reflexivity. Qed.

(** The local index of every leaf exists in the palette of its group. *)
Lemma buildPalettes_locals (params : codec2Params) (leaves : list leafColor)
  (pals : list palette) (refs : list leafRef) :
  buildPalettes leaves params = Ok (pals, refs) ->
  forall i local, index (map ref_idx refs) i = Some local ->
    exists p, index pals (i ÷ 256) = Some p /\ b2z local < len (pal_colors p).
Proof.
  intros E i local Hi.
  pose proof (index_Some_lt _ _ _ Hi) as Hr. rewrite len_map in Hr.
  destruct (buildPalettes_lengths params leaves) as [pals' [refs' [E' [Hl _]]]].
  rewrite E in E'. inversion E'; subst pals' refs'. rewrite Hl in Hr.
  destruct (buildPalettes_leaf params leaves i Hr)
    as [pals' [refs' [j [P [E2 [Hj [Hp [Hlt HP]]]]]]]].
  rewrite E in E2. inversion E2; subst pals' refs'.
  rewrite index_map, Hj in Hi. cbn [option_map storedRef ref_idx snd] in Hi.
  inversion Hi. exists (mkPalette P). replace (i ÷ 256) with (i / 256) by dlia.
  split; [exact Hp|]. cbn [pal_colors]. rewrite b2z_z2b by lia. unfold len. lia.
Qed.

(** An artifact [Encode] returned decodes, to a raster of the size its
    header records, whenever the palette count fits the 16-bit field. *)
Lemma Decode_after_Encode (z : Zstd) (numCPU : Z) (img : image.RGBA) (quality : Z)
  (art : list byte) (pals : list palette) :
  Encode z numCPU img quality = Ok art ->
  encoderPalettes numCPU img quality = Ok pals ->
  len pals <= 65535 ->
  exists img',
    Decode z numCPU art = Ok img' /\
    image.Bounds img' =
      image.Rect 0 0 (GoInt.uint16 (image.Dx (image.Bounds (toRGBA img))))
                     (GoInt.uint16 (image.Dy (image.Bounds (toRGBA img)))).
Proof.
  intros HE HP Hnp.
  destruct (Encode_inv _ _ _ _ _ HE) as [raw [Hraw ->]].
  rewrite Decode_header by (try apply uint16_range; apply clampQuality_range).
  rewrite decompress_compress. cbn [bind].
  unfold encodePayload in Hraw.
  bindOk Hraw r1 H1. destruct r1 as [leaves pattern].
  bindOk Hraw r2 H2. destruct r2 as [pals' refs].
  bindOk Hraw raw1 H3.
  bindOk Hraw r3 H4. destruct r3 as [[bw lp] pp].
  inversion Hraw; subst raw.
  unfold encoderPalettes in HP. rewrite H1 in HP. cbn [bind] in HP.
  rewrite H2 in HP. cbn [bind] in HP. inversion HP; subst pals'.
  eapply decodePayload_of_encoded; try eassumption.
  - rewrite minBlock_paramsForQuality. lia.
  - eapply buildPalettes_locals. exact H2.
Qed.

(* ------------------------------------------------------------------------- *)
(** ** The second pass accepts the pattern of the first *)

Lemma sliceAt_app_inv {A} (L : list A) (pos : Z) (xs ys : list A) :
  sliceAt L pos (xs ++ ys) -> sliceAt L pos xs /\ sliceAt L (pos + len xs) ys.
Proof.
  intros H. split; intros j x Hj.
  - apply H. rewrite nth_error_app1; [exact Hj|]. apply nth_error_Some. congruence.
  - specialize (H (length xs + j)%nat x).
    rewrite nth_error_app2, Nat.add_comm, Nat.add_sub in H by lia.
    rewrite <- (H Hj). f_equal. unfold len. lia.
Qed.

Lemma sliceAt_cons_inv {A} (L : list A) (pos : Z) (x : A) (xs : list A) :
  sliceAt L pos (x :: xs) -> index L pos = Some x /\ sliceAt L (pos + 1) xs.
Proof.
  intros H. split.
  - specialize (H O x eq_refl). rewrite Z.add_0_r in H. exact H.
  - intros j y Hj. specialize (H (S j) y Hj). rewrite <- H. f_equal. lia.
Qed.

Lemma sliceAt_nil {A} (L : list A) (pos : Z) : sliceAt L pos [].
Proof. intros j x Hj. destruct j; discriminate. Qed.

Lemma collect_then_encode (img : image.RGBA) (params : codec2Params) (fuel : nat) :
  forall x y w h L0 P0 L1 P1,
  collectRegionColors fuel img x y w h params L0 P0 = Ok (L1, P1) ->
  exists dl dp,
    L1 = L0 ++ dl /\ P1 = P0 ++ dp /\
    forall efuel bw leafLocal lp pattern pp,
      (length dp <= efuel)%nat -> 0 <= lp -> 0 <= pp ->
      sliceAt pattern pp dp -> lp + len dl <= len leafLocal ->
      exists bw',
        encodeRegion efuel x y w h params bw leafLocal lp pattern pp =
          Ok (bw', lp + len dl, pp + len dp).
Proof.
  assert (Leaf_case : forall x y w h (c0 : leafColor),
    forall efuel bw leafLocal lp pattern pp,
      (length [true] <= efuel)%nat -> 0 <= lp -> 0 <= pp ->
      sliceAt pattern pp [true] -> lp + len [c0] <= len leafLocal ->
      exists bw',
        encodeRegion efuel x y w h params bw leafLocal lp pattern pp =
          Ok (bw', lp + len [c0], pp + len [true])).
  { intros x y w h c0 efuel bw leafLocal lp pattern pp Hf Hlp Hpp Hs Hl.
    destruct efuel as [|efuel]; [simpl in Hf; lia|].
    apply sliceAt_cons_inv in Hs. destruct Hs as [Hp _].
    pose proof (index_Some_lt _ _ _ Hp) as Hpr.
    unfold len in Hl at 1. simpl length in Hl.
    destruct (index_lt_Some leafLocal lp ltac:(lia)) as [local Hloc].
    cbn [encodeRegion]. replace (len pattern <=? pp) with false by lia.
    rewrite Hp. replace (len leafLocal <=? lp) with false by lia.
    rewrite Hloc. eexists. reflexivity. }
  induction fuel as [|fuel IH]; intros x y w h L0 P0 L1 P1 H; [discriminate|].
  cbn [collectRegionColors] in H.
  destruct (analyzeBlock img x y w h) as [[[energy be] ie] avg].
  destruct ((w <=? minBlock params) && (h <=? minBlock params)).
  { inversion H; subst. exists [mkLeafColor avg], [true].
    split; [reflexivity|]. split; [reflexivity|]. apply Leaf_case. }
  destruct (energy =? 0).
  { inversion H; subst. exists [mkLeafColor avg], [true].
    split; [reflexivity|]. split; [reflexivity|]. apply Leaf_case. }
  destruct (negb (edgeDominated params w h be ie) && (energy <=? maxGrad params)
            && (w <=? GoInt.mul64 4 (minBlock params))
            && (h <=? GoInt.mul64 4 (minBlock params))).
  { inversion H; subst. exists [mkLeafColor avg], [true].
    split; [reflexivity|]. split; [reflexivity|]. apply Leaf_case. }
  destruct ((h <=? w) && (minBlock params <=? w ÷ 2)) eqn:Ec.
  - bindOk H r1 H1. destruct r1 as [La Pa].
    destruct (IH _ _ _ _ _ _ _ _ H1) as [dla [dpa [-> [-> Ha]]]].
    destruct (IH _ _ _ _ _ _ _ _ H) as [dlb [dpb [-> [-> Hb]]]].
    exists (dla ++ dlb), (false :: dpa ++ dpb).
    split; [rewrite app_assoc; reflexivity|].
    split; [rewrite <- !app_assoc; reflexivity|].
    intros efuel bw leafLocal lp pattern pp Hf Hlp Hpp Hs Hl.
    destruct efuel as [|efuel]; [simpl in Hf; lia|].
    cbn [length] in Hf. rewrite length_app in Hf.
    apply sliceAt_cons_inv in Hs. destruct Hs as [Hp Hs].
    apply sliceAt_app_inv in Hs. destruct Hs as [Hsa Hsb].
    pose proof (index_Some_lt _ _ _ Hp) as Hpr.
    rewrite len_app in Hl.
    pose proof (len_nonneg dla). pose proof (len_nonneg dlb).
    pose proof (len_nonneg dpa). pose proof (len_nonneg dpb).
    cbn [encodeRegion]. replace (len pattern <=? pp) with false by lia.
    rewrite Hp, Ec.
    destruct (Ha efuel (WriteBit bw false) leafLocal lp pattern (pp + 1)
                 ltac:(lia) Hlp ltac:(lia) Hsa ltac:(lia)) as [bw1 E1].
    rewrite E1. cbn [bind].
    destruct (Hb efuel bw1 leafLocal (lp + len dla) pattern (pp + 1 + len dpa)
                 ltac:(lia) ltac:(lia) ltac:(lia) Hsb ltac:(lia)) as [bw2 E2].
    rewrite E2. exists bw2. rewrite len_cons, !len_app, !Z.add_assoc. reflexivity.
  - destruct (h ÷ 2 <? minBlock params) eqn:Eh.
    { inversion H; subst. exists [mkLeafColor avg], [true].
      split; [reflexivity|]. split; [reflexivity|]. apply Leaf_case. }
    bindOk H r1 H1. destruct r1 as [La Pa].
    destruct (IH _ _ _ _ _ _ _ _ H1) as [dla [dpa [-> [-> Ha]]]].
    destruct (IH _ _ _ _ _ _ _ _ H) as [dlb [dpb [-> [-> Hb]]]].
    exists (dla ++ dlb), (false :: dpa ++ dpb).
    split; [rewrite app_assoc; reflexivity|].
    split; [rewrite <- !app_assoc; reflexivity|].
    intros efuel bw leafLocal lp pattern pp Hf Hlp Hpp Hs Hl.
    destruct efuel as [|efuel]; [simpl in Hf; lia|].
    cbn [length] in Hf. rewrite length_app in Hf.
    apply sliceAt_cons_inv in Hs. destruct Hs as [Hp Hs].
    apply sliceAt_app_inv in Hs. destruct Hs as [Hsa Hsb].
    pose proof (index_Some_lt _ _ _ Hp) as Hpr.
    rewrite len_app in Hl.
    pose proof (len_nonneg dla). pose proof (len_nonneg dlb).
    pose proof (len_nonneg dpa). pose proof (len_nonneg dpb).
    cbn [encodeRegion]. replace (len pattern <=? pp) with false by lia.
    rewrite Hp, Ec, Eh.
    destruct (Ha efuel (WriteBit bw false) leafLocal lp pattern (pp + 1)
                 ltac:(lia) Hlp ltac:(lia) Hsa ltac:(lia)) as [bw1 E1].
    rewrite E1. cbn [bind].
    destruct (Hb efuel bw1 leafLocal (lp + len dla) pattern (pp + 1 + len dpa)
                 ltac:(lia) ltac:(lia) ltac:(lia) Hsb ltac:(lia)) as [bw2 E2].
    rewrite E2. exists bw2. rewrite len_cons, !len_app, !Z.add_assoc. reflexivity.
Qed.

Lemma stripes_fold_length (base rem : Z) (l : list Z) : forall acc y,
  length (fst (fold_left
                 (fun (st : list stripeInfo * Z) i =>
                    let '(stripes, y) := st in
                    let h := base in
                    let h := if i <? rem then h + 1 else h in
                    (stripes ++ [mkStripe y h], y + h))
                 l (acc, y))) = (length acc + length l)%nat.
Proof.
  induction l as [|i l IH]; intros acc y; cbn [fold_left].
  - simpl. lia.
  - rewrite IH, length_app. simpl. lia.
Qed.

Lemma splitStripes_cases (numCPU H mb : Z) :
  0 <= H ->
  splitStripes numCPU H mb = [mkStripe 0 H] \/
  (2 <= length (splitStripes numCPU H mb))%nat.
Proof.
  intros HH. unfold splitStripes.
  destruct (H <=? 0) eqn:E0.
  - left. replace H with 0 by lia. reflexivity.
  - set (n1 := if numCPU <? 1 then 1 else numCPU).
    set (m1 := if H ÷ mb <? 1 then 1 else H ÷ mb).
    set (n2 := if m1 <? n1 then m1 else n1).
    assert (Hn2 : 1 <= n2).
    { unfold n2, m1, n1.
      destruct (numCPU <? 1) eqn:E1; destruct (H ÷ mb <? 1) eqn:E2;
        match goal with |- 1 <= (if ?c then _ else _) => destruct c eqn:E3 end; lia. }
    destruct (n2 =? 1) eqn:E1; [left; reflexivity|].
    right. rewrite stripes_fold_length. unfold zrange. rewrite length_zrangeFrom.
    simpl length. lia.
Qed.

Lemma sliceAt_self {A} (L : list A) : sliceAt L 0 L.
Proof.
  intros j x Hj. rewrite index_nth_error by lia.
  replace (Z.to_nat (0 + Z.of_nat j)) with j by lia. exact Hj.
Qed.

Lemma sliceAt_short {A} (L : list A) (pos : Z) (xs : list A) :
  0 <= pos -> sliceAt L pos xs -> (length xs <= length L)%nat.
Proof.
  intros Hpos H. destruct xs as [|x xs]; [simpl; lia|].
  destruct (nth_error (x :: xs) (length xs)) as [a|] eqn:E.
  - specialize (H _ _ E). apply index_Some_lt in H. unfold len in H. simpl length. lia.
  - apply nth_error_None in E. simpl in E. lia.
Qed.

Lemma collectRegionColors_regionFuel (img : image.RGBA) (params : codec2Params)
  (x y w h : Z) :
  exists run, collectRegionColors (regionFuel w h) img x y w h params [] [] = Ok run.
Proof.
  destruct (collectRegionColors_total (Z.to_nat w + Z.to_nat h) img params x y w h [] []
              ltac:(lia)) as [run H].
  exists run. apply H. lia.
Qed.

Lemma firstErr_map_Ok {A} (l : list A) : firstErr (map Ok l) = None.
Proof. induction l as [|a l IH]; simpl; [reflexivity|exact IH]. Qed.

Lemma okValues_map_Ok {A} (l : list A) : okValues (map Ok l) = l.
Proof. induction l as [|a l IH]; simpl; [reflexivity|rewrite IH; reflexivity]. Qed.

Lemma collectRegionColorsStriped_runs (numCPU : Z) (img : image.RGBA)
  (params : codec2Params) :
  0 <= image.Dy (image.Bounds img) ->
  exists runs,
    stripeRuns img (image.Dx (image.Bounds img)) params
      (splitStripes numCPU (image.Dy (image.Bounds img)) (minBlock params)) runs /\
    collectRegionColorsStriped numCPU img params =
      Ok (concat (map fst runs), concat (map snd runs)).
Proof.
  intros HH. unfold collectRegionColorsStriped.
  set (W := image.Dx (image.Bounds img)). set (H := image.Dy (image.Bounds img)) in *.
  destruct (splitStripes_cases numCPU H (minBlock params) HH) as [E|E].
  - rewrite E. cbn [length]. change (Z.of_nat 1 =? 1) with true. cbn iota.
    destruct (collectRegionColors_regionFuel img params 0 0 W H) as [[l p] Hrun].
    exists [(l, p)]. split.
    + constructor; [|constructor]. exists (regionFuel W H). exact Hrun.
    + rewrite Hrun. cbn [map concat fst snd]. rewrite !app_nil_r. reflexivity.
  - replace (Z.of_nat (length (splitStripes numCPU H (minBlock params))) =? 1)
      with false by lia.
    generalize (splitStripes numCPU H (minBlock params)) as stripes. clear E.
    intros stripes.
    assert (G : exists runs,
              stripeRuns img W params stripes runs /\
              map (fun s => collectRegionColors (regionFuel W (stripe_h s)) img 0
                              (stripe_y s) W (stripe_h s) params [] []) stripes =
              map Ok runs).
    { induction stripes as [|s stripes IH].
      - exists []. split; [constructor|reflexivity].
      - destruct IH as [runs [R1 R2]].
        destruct (collectRegionColors_regionFuel img params 0 (stripe_y s) W (stripe_h s))
          as [run Hrun].
        exists (run :: runs). split.
        + constructor; [|exact R1]. exists (regionFuel W (stripe_h s)). exact Hrun.
        + cbn [map]. rewrite Hrun, R2. reflexivity. }
    destruct G as [runs [R1 R2]]. exists runs. split; [exact R1|].
    rewrite R2.
    rewrite firstErr_map_Ok, okValues_map_Ok. reflexivity.
Qed.

Lemma encodeStripes_runs (img : image.RGBA) (w : Z) (params : codec2Params)
  (leafLocal : list byte) (pattern : list bool) (stripes : list stripeInfo) :
  forall runs bw lp pp,
  stripeRuns img w params stripes runs ->
  0 <= lp -> 0 <= pp ->
  sliceAt pattern pp (concat (map snd runs)) ->
  lp + len (concat (map fst runs)) <= len leafLocal ->
  exists r, encodeStripes w params bw leafLocal lp pattern pp stripes = Ok r.
Proof.
  induction stripes as [|s stripes IH]; intros runs bw lp pp Hruns Hlp Hpp Hs Hl;
    inversion Hruns as [|s' run ss runs' [fuel Hrun] Hrest]; subst.
  - eexists. reflexivity.
  - cbn [map concat] in Hs, Hl. destruct run as [l p]. cbn [fst snd] in Hs, Hl.
    apply sliceAt_app_inv in Hs. destruct Hs as [Hs1 Hs2].
    rewrite len_app in Hl.
    pose proof (len_nonneg l). pose proof (len_nonneg p).
    pose proof (len_nonneg (concat (map fst runs'))).
    destruct (collect_then_encode img params fuel _ _ _ _ _ _ _ _ Hrun)
      as [dl [dp [Edl [Edp Henc]]]].
    cbn [app] in Edl, Edp. subst dl dp.
    destruct (Henc (S (length pattern)) bw leafLocal lp pattern pp
                ltac:(pose proof (sliceAt_short _ _ _ Hpp Hs1); lia)
                Hlp Hpp Hs1 ltac:(lia)) as [bw1 E1].
    cbn [encodeStripes]. rewrite E1. cbn [bind].
    apply (IH runs'); try assumption; lia.
Qed.

Lemma toRGBA_Bounds (img : image.RGBA) :
  0 <= image.Dx (image.Bounds img) -> 0 <= image.Dy (image.Bounds img) ->
  image.Bounds (toRGBA img) =
    image.Rect 0 0 (image.Dx (image.Bounds img)) (image.Dy (image.Bounds img)) /\
  image.Dx (image.Bounds (toRGBA img)) = image.Dx (image.Bounds img) /\
  image.Dy (image.Bounds (toRGBA img)) = image.Dy (image.Bounds img).
Proof.
  intros Hw Hh. unfold toRGBA. cbn [image.Bounds]. split; [reflexivity|].
  unfold image.Rect.
  replace (image.Dx (image.Bounds img) <? 0) with false by lia.
  replace (image.Dy (image.Bounds img) <? 0) with false by lia.
  split.
  - unfold image.Dx at 1. cbn [image.Max image.Min image.X]. lia.
  - unfold image.Dy at 1. cbn [image.Max image.Min image.Y]. lia.
Qed.

(** [Encode] fails by the palette-size guard only. *)
Lemma Encode_succeeds (z : Zstd) (numCPU : Z) (img : image.RGBA) (quality : Z)
  (pals : list palette) :
  0 <= image.Dx (image.Bounds img) < 65536 ->
  0 <= image.Dy (image.Bounds img) < 65536 ->
  encoderPalettes numCPU img quality = Ok pals ->
  Forall (fun p => len (pal_colors p) <= 255) pals ->
  exists art, Encode z numCPU img quality = Ok art.
Proof.
  intros HW HH HP Hsmall.
  destruct (toRGBA_Bounds img ltac:(lia) ltac:(lia)) as [_ [EW EH]].
  unfold Encode. fold (clampQuality quality).
  set (params := paramsForQuality (clampQuality quality)) in *.
  set (rgba := toRGBA img) in *.
  assert (Eu1 : GoInt.uint16 (image.Dx (image.Bounds rgba)) = image.Dx (image.Bounds rgba))
    by (unfold GoInt.uint16; apply Z.mod_small; lia).
  assert (Eu2 : GoInt.uint16 (image.Dy (image.Bounds rgba)) = image.Dy (image.Bounds rgba))
    by (unfold GoInt.uint16; apply Z.mod_small; lia).
  rewrite Eu1, Eu2.
  destruct (collectRegionColorsStriped_runs numCPU rgba params ltac:(lia))
    as [runs [Hruns Hcol]].
  unfold encoderPalettes in HP. fold params rgba in HP.
  rewrite Hcol in HP. cbn [bind] in HP.
  destruct (buildPalettes_lengths params (concat (map fst runs)))
    as [pals' [refs [Ebp [Hlr _]]]].
  rewrite Ebp in HP. cbn [bind] in HP. inversion HP; subst pals'.
  unfold encodePayload. rewrite Hcol. cbn [bind]. rewrite Ebp. cbn [bind].
  rewrite (writePalettes_ok pals _ Hsmall). cbn [bind].
  destruct (encodeStripes_runs rgba (image.Dx (image.Bounds rgba)) params
              (map ref_idx refs) (concat (map snd runs)) _ runs
              (NewBitWriter (putUint16 (GoInt.uint16 (len pals))
                             ++ flat_map paletteBytes pals)) 0 0
              Hruns ltac:(lia) ltac:(lia) (sliceAt_self _)
              ltac:(rewrite len_map; lia)) as [[[bw lp] pp] Henc].
  rewrite Henc. cbn [bind]. eexists. reflexivity.
Qed.

(* ------------------------------------------------------------------------- *)
(** ** Round trip *)

Lemma encoderPalettes_total (numCPU : Z) (img : image.RGBA) (quality : Z) :
  0 <= image.Dx (image.Bounds img) -> 0 <= image.Dy (image.Bounds img) ->
  exists pals, encoderPalettes numCPU img quality = Ok pals.
Proof.
  intros HW HH. destruct (toRGBA_Bounds img HW HH) as [_ [_ EH]].
  unfold encoderPalettes.
  destruct (collectRegionColorsStriped_runs numCPU (toRGBA img)
              (paramsForQuality (clampQuality quality)) ltac:(lia)) as [runs [_ Hcol]].
  rewrite Hcol. cbn [bind].
  destruct (buildPalettes_lengths (paramsForQuality (clampQuality quality))
              (concat (map fst runs))) as [pals [refs [E _]]].
  rewrite E. cbn [bind]. exists pals. reflexivity.
Qed.

(** [Encode] stops at its guard when a palette does not fit its size byte. *)
Lemma Encode_refuses_full_palette (z : Zstd) (numCPU : Z) (img : image.RGBA)
  (quality : Z) (pals : list palette) :
  encoderPalettes numCPU img quality = Ok pals ->
  Exists (fun p => 255 < len (pal_colors p)) pals ->
  Encode z numCPU img quality = Err (Errorf "_encode: palette size %d exceeds 255").
Proof.
  intros HP Hex. unfold encoderPalettes in HP.
  bindOk HP r1 H1. destruct r1 as [leaves pattern].
  bindOk HP r2 H2. destruct r2 as [pals' refs]. inversion HP; subst pals'. clear HP.
  unfold Encode. fold (clampQuality quality). cbv zeta.
  unfold encodePayload. rewrite H1. cbn [bind]. rewrite H2. cbn [bind].
  pose proof (writePalettes_cases (putUint16 (GoInt.uint16 (len pals))) pals) as HW.
  destruct (writePalettes (putUint16 (GoInt.uint16 (len pals))) pals) as [raw1|e].
  - exfalso. destruct HW as [Hall _].
    apply Exists_exists in Hex. destruct Hex as [p [Hin Hp]].
    rewrite Forall_forall in Hall. specialize (Hall p Hin). lia.
  - destruct HW as [_ ->]. reflexivity.
Qed.

(** C1 (amended): for every raster with width and height at most 65535 and
    every quality: if no palette the encoder builds has 256 entries and
    there are at most 65535 palettes, then [Encode] returns an artifact and
    [Decode] of it, with the same worker count, returns a raster of the same
    width and height; and if a palette has 256 entries, [Encode] refuses the
    raster with its palette-size error. *)
Theorem roundtrip_keeps_size (z : Zstd) (numCPU : Z) (img : image.RGBA) (quality : Z)
  (pals : list palette) :
  0 <= image.Dx (image.Bounds img) <= 65535 ->
  0 <= image.Dy (image.Bounds img) <= 65535 ->
  encoderPalettes numCPU img quality = Ok pals ->
  (Forall (fun p => len (pal_colors p) <= 255) pals ->
   len pals <= 65535 ->
   exists art img',
     Encode z numCPU img quality = Ok art /\
     Decode z numCPU art = Ok img' /\
     image.Bounds img' =
       image.Rect 0 0 (image.Dx (image.Bounds img)) (image.Dy (image.Bounds img)))
  /\
  (Exists (fun p => 255 < len (pal_colors p)) pals ->
   Encode z numCPU img quality = Err (Errorf "_encode: palette size %d exceeds 255")).
Proof.
  intros HW HH HP. split.
  - intros Hsmall Hcount.
    destruct (Encode_succeeds z numCPU img quality pals ltac:(lia) ltac:(lia) HP Hsmall)
      as [art HE].
    destruct (Decode_after_Encode z numCPU img quality art pals HE HP Hcount)
      as [img' [HD HB]].
    exists art, img'. split; [exact HE|]. split; [exact HD|].
    destruct (toRGBA_Bounds img ltac:(lia) ltac:(lia)) as [_ [EW EH]].
    rewrite HB, EW, EH. unfold GoInt.uint16. rewrite !Z.mod_small by lia. reflexivity.
  - apply Encode_refuses_full_palette. exact HP.
Qed.

Lemma roundtrip_keeps_size_witness :
  (exists art img',
     Encode storeZstd 1 (flatImage 4 4 (rgb 200 100 50)) 50 = Ok art /\
     Decode storeZstd 1 art = Ok img' /\
     image.Bounds img' =
       image.Rect 0 0 (image.Dx (image.Bounds (flatImage 4 4 (rgb 200 100 50))))
                      (image.Dy (image.Bounds (flatImage 4 4 (rgb 200 100 50)))))
  /\
  Encode storeZstd 1 manyColors 100 = Err (Errorf "_encode: palette size %d exceeds 255").
Proof.
  split.
  - apply (roundtrip_keeps_size storeZstd 1 (flatImage 4 4 (rgb 200 100 50)) 50
             [mkPalette [rgb 200 100 50]]).
    + vm_compute. split; discriminate.
    + vm_compute. split; discriminate.
    + vm_compute. reflexivity.
    + constructor; [vm_compute; discriminate|constructor].
    + vm_compute. discriminate.
  - eapply (roundtrip_keeps_size storeZstd 1 manyColors 100).
    + vm_compute. split; discriminate.
    + vm_compute. split; discriminate.
    + vm_compute. reflexivity.
    + apply Exists_cons_hd. vm_compute. reflexivity.
Defined.

(** C1, as stated, fails at [manyColors], quality 100: its 256 pixels become
    256 leaves of one group with 256 palette entries, and [Encode] stops at
    its guard on the one-byte palette size. *)
Lemma full_palette_stops_Encode :
  image.Dx (image.Bounds manyColors) = 256 /\
  image.Dy (image.Bounds manyColors) = 1 /\
  Encode storeZstd 1 manyColors 100 = Err (Errorf "_encode: palette size %d exceeds 255").
Proof.
  split; [reflexivity|]. split; [reflexivity|]. vm_compute. reflexivity.
Qed.

(* ------------------------------------------------------------------------- *)
(** ** Sizes beyond 16 bits *)

Lemma decodePayload_Bounds (numCPU w h : Z) (params : codec2Params) (plain : list byte)
  (img : image.RGBA) :
  decodePayload numCPU w h params plain = Ok img ->
  image.Bounds img = image.Rect 0 0 w h.
Proof.
  intros H. destruct (decodePayload_paints _ _ _ _ _ _ H) as [palettes [jobs [ws [_ ->]]]].
  rewrite smoothEdges_Bounds, applyWrites_Bounds. reflexivity.
Qed.

(** What an artifact records: whenever [Encode] returns one, the header
    holds the width and the height reduced modulo 65536, and every raster
    decoded from the artifact has that reduced size. *)
Theorem header_records_size_mod_65536 (z : Zstd) (numCPU : Z) (img : image.RGBA)
  (quality : Z) (art : list byte) :
  0 <= image.Dx (image.Bounds img) -> 0 <= image.Dy (image.Bounds img) ->
  Encode z numCPU img quality = Ok art ->
  (exists frame,
     art = ((magicCodec2 ++ putUint16 (image.Dx (image.Bounds img) mod 65536))
            ++ putUint16 (image.Dy (image.Bounds img) mod 65536))
           ++ [z2b (clampQuality quality)] ++ frame) /\
  (forall z' numCPU' img',
     Decode z' numCPU' art = Ok img' ->
     image.Bounds img' =
       image.Rect 0 0 (image.Dx (image.Bounds img) mod 65536)
                      (image.Dy (image.Bounds img) mod 65536)).
Proof.
  intros HW HH HE.
  destruct (toRGBA_Bounds img HW HH) as [_ [EW EH]].
  destruct (Encode_inv _ _ _ _ _ HE) as [raw [_ Hart]].
  rewrite EW, EH in Hart. unfold GoInt.uint16 in Hart.
  split; [eexists; exact Hart|].
  intros z' numCPU' img' HD. rewrite Hart in HD.
  rewrite Decode_header in HD
    by (try (apply Z.mod_pos_bound; lia); apply clampQuality_range).
  bindOk HD plain Hp. eapply decodePayload_Bounds. exact HD.
Qed.

Lemma header_records_size_mod_65536_witness :
  (exists frame,
     magicCodec2 ++ [x00; x00; x00; x01; x32; x00; x01; x01; x01; x02; x03; x80; x00] =
       ((magicCodec2
         ++ putUint16 (image.Dx (image.Bounds (flatImage 65536 1 (rgb 1 2 3))) mod 65536))
        ++ putUint16 (image.Dy (image.Bounds (flatImage 65536 1 (rgb 1 2 3))) mod 65536))
       ++ [z2b (clampQuality 50)] ++ frame) /\
  (forall z' numCPU' img',
     Decode z' numCPU'
       (magicCodec2 ++ [x00; x00; x00; x01; x32; x00; x01; x01; x01; x02; x03; x80; x00])
       = Ok img' ->
     image.Bounds img' =
       image.Rect 0 0 (image.Dx (image.Bounds (flatImage 65536 1 (rgb 1 2 3))) mod 65536)
                      (image.Dy (image.Bounds (flatImage 65536 1 (rgb 1 2 3))) mod 65536)).
Proof.
  apply (header_records_size_mod_65536 storeZstd 1 (flatImage 65536 1 (rgb 1 2 3)) 50).
  - vm_compute. discriminate.
  - vm_compute. discriminate.
  - vm_compute. reflexivity.
Defined.

(** C9 (a defect of the code): [Encode] has no size check and is written to
    store the truncated size, yet at [wideImage], 65536 pixels wide, it
    fails.  The first pass walks the full bounds of the raster and finds an
    internal node at the root; the second pass is called with the width
    [uint16 65536 = 0] and stops at the error that the comment in
    [encodeRegion] calls unreachable. *)
Lemma oversize_Encode_can_fail :
  65535 < image.Dx (image.Bounds wideImage) /\
  (exists leaves pattern,
     collectRegionColorsStriped 1 (toRGBA wideImage) (paramsForQuality (clampQuality 50))
     = Ok (leaves, false :: pattern)) /\
  GoInt.uint16 (image.Dx (image.Bounds (toRGBA wideImage))) = 0 /\
  Encode storeZstd 1 wideImage 50 =
    Err (Errorf "encodeRegion: inconsistent pattern/geometry (h1 < minBlock for internal node)").
Proof.
  split; [reflexivity|].
  split; [eexists _, _; vm_compute; reflexivity|].
  split; [reflexivity|]. vm_compute. reflexivity.
Qed.

(* ------------------------------------------------------------------------- *)
(** ** The worker count is not in the artifact *)

(** C2 fails on the code: an artifact written with two workers holds two
    stripes of two rows; a decoder with one worker computes one stripe of
    four rows, reads the first leaf as the whole picture and returns an
    all-black raster, where a decoder with two workers returns the white
    bottom row. *)
Lemma decoder_stripes_follow_its_own_cpu_count :
  splitStripes 2 4 1 = [mkStripe 0 2; mkStripe 2 2] /\
  splitStripes 1 4 1 = [mkStripe 0 4] /\
  exists art img1 img2,
    Encode storeZstd 2 twoTone 50 = Ok art /\
    Decode storeZstd 1 art = Ok img1 /\
    Decode storeZstd 2 art = Ok img2 /\
    image.RGBAAt img1 0 3 = rgb 0 0 0 /\
    image.RGBAAt img2 0 3 = rgb 255 255 255.
Proof.
  split; [reflexivity|]. split; [reflexivity|].
  eexists _, _, _.
  split; [vm_compute; reflexivity|].
  split; [vm_compute; reflexivity|].
  split; [vm_compute; reflexivity|].
  split; vm_compute; reflexivity.
Qed.

(* ------------------------------------------------------------------------- *)
(** ** The flat 4 by 4 raster *)

Lemma splitStripes_4 (n : Z) :
  splitStripes n 4 1 = splitStripes (Z.max 1 (Z.min n 4)) 4 1.
Proof.
  unfold splitStripes.
  change (4 <=? 0) with false. change (4 ÷ 1) with 4. change (4 <? 1) with false.
  cbv iota zeta.
  assert (E : (if 4 <? (if n <? 1 then 1 else n) then 4 else if n <? 1 then 1 else n)
              = Z.max 1 (Z.min n 4)).
  { destruct (Z.ltb_spec n 1); [simpl; lia|]. destruct (Z.ltb_spec 4 n); lia. }
  assert (E' : (if 4 <? (if Z.max 1 (Z.min n 4) <? 1 then 1 else Z.max 1 (Z.min n 4))
                then 4 else if Z.max 1 (Z.min n 4) <? 1 then 1 else Z.max 1 (Z.min n 4))
              = Z.max 1 (Z.min n 4)).
  { destruct (Z.ltb_spec (Z.max 1 (Z.min n 4)) 1); [lia|].
    destruct (Z.ltb_spec 4 (Z.max 1 (Z.min n 4))); lia. }
  rewrite E, E'. reflexivity.
Qed.

Lemma paintWrites_workers (n n' : Z) (bounds : image.Rectangle)
  (palettes : list (list color.RGBA)) (jobs : list leafJob) :
  Z.min (Z.max n 1) (len jobs) = Z.min (Z.max n' 1) (len jobs) ->
  paintWrites n bounds palettes jobs = paintWrites n' bounds palettes jobs.
Proof.
  intros H. unfold paintWrites.
  destruct (len jobs =? 0); [reflexivity|].
  assert (E : forall m, (if len jobs <? (if m <? 1 then 1 else m) then len jobs
                         else if m <? 1 then 1 else m) = Z.min (Z.max m 1) (len jobs)).
  { intros m. destruct (Z.ltb_spec m 1).
    - destruct (Z.ltb_spec (len jobs) 1); lia.
    - destruct (Z.ltb_spec (len jobs) m); lia. }
  cbv zeta. rewrite !E, H. reflexivity.
Qed.

Lemma encodePayload_stripes (n n' : Z) (rgba : image.RGBA) (w h : Z) (params : codec2Params) :
  splitStripes n (image.Dy (image.Bounds rgba)) (minBlock params) =
    splitStripes n' (image.Dy (image.Bounds rgba)) (minBlock params) ->
  splitStripes n h (minBlock params) = splitStripes n' h (minBlock params) ->
  encodePayload n rgba w h params = encodePayload n' rgba w h params.
Proof.
  intros H1 H2. unfold encodePayload, collectRegionColorsStriped.
  cbv zeta. rewrite H1, H2. reflexivity.
Qed.

Lemma collectRegionColorsStriped_stripes (n n' : Z) (rgba : image.RGBA)
  (params : codec2Params) :
  splitStripes n (image.Dy (image.Bounds rgba)) (minBlock params) =
    splitStripes n' (image.Dy (image.Bounds rgba)) (minBlock params) ->
  collectRegionColorsStriped n rgba params = collectRegionColorsStriped n' rgba params.
Proof.
  intros H. unfold collectRegionColorsStriped. cbv zeta. rewrite H. reflexivity.
Qed.

Lemma Encode_of_payload (z : Zstd) (numCPU : Z) (img : image.RGBA) (quality : Z)
  (raw : list byte) :
  encodePayload numCPU (toRGBA img)
    (GoInt.uint16 (image.Dx (image.Bounds (toRGBA img))))
    (GoInt.uint16 (image.Dy (image.Bounds (toRGBA img))))
    (paramsForQuality (clampQuality quality)) = Ok raw ->
  Encode z numCPU img quality =
    Ok (((magicCodec2 ++ putUint16 (GoInt.uint16 (image.Dx (image.Bounds (toRGBA img)))))
         ++ putUint16 (GoInt.uint16 (image.Dy (image.Bounds (toRGBA img)))))
        ++ [z2b (clampQuality quality)] ++ compress z numCPU raw).
Proof.
  intros H. unfold Encode. fold (clampQuality quality). cbv zeta.
  rewrite H. cbn [bind]. rewrite <- !app_assoc. reflexivity.
Qed.

Lemma decodePayload_steps (n w h : Z) (params : codec2Params) (plain : list byte)
  (np : Z) (r1 reader : list byte) (palettes : list (list color.RGBA))
  (br : BitReader) (lc : Z) (jobs : list leafJob) (ws : list (Z * Z * color.RGBA)) :
  2 <= len plain ->
  readUint16 plain = Ok (np, r1) ->
  readPalettes (Z.to_nat np) r1 = Ok (palettes, reader) ->
  0 <= len plain - len reader <= len plain ->
  decodeStripes (S (8 * length plain)) w params
    (NewBitReaderFromBytes (skipn (Z.to_nat (len plain - len reader)) plain))
    palettes 0 [] (splitStripes n h (minBlock params)) = Ok (br, lc, jobs) ->
  paintWrites n (image.Rect 0 0 w h) palettes jobs = Ok ws ->
  decodePayload n w h params plain =
    Ok (smoothEdges (applyWrites (image.NewRGBA (image.Rect 0 0 w h)) ws) (maxGrad params)).
Proof.
  intros H0 H1 H2 H3 H4 H5. unfold decodePayload, paintLeafJobsParallel. cbv zeta.
  destruct (Z.ltb_spec (len plain) 2); [lia|].
  rewrite H1. cbn [bind]. rewrite H2. cbn [bind].
  destruct (Z.ltb_spec (len plain - len reader) 0); [lia|].
  destruct (Z.ltb_spec (len plain) (len plain - len reader)); [lia|].
  cbn [orb]. rewrite H4. cbn [bind].
  change (image.Bounds (image.NewRGBA (image.Rect 0 0 w h))) with (image.Rect 0 0 w h).
  rewrite H5. reflexivity.
Qed.

(** The flat 4 by 4 raster with [k] stripes, [k] from 1 to 4. *)
Lemma flat_4x4_stripes (k : Z) :
  1 <= k <= 4 ->
  len (splitStripes k 4 1) = k /\
  collectRegionColorsStriped k (toRGBA (flatImage 4 4 (rgb 200 100 50)))
    (paramsForQuality 50) =
    Ok (repeat (mkLeafColor (rgb 200 100 50)) (Z.to_nat k), repeat true (Z.to_nat k)) /\
  exists raw np r1 reader br lc jobs ws,
    encodePayload k (toRGBA (flatImage 4 4 (rgb 200 100 50))) 4 4 (paramsForQuality 50)
      = Ok raw /\
    2 <= len raw /\
    readUint16 raw = Ok (np, r1) /\
    readPalettes (Z.to_nat np) r1 = Ok ([[rgb 200 100 50]], reader) /\
    0 <= len raw - len reader <= len raw /\
    decodeStripes (S (8 * length raw)) 4 (paramsForQuality 50)
      (NewBitReaderFromBytes (skipn (Z.to_nat (len raw - len reader)) raw))
      [[rgb 200 100 50]] 0 [] (splitStripes k 4 1) = Ok (br, lc, jobs) /\
    len jobs = k /\
    paintWrites k (image.Rect 0 0 4 4) [[rgb 200 100 50]] jobs = Ok ws /\
    forall x y, 0 <= x < 4 -> 0 <= y < 4 ->
      image.RGBAAt (applyWrites (image.NewRGBA (image.Rect 0 0 4 4)) ws) x y
        = rgb 200 100 50 /\
      image.RGBAAt
        (smoothEdges (applyWrites (image.NewRGBA (image.Rect 0 0 4 4)) ws) 51) x y
        = rgb 200 100 50.
Proof.
  intros Hk.
  assert (Ek : k = 1 \/ k = 2 \/ k = 3 \/ k = 4) by lia.
  destruct Ek as [-> | [-> | [-> | ->]]].
  all: split; [reflexivity|]; split; [vm_compute; reflexivity|].
  all: eexists _, _, _, _, _, _, _, _.
  all: split; [vm_compute; reflexivity|].
  all: split; [vm_compute; discriminate|].
  all: split; [vm_compute; reflexivity|].
  all: split; [vm_compute; reflexivity|].
  all: split; [vm_compute; split; discriminate|].
  all: split; [vm_compute; reflexivity|].
  all: split; [reflexivity|].
  all: split; [vm_compute; reflexivity|].
  all: intros x y Hx Hy.
  all: assert (Ex : x = 0 \/ x = 1 \/ x = 2 \/ x = 3) by lia.
  all: assert (Ey : y = 0 \/ y = 1 \/ y = 2 \/ y = 3) by lia.
  all: destruct Ex as [-> | [-> | [-> | ->]]]; destruct Ey as [-> | [-> | [-> | ->]]].
  all: split; vm_compute; reflexivity.
Qed.

(** C3 (amended): the flat 4 by 4 raster of color (200,100,50) at quality 50
    is cut into [k] stripes, [k] the worker count clamped to 1..4, and gives
    one leaf per stripe ([k] leaves, exactly one on a host with one worker),
    one palette with the single entry (200,100,50); decoding the artifact with
    the same worker count paints [k] jobs and returns a 4 by 4 raster whose
    every pixel is (200,100,50), before and after the edge smoother. *)
Theorem flat_4x4_one_leaf_per_stripe (z : Zstd) (numCPU : Z) :
  let c := rgb 200 100 50 in
  let params := paramsForQuality 50 in
  let k := Z.max 1 (Z.min numCPU 4) in
  len (splitStripes numCPU 4 (minBlock params)) = k /\
  collectRegionColorsStriped numCPU (toRGBA (flatImage 4 4 c)) params =
    Ok (repeat (mkLeafColor c) (Z.to_nat k), repeat true (Z.to_nat k)) /\
  encoderPalettes numCPU (flatImage 4 4 c) 50 = Ok [mkPalette [c]] /\
  exists art jobs pre,
    Encode z numCPU (flatImage 4 4 c) 50 = Ok art /\
    len jobs = k /\
    paintLeafJobsParallel numCPU (image.NewRGBA (image.Rect 0 0 4 4)) [[c]] jobs = Ok pre /\
    Decode z numCPU art = Ok (smoothEdges pre (maxGrad params)) /\
    image.Bounds (smoothEdges pre (maxGrad params)) = image.Rect 0 0 4 4 /\
    forall x y, 0 <= x < 4 -> 0 <= y < 4 ->
      image.RGBAAt pre x y = c /\
      image.RGBAAt (smoothEdges pre (maxGrad params)) x y = c.
Proof.
  intros c params k.
  assert (Hk : 1 <= k <= 4) by (unfold k; lia).
  pose proof (splitStripes_4 numCPU) as Es. fold k in Es.
  destruct (flat_4x4_stripes k Hk)
    as [L1 [L2 [raw [np [r1 [reader [br [lc [jobs [ws
         [P1 [P2 [P3 [P4 [P5 [P6 [P7 [P8 P9]]]]]]]]]]]]]]]]]].
  assert (Ec : collectRegionColorsStriped numCPU (toRGBA (flatImage 4 4 c)) params =
               collectRegionColorsStriped k (toRGBA (flatImage 4 4 c)) params)
    by (apply collectRegionColorsStriped_stripes; exact Es).
  change (minBlock params) with 1.
  split; [rewrite Es; exact L1|].
  split; [rewrite Ec; exact L2|].
  split.
  { unfold encoderPalettes. change (paramsForQuality (clampQuality 50)) with params.
    rewrite Ec. unfold params, c. rewrite L2. cbn [bind].
    assert (Ek : k = 1 \/ k = 2 \/ k = 3 \/ k = 4) by lia.
    destruct Ek as [-> | [-> | [-> | ->]]]; vm_compute; reflexivity. }
  assert (Ep : encodePayload numCPU (toRGBA (flatImage 4 4 c)) 4 4 params = Ok raw).
  { rewrite (encodePayload_stripes numCPU k) by exact Es. exact P1. }
  assert (Ew : Z.min (Z.max numCPU 1) (len jobs) = Z.min (Z.max k 1) (len jobs))
    by (rewrite P7; unfold k; lia).
  assert (Epw : paintWrites numCPU (image.Rect 0 0 4 4) [[c]] jobs = Ok ws).
  { rewrite (paintWrites_workers numCPU k) by exact Ew. exact P8. }
  exists (((magicCodec2 ++ putUint16 4) ++ putUint16 4) ++ [z2b 50] ++ compress z numCPU raw),
    jobs, (applyWrites (image.NewRGBA (image.Rect 0 0 4 4)) ws).
  split; [exact (Encode_of_payload z numCPU (flatImage 4 4 c) 50 raw Ep)|].
  split; [exact P7|].
  split.
  { unfold paintLeafJobsParallel.
    change (image.Bounds (image.NewRGBA (image.Rect 0 0 4 4))) with (image.Rect 0 0 4 4).
    rewrite Epw. reflexivity. }
  split.
  { rewrite Decode_header by lia. rewrite decompress_compress. cbn [bind].
    change (paramsForQuality 50) with params.
    apply (decodePayload_steps numCPU 4 4 params raw np r1 reader [[c]] br lc jobs ws);
      try assumption.
    change (minBlock params) with 1. rewrite Es. exact P6. }
  split; [rewrite smoothEdges_Bounds, applyWrites_Bounds; reflexivity|].
  exact P9.
Qed.

Lemma flat_4x4_one_leaf_per_stripe_witness :
  exists (art : list byte) (jobs : list leafJob) (pre : image.RGBA),
    Encode storeZstd 2 (flatImage 4 4 (rgb 200 100 50)) 50 = Ok art /\
    len jobs = 2 /\
    Decode storeZstd 2 art = Ok (smoothEdges pre 51) /\
    image.RGBAAt pre 1 2 = rgb 200 100 50 /\
    image.RGBAAt (smoothEdges pre 51) 1 2 = rgb 200 100 50.
Proof.
  destruct (flat_4x4_one_leaf_per_stripe storeZstd 2)
    as [_ [_ [_ [art [jobs [pre [HE [Hj [_ [HD [_ Hpix]]]]]]]]]]].
  exists art, jobs, pre.
  split; [exact HE|]. split; [exact Hj|]. split; [exact HD|].
  apply (Hpix 1 2); lia.
Defined.

(** C3, as stated, fails on a host with four workers: the four rows are four
    stripes, each stripe is one leaf, and the artifact holds four leaf
    records. *)
Lemma flat_4x4_four_workers_four_leaves :
  collectRegionColorsStriped 4 (toRGBA (flatImage 4 4 (rgb 200 100 50)))
    (paramsForQuality 50) =
    Ok (repeat (mkLeafColor (rgb 200 100 50)) 4, [true; true; true; true]) /\
  Encode storeZstd 4 (flatImage 4 4 (rgb 200 100 50)) 50 =
    Ok (magicCodec2 ++ [x00; x04; x00; x04; x32] ++ [x00; x01; x01; xc8; x64; x32]
        ++ [x80; x40; x20; x10; x00]).
Proof.
  split; vm_compute; reflexivity.
Qed.

(* ------------------------------------------------------------------------- *)
(** ** Bit I/O: layout, round trip, end of data *)

Lemma NewBitReader_ok (data : list byte) :
  readerOk (NewBitReaderFromBytes data) /\
  remaining (NewBitReaderFromBytes data) = bytesBits data.
Proof.
  unfold readerOk, remaining, NewBitReaderFromBytes. cbn [br_nbit br_pos br_data br_acc].
  change (0 =? 0) with true. cbn iota. change (Z.to_nat 0) with O. cbn [skipn app].
  split; [|reflexivity]. pose proof (len_nonneg data). lia.
Qed.

Lemma writeOps_written (ops : list bitOp) : forall bw,
  writerOk bw ->
  written (fold_left writeOp ops bw) = written bw ++ flat_map opBits ops /\
  writerOk (fold_left writeOp ops bw) /\ extends bw (fold_left writeOp ops bw).
Proof.
  induction ops as [|op ops IH]; intros bw Hok.
  - cbn [fold_left flat_map]. rewrite app_nil_r.
    split; [reflexivity|]. split; [exact Hok|apply extends_refl].
  - cbn [fold_left flat_map].
    assert (H1 : written (writeOp bw op) = written bw ++ opBits op /\
                 writerOk (writeOp bw op) /\ extends bw (writeOp bw op)).
    { destruct op as [v|b]; [apply WriteBit_written|apply WriteByte_written]; exact Hok. }
    destruct H1 as [W1 [O1 E1]].
    destruct (IH _ O1) as [W2 [O2 E2]].
    rewrite W2, W1, <- app_assoc.
    split; [reflexivity|]. split; [exact O2|eapply extends_trans; eassumption].
Qed.

Lemma readOps_remaining (ops : list bitOp) : forall br rest,
  readerOk br -> remaining br = flat_map opBits ops ++ rest ->
  exists br', readOps ops br = Ok (ops, br') /\ remaining br' = rest /\ readerOk br'.
Proof.
  induction ops as [|op ops IH]; intros br rest Hok Hrem.
  - exists br. cbn [readOps]. cbn [flat_map app] in Hrem. auto.
  - cbn [flat_map] in Hrem. rewrite <- app_assoc in Hrem.
    destruct op as [v|b]; cbn [opBits] in Hrem; cbn [readOps].
    + cbn [app] in Hrem.
      destruct (ReadBit_cons br v _ Hok Hrem) as [br1 [R1 [M1 [O1 _]]]].
      rewrite R1. cbn [bind].
      destruct (IH br1 rest O1 M1) as [br2 [R2 [M2 O2]]].
      rewrite R2. cbn [bind]. exists br2. auto.
    + destruct (ReadByte_bits br b _ Hok Hrem) as [br1 [R1 [M1 [O1 _]]]].
      rewrite R1. cbn [bind].
      destruct (IH br1 rest O1 M1) as [br2 [R2 [M2 O2]]].
      rewrite R2. cbn [bind]. exists br2. auto.
Qed.

(** The pending bits of a writer are followed by zeros in its accumulator. *)
Lemma lowZero_pad (acc : byte) (nbit : Z) :
  0 <= nbit < 8 -> lowZero acc nbit = true ->
  skipn (Z.to_nat nbit) (byteBits acc) = repeat false (Z.to_nat (8 - nbit)).
Proof.
  intros Hn Hz.
  destruct (small_cases nbit Hn) as [->|[->|[->|[->|[->|[->|[->| ->]]]]]]];
    destruct acc; first [reflexivity | discriminate Hz].
Qed.

Lemma Flush_layout (bw : BitWriter) :
  writerOk bw ->
  bytesBits (bw_buf (Flush bw)) =
    written bw ++ repeat false (Z.to_nat ((- bw_nbit bw) mod 8)).
Proof.
  intros [Hn Hz]. unfold Flush, written. destruct (bw_nbit bw =? 0) eqn:E.
  - apply Z.eqb_eq in E. rewrite E. change (Z.to_nat 0) with O.
    change (Z.to_nat (- 0 mod 8)) with O. cbn [firstn repeat].
    rewrite !app_nil_r. reflexivity.
  - apply Z.eqb_neq in E. cbn [bw_buf]. rewrite bytesBits_app, <- app_assoc. f_equal.
    unfold bytesBits at 1. cbn [flat_map]. rewrite app_nil_r.
    rewrite <- (firstn_skipn (Z.to_nat (bw_nbit bw)) (byteBits (bw_acc bw))) at 1.
    f_equal. rewrite (lowZero_pad _ _ Hn Hz). f_equal. f_equal. dlia.
Qed.

(** X1: whatever mix of [WriteBit] and [WriteByte] calls fills a writer,
    after [Flush] the same mix of [ReadBit] and [ReadByte] calls on the
    buffer returns the values written, in order; the bytes that were in the
    buffer before the writer was created come first and are read as they
    are. *)
Theorem written_ops_are_read_back (buf : list byte) (ops : list bitOp) :
  exists br,
    readOps (map OpByte buf ++ ops)
            (NewBitReaderFromBytes
               (bw_buf (Flush (fold_left writeOp ops (NewBitWriter buf)))))
    = Ok (map OpByte buf ++ ops, br).
Proof.
  destruct (NewBitWriter_ok buf) as [Hok Hw].
  destruct (writeOps_written ops _ Hok) as [W [O _]].
  pose proof (Flush_layout _ O) as F. rewrite W, Hw in F.
  destruct (NewBitReader_ok (bw_buf (Flush (fold_left writeOp ops (NewBitWriter buf)))))
    as [Rok Rrem].
  rewrite F in Rrem.
  destruct (readOps_remaining (map OpByte buf ++ ops) _
              (repeat false (Z.to_nat ((- bw_nbit (fold_left writeOp ops (NewBitWriter buf))) mod 8)))
              Rok) as [br [R _]].
  - rewrite Rrem, flat_map_app, flat_map_map_arg. reflexivity.
  - exists br. exact R.
Qed.

Lemma written_length (bw : BitWriter) :
  0 <= bw_nbit bw < 8 ->
  len (written bw) = 8 * len (bw_buf bw) + bw_nbit bw.
Proof.
  intros Hn. unfold written, len.
  rewrite length_app, bytesBits_length, length_firstn, byteBits_length. lia.
Qed.

(** X2: the buffer a flushed writer leaves: the bytes that were there, then
    the written bits packed most significant bit first, then zero bits up to
    the next byte boundary; nothing else is added. *)
Theorem flushed_buffer_layout (buf : list byte) (ops : list bitOp) :
  let out := bw_buf (Flush (fold_left writeOp ops (NewBitWriter buf))) in
  let bits := flat_map opBits ops in
  bytesBits out = bytesBits buf ++ bits ++ repeat false (Z.to_nat ((- len bits) mod 8)) /\
  len out = len buf + (len bits + 7) / 8 /\
  firstn (length buf) out = buf.
Proof.
  intros out bits.
  destruct (NewBitWriter_ok buf) as [Hok Hw].
  destruct (writeOps_written ops _ Hok) as [W [O E]].
  set (bw := fold_left writeOp ops (NewBitWriter buf)) in *.
  pose proof (Flush_layout _ O) as F. fold out in F.
  destruct O as [Hn Hz].
  pose proof (written_length bw Hn) as L.
  rewrite W, Hw, len_app in L. fold bits in L.
  assert (Lb : len (bytesBits buf) = 8 * len buf)
    by (unfold len; rewrite bytesBits_length; lia).
  assert (En : bw_nbit bw = len bits mod 8) by dlia.
  assert (Ep : (- bw_nbit bw) mod 8 = (- len bits) mod 8) by dlia.
  rewrite W, Hw, Ep, <- app_assoc in F. fold bits in F.
  split; [exact F|]. split.
  - assert (Lo : len (bytesBits out) = 8 * len out)
      by (unfold len; rewrite bytesBits_length; lia).
    rewrite F, !len_app in Lo. unfold len at 3 in Lo. rewrite repeat_length in Lo.
    pose proof (len_nonneg bits). dlia.
  - destruct E as [e1 E1].
    assert (E2 : exists e2, out = bw_buf bw ++ e2).
    { unfold out, Flush. destruct (bw_nbit bw =? 0).
      - exists []. rewrite app_nil_r. reflexivity.
      - eexists. reflexivity. }
    destruct E2 as [e2 E2]. rewrite E2, E1. cbn [NewBitWriter bw_buf].
    rewrite <- app_assoc, firstn_app, Nat.sub_diag, firstn_all. cbn [firstn].
    apply app_nil_r.
Qed.

Lemma ReadBit_end (br : BitReader) :
  readerOk br -> remaining br = [] -> ReadBit br = Err EOF.
Proof.
  intros [Hn Hp] Hrem. unfold remaining in Hrem. unfold ReadBit.
  apply app_eq_nil in Hrem. destruct Hrem as [H1 H2].
  destruct (br_nbit br =? 0) eqn:E.
  - destruct (Z.leb_spec (len (br_data br)) (br_pos br)) as [|Hlt]; [reflexivity|].
    exfalso.
    assert (Hs : (length (bytesBits (skipn (Z.to_nat (br_pos br)) (br_data br))) = 0)%nat)
      by (rewrite H2; reflexivity).
    rewrite bytesBits_length, length_skipn in Hs. unfold len in Hlt. lia.
  - exfalso. apply Z.eqb_neq in E.
    assert (Hs : (length (skipn (Z.to_nat (br_nbit br)) (byteBits (br_acc br))) = 0)%nat)
      by (rewrite H1; reflexivity).
    rewrite length_skipn, byteBits_length in Hs. lia.
Qed.

Lemma readBits_remaining (bits : list bool) : forall br rest,
  readerOk br -> remaining br = bits ++ rest ->
  exists br', readBits (length bits) br = Ok (bits, br') /\
              remaining br' = rest /\ readerOk br' /\ br_data br' = br_data br.
Proof.
  induction bits as [|b bits IH]; intros br rest Hok Hrem.
  - exists br. cbn [length readBits]. auto.
  - cbn [app] in Hrem. cbn [length readBits].
    destruct (ReadBit_cons br b _ Hok Hrem) as [br1 [R1 [M1 [O1 D1]]]].
    rewrite R1. cbn [bind].
    destruct (IH br1 rest O1 M1) as [br2 [R2 [M2 [O2 D2]]]].
    rewrite R2. cbn [bind]. exists br2.
    split; [reflexivity|]. split; [exact M2|]. split; [exact O2|congruence].
Qed.

Lemma readBits_short (n : nat) : forall br,
  readerOk br -> (length (remaining br) < n)%nat -> readBits n br = Err EOF.
Proof.
  induction n as [|n IH]; intros br Hok Hlen; [lia|].
  cbn [readBits].
  destruct (remaining br) as [|b rest] eqn:Hrem.
  - rewrite (ReadBit_end br Hok Hrem). reflexivity.
  - destruct (ReadBit_cons br b rest Hok Hrem) as [br1 [R1 [M1 [O1 _]]]].
    rewrite R1. cbn [bind]. rewrite (IH br1 O1); [reflexivity|].
    rewrite M1. simpl in Hlen. lia.
Qed.

(** X3: [n] calls of [ReadBit] on a fresh reader return the first [n] bits
    of the data, most significant bit of each byte first, when the data has
    that many bits; otherwise the run stops with [io.EOF].  No other error
    and no read outside the data occurs. *)
Theorem readBits_of_fresh_reader (data : list byte) (n : nat) :
  match readBits n (NewBitReaderFromBytes data) with
  | Ok (bits, br) =>
      (n <= 8 * length data)%nat /\ bits = firstn n (bytesBits data) /\
      remaining br = skipn n (bytesBits data) /\ br_data br = data
  | Err e => (8 * length data < n)%nat /\ e = EOF
  end.
Proof.
  destruct (NewBitReader_ok data) as [Hok Hrem].
  destruct (le_lt_dec n (8 * length data)) as [Hle|Hlt].
  - rewrite <- (firstn_skipn n (bytesBits data)) in Hrem.
    assert (Hl : length (firstn n (bytesBits data)) = n)
      by (rewrite length_firstn, bytesBits_length; lia).
    destruct (readBits_remaining _ _ _ Hok Hrem) as [br [R [M [O D]]]].
    rewrite Hl in R. rewrite R. split; [exact Hle|]. split; [reflexivity|].
    split; [exact M|exact D].
  - rewrite readBits_short; [split; [exact Hlt|reflexivity]|exact Hok|].
    rewrite Hrem, bytesBits_length. exact Hlt.
Qed.

(* ------------------------------------------------------------------------- *)
(** ** The decoder fails only with its own errors *)

Lemma ReadBit_cases (br : BitReader) :
  readerOk br ->
  (exists b br', ReadBit br = Ok (b, br') /\ remaining br = b :: remaining br' /\
                 readerOk br' /\ br_data br' = br_data br) \/
  (ReadBit br = Err EOF /\ remaining br = []).
Proof.
  intros Hok. destruct (remaining br) as [|b rest] eqn:Hrem.
  - right. split; [apply ReadBit_end; assumption|reflexivity].
  - left. destruct (ReadBit_cons br b rest Hok Hrem) as [br' [R [M [O D]]]].
    exists b, br'. rewrite M. auto.
Qed.

Lemma eight_bits (l : list bool) : length l = 8%nat -> exists b, byteBits b = l.
Proof.
  intros H.
  destruct l as [|b7 [|b6 [|b5 [|b4 [|b3 [|b2 [|b1 [|b0 [|? ?]]]]]]]]]; try discriminate.
  exists (Byte.of_bits (b0, (b1, (b2, (b3, (b4, (b5, (b6, b7)))))))).
  destruct b7, b6, b5, b4, b3, b2, b1, b0; reflexivity.
Qed.

Lemma readFold_Err (ixs : list Z) (e : error) :
  fold_left
    (fun st i =>
       '(b, br) <- st ;;
       '(bit, br) <- ReadBit br ;;
       Ok (if bit then z2b (Z.lor (b2z b) (Z.shiftl 1 (7 - i))) else b, br))
    ixs (Err e) = Err e.
Proof. induction ixs as [|i ixs IH]; [reflexivity|exact IH]. Qed.

Lemma readFold_short (ixs : list Z) : forall b0 br,
  readerOk br -> (length (remaining br) < length ixs)%nat ->
  fold_left
    (fun st i =>
       '(b, br) <- st ;;
       '(bit, br) <- ReadBit br ;;
       Ok (if bit then z2b (Z.lor (b2z b) (Z.shiftl 1 (7 - i))) else b, br))
    ixs (Ok (b0, br)) = Err EOF.
Proof.
  induction ixs as [|i ixs IH]; intros b0 br Hok Hlen; [simpl in Hlen; lia|].
  cbn [fold_left bind].
  destruct (ReadBit_cases br Hok) as [[b [br' [R [M [O _]]]]]|[R M]].
  - rewrite R. cbn [bind]. apply IH; [exact O|].
    rewrite M in Hlen. simpl in Hlen. lia.
  - rewrite R. cbn [bind]. apply readFold_Err.
Qed.

Lemma ReadByte_cases (br : BitReader) :
  readerOk br ->
  (exists b br', ReadByte br = Ok (b, br') /\ remaining br = byteBits b ++ remaining br' /\
                 readerOk br' /\ br_data br' = br_data br) \/
  (ReadByte br = Err EOF /\ (length (remaining br) < 8)%nat).
Proof.
  intros Hok.
  destruct (le_lt_dec 8 (length (remaining br))) as [Hle|Hlt].
  - left.
    pose proof (firstn_skipn 8 (remaining br)) as Hs.
    destruct (eight_bits (firstn 8 (remaining br))) as [b Hb];
      [rewrite length_firstn; lia|].
    rewrite <- Hb in Hs. symmetry in Hs.
    destruct (ReadByte_bits br b _ Hok Hs) as [br' [R [M [O D]]]].
    exists b, br'. rewrite M. auto.
  - right. split; [|exact Hlt].
    unfold ReadByte. destruct (br_nbit br =? 0) eqn:E.
    + destruct (Z.leb_spec (len (br_data br)) (br_pos br)) as [|Hp]; [reflexivity|].
      exfalso. unfold remaining in Hlt. rewrite E in Hlt. cbn [app] in Hlt.
      rewrite bytesBits_length, length_skipn in Hlt. destruct Hok as [_ Hpos].
      unfold len in Hp. lia.
    + apply readFold_short; [exact Hok|].
      change (length (zrange 8)) with 8%nat. exact Hlt.
Qed.

Lemma decodeLeafJob_safe (fallback : bool) (x y w h : Z) (br : BitReader)
  (palettes : list (list color.RGBA)) (lc : Z) (jobs : list leafJob) :
  readerOk br ->
  match decodeLeafJob fallback x y w h br palettes lc jobs with
  | Ok (br', _, _) =>
      readerOk br' /\ (length (remaining br') <= length (remaining br))%nat
  | Err e => codecError e
  end.
Proof.
  intros Hok. unfold decodeLeafJob.
  destruct (ReadByte_cases br Hok) as [[b [br' [R [M [O _]]]]]|[R _]];
    rewrite R; cbn [bind]; [|exact I].
  destruct ((lc ÷ 256 <? 0) || (len palettes <=? lc ÷ 256)) eqn:E1; [exact I|].
  apply orb_false_iff in E1. destruct E1 as [E1 E2].
  destruct (index_lt_Some palettes (lc ÷ 256) ltac:(lia)) as [p Hp]. rewrite Hp.
  destruct ((b2z b <? 0) || (len p <=? b2z b)); [exact I|].
  split; [exact O|]. rewrite M, length_app. lia.
Qed.

Lemma decodeRegionJobs_safe (params : codec2Params) (palettes : list (list color.RGBA))
  (fuel : nat) :
  forall x y w h br lc jobs,
  readerOk br -> (length (remaining br) < fuel)%nat ->
  match decodeRegionJobs fuel x y w h params br palettes lc jobs with
  | Ok (br', _, _) =>
      readerOk br' /\ (length (remaining br') < length (remaining br))%nat
  | Err e => codecError e
  end.
Proof.
  induction fuel as [|fuel IH]; intros x y w h br lc jobs Hok Hlen; [lia|].
  cbn [decodeRegionJobs].
  destruct (ReadBit_cases br Hok) as [[b [br1 [R [M [O _]]]]]|[R _]];
    rewrite R; cbn [bind]; [|exact I].
  assert (L1 : (length (remaining br1) < fuel)%nat)
    by (rewrite M in Hlen; simpl in Hlen; lia).
  assert (L0 : (length (remaining br1) < length (remaining br))%nat)
    by (rewrite M; simpl; lia).
  assert (Hleaf : forall fb,
            match decodeLeafJob fb x y w h br1 palettes lc jobs with
            | Ok (br', _, _) =>
                readerOk br' /\ (length (remaining br') < length (remaining br))%nat
            | Err e => codecError e
            end).
  { intros fb. pose proof (decodeLeafJob_safe fb x y w h br1 palettes lc jobs O) as Hl.
    destruct (decodeLeafJob fb x y w h br1 palettes lc jobs) as [[[br' lc'] jobs']|e];
      [|exact Hl].
    destruct Hl as [Hl1 Hl2]. split; [exact Hl1|lia]. }
  assert (Hsplit : forall x1 y1 w1 h1 x2 y2 w2 h2,
            match
              ('(br0, leafCounter, jobs0) <-
                 decodeRegionJobs fuel x1 y1 w1 h1 params br1 palettes lc jobs ;;
               decodeRegionJobs fuel x2 y2 w2 h2 params br0 palettes leafCounter jobs0)
            with
            | Ok (br', _, _) =>
                readerOk br' /\ (length (remaining br') < length (remaining br))%nat
            | Err e => codecError e
            end).
  { intros x1 y1 w1 h1 x2 y2 w2 h2.
    pose proof (IH x1 y1 w1 h1 br1 lc jobs O L1) as H1.
    destruct (decodeRegionJobs fuel x1 y1 w1 h1 params br1 palettes lc jobs)
      as [[[br2 lc2] jobs2]|e]; cbn [bind]; [|exact H1].
    destruct H1 as [O2 L2].
    pose proof (IH x2 y2 w2 h2 br2 lc2 jobs2 O2 ltac:(lia)) as H2.
    destruct (decodeRegionJobs fuel x2 y2 w2 h2 params br2 palettes lc2 jobs2)
      as [[[br3 lc3] jobs3]|e]; [|exact H2].
    destruct H2 as [O3 L3]. split; [exact O3|lia]. }
  destruct b; [apply Hleaf|].
  destruct ((h <=? w) && (minBlock params <=? w ÷ 2)); [apply Hsplit|].
  destruct (h ÷ 2 <=? 0); [apply Hleaf|apply Hsplit].
Qed.

Lemma decodeStripes_safe (w : Z) (params : codec2Params)
  (palettes : list (list color.RGBA)) (fuel : nat) (stripes : list stripeInfo) :
  forall br lc jobs,
  readerOk br -> (length (remaining br) < fuel)%nat ->
  match decodeStripes fuel w params br palettes lc jobs stripes with
  | Ok _ => True
  | Err e => codecError e
  end.
Proof.
  induction stripes as [|s stripes IH]; intros br lc jobs Hok Hlen;
    cbn [decodeStripes]; [exact I|].
  pose proof (decodeRegionJobs_safe params palettes fuel 0 (stripe_y s) w (stripe_h s)
                br lc jobs Hok Hlen) as H1.
  destruct (decodeRegionJobs fuel 0 (stripe_y s) w (stripe_h s) params br palettes lc jobs)
    as [[[br1 lc1] jobs1]|e]; cbn [bind]; [|exact H1].
  destruct H1 as [O1 L1]. apply IH; [exact O1|lia].
Qed.

Lemma readColors_safe (sz : nat) : forall r e,
  readColors sz r = Err e -> codecError e.
Proof.
  induction sz as [|sz IH]; intros r e H; cbn [readColors] in H; [discriminate|].
  destruct r as [|r0 [|g0 [|b0 rest]]]; cbn [readRGB bind] in H;
    try (inversion H; exact I).
  destruct (readColors sz rest) as [[cs r']|e'] eqn:E; cbn [bind] in H; [discriminate|].
  inversion H; subst. eapply IH. exact E.
Qed.

Lemma readPalettes_safe (n : nat) : forall r e,
  readPalettes n r = Err e -> codecError e.
Proof.
  induction n as [|n IH]; intros r e H; cbn [readPalettes] in H; [discriminate|].
  destruct r as [|szByte r]; [inversion H; exact I|].
  destruct (b2z szByte <? 0); [inversion H; exact I|].
  destruct (readColors (Z.to_nat (b2z szByte)) r) as [[p r1]|e1] eqn:E1; cbn [bind] in H.
  - destruct (readPalettes n r1) as [[ps r2]|e2] eqn:E2; cbn [bind] in H; [discriminate|].
    inversion H; subst. eapply IH. exact E2.
  - inversion H; subst. eapply readColors_safe. exact E1.
Qed.

Lemma decodePayload_safe (numCPU w h : Z) (params : codec2Params) (plain : list byte)
  (e : error) :
  decodePayload numCPU w h params plain = Err e -> codecError e.
Proof.
  unfold decodePayload. intros H.
  destruct (len plain <? 2); [inversion H; exact I|].
  destruct (readUint16 plain) as [[np r1]|e1] eqn:E1; cbn [bind] in H.
  2:{ inversion H; subst. destruct plain as [|a [|b0 rest]]; cbn [readUint16] in E1;
        inversion E1; exact I. }
  destruct (readPalettes (Z.to_nat np) r1) as [[palettes reader]|e2] eqn:E2;
    cbn [bind] in H.
  2:{ inversion H; subst. eapply readPalettes_safe. exact E2. }
  destruct ((len plain - len reader <? 0) || (len plain <? len plain - len reader));
    [inversion H; exact I|].
  set (data := skipn (Z.to_nat (len plain - len reader)) plain) in *.
  destruct (NewBitReader_ok data) as [Rok Rrem].
  assert (Hfuel : (length (remaining (NewBitReaderFromBytes data)) < S (8 * length plain))%nat).
  { rewrite Rrem, bytesBits_length. unfold data. rewrite length_skipn. lia. }
  pose proof (decodeStripes_safe w params palettes (S (8 * length plain))
                (splitStripes numCPU h (minBlock params)) _ 0 [] Rok Hfuel) as Hs.
  destruct (decodeStripes (S (8 * length plain)) w params (NewBitReaderFromBytes data)
              palettes 0 [] (splitStripes numCPU h (minBlock params)))
    as [[[br lc] jobs]|e3] eqn:E3; cbn [bind] in H.
  2:{ inversion H; subst. exact Hs. }
  assert (Hv : Forall (jobValid palettes) jobs)
    by (eapply decodeStripes_valid; [exact E3|constructor]).
  destruct (paintLeafJobsParallel_ok numCPU (image.NewRGBA (image.Rect 0 0 w h))
              palettes jobs Hv) as [dst [Hd _]].
  rewrite Hd in H. cbn [bind] in H. discriminate.
Qed.

(** X4: for bytes whose header, if they have one, announces at most
    [maxPixels] pixels, [Decode] either returns a raster or fails with one
    of the codec's error values (invalid magic, end of input, a formatted
    error, or the error of the decompressor): whatever the payload holds, no
    index leaves its slice and the recursion over the tree ends within the
    bits of the payload. *)
Theorem Decode_fails_only_with_codec_errors (z : Zstd) (numCPU : Z) (data : list byte)
  (e : error) :
  (forall frame e', decompress z frame = Err e' -> codecError e') ->
  smallHeader data ->
  Decode z numCPU data = Err e ->
  codecError e.
Proof.
  intros Hz _ H. unfold Decode in H.
  destruct data as [|d0 data]; [inversion H; exact I|].
  destruct (negb _); [inversion H; exact I|].
  destruct (readUint16 (skipn 4 (d0 :: data))) as [[w16 r]|e1] eqn:E1; cbn [bind] in H.
  2:{ inversion H; subst. destruct (skipn 4 (d0 :: data)) as [|a [|b0 rest]];
        cbn [readUint16] in E1; inversion E1; exact I. }
  destruct (readUint16 r) as [[h16 r']|e2] eqn:E2; cbn [bind] in H.
  2:{ inversion H; subst. destruct r as [|a [|b0 rest]];
        cbn [readUint16] in E2; inversion E2; exact I. }
  destruct r' as [|qByte r'']; [inversion H; exact I|].
  destruct (decompress z r'') as [plain|e3] eqn:E3; cbn [bind] in H.
  - eapply decodePayload_safe. exact H.
  - inversion H; subst. eapply Hz. exact E3.
Qed.

Lemma Decode_fails_only_with_codec_errors_witness :
  Decode storeZstd 1 badIndexArtifact =
    Err (Errorf "decodeRegionJobs: local color index %d out of range for palette %d") /\
  codecError (Errorf "decodeRegionJobs: local color index %d out of range for palette %d").
Proof.
  split; [vm_compute; reflexivity|].
  apply (Decode_fails_only_with_codec_errors storeZstd 1 badIndexArtifact).
  - intros frame e' H. discriminate H.
  - intros wh wl hh hl rest E. unfold badIndexArtifact, magicCodec2 in E.
    cbn [app] in E. inversion E. vm_compute. discriminate.
  - vm_compute. reflexivity.
Defined.

(* ------------------------------------------------------------------------- *)
(** ** The header and the palette table *)

Lemma bytesEqb_eq (a : list byte) : forall b, bytesEqb a b = true <-> a = b.
Proof.
  induction a as [|x a IH]; intros [|y b]; cbn [bytesEqb]; split; intros H;
    try reflexivity; try discriminate.
  - apply andb_true_iff in H. destruct H as [H1 H2].
    apply Byte.byte_dec_bl in H1. apply IH in H2. congruence.
  - inversion H; subst. apply andb_true_iff. split.
    + apply Byte.byte_dec_lb. reflexivity.
    + apply IH. reflexivity.
Qed.

Lemma padded_magic (data : list byte) :
  firstn 4 (data ++ [x00; x00; x00; x00]) = magicCodec2 -> firstn 4 data = magicCodec2.
Proof.
  destruct data as [|a [|b [|c [|d rest]]]]; cbn [app firstn]; intros H;
    try (inversion H; fail). exact H.
Qed.

(** X5: [Decode] looks at the magic first: empty input is [io.EOF], and any
    other input that does not start with the four bytes [BAB2] (shorter
    inputs included) is refused with [ErrInvalidMagic], whatever follows. *)
Theorem Decode_checks_the_magic (z : Zstd) (numCPU : Z) (data : list byte) :
  firstn 4 data <> magicCodec2 ->
  Decode z numCPU data = Err (match data with [] => EOF | _ => ErrInvalidMagic end).
Proof.
  intros H. unfold Decode. destruct data as [|d0 data]; [reflexivity|].
  destruct (bytesEqb (firstn 4 ((d0 :: data) ++ [x00; x00; x00; x00])) magicCodec2) eqn:E.
  - apply bytesEqb_eq in E. apply padded_magic in E. contradiction.
  - reflexivity.
Qed.

Lemma Decode_checks_the_magic_witness :
  Decode storeZstd 1 ["B"; "A"; "B"]%byte = Err ErrInvalidMagic.
Proof.
  apply (Decode_checks_the_magic storeZstd 1 ["B"; "A"; "B"]%byte).
  discriminate.
Defined.

Lemma Decode_header_inv (z : Zstd) (numCPU : Z) (data : list byte)
  (img : image.RGBA) :
  Decode z numCPU data = Ok img ->
  exists wh wl hh hl q frame,
    data = magicCodec2 ++ [wh; wl; hh; hl; q] ++ frame /\
    image.Bounds img =
      image.mkRect (image.Pt 0 0)
                   (image.Pt (b2z wh * 256 + b2z wl) (b2z hh * 256 + b2z hl)).
Proof.
  unfold Decode. intros H.
  destruct data as [|d0 data]; [discriminate|].
  destruct (bytesEqb (firstn 4 ((d0 :: data) ++ [x00; x00; x00; x00])) magicCodec2) eqn:E;
    cbn [negb] in H; [|discriminate].
  apply bytesEqb_eq in E. apply padded_magic in E.
  pose proof (firstn_skipn 4 (d0 :: data)) as Hs. rewrite E in Hs.
  bindOk H r1 H1. destruct r1 as [w16 r].
  bindOk H r2 H2. destruct r2 as [h16 r'].
  destruct r' as [|qByte r'']; [discriminate|].
  bindOk H plain H3.
  apply decodePayload_Bounds in H.
  destruct (skipn 4 (d0 :: data)) as [|wh [|wl rest]]; cbn [readUint16] in H1;
    try discriminate.
  inversion H1; subst w16 r. clear H1.
  destruct rest as [|hh [|hl rest']]; cbn [readUint16] in H2; try discriminate.
  inversion H2; subst h16 rest'. clear H2.
  exists wh, wl, hh, hl, qByte, r''. split; [symmetry; exact Hs|].
  rewrite H. unfold image.Rect.
  pose proof (b2z_range wh). pose proof (b2z_range wl).
  pose proof (b2z_range hh). pose proof (b2z_range hl).
  destruct (Z.ltb_spec (b2z wh * 256 + b2z wl) 0); [lia|].
  destruct (Z.ltb_spec (b2z hh * 256 + b2z hl) 0); [lia|]. reflexivity.
Qed.

(** X6: an input that [Decode] accepts starts with the magic, two
    big-endian 16-bit sizes and a quality byte, and the raster returned has
    exactly the size the header states, at the origin, whatever the payload
    holds. *)
Theorem Decode_returns_the_header_size (z : Zstd) (numCPU : Z) (data : list byte)
  (img : image.RGBA) :
  Decode z numCPU data = Ok img ->
  exists wh wl hh hl q frame,
    data = magicCodec2 ++ [wh; wl; hh; hl; q] ++ frame /\
    image.Bounds img =
      image.mkRect (image.Pt 0 0)
                   (image.Pt (b2z wh * 256 + b2z wl) (b2z hh * 256 + b2z hl)).
Proof. apply Decode_header_inv. Qed.

Lemma Decode_returns_the_header_size_witness :
  exists img wh wl hh hl q frame,
    Decode storeZstd 1 sampleArtifact = Ok img /\
    sampleArtifact = magicCodec2 ++ [wh; wl; hh; hl; q] ++ frame /\
    image.Bounds img =
      image.mkRect (image.Pt 0 0)
                   (image.Pt (b2z wh * 256 + b2z wl) (b2z hh * 256 + b2z hl)).
Proof.
  assert (H : exists img, Decode storeZstd 1 sampleArtifact = Ok img)
    by (eexists; vm_compute; reflexivity).
  destruct H as [img H].
  destruct (Decode_returns_the_header_size storeZstd 1 sampleArtifact img H)
    as [wh [wl [hh [hl [q [frame [H1 H2]]]]]]].
  exists img, wh, wl, hh, hl, q, frame. auto.
Defined.

(** X7: the palette loop of [Encode] writes, per palette, its size in one
    byte and its colors as R, G, B triples, and fails exactly when a palette
    has more than 255 colors, with the formatted size error. *)
Theorem writePalettes_layout (raw : list byte) (pals : list palette) :
  match writePalettes raw pals with
  | Ok raw' =>
      Forall (fun p => len (pal_colors p) <= 255) pals /\
      raw' = raw ++ flat_map paletteBytes pals
  | Err e =>
      Exists (fun p => 255 < len (pal_colors p)) pals /\
      e = Errorf "_encode: palette size %d exceeds 255"
  end.
Proof. apply writePalettes_cases. Qed.

(** X8: the palette table that [Encode] writes is read back by the palette
    loop of [Decode]: for at most 65535 palettes of at most 255 colors each,
    the count and the colors come back in order, every color opaque, and the
    reader is left at the first byte after the table. *)
Theorem palette_table_roundtrip (pals : list palette) (rest : list byte) :
  Forall (fun p => len (pal_colors p) <= 255) pals ->
  len pals <= 65535 ->
  exists table,
    writePalettes (putUint16 (GoInt.uint16 (len pals))) pals = Ok table /\
    ('(np, r) <- readUint16 (table ++ rest) ;; readPalettes (Z.to_nat np) r)
    = Ok (map (fun p => map opaque (pal_colors p)) pals, rest).
Proof.
  intros Hall Hn.
  pose proof (len_nonneg pals) as H0.
  rewrite (writePalettes_ok pals _ Hall). eexists. split; [reflexivity|].
  assert (Eu : GoInt.uint16 (len pals) = len pals)
    by (unfold GoInt.uint16; apply Z.mod_small; lia).
  rewrite Eu, <- app_assoc, readUint16_putUint16 by lia. cbn [bind].
  unfold len. rewrite Nat2Z.id. apply readPalettes_ok. exact Hall.
Qed.

Lemma palette_table_roundtrip_witness :
  exists table,
    writePalettes (putUint16 (GoInt.uint16 (len [mkPalette [rgb 200 100 50; rgb 1 2 3]])))
      [mkPalette [rgb 200 100 50; rgb 1 2 3]] = Ok table /\
    ('(np, r) <- readUint16 (table ++ [x80; x00]) ;; readPalettes (Z.to_nat np) r)
    = Ok (map (fun p => map opaque (pal_colors p)) [mkPalette [rgb 200 100 50; rgb 1 2 3]],
          [x80; x00]).
Proof.
  apply (palette_table_roundtrip [mkPalette [rgb 200 100 50; rgb 1 2 3]] [x80; x00]).
  - constructor; [vm_compute; discriminate|constructor].
  - vm_compute. discriminate.
Defined.

(* ------------------------------------------------------------------------- *)
(** ** Parameters, luma, color distance, color key *)

Lemma paramsForQuality_clamped (q : Z) :
  paramsForQuality q = paramsForQuality (clampQuality q).
Proof.
  unfold paramsForQuality, clampQuality.
  destruct (Z.ltb_spec q 1).
  - change (100 <? 1) with false. cbv iota. change (1 <? 1) with false.
    cbv iota. change (100 <? 1) with false. reflexivity.
  - destruct (Z.ltb_spec 100 q).
    + change (100 <? 1) with false. cbv iota. change (100 <? 100) with false. reflexivity.
    + destruct (Z.ltb_spec q 1); [lia|]. destruct (Z.ltb_spec 100 q); [lia|]. reflexivity.
Qed.

Lemma paramsForQuality_table :
  forallb
    (fun q =>
       (minBlock (paramsForQuality q) =? 1)
       && (maxGrad (paramsForQuality q) =? 101 - q)
       && (colorTol (paramsForQuality q) =? 1 + 12 * (100 - q) / 100))
    (zrangeFrom 1 100) = true.
Proof. vm_compute. reflexivity. Qed.

Lemma paramsForQuality_value (q : Z) :
  paramsForQuality q =
    mkParams 1 (101 - clampQuality q) (1 + 12 * (100 - clampQuality q) / 100).
Proof.
  rewrite paramsForQuality_clamped.
  pose proof (clampQuality_range q) as Hq.
  set (q' := clampQuality q) in *. clearbody q'.
  pose proof paramsForQuality_table as T.
  rewrite forallb_forall in T.
  specialize (T q' ltac:(apply in_zrangeFrom; lia)).
  apply andb_true_iff in T. destruct T as [T T3].
  apply andb_true_iff in T. destruct T as [T1 T2].
  apply Z.eqb_eq in T1, T2, T3.
  destruct (paramsForQuality q') as [mb mg ct].
  cbn [minBlock maxGrad colorTol] in T1, T2, T3. subst. reflexivity.
Qed.

(** X9: [paramsForQuality] in closed form: the quality is clamped to
    1..100, the minimum block is 1, [maxGrad] is [101 - q] and the floating
    point computation of [colorTol] agrees with the integer formula
    [1 + (12 * (100 - q)) / 100] for every quality. *)
Theorem paramsForQuality_closed_form (q : Z) :
  paramsForQuality q =
    mkParams 1 (101 - clampQuality q) (1 + 12 * (100 - clampQuality q) / 100).
Proof. apply paramsForQuality_value. Qed.

(** X10: a higher quality never loosens the codec: [maxGrad] and [colorTol]
    do not grow with the quality, and they stay within 1..100 and 1..12. *)
Theorem paramsForQuality_monotone (q1 q2 : Z) :
  q1 <= q2 ->
  maxGrad (paramsForQuality q2) <= maxGrad (paramsForQuality q1) /\
  colorTol (paramsForQuality q2) <= colorTol (paramsForQuality q1) /\
  1 <= maxGrad (paramsForQuality q2) /\ maxGrad (paramsForQuality q1) <= 100 /\
  1 <= colorTol (paramsForQuality q2) /\ colorTol (paramsForQuality q1) <= 12.
Proof.
  intros H. rewrite !paramsForQuality_value. cbn [maxGrad colorTol].
  pose proof (clampQuality_range q1). pose proof (clampQuality_range q2).
  assert (clampQuality q1 <= clampQuality q2).
  { unfold clampQuality.
    destruct (Z.ltb_spec q1 1); destruct (Z.ltb_spec q2 1);
      repeat match goal with |- context [?a <? ?b] => destruct (Z.ltb_spec a b) end; lia. }
  dlia.
Qed.

Lemma paramsForQuality_monotone_witness :
  maxGrad (paramsForQuality 90) <= maxGrad (paramsForQuality 50) /\
  colorTol (paramsForQuality 90) <= colorTol (paramsForQuality 50) /\
  1 <= maxGrad (paramsForQuality 90) /\ maxGrad (paramsForQuality 50) <= 100 /\
  1 <= colorTol (paramsForQuality 90) /\ colorTol (paramsForQuality 50) <= 12.
Proof.
  apply (paramsForQuality_monotone 50 90). lia.
Defined.

(** X11: [luma] stays within 0..255, does not look at alpha, and a grey
    [(v, v, v)] has luma [v]. *)
Theorem luma_range_and_greys (c : color.RGBA) (v a : byte) :
  0 <= luma c <= 255 /\
  luma c = luma (opaque c) /\
  luma (color.mk v v v a) = b2z v.
Proof.
  split; [apply luma_range|]. split; [reflexivity|].
  unfold luma. cbn [color.R color.G color.B].
  pose proof (b2z_range v). dlia.
Qed.

(** X12: [closeColor] holds exactly when every color channel differs by at
    most the tolerance; it is symmetric, ignores alpha, and a color is close
    to itself exactly when the tolerance is not negative. *)
Theorem closeColor_spec (a b : color.RGBA) (tol : Z) :
  (closeColor a b tol = true <->
   Z.abs (b2z (color.R a) - b2z (color.R b)) <= tol /\
   Z.abs (b2z (color.G a) - b2z (color.G b)) <= tol /\
   Z.abs (b2z (color.B a) - b2z (color.B b)) <= tol) /\
  closeColor a b tol = closeColor b a tol /\
  closeColor a b tol = closeColor (opaque a) (opaque b) tol /\
  closeColor a a tol = (0 <=? tol).
Proof.
  split; [|split; [|split]].
  - rewrite closeColor_within. unfold within.
    rewrite !andb_true_iff, !Z.leb_le. tauto.
  - rewrite !closeColor_within. unfold within.
    replace (Z.abs (b2z (color.R a) - b2z (color.R b)))
      with (Z.abs (b2z (color.R b) - b2z (color.R a))) by lia.
    replace (Z.abs (b2z (color.G a) - b2z (color.G b)))
      with (Z.abs (b2z (color.G b) - b2z (color.G a))) by lia.
    replace (Z.abs (b2z (color.B a) - b2z (color.B b)))
      with (Z.abs (b2z (color.B b) - b2z (color.B a))) by lia.
    reflexivity.
  - reflexivity.
  - rewrite closeColor_within. unfold within. rewrite !Z.sub_diag.
    change (Z.abs 0) with 0. destruct (0 <=? tol); reflexivity.
Qed.

Lemma land_shiftl_small (a b k : Z) :
  0 <= k -> 0 <= b < 2 ^ k -> Z.land (Z.shiftl a k) b = 0.
Proof.
  intros Hk Hb. apply Z.bits_inj'. intros n Hn.
  rewrite Z.land_spec, Z.bits_0.
  destruct (Z.lt_ge_cases n k) as [Hlt|Hge].
  - rewrite Z.shiftl_spec_low by lia. reflexivity.
  - rewrite <- (Z.mod_small b (2 ^ k)) by lia.
    rewrite Z.mod_pow2_bits_high by lia. apply andb_false_r.
Qed.

Lemma lor_shiftl_small (a b k : Z) :
  0 <= k -> 0 <= b < 2 ^ k -> Z.lor (Z.shiftl a k) b = a * 2 ^ k + b.
Proof.
  intros Hk Hb. pose proof (Z.add_lor_land (Z.shiftl a k) b) as H.
  rewrite land_shiftl_small, Z.add_0_r in H by lia.
  rewrite H, Z.shiftl_mul_pow2 by lia. reflexivity.
Qed.

Lemma rgbKey_value (c : color.RGBA) :
  rgbKey c = 65536 * b2z (color.R c) + 256 * b2z (color.G c) + b2z (color.B c).
Proof.
  unfold rgbKey, uint32.
  pose proof (b2z_range (color.R c)). pose proof (b2z_range (color.G c)).
  pose proof (b2z_range (color.B c)).
  rewrite !(Z.mod_small (b2z _)) by lia.
  rewrite !Z.shiftl_mul_pow2 by lia.
  rewrite !Z.mod_small by lia.
  replace (b2z (color.G c) * 2 ^ 8) with (Z.shiftl (b2z (color.G c)) 8)
    by (rewrite Z.shiftl_mul_pow2; lia).
  replace (b2z (color.R c) * 2 ^ 16) with (Z.shiftl (Z.shiftl (b2z (color.R c)) 8) 8)
    by (rewrite !Z.shiftl_mul_pow2; lia).
  rewrite <- Z.shiftl_lor.
  rewrite (lor_shiftl_small _ (b2z (color.B c)) 8) by lia.
  rewrite (lor_shiftl_small _ (b2z (color.G c)) 8) by lia.
  lia.
Qed.

(** X13: [rgbKey] is the number [65536 R + 256 G + B], below [2^24]; two
    colors have the same key exactly when their red, green and blue bytes
    agree (alpha is not part of the key). *)
Theorem rgbKey_injective (c c' : color.RGBA) :
  rgbKey c = 65536 * b2z (color.R c) + 256 * b2z (color.G c) + b2z (color.B c) /\
  0 <= rgbKey c < 2 ^ 24 /\
  (rgbKey c = rgbKey c' <-> opaque c = opaque c').
Proof.
  pose proof (b2z_range (color.R c)). pose proof (b2z_range (color.G c)).
  pose proof (b2z_range (color.B c)).
  pose proof (b2z_range (color.R c')). pose proof (b2z_range (color.G c')).
  pose proof (b2z_range (color.B c')).
  split; [apply rgbKey_value|]. split; [rewrite rgbKey_value; lia|].
  rewrite !rgbKey_value. unfold opaque. split.
  - intros E.
    assert (b2z (color.R c) = b2z (color.R c') /\ b2z (color.G c) = b2z (color.G c') /\
            b2z (color.B c) = b2z (color.B c')) as [E1 [E2 E3]] by lia.
    rewrite <- (z2b_b2z (color.R c)), <- (z2b_b2z (color.G c)), <- (z2b_b2z (color.B c)),
            E1, E2, E3, !z2b_b2z. reflexivity.
  - intros E. inversion E. congruence.
Qed.

(* ------------------------------------------------------------------------- *)
(** ** The stripe partition *)

Lemma stacked_app (a b : list stripeInfo) : forall y,
  stacked y a -> stacked (y + totalHeight a) b -> stacked y (a ++ b).
Proof.
  induction a as [|s a IH]; intros y Ha Hb; cbn [app stacked totalHeight fold_right] in *.
  - rewrite Z.add_0_r in Hb. exact Hb.
  - destruct Ha as [Hy Ha]. split; [exact Hy|]. apply IH; [exact Ha|].
    fold (totalHeight a) in Hb. rewrite <- Z.add_assoc. exact Hb.
Qed.

Lemma totalHeight_app (a b : list stripeInfo) :
  totalHeight (a ++ b) = totalHeight a + totalHeight b.
Proof.
  induction a as [|s a IH]; cbn [app totalHeight fold_right]; [reflexivity|].
  fold (totalHeight (a ++ b)). fold (totalHeight a). rewrite IH. lia.
Qed.

Lemma stripes_fold (base rem : Z) (F : list stripeInfo * Z -> Z -> list stripeInfo * Z)
  (m : nat) :
  F = (fun (st : list stripeInfo * Z) i =>
         let '(stripes, y) := st in
         let h := base in
         let h := if i <? rem then h + 1 else h in
         (stripes ++ [mkStripe y h], y + h)) ->
  forall i acc y,
  exists S,
    fold_left F (zrangeFrom i m) (acc, y) = (acc ++ S, y + totalHeight S) /\
    length S = m /\ stacked y S /\
    totalHeight S = Z.of_nat m * base + Z.max 0 (Z.min rem (i + Z.of_nat m) - i) /\
    Forall (fun s => base <= stripe_h s <= base + 1) S.
Proof.
  intros HF. induction m as [|m IH]; intros i acc y.
  - exists []. cbn [zrangeFrom fold_left totalHeight fold_right length stacked].
    rewrite app_nil_r, Z.add_0_r. repeat split; try lia. constructor.
  - cbn [zrangeFrom fold_left].
    set (h := if i <? rem then base + 1 else base).
    replace (F (acc, y) i) with (acc ++ [mkStripe y h], y + h)
      by (rewrite HF; reflexivity).
    destruct (IH (i + 1) (acc ++ [mkStripe y h]) (y + h)) as [S [E [L [St [T Fa]]]]].
    exists (mkStripe y h :: S). rewrite E.
    cbn [totalHeight fold_right stripe_h length stacked stripe_y].
    fold (totalHeight S). rewrite <- app_assoc. cbn [app].
    split; [f_equal; lia|]. split; [lia|]. split; [split; [reflexivity|exact St]|].
    split.
    + rewrite T. unfold h. destruct (Z.ltb_spec i rem); lia.
    + constructor; [|exact Fa]. cbn [stripe_h]. unfold h.
      destruct (Z.ltb_spec i rem); lia.
Qed.

Lemma splitStripes_layout (numCPU totalH mb : Z) :
  0 < totalH -> 1 <= mb ->
  let stripes := splitStripes numCPU totalH mb in
  let k := Z.min (Z.max numCPU 1) (Z.max (totalH ÷ mb) 1) in
  len stripes = k /\
  stacked 0 stripes /\
  totalHeight stripes = totalH /\
  Forall (fun s => totalH ÷ k <= stripe_h s <= totalH ÷ k + 1 /\
                   Z.min mb totalH <= stripe_h s) stripes.
Proof.
  intros HH Hmb stripes k. unfold stripes, splitStripes.
  destruct (Z.leb_spec totalH 0); [lia|].
  set (n1 := if numCPU <? 1 then 1 else numCPU).
  set (m1 := if totalH ÷ mb <? 1 then 1 else totalH ÷ mb).
  set (n2 := if m1 <? n1 then m1 else n1).
  assert (En : n2 = k).
  { unfold n2, m1, n1, k.
    destruct (Z.ltb_spec numCPU 1); destruct (Z.ltb_spec (totalH ÷ mb) 1);
      match goal with |- (if ?a <? ?b then _ else _) = _ => destruct (Z.ltb_spec a b) end;
      lia. }
  rewrite En. clear En n2 m1 n1.
  assert (Hk : 1 <= k) by (unfold k; lia).
  assert (Hkm : 2 <= k -> k <= totalH ÷ mb) by (unfold k; lia).
  clearbody k.
  destruct (Z.eqb_spec k 1) as [->|Hne].
  - cbn [len length stacked totalHeight fold_right stripe_y stripe_h].
    rewrite Z.quot_1_r.
    split; [reflexivity|]. split; [auto|]. split; [lia|].
    constructor; [|constructor]. cbn [stripe_h]. lia.
  - destruct (stripes_fold (totalH ÷ k) (Z.rem totalH k) _ (Z.to_nat k) eq_refl 0 [] 0)
      as [S [E [L [St [T Fa]]]]].
    unfold zrange. cbv zeta in E |- *. rewrite E. cbn [fst app].
    assert (Hq : 0 <= Z.rem totalH k < k) by (apply Z.rem_bound_pos; lia).
    pose proof (Z.quot_rem' totalH k) as Hqr.
    split; [unfold len; lia|]. split; [exact St|].
    split; [rewrite T; lia|].
    assert (Hb : mb <= totalH ÷ k).
    { apply Z.quot_le_lower_bound; [lia|].
      specialize (Hkm ltac:(lia)).
      pose proof (Z.quot_rem' totalH mb) as Hqr2.
      assert (0 <= Z.rem totalH mb < mb) by (apply Z.rem_bound_pos; lia).
      assert (k * mb <= (totalH ÷ mb) * mb) by (apply Z.mul_le_mono_nonneg_r; lia).
      lia. }
    eapply Forall_impl; [|exact Fa]. cbn beta. intros s Hs. lia.
Qed.

(** X14: for a positive height and a minimum block of at least 1,
    [splitStripes] returns [k] stripes, [k] the worker count clamped between
    1 and [totalH / minBlock]; they lie one under the other from row 0,
    their heights add up to [totalH], differ by at most one, and none is
    lower than [minBlock] unless the whole image is. *)
Theorem splitStripes_partition (numCPU totalH mb : Z) :
  0 < totalH -> 1 <= mb ->
  let stripes := splitStripes numCPU totalH mb in
  let k := Z.min (Z.max numCPU 1) (Z.max (totalH ÷ mb) 1) in
  len stripes = k /\
  stacked 0 stripes /\
  totalHeight stripes = totalH /\
  Forall (fun s => totalH ÷ k <= stripe_h s <= totalH ÷ k + 1 /\
                   Z.min mb totalH <= stripe_h s) stripes.
Proof. apply splitStripes_layout. Qed.

Lemma splitStripes_partition_witness :
  len (splitStripes 3 4 1) = Z.min (Z.max 3 1) (Z.max (4 ÷ 1) 1) /\
  stacked 0 (splitStripes 3 4 1) /\
  totalHeight (splitStripes 3 4 1) = 4 /\
  Forall (fun s => 4 ÷ Z.min (Z.max 3 1) (Z.max (4 ÷ 1) 1) <= stripe_h s
                     <= 4 ÷ Z.min (Z.max 3 1) (Z.max (4 ÷ 1) 1) + 1 /\
                   Z.min 1 4 <= stripe_h s) (splitStripes 3 4 1).
Proof.
  apply (splitStripes_partition 3 4 1); lia.
Defined.

(* ------------------------------------------------------------------------- *)
(** ** The two passes of the encoder agree *)

Lemma sliceAt_full {A} (L xs : list A) :
  sliceAt L 0 xs -> length xs = length L -> xs = L.
Proof.
  intros H Hl. apply nth_error_ext. intros j.
  destruct (nth_error xs j) as [x|] eqn:E.
  - specialize (H j x E). rewrite index_nth_error in H by lia.
    replace (Z.to_nat (0 + Z.of_nat j)) with j in H by lia. congruence.
  - symmetry. apply nth_error_None. apply nth_error_None in E. lia.
Qed.

Lemma leavesOf_nonempty (t : node) : (1 <= length (leavesOf t))%nat.
Proof.
  induction t as [local|a IHa b IHb]; cbn [leavesOf length]; [lia|].
  rewrite length_app. lia.
Qed.

Lemma flags_and_leaves (t : node) :
  (length (flagsOf t) + 1 = 2 * length (leavesOf t))%nat /\
  length (filter (fun f => f) (flagsOf t)) = length (leavesOf t).
Proof.
  induction t as [local|a [IHa1 IHa2] b [IHb1 IHb2]]; cbn [flagsOf leavesOf length filter].
  - split; reflexivity.
  - rewrite filter_app, !length_app. split; lia.
Qed.

(** X15: the second pass of the encoder cannot fail on what the first pass
    produced for the same region: with the pattern and one local index per
    leaf, [encodeRegion] consumes the whole pattern and every index, and
    writes exactly the bits of one tree whose flags are the pattern and
    whose leaves are the indices.  A pattern for [n] leaves has [2n - 1]
    flags, [n] of them set. *)
Theorem second_pass_follows_first_pass (img : image.RGBA) (params : codec2Params)
  (fuel : nat) (x y w h : Z) (leaves : list leafColor) (pattern : list bool)
  (leafLocal : list byte) (bw : BitWriter) :
  collectRegionColors fuel img x y w h params [] [] = Ok (leaves, pattern) ->
  length leafLocal = length leaves ->
  writerOk bw ->
  exists bw' t,
    encodeRegion (S (length pattern)) x y w h params bw leafLocal 0 pattern 0
      = Ok (bw', len leaves, len pattern) /\
    flagsOf t = pattern /\ leavesOf t = leafLocal /\
    written bw' = written bw ++ nodeBits t /\
    (length pattern + 1 = 2 * length leaves)%nat /\
    length (filter (fun f => f) pattern) = length leaves.
Proof.
  intros Hc Hl Hok.
  destruct (collect_then_encode img params fuel x y w h [] [] leaves pattern Hc)
    as [dl [dp [E1 [E2 Henc]]]].
  cbn [app] in E1, E2. subst dl dp.
  destruct (Henc (S (length pattern)) bw leafLocal 0 pattern 0 ltac:(lia) ltac:(lia)
              ltac:(lia) (sliceAt_self pattern) ltac:(unfold len; lia)) as [bw' He].
  destruct (encodeRegion_tree params leafLocal pattern _ _ _ _ _ _ _ _ _ _ _ He Hok
              ltac:(lia) ltac:(lia)) as [t [W [_ [_ [_ [L1 [L2 [S1 S2]]]]]]]].
  assert (Ef : flagsOf t = pattern) by (apply sliceAt_full; [exact S2|unfold len in L2; lia]).
  assert (El : leavesOf t = leafLocal)
    by (apply sliceAt_full; [exact S1|unfold len in L1; lia]).
  exists bw', t. cbn [Z.add] in He.
  split; [exact He|]. split; [exact Ef|]. split; [exact El|]. split; [exact W|].
  destruct (flags_and_leaves t) as [F1 F2]. rewrite Ef, El in *. split; lia.
Qed.

Lemma second_pass_follows_first_pass_witness :
  exists bw' t,
    encodeRegion (S (length [false; true; true])) 0 0 2 1 (paramsForQuality 50)
      (NewBitWriter []) [x00; x01] 0 [false; true; true] 0
      = Ok (bw', len [mkLeafColor (rgb 0 0 0); mkLeafColor (rgb 255 255 255)],
            len [false; true; true]) /\
    flagsOf t = [false; true; true] /\ leavesOf t = [x00; x01] /\
    written bw' = written (NewBitWriter []) ++ nodeBits t /\
    (length [false; true; true] + 1
     = 2 * length [mkLeafColor (rgb 0 0 0); mkLeafColor (rgb 255 255 255)])%nat /\
    length (filter (fun f => f) [false; true; true])
    = length [mkLeafColor (rgb 0 0 0); mkLeafColor (rgb 255 255 255)].
Proof.
  apply (second_pass_follows_first_pass
           (rasterOf 2 1 (fun x _ => if x =? 0 then rgb 0 0 0 else rgb 255 255 255))
           (paramsForQuality 50) 4 0 0 2 1).
  - vm_compute. reflexivity.
  - reflexivity.
  - split; [simpl; lia|reflexivity].
Defined.

(* ------------------------------------------------------------------------- *)
(** ** Block analysis: order of the energies, flat regions *)

Lemma row_fold_inv (P : blockScan -> Prop) (img : image.RGBA) (x y w h yy : Z)
  (cols : list Z) :
  (forall s xx, In xx cols -> P s -> P (scanPixel img x y w h yy s xx)) ->
  forall s, P s -> P (fold_left (scanPixel img x y w h yy) cols s).
Proof.
  induction cols as [|xx cols IH]; intros Hstep s Hs; cbn [fold_left]; [exact Hs|].
  apply IH.
  - intros s' xx' Hin. apply Hstep. right. exact Hin.
  - apply Hstep; [left; reflexivity|exact Hs].
Qed.

Lemma block_fold_inv (P : blockScan -> Prop) (img : image.RGBA) (x y w h : Z)
  (rows cols : list Z) :
  (forall s xx yy, In xx cols -> In yy rows -> P s -> P (scanPixel img x y w h yy s xx)) ->
  forall s, P s ->
  P (fold_left (fun s yy => fold_left (scanPixel img x y w h yy) cols s) rows s).
Proof.
  induction rows as [|yy rows IH]; intros Hstep s Hs; cbn [fold_left]; [exact Hs|].
  apply IH.
  - intros s' xx yy' Hx Hy. apply Hstep; [exact Hx|right; exact Hy].
  - apply row_fold_inv; [|exact Hs].
    intros s' xx Hx. apply Hstep; [exact Hx|left; reflexivity].
Qed.

Lemma scanBlock_inv (P : blockScan -> Prop) (img : image.RGBA) (x y w h : Z) :
  P scan0 ->
  (forall s xx yy, 0 <= xx < w -> 0 <= yy < h -> P s -> P (scanPixel img x y w h yy s xx)) ->
  P (scanBlock img x y w h).
Proof.
  intros H0 Hstep. unfold scanBlock. apply block_fold_inv; [|exact H0].
  intros s xx yy Hx Hy. apply Hstep; apply in_zrange; assumption.
Qed.

Lemma scanBlock_ordered (img : image.RGBA) (x y w h : Z) :
  scanOrdered (scanBlock img x y w h).
Proof.
  apply scanBlock_inv.
  - unfold scanOrdered. cbn. repeat split; lia.
  - intros s xx yy _ _ Hs. unfold scanPixel.
    destruct (_ || _ || _ || _); [exact Hs|].
    destruct Hs as [H0 [H1 [H2 [H3 H4]]]].
    pose proof (luma_range (image.RGBAAt img (x + xx) (y + yy))) as Hl.
    set (l := luma (image.RGBAAt img (x + xx) (y + yy))) in *.
    unfold scanOrdered.
    cbn [minL maxL minLBorder maxLBorder minLInner maxLInner haveBorder haveInner count].
    assert (Hc : count s = 0 \/ 0 < count s) by lia.
    destruct ((xx =? 0) || (yy =? 0) || (xx =? w - 1) || (yy =? h - 1));
      destruct (haveBorder s); destruct (haveInner s);
      repeat match goal with
             | |- context [if ?a <? ?b then _ else _] => destruct (Z.ltb_spec a b)
             end;
      repeat split; lia.
Qed.

(** X16: the three energies of [analyzeBlock] are luma spreads: the border
    and the inner energy lie between 0 and the total energy, which is at
    most 255; the average color is opaque. *)
Theorem analyzeBlock_energy_order (img : image.RGBA) (x y w h : Z) :
  let '(energy, borderEnergy, innerEnergy, avg) := analyzeBlock img x y w h in
  0 <= borderEnergy <= energy /\ 0 <= innerEnergy <= energy /\ energy <= 255 /\
  color.A avg = xff.
Proof.
  unfold analyzeBlock.
  destruct (scanBlock_ordered img x y w h) as [H0 [H1 [H2 [H3 H4]]]].
  destruct (Z.eqb_spec (count (scanBlock img x y w h)) 0) as [E|E].
  - repeat split; lia.
  - specialize (H2 ltac:(lia)).
    destruct (haveBorder _); destruct (haveInner _); cbn [color.A]; repeat split; lia.
Qed.

Section FlatRegion.

Variable img : image.RGBA.
Variables x y w h : Z.
Variable c : color.RGBA.

Hypothesis Hw : 1 <= w.
Hypothesis Hh : 1 <= h.
Hypothesis Hcorner : image.In x y (image.Bounds img) = true.
Hypothesis Hflat : forall xx yy, 0 <= xx < w -> 0 <= yy < h ->
  image.In (x + xx) (y + yy) (image.Bounds img) = true ->
  image.RGBAAt img (x + xx) (y + yy) = c.

Let flatScan (s : blockScan) : Prop :=
  0 <= count s /\
  sumR s = b2z (color.R c) * count s /\
  sumG s = b2z (color.G c) * count s /\
  sumB s = b2z (color.B c) * count s /\
  (count s = 0 -> minL s = 255 /\ maxL s = 0) /\
  (0 < count s -> minL s = luma c /\ maxL s = luma c) /\
  (if haveBorder s then minLBorder s = luma c /\ maxLBorder s = luma c
   else minLBorder s = 255 /\ maxLBorder s = 0) /\
  (if haveInner s then minLInner s = luma c /\ maxLInner s = luma c
   else minLInner s = 255 /\ maxLInner s = 0).

Lemma outside_In (px py : Z) :
  (px <? image.X (image.Min (image.Bounds img)))
  || (py <? image.Y (image.Min (image.Bounds img)))
  || (image.X (image.Max (image.Bounds img)) <=? px)
  || (image.Y (image.Max (image.Bounds img)) <=? py)
  = negb (image.In px py (image.Bounds img)).
Proof.
  unfold image.In.
  destruct (Z.ltb_spec px (image.X (image.Min (image.Bounds img))));
    destruct (Z.ltb_spec py (image.Y (image.Min (image.Bounds img))));
    destruct (Z.leb_spec (image.X (image.Max (image.Bounds img))) px);
    destruct (Z.leb_spec (image.Y (image.Max (image.Bounds img))) py);
    repeat match goal with
           | |- context [?a <=? ?b] => destruct (Z.leb_spec a b)
           | |- context [?a <? ?b] => destruct (Z.ltb_spec a b)
           end; try reflexivity; lia.
Qed.

Lemma flatScan_step (s : blockScan) (xx yy : Z) :
  0 <= xx < w -> 0 <= yy < h -> flatScan s -> flatScan (scanPixel img x y w h yy s xx).
Proof.
  intros Hx Hy Hs. unfold scanPixel.
  rewrite outside_In.
  destruct (image.In (x + xx) (y + yy) (image.Bounds img)) eqn:Ein; cbn [negb];
    [|exact Hs].
  destruct Hs as [H0 [HR [HG [HB [H1 [H2 [H3 H4]]]]]]].
  rewrite (Hflat xx yy Hx Hy Ein).
  pose proof (luma_range c) as Hl. set (l := luma c) in *.
  unfold flatScan.
  cbn [minL maxL minLBorder maxLBorder minLInner maxLInner haveBorder haveInner count
       sumR sumG sumB].
  assert (Hc : count s = 0 \/ 0 < count s) by lia.
  destruct ((xx =? 0) || (yy =? 0) || (xx =? w - 1) || (yy =? h - 1));
    destruct (haveBorder s); destruct (haveInner s);
    repeat match goal with
           | |- context [if ?a <? ?b then _ else _] => destruct (Z.ltb_spec a b)
           end;
    repeat split; lia.
Qed.

Lemma count_step (s : blockScan) (xx yy : Z) :
  1 <= count s -> 1 <= count (scanPixel img x y w h yy s xx).
Proof.
  intros H. unfold scanPixel. destruct (_ || _ || _ || _); [exact H|].
  cbn [count]. lia.
Qed.

Lemma flat_count : 1 <= count (scanBlock img x y w h).
Proof.
  unfold scanBlock, zrange.
  assert (Ec : exists cols', zrangeFrom 0 (Z.to_nat w) = 0 :: cols').
  { destruct (Z.to_nat w) as [|nw] eqn:Ew; [lia|]. eexists. reflexivity. }
  destruct Ec as [cols' Ec].
  remember (zrangeFrom 0 (Z.to_nat w)) as cols eqn:Ecols.
  destruct (Z.to_nat h) as [|nh] eqn:Eh; [lia|].
  cbn [zrangeFrom fold_left].
  apply (block_fold_inv (fun s => 1 <= count s)).
  - intros s xx yy _ _. apply count_step.
  - rewrite Ec. cbn [fold_left].
    apply (row_fold_inv (fun s => 1 <= count s)).
    + intros s xx _. apply count_step.
    + unfold scanPixel. rewrite outside_In, !Z.add_0_r, Hcorner. cbn [negb count scan0].
      lia.
Qed.

Lemma analyzeBlock_flat :
  analyzeBlock img x y w h = (0, 0, 0, opaque c).
Proof.
  unfold analyzeBlock.
  assert (HF : flatScan (scanBlock img x y w h)).
  { apply (scanBlock_inv flatScan); [|intros; apply flatScan_step; assumption].
    unfold flatScan. cbn. repeat split; lia. }
  pose proof flat_count as Hc.
  destruct HF as [H0 [HR [HG [HB [H1 [H2 [H3 H4]]]]]]].
  destruct (Z.eqb_spec (count (scanBlock img x y w h)) 0) as [E|E]; [lia|].
  specialize (H2 ltac:(lia)). destruct H2 as [-> ->].
  rewrite HR, HG, HB, !Z.quot_mul by lia. rewrite !z2b_b2z.
  destruct (haveBorder _); destruct (haveInner _);
    repeat match goal with H : _ /\ _ |- _ => destruct H end;
    repeat match goal with H : _ = luma c |- _ => rewrite H end;
    rewrite ?Z.sub_diag; reflexivity.
Qed.

Lemma collectRegionColors_flat (params : codec2Params) (fuel : nat)
  (leaves : list leafColor) (pattern : list bool) :
  collectRegionColors (S fuel) img x y w h params leaves pattern =
    Ok (leaves ++ [mkLeafColor (opaque c)], pattern ++ [true]).
Proof.
  cbn [collectRegionColors]. rewrite analyzeBlock_flat.
  destruct ((w <=? minBlock params) && (h <=? minBlock params)); reflexivity.
Qed.

End FlatRegion.

(** X17: a region of one color is one leaf: when the top left pixel of the
    region is inside the image and every pixel of the region that is inside
    the image has the color [c], [analyzeBlock] finds no energy and the
    average [c] (made opaque), and [collectRegionColors] appends exactly one
    leaf of that color and one set flag, whatever the parameters and the
    size of the region. *)
Theorem flat_region_is_one_leaf (img : image.RGBA) (x y w h : Z) (c : color.RGBA)
  (params : codec2Params) (fuel : nat) (leaves : list leafColor) (pattern : list bool) :
  1 <= w -> 1 <= h ->
  image.In x y (image.Bounds img) = true ->
  (forall xx yy, 0 <= xx < w -> 0 <= yy < h ->
     image.In (x + xx) (y + yy) (image.Bounds img) = true ->
     image.RGBAAt img (x + xx) (y + yy) = c) ->
  analyzeBlock img x y w h = (0, 0, 0, opaque c) /\
  collectRegionColors (S fuel) img x y w h params leaves pattern =
    Ok (leaves ++ [mkLeafColor (opaque c)], pattern ++ [true]).
Proof.
  intros Hw Hh Hc Hf. split.
  - apply analyzeBlock_flat; assumption.
  - apply collectRegionColors_flat; assumption.
Qed.

Lemma flat_region_is_one_leaf_witness :
  analyzeBlock (flatImage 300 200 (rgb 200 100 50)) 10 20 100 50
    = (0, 0, 0, opaque (rgb 200 100 50)) /\
  collectRegionColors 1 (flatImage 300 200 (rgb 200 100 50)) 10 20 100 50
    (paramsForQuality 50) [] [] =
    Ok ([] ++ [mkLeafColor (opaque (rgb 200 100 50))], [] ++ [true]).
Proof.
  apply (flat_region_is_one_leaf (flatImage 300 200 (rgb 200 100 50)) 10 20 100 50
           (rgb 200 100 50) (paramsForQuality 50) 0 [] []).
  - lia.
  - lia.
  - reflexivity.
  - intros xx yy _ _ Hin. unfold image.RGBAAt. rewrite Hin. reflexivity.
Defined.

(* ------------------------------------------------------------------------- *)
(** ** The decoded jobs tile the region *)

Lemma coverCount_app (px py : Z) (a b : list leafJob) :
  coverCount px py (a ++ b) = (coverCount px py a + coverCount px py b)%nat.
Proof. unfold coverCount. rewrite filter_app, length_app. reflexivity. Qed.

Lemma decodeLeafJob_tiles (fallback : bool) (x y w h : Z) (br br' : BitReader)
  (palettes : list (list color.RGBA)) (lc lc' : Z) (jobs jobs' : list leafJob) :
  decodeLeafJob fallback x y w h br palettes lc jobs = Ok (br', lc', jobs') ->
  exists new, jobs' = jobs ++ new /\
    forall px py, coverCount px py new = if inRegion x y w h px py then 1%nat else 0%nat.
Proof.
  unfold decodeLeafJob. intros H.
  bindOk H r1 H1. destruct r1 as [b br1].
  destruct ((lc ÷ 256 <? 0) || (len palettes <=? lc ÷ 256)); [discriminate|].
  destruct (index palettes (lc ÷ 256)) as [p|]; [|discriminate].
  destruct ((b2z b <? 0) || (len p <=? b2z b)); [discriminate|].
  inversion H; subst. eexists. split; [reflexivity|].
  intros px py. unfold coverCount. cbn [filter]. unfold jobCovers.
  cbn [job_x job_y job_w job_h].
  destruct (inRegion x y w h px py); reflexivity.
Qed.

Lemma inRegion_split_w (x y w h px py : Z) :
  ((if inRegion x y (w ÷ 2) h px py then 1 else 0)
   + (if inRegion (x + w ÷ 2) y (w - w ÷ 2) h px py then 1 else 0))%nat
  = if inRegion x y w h px py then 1%nat else 0%nat.
Proof.
  unfold inRegion.
  assert (Hq : (0 <= w -> 0 <= w ÷ 2 <= w) /\ (w < 0 -> w <= w ÷ 2 <= 0)) by dlia.
  repeat match goal with
         | |- context [?a <=? ?b] => destruct (Z.leb_spec a b)
         | |- context [?a <? ?b] => destruct (Z.ltb_spec a b)
         end; cbn [andb]; try reflexivity; lia.
Qed.

Lemma inRegion_split_h (x y w h px py : Z) :
  0 < h ÷ 2 ->
  ((if inRegion x y w (h ÷ 2) px py then 1 else 0)
   + (if inRegion x (y + h ÷ 2) w (h - h ÷ 2) px py then 1 else 0))%nat
  = if inRegion x y w h px py then 1%nat else 0%nat.
Proof.
  intros Hh. unfold inRegion.
  assert (Hq : 0 <= h ÷ 2 <= h) by dlia.
  repeat match goal with
         | |- context [?a <=? ?b] => destruct (Z.leb_spec a b)
         | |- context [?a <? ?b] => destruct (Z.ltb_spec a b)
         end; cbn [andb]; try reflexivity; lia.
Qed.

Lemma decodeRegionJobs_tiles (params : codec2Params) (palettes : list (list color.RGBA))
  (fuel : nat) :
  forall x y w h br lc jobs br' lc' jobs',
  decodeRegionJobs fuel x y w h params br palettes lc jobs = Ok (br', lc', jobs') ->
  exists new, jobs' = jobs ++ new /\
    forall px py, coverCount px py new = if inRegion x y w h px py then 1%nat else 0%nat.
Proof.
  induction fuel as [|fuel IH]; intros x y w h br lc jobs br' lc' jobs' H;
    [discriminate|].
  cbn [decodeRegionJobs] in H.
  bindOk H r1 H1. destruct r1 as [isLeaf br1].
  destruct isLeaf; [eapply decodeLeafJob_tiles; eassumption|].
  destruct ((h <=? w) && (minBlock params <=? w ÷ 2)).
  - bindOk H r2 H2. destruct r2 as [[br2 lc2] jobs2].
    destruct (IH _ _ _ _ _ _ _ _ _ _ H2) as [n1 [E1 C1]].
    destruct (IH _ _ _ _ _ _ _ _ _ _ H) as [n2 [E2 C2]].
    exists (n1 ++ n2). split; [rewrite E2, E1, app_assoc; reflexivity|].
    intros px py. rewrite coverCount_app, C1, C2. apply inRegion_split_w.
  - destruct (Z.leb_spec (h ÷ 2) 0) as [Hle|Hgt];
      [eapply decodeLeafJob_tiles; eassumption|].
    bindOk H r2 H2. destruct r2 as [[br2 lc2] jobs2].
    destruct (IH _ _ _ _ _ _ _ _ _ _ H2) as [n1 [E1 C1]].
    destruct (IH _ _ _ _ _ _ _ _ _ _ H) as [n2 [E2 C2]].
    exists (n1 ++ n2). split; [rewrite E2, E1, app_assoc; reflexivity|].
    intros px py. rewrite coverCount_app, C1, C2. apply inRegion_split_h. exact Hgt.
Qed.

(** X18: whatever bits it reads, a successful [decodeRegionJobs] appends
    jobs whose rectangles tile the region: every pixel of the region lies in
    exactly one of the new jobs, and no new job reaches outside the region;
    the jobs that were in the list stay in front, unchanged. *)
Theorem decoded_jobs_tile_the_region (params : codec2Params)
  (palettes : list (list color.RGBA)) (fuel : nat) (x y w h : Z) (br br' : BitReader)
  (lc lc' : Z) (jobs jobs' : list leafJob) :
  decodeRegionJobs fuel x y w h params br palettes lc jobs = Ok (br', lc', jobs') ->
  exists new, jobs' = jobs ++ new /\
    forall px py, coverCount px py new = if inRegion x y w h px py then 1%nat else 0%nat.
Proof. apply decodeRegionJobs_tiles. Qed.

Lemma decoded_jobs_tile_the_region_witness :
  exists new,
    [mkLeafJob 0 0 1 1 0 1; mkLeafJob 1 0 1 1 0 2] = [] ++ new /\
    forall px py, coverCount px py new = if inRegion 0 0 2 1 px py then 1%nat else 0%nat.
Proof.
  apply (decoded_jobs_tile_the_region (paramsForQuality 50)
           [[rgb 0 0 0; rgb 1 1 1; rgb 2 2 2]] 9 0 0 2 1
           (NewBitReaderFromBytes [x40; x60; x40])
           (mkBitReader [x40; x60; x40] 3 x40 3) 0 2 []).
  vm_compute. reflexivity.
Defined.

(* ------------------------------------------------------------------------- *)
(** ** Painting does not depend on the worker count *)

Lemma workerWrites_app (bounds : image.Rectangle) (palettes : list (list color.RGBA))
  (a b : list leafJob) :
  workerWrites bounds palettes (a ++ b) =
  (ws1 <- workerWrites bounds palettes a ;;
   ws2 <- workerWrites bounds palettes b ;;
   Ok (ws1 ++ ws2)).
Proof.
  induction a as [|job a IH]; cbn [app workerWrites bind].
  - destruct (workerWrites bounds palettes b); reflexivity.
  - destruct (jobColor palettes job) as [c|e]; cbn [bind]; [|reflexivity].
    rewrite IH.
    destruct (workerWrites bounds palettes a) as [ws1|e1]; cbn [bind]; [|reflexivity].
    destruct (workerWrites bounds palettes b) as [ws2|e2]; cbn [bind]; [|reflexivity].
    rewrite app_assoc. reflexivity.
Qed.

Lemma paint_fold_Err (bounds : image.Rectangle) (palettes : list (list color.RGBA))
  (chunks : list (list leafJob)) (e : error) :
  fold_left
    (fun acc js => ws <- acc ;; ws' <- workerWrites bounds palettes js ;; Ok (ws ++ ws'))
    chunks (Err e) = Err e.
Proof. induction chunks as [|js chunks IH]; [reflexivity|exact IH]. Qed.

Lemma paint_fold_concat (bounds : image.Rectangle) (palettes : list (list color.RGBA))
  (chunks : list (list leafJob)) : forall acc,
  fold_left
    (fun acc js => ws <- acc ;; ws' <- workerWrites bounds palettes js ;; Ok (ws ++ ws'))
    chunks (Ok acc) =
  (ws <- workerWrites bounds palettes (concat chunks) ;; Ok (acc ++ ws)).
Proof.
  induction chunks as [|js chunks IH]; intros acc; cbn [fold_left concat bind].
  - cbn [workerWrites bind]. rewrite app_nil_r. reflexivity.
  - rewrite workerWrites_app.
    destruct (workerWrites bounds palettes js) as [ws1|e1]; cbn [bind].
    + rewrite IH.
      destruct (workerWrites bounds palettes (concat chunks)) as [ws2|e2]; cbn [bind];
        [|reflexivity].
      rewrite app_assoc. reflexivity.
    + apply paint_fold_Err.
Qed.

Lemma firstn_add_skipn {A} (n m : nat) : forall l : list A,
  firstn (n + m) l = firstn n l ++ firstn m (skipn n l).
Proof.
  induction n as [|n IH]; intros l; [reflexivity|].
  destruct l as [|a l]; cbn [Nat.add firstn skipn app].
  - rewrite firstn_nil. reflexivity.
  - rewrite IH. reflexivity.
Qed.

Lemma skipn_skipn {A} (n m : nat) : forall l : list A,
  skipn m (skipn n l) = skipn (n + m) l.
Proof.
  induction n as [|n IH]; intros l; [reflexivity|].
  destruct l as [|a l]; cbn [Nat.add skipn]; [apply skipn_nil|apply IH].
Qed.

Lemma jobChunks_concat (jobs : list leafJob) (chunk : Z) (m : nat) : forall i,
  0 <= i -> 1 <= chunk ->
  concat (jobChunks jobs chunk (zrangeFrom i m)) =
  firstn (m * Z.to_nat chunk) (skipn (Z.to_nat (i * chunk)) jobs).
Proof.
  induction m as [|m IH]; intros i Hi Hc; cbn [zrangeFrom jobChunks concat].
  - reflexivity.
  - destruct (Z.leb_spec (len jobs) (i * chunk)) as [Hle|Hgt].
    + cbn [concat]. rewrite skipn_all2 by (unfold len in Hle; lia).
      rewrite firstn_nil. reflexivity.
    + cbn [concat]. rewrite IH by lia.
      replace (S m * Z.to_nat chunk)%nat with (Z.to_nat chunk + m * Z.to_nat chunk)%nat
        by lia.
      rewrite firstn_add_skipn, skipn_skipn. f_equal.
      * set (L := skipn (Z.to_nat (i * chunk)) jobs).
        assert (HL : length L = (length jobs - Z.to_nat (i * chunk))%nat)
          by (unfold L; apply length_skipn).
        destruct (Z.ltb_spec (len jobs) (i * chunk + chunk)) as [Hlt|Hge].
        -- unfold len in *. rewrite !firstn_all2 by nia. reflexivity.
        -- f_equal. lia.
      * f_equal. f_equal. nia.
Qed.

Lemma jobChunks_all (jobs : list leafJob) (chunk workers : Z) :
  1 <= chunk -> 0 <= workers -> len jobs <= workers * chunk ->
  concat (jobChunks jobs chunk (zrange workers)) = jobs.
Proof.
  intros Hc Hw Hl. unfold zrange. rewrite jobChunks_concat by lia.
  change (Z.to_nat (0 * chunk)) with O. cbn [skipn].
  apply firstn_all2. unfold len in Hl. nia.
Qed.

Lemma paintWrites_sequential (numCPU : Z) (bounds : image.Rectangle)
  (palettes : list (list color.RGBA)) (jobs : list leafJob) :
  paintWrites numCPU bounds palettes jobs = workerWrites bounds palettes jobs.
Proof.
  unfold paintWrites.
  destruct (Z.eqb_spec (len jobs) 0) as [E|E].
  - destruct jobs; [reflexivity|discriminate E].
  - pose proof (len_nonneg jobs) as H0.
    set (w1 := if numCPU <? 1 then 1 else numCPU).
    set (w2 := if len jobs <? w1 then len jobs else w1).
    assert (Hw : 1 <= w2 <= len jobs).
    { unfold w2, w1. destruct (Z.ltb_spec numCPU 1);
        match goal with |- _ <= (if ?a <? ?b then _ else _) <= _ =>
          destruct (Z.ltb_spec a b) end; lia. }
    cbv zeta. rewrite paint_fold_concat.
    rewrite jobChunks_all.
    + destruct (workerWrites bounds palettes jobs); reflexivity.
    + apply Z.quot_le_lower_bound; lia.
    + lia.
    + pose proof (Z.quot_rem' (len jobs + w2 - 1) w2) as Hqr.
      assert (0 <= Z.rem (len jobs + w2 - 1) w2 < w2) by (apply Z.rem_bound_pos; lia).
      lia.
Qed.

(** X19: for jobs that do not overlap (as the decoded jobs are), the result
    of [paintLeafJobsParallel] does not depend on the number of workers: the
    workers' slices are the job list cut in order, so the raster is the one
    a single worker painting all the jobs in order produces, and a fault
    occurs for one worker count exactly when it occurs for all. *)
Theorem painting_ignores_the_worker_count (numCPU : Z) (dst : image.RGBA)
  (palettes : list (list color.RGBA)) (jobs : list leafJob) :
  (forall px py, (coverCount px py jobs <= 1)%nat) ->
  paintWrites numCPU (image.Bounds dst) palettes jobs
    = workerWrites (image.Bounds dst) palettes jobs /\
  paintLeafJobsParallel numCPU dst palettes jobs
    = paintLeafJobsParallel 1 dst palettes jobs.
Proof.
  intros _. split; [apply paintWrites_sequential|].
  unfold paintLeafJobsParallel. rewrite !paintWrites_sequential. reflexivity.
Qed.

Lemma two_pixels_apart (px py : Z) :
  (coverCount px py [mkLeafJob 0 0 1 1 0 0; mkLeafJob 1 0 1 1 0 1] <= 1)%nat.
Proof.
  unfold coverCount, jobCovers, inRegion. cbn [filter job_x job_y job_w job_h].
  destruct (Z.leb_spec 0 px); destruct (Z.ltb_spec px (0 + 1));
    destruct (Z.leb_spec 1 px); destruct (Z.ltb_spec px (1 + 1));
    destruct (0 <=? py); destruct (py <? 0 + 1); cbn [andb length]; lia.
Qed.

Lemma painting_ignores_the_worker_count_witness :
  paintWrites 8 (image.Bounds (image.NewRGBA (image.Rect 0 0 2 1)))
    [[rgb 1 1 1; rgb 2 2 2]] [mkLeafJob 0 0 1 1 0 0; mkLeafJob 1 0 1 1 0 1]
    = workerWrites (image.Bounds (image.NewRGBA (image.Rect 0 0 2 1)))
        [[rgb 1 1 1; rgb 2 2 2]] [mkLeafJob 0 0 1 1 0 0; mkLeafJob 1 0 1 1 0 1] /\
  paintLeafJobsParallel 8 (image.NewRGBA (image.Rect 0 0 2 1))
    [[rgb 1 1 1; rgb 2 2 2]] [mkLeafJob 0 0 1 1 0 0; mkLeafJob 1 0 1 1 0 1]
    = paintLeafJobsParallel 1 (image.NewRGBA (image.Rect 0 0 2 1))
        [[rgb 1 1 1; rgb 2 2 2]] [mkLeafJob 0 0 1 1 0 0; mkLeafJob 1 0 1 1 0 1].
Proof.
  apply (painting_ignores_the_worker_count 8 (image.NewRGBA (image.Rect 0 0 2 1))
           [[rgb 1 1 1; rgb 2 2 2]] [mkLeafJob 0 0 1 1 0 0; mkLeafJob 1 0 1 1 0 1]).
  exact two_pixels_apart.
Defined.

(* ------------------------------------------------------------------------- *)
(** ** What the painter leaves in each pixel *)

Lemma applyWrites_app (a b : list (Z * Z * color.RGBA)) (dst : image.RGBA) :
  applyWrites dst (a ++ b) = applyWrites (applyWrites dst a) b.
Proof. unfold applyWrites. apply fold_left_app. Qed.

Lemma applyWrites_At (px py : Z) (c : color.RGBA) (ws : list (Z * Z * color.RGBA)) :
  forall dst,
  image.In px py (image.Bounds dst) = true ->
  (forall c', In (px, py, c') ws -> c' = c) ->
  image.RGBAAt dst px py = c \/ (exists c', In (px, py, c') ws) ->
  image.RGBAAt (applyWrites dst ws) px py = c.
Proof.
  induction ws as [|[[x1 y1] c1] ws IH]; intros dst Hin Hall Hex.
  - destruct Hex as [H|[c' []]]. exact H.
  - change (applyWrites dst ((x1, y1, c1) :: ws))
      with (applyWrites (image.SetRGBA dst x1 y1 c1) ws).
    apply IH.
    + rewrite SetRGBA_Bounds. exact Hin.
    + intros c' Hc. apply Hall. right. exact Hc.
    + rewrite RGBAAt_SetRGBA.
      destruct (Z.eqb_spec px x1) as [Ex|Ex]; destruct (Z.eqb_spec py y1) as [Ey|Ey];
        cbn [andb].
      * subst. rewrite Hin. left. apply Hall. left. reflexivity.
      * destruct Hex as [H|[c' [H|H]]]; [left; exact H|congruence|right; eauto].
      * destruct Hex as [H|[c' [H|H]]]; [left; exact H|congruence|right; eauto].
      * destruct Hex as [H|[c' [H|H]]]; [left; exact H|congruence|right; eauto].
Qed.

Lemma jobWrites_In (bounds : image.Rectangle) (c : color.RGBA) (job : leafJob)
  (px py : Z) (c' : color.RGBA) :
  In (px, py, c') (jobWrites bounds c job) <->
  c' = c /\ jobCovers px py job = true /\ image.In px py bounds = true.
Proof.
  unfold jobWrites, jobCovers, inRegion, image.In. rewrite in_flat_map. split.
  - intros [yy [Hy H]]. apply in_flat_map in H. destruct H as [xx [Hx H]].
    apply in_zrange in Hy, Hx.
    destruct ((job_x job + xx <? image.X (image.Min bounds))
              || (job_y job + yy <? image.Y (image.Min bounds))
              || (image.X (image.Max bounds) <=? job_x job + xx)
              || (image.Y (image.Max bounds) <=? job_y job + yy)) eqn:E; [contradiction|].
    destruct H as [H|[]]. inversion H; subst.
    apply orb_false_iff in E. destruct E as [E E4].
    apply orb_false_iff in E. destruct E as [E E3].
    apply orb_false_iff in E. destruct E as [E1 E2].
    split; [reflexivity|]. rewrite !andb_true_iff. lia.
  - intros [-> [Hc Hi]]. rewrite !andb_true_iff in Hc, Hi.
    exists (py - job_y job). split; [apply in_zrange; lia|].
    apply in_flat_map. exists (px - job_x job). split; [apply in_zrange; lia|].
    replace (job_x job + (px - job_x job)) with px by lia.
    replace (job_y job + (py - job_y job)) with py by lia.
    destruct (Z.ltb_spec px (image.X (image.Min bounds))); [lia|].
    destruct (Z.ltb_spec py (image.Y (image.Min bounds))); [lia|].
    destruct (Z.leb_spec (image.X (image.Max bounds)) px); [lia|].
    destruct (Z.leb_spec (image.Y (image.Max bounds)) py); [lia|].
    left. reflexivity.
Qed.

Lemma one_job_At (dst : image.RGBA) (c : color.RGBA) (job : leafJob) (px py : Z) :
  image.In px py (image.Bounds dst) = true ->
  image.RGBAAt (applyWrites dst (jobWrites (image.Bounds dst) c job)) px py =
  if jobCovers px py job then c else image.RGBAAt dst px py.
Proof.
  intros Hin. destruct (jobCovers px py job) eqn:Ec.
  - apply applyWrites_At; [exact Hin| |].
    + intros c' H. apply jobWrites_In in H. tauto.
    + right. exists c. apply jobWrites_In. auto.
  - apply applyWrites_At; [exact Hin| |left; reflexivity].
    intros c' H. apply jobWrites_In in H. destruct H as [_ [H _]]. congruence.
Qed.

Lemma painted_At (palettes : list (list color.RGBA)) (px py : Z) (jobs : list leafJob) :
  forall dst ws,
  workerWrites (image.Bounds dst) palettes jobs = Ok ws ->
  image.In px py (image.Bounds dst) = true ->
  match topJob px py jobs with
  | Some job => jobColor palettes job = Ok (image.RGBAAt (applyWrites dst ws) px py)
  | None => image.RGBAAt (applyWrites dst ws) px py = image.RGBAAt dst px py
  end.
Proof.
  induction jobs as [|job jobs IH]; intros dst ws Hw Hin; cbn [workerWrites] in Hw.
  - inversion Hw; subst. reflexivity.
  - bindOk Hw c Hc. bindOk Hw ws' Hws. inversion Hw; subst ws. clear Hw.
    rewrite applyWrites_app. cbn [topJob].
    set (dst1 := applyWrites dst (jobWrites (image.Bounds dst) c job)).
    assert (Hb : image.Bounds dst1 = image.Bounds dst) by apply applyWrites_Bounds.
    rewrite <- Hb in Hws. specialize (IH dst1 ws' Hws ltac:(rewrite Hb; exact Hin)).
    destruct (topJob px py jobs) as [j|]; [exact IH|].
    rewrite IH. unfold dst1. rewrite one_job_At by exact Hin.
    destruct (jobCovers px py job); [exact Hc|reflexivity].
Qed.

Lemma topJob_In (px py : Z) (jobs : list leafJob) (job : leafJob) :
  topJob px py jobs = Some job -> In job jobs /\ jobCovers px py job = true.
Proof.
  induction jobs as [|j jobs IH]; cbn [topJob]; [discriminate|].
  destruct (topJob px py jobs) as [j'|].
  - intros H. inversion H; subst. destruct (IH eq_refl) as [H1 H2]. split; [right|]; auto.
  - destruct (jobCovers px py j) eqn:E; [|discriminate].
    intros H. inversion H; subst. split; [left; reflexivity|exact E].
Qed.

Lemma topJob_None (px py : Z) (jobs : list leafJob) :
  topJob px py jobs = None <-> coverCount px py jobs = 0%nat.
Proof.
  unfold coverCount. induction jobs as [|j jobs IH]; cbn [topJob filter].
  - split; reflexivity.
  - destruct (topJob px py jobs) as [j'|]; destruct (jobCovers px py j); cbn [length];
      split; intros H; try discriminate; try reflexivity.
    + apply IH in H. discriminate.
    + apply IH. reflexivity.
Qed.

(** X20: the raster [paintLeafJobsParallel] returns for jobs that do not
    overlap, pixel by pixel: a pixel inside the raster that a job covers
    holds the palette color of that job, every other pixel is left as it
    was; this holds for every worker count. *)
Theorem painted_pixel_is_its_job_color (numCPU : Z) (dst dst' : image.RGBA)
  (palettes : list (list color.RGBA)) (jobs : list leafJob) (px py : Z) :
  (forall x y, (coverCount x y jobs <= 1)%nat) ->
  paintLeafJobsParallel numCPU dst palettes jobs = Ok dst' ->
  image.Bounds dst' = image.Bounds dst /\
  match topJob px py jobs with
  | Some job =>
      In job jobs /\ jobCovers px py job = true /\
      if image.In px py (image.Bounds dst)
      then jobColor palettes job = Ok (image.RGBAAt dst' px py)
      else image.RGBAAt dst' px py = image.RGBAAt dst px py
  | None => image.RGBAAt dst' px py = image.RGBAAt dst px py
  end.
Proof.
  intros _. unfold paintLeafJobsParallel. intros H. bindOk H ws Hws.
  inversion H; subst dst'.
  rewrite applyWrites_Bounds. split; [reflexivity|].
  rewrite paintWrites_sequential in Hws.
  destruct (image.In px py (image.Bounds dst)) eqn:Hin.
  - pose proof (painted_At palettes px py jobs dst ws Hws Hin) as P.
    destruct (topJob px py jobs) as [job|] eqn:Et; [|exact P].
    destruct (topJob_In _ _ _ _ Et) as [H1 H2]. auto.
  - assert (Ez : forall d, image.Bounds d = image.Bounds dst ->
                           image.RGBAAt d px py = color.zero).
    { intros d Hd. unfold image.RGBAAt. rewrite Hd, Hin. reflexivity. }
    rewrite (Ez dst eq_refl), (Ez _ (applyWrites_Bounds ws dst)).
    destruct (topJob px py jobs) as [job|] eqn:Et; [|reflexivity].
    destruct (topJob_In _ _ _ _ Et) as [H1 H2]. auto.
Qed.

Lemma painted_pixel_is_its_job_color_witness :
  exists dst',
    paintLeafJobsParallel 2 (image.NewRGBA (image.Rect 0 0 2 1)) [[rgb 1 1 1; rgb 2 2 2]]
      [mkLeafJob 0 0 1 1 0 0; mkLeafJob 1 0 1 1 0 1] = Ok dst' /\
    image.Bounds dst' = image.Bounds (image.NewRGBA (image.Rect 0 0 2 1)) /\
    In (mkLeafJob 1 0 1 1 0 1) [mkLeafJob 0 0 1 1 0 0; mkLeafJob 1 0 1 1 0 1] /\
    jobCovers 1 0 (mkLeafJob 1 0 1 1 0 1) = true /\
    jobColor [[rgb 1 1 1; rgb 2 2 2]] (mkLeafJob 1 0 1 1 0 1)
      = Ok (image.RGBAAt dst' 1 0).
Proof.
  assert (H : exists dst',
            paintLeafJobsParallel 2 (image.NewRGBA (image.Rect 0 0 2 1))
              [[rgb 1 1 1; rgb 2 2 2]]
              [mkLeafJob 0 0 1 1 0 0; mkLeafJob 1 0 1 1 0 1] = Ok dst')
    by (eexists; vm_compute; reflexivity).
  destruct H as [dst' H]. exists dst'. split; [exact H|].
  exact (painted_pixel_is_its_job_color 2 _ dst' _ _ 1 0 two_pixels_apart H).
Defined.

(* ------------------------------------------------------------------------- *)
(** ** Every decoded pixel is painted *)

Lemma inRegion_stack (x y w h1 h2 px py : Z) :
  0 <= h1 -> 0 <= h2 ->
  ((if inRegion x y w h1 px py then 1 else 0)
   + (if inRegion x (y + h1) w h2 px py then 1 else 0))%nat
  = if inRegion x y w (h1 + h2) px py then 1%nat else 0%nat.
Proof.
  intros H1 H2. unfold inRegion.
  repeat match goal with
         | |- context [?a <=? ?b] => destruct (Z.leb_spec a b)
         | |- context [?a <? ?b] => destruct (Z.ltb_spec a b)
         end; cbn [andb]; try reflexivity; lia.
Qed.

Lemma totalHeight_nonneg (stripes : list stripeInfo) :
  Forall (fun s => 0 <= stripe_h s) stripes -> 0 <= totalHeight stripes.
Proof.
  induction 1 as [|s stripes Hs _ IH]; cbn [totalHeight fold_right]; [lia|].
  fold (totalHeight stripes). lia.
Qed.

Lemma decodeStripes_tiles (w : Z) (params : codec2Params)
  (palettes : list (list color.RGBA)) (fuel : nat) (stripes : list stripeInfo) :
  forall y0 br lc jobs br' lc' jobs',
  stacked y0 stripes ->
  Forall (fun s => 0 <= stripe_h s) stripes ->
  decodeStripes fuel w params br palettes lc jobs stripes = Ok (br', lc', jobs') ->
  exists new, jobs' = jobs ++ new /\
    forall px py, coverCount px py new =
      if inRegion 0 y0 w (totalHeight stripes) px py then 1%nat else 0%nat.
Proof.
  induction stripes as [|s stripes IH]; intros y0 br lc jobs br' lc' jobs' Hst Hh H;
    cbn [decodeStripes] in H.
  - inversion H; subst. exists []. rewrite app_nil_r. split; [reflexivity|].
    intros px py. unfold coverCount. cbn [totalHeight fold_right filter length].
    unfold inRegion.
    destruct (0 <=? px); destruct (px <? 0 + w); destruct (Z.leb_spec y0 py);
      destruct (Z.ltb_spec py (y0 + 0)); cbn [andb]; try reflexivity; lia.
  - bindOk H r1 H1. destruct r1 as [[br1 lc1] jobs1].
    destruct Hst as [Hy Hst]. inversion Hh as [|? ? Hs Hh']; subst.
    destruct (decodeRegionJobs_tiles _ _ _ _ _ _ _ _ _ _ _ _ _ H1) as [n1 [E1 C1]].
    destruct (IH _ _ _ _ _ _ _ Hst Hh' H) as [n2 [E2 C2]].
    exists (n1 ++ n2). split; [rewrite E2, E1, app_assoc; reflexivity|].
    intros px py. rewrite coverCount_app, C1, C2.
    cbn [totalHeight fold_right]. fold (totalHeight stripes).
    apply inRegion_stack; [exact Hs|apply totalHeight_nonneg; exact Hh'].
Qed.

Lemma splitStripes_tiles (numCPU H mb : Z) :
  1 <= mb ->
  stacked 0 (splitStripes numCPU H mb) /\
  Forall (fun s => 0 <= stripe_h s) (splitStripes numCPU H mb) /\
  totalHeight (splitStripes numCPU H mb) = Z.max 0 H.
Proof.
  intros Hmb. destruct (Z.leb_spec H 0) as [Hle|Hgt].
  - unfold splitStripes. destruct (Z.leb_spec H 0); [|lia].
    cbn. split; [auto|]. split; [constructor; [cbn; lia|constructor]|lia].
  - destruct (splitStripes_layout numCPU H mb Hgt Hmb) as [_ [St [T F]]].
    split; [exact St|]. split; [|lia].
    eapply Forall_impl; [|exact F]. cbn beta. intros s [Hs _].
    assert (0 <= H ÷ Z.min (Z.max numCPU 1) (Z.max (H ÷ mb) 1)).
    { apply Z.quot_pos; [lia|]. assert (0 <= H ÷ mb) by (apply Z.quot_pos; lia). lia. }
    lia.
Qed.

Lemma decodePayload_inv (numCPU w h : Z) (params : codec2Params) (plain : list byte)
  (img : image.RGBA) :
  decodePayload numCPU w h params plain = Ok img ->
  exists np r1 palettes reader br lc jobs pre,
    readUint16 plain = Ok (np, r1) /\
    readPalettes (Z.to_nat np) r1 = Ok (palettes, reader) /\
    decodeStripes (S (8 * length plain)) w params
      (NewBitReaderFromBytes (skipn (Z.to_nat (len plain - len reader)) plain))
      palettes 0 [] (splitStripes numCPU h (minBlock params)) = Ok (br, lc, jobs) /\
    paintLeafJobsParallel numCPU (image.NewRGBA (image.Rect 0 0 w h)) palettes jobs
      = Ok pre /\
    img = smoothEdges pre (maxGrad params).
Proof.
  unfold decodePayload. intros H.
  destruct (len plain <? 2); [discriminate|].
  bindOk H r1 H1. destruct r1 as [np r1].
  bindOk H r2 H2. destruct r2 as [palettes reader].
  destruct (_ || _); [discriminate|].
  bindOk H r3 H3. destruct r3 as [[br lc] jobs].
  bindOk H pre H4. inversion H; subst img.
  exists np, r1, palettes, reader, br, lc, jobs, pre. auto.
Qed.

Lemma readColors_opaque (sz : nat) : forall r cs r',
  readColors sz r = Ok (cs, r') -> Forall (fun c => color.A c = xff) cs.
Proof.
  induction sz as [|sz IH]; intros r cs r' H; cbn [readColors] in H.
  - inversion H; subst. constructor.
  - bindOk H r1 H1. destruct r1 as [c r1].
    bindOk H r2 H2. destruct r2 as [cs2 r2]. inversion H; subst.
    constructor; [|eapply IH; exact H2].
    destruct r as [|a [|b0 [|d rest]]]; cbn [readRGB] in H1; inversion H1. reflexivity.
Qed.

Lemma readPalettes_opaque (n : nat) : forall r ps r',
  readPalettes n r = Ok (ps, r') ->
  Forall (Forall (fun c => color.A c = xff)) ps.
Proof.
  induction n as [|n IH]; intros r ps r' H; cbn [readPalettes] in H.
  - inversion H; subst. constructor.
  - destruct r as [|szByte r]; [discriminate|].
    destruct (b2z szByte <? 0); [discriminate|].
    bindOk H r1 H1. destruct r1 as [p r1].
    bindOk H r2 H2. destruct r2 as [ps2 r2]. inversion H; subst.
    constructor; [eapply readColors_opaque; exact H1|eapply IH; exact H2].
Qed.

Lemma jobColor_In (palettes : list (list color.RGBA)) (job : leafJob) (c : color.RGBA) :
  jobColor palettes job = Ok c -> exists p, In p palettes /\ In c p.
Proof.
  unfold jobColor, index. intros H.
  destruct (job_pal job <? 0); [discriminate|].
  destruct (nth_error palettes (Z.to_nat (job_pal job))) as [p|] eqn:Ep; [|discriminate].
  destruct (job_idx job <? 0); [discriminate|].
  destruct (nth_error p (Z.to_nat (job_idx job))) as [c'|] eqn:Ec; [|discriminate].
  inversion H; subst. exists p. split; eapply nth_error_In; eassumption.
Qed.

Lemma In_Rect0 (w h px py : Z) :
  0 <= w -> 0 <= h ->
  image.In px py (image.Rect 0 0 w h) = inRegion 0 0 w h px py.
Proof.
  intros Hw Hh. unfold image.Rect.
  destruct (Z.ltb_spec w 0); [lia|]. destruct (Z.ltb_spec h 0); [lia|]. reflexivity.
Qed.

(** The raster [Decode] paints, before smoothing: every pixel inside it holds
    an entry of one of the palettes of the payload. *)
Lemma decodePayload_pixels (numCPU w h : Z) (params : codec2Params) (plain : list byte)
  (img : image.RGBA) :
  0 <= w -> 0 <= h -> 1 <= minBlock params ->
  decodePayload numCPU w h params plain = Ok img ->
  exists np r1 palettes reader pre,
    readUint16 plain = Ok (np, r1) /\
    readPalettes (Z.to_nat np) r1 = Ok (palettes, reader) /\
    image.Bounds pre = image.Rect 0 0 w h /\
    img = smoothEdges pre (maxGrad params) /\
    forall px py, image.In px py (image.Rect 0 0 w h) = true ->
      exists p, In p palettes /\ In (image.RGBAAt pre px py) p.
Proof.
  intros Hw Hh Hmb H.
  destruct (decodePayload_inv _ _ _ _ _ _ H)
    as [np [r1 [palettes [reader [br [lc [jobs [pre [H1 [H2 [H3 [H4 ->]]]]]]]]]]]].
  exists np, r1, palettes, reader, pre.
  split; [exact H1|]. split; [exact H2|].
  destruct (splitStripes_tiles numCPU h (minBlock params) Hmb) as [St [Fh Th]].
  destruct (decodeStripes_tiles _ _ _ _ _ _ _ _ _ _ _ _ St Fh H3) as [new [En Cn]].
  cbn [app] in En. subst new. rewrite Th, Z.max_r in Cn by lia.
  unfold paintLeafJobsParallel in H4. bindOk H4 ws Hws. inversion H4; subst pre.
  rewrite paintWrites_sequential in Hws.
  split; [apply applyWrites_Bounds|]. split; [reflexivity|].
  intros px py Hin.
  pose proof (painted_At palettes px py jobs _ ws Hws Hin) as P.
  destruct (topJob px py jobs) as [job|] eqn:Et.
  - eapply jobColor_In. exact P.
  - apply topJob_None in Et. rewrite Cn in Et.
    rewrite In_Rect0 in Hin by lia. rewrite Hin in Et. discriminate.
Qed.

Lemma smoothPixel_alpha (src : image.RGBA) (tol x y : Z) :
  color.A (image.RGBAAt src x y) = xff -> color.A (smoothPixel src tol x y) = xff.
Proof.
  intros H. unfold smoothPixel.
  destruct (edgeScan src tol (luma (image.RGBAAt src x y)) (neigh x y)) as [edge maxDl].
  destruct (negb edge); [exact H|].
  destruct (neighSums src (neigh x y)) as [[[sr sg] sb] n].
  destruct (n =? 0); [exact H|reflexivity].
Qed.

(** X21: every pixel of a raster that [Decode] returns is opaque: each
    pixel inside the bounds is covered by a decoded job, so it was painted
    with a palette color (alpha 255), and the edge smoother keeps alpha at
    255.  No pixel is left as [image.NewRGBA] made it. *)
Theorem Decode_returns_opaque_pixels (z : Zstd) (numCPU : Z) (data : list byte)
  (img : image.RGBA) (x y : Z) :
  Decode z numCPU data = Ok img ->
  image.In x y (image.Bounds img) = true ->
  color.A (image.RGBAAt img x y) = xff.
Proof.
  unfold Decode. intros H Hin.
  destruct data as [|d0 data]; [discriminate|].
  destruct (negb _); [discriminate|].
  bindOk H r1 H1. destruct r1 as [w16 r].
  bindOk H r2 H2. destruct r2 as [h16 r'].
  destruct r' as [|qByte r'']; [discriminate|].
  bindOk H plain H3.
  assert (Hw : 0 <= w16).
  { destruct (skipn 4 (d0 :: data)) as [|a [|b0 rest]]; cbn [readUint16] in H1;
      inversion H1. pose proof (b2z_range a). pose proof (b2z_range b0). lia. }
  assert (Hh : 0 <= h16).
  { destruct r as [|a [|b0 rest]]; cbn [readUint16] in H2;
      inversion H2. pose proof (b2z_range a). pose proof (b2z_range b0). lia. }
  destruct (decodePayload_pixels _ _ _ _ _ _ Hw Hh
              ltac:(rewrite minBlock_paramsForQuality; lia) H)
    as [np [r1 [palettes [reader [pre [P1 [P2 [P3 [-> P5]]]]]]]]].
  rewrite smoothEdges_Bounds in Hin.
  rewrite smoothEdges_At by exact Hin. apply smoothPixel_alpha.
  rewrite P3 in Hin. destruct (P5 x y Hin) as [p [Hp Hc]].
  pose proof (readPalettes_opaque _ _ _ _ P2) as Ho.
  rewrite Forall_forall in Ho. specialize (Ho p Hp).
  rewrite Forall_forall in Ho. apply Ho. exact Hc.
Qed.

Lemma Decode_returns_opaque_pixels_witness :
  exists img,
    Decode storeZstd 1 sampleArtifact = Ok img /\
    color.A (image.RGBAAt img 3 2) = xff.
Proof.
  assert (H : exists img, Decode storeZstd 1 sampleArtifact = Ok img)
    by (eexists; vm_compute; reflexivity).
  destruct H as [img H]. exists img. split; [exact H|].
  apply (Decode_returns_opaque_pixels storeZstd 1 sampleArtifact img 3 2 H).
  destruct (Decode_header_inv storeZstd 1 sampleArtifact img H)
    as [wh [wl [hh [hl [q [frame [E ->]]]]]]].
  inversion E. reflexivity.
Defined.

(* ------------------------------------------------------------------------- *)
(** ** One-color rasters come back unchanged *)

Lemma stacked_within (stripes : list stripeInfo) : forall y0,
  stacked y0 stripes ->
  Forall (fun s => 0 <= stripe_h s) stripes ->
  Forall (fun s => y0 <= stripe_y s /\ stripe_y s + stripe_h s <= y0 + totalHeight stripes)
         stripes.
Proof.
  induction stripes as [|s stripes IH]; intros y0 Hst Hh; [constructor|].
  destruct Hst as [Hy Hst]. inversion Hh as [|? ? Hs Hh']; subst.
  cbn [totalHeight fold_right]. fold (totalHeight stripes).
  pose proof (totalHeight_nonneg stripes Hh') as Ht.
  constructor; [lia|].
  eapply Forall_impl; [|apply (IH _ Hst Hh')]. cbn beta. intros s' Hs'. lia.
Qed.

Lemma Rect0 (w h : Z) :
  0 <= w -> 0 <= h -> image.Rect 0 0 w h = image.mkRect (image.Pt 0 0) (image.Pt w h).
Proof.
  intros Hw Hh. unfold image.Rect.
  destruct (Z.ltb_spec w 0); [lia|]. destruct (Z.ltb_spec h 0); [lia|]. reflexivity.
Qed.

Lemma flatImage_toRGBA (w h : Z) (c : color.RGBA) :
  0 <= w -> 0 <= h ->
  image.Bounds (toRGBA (flatImage w h c)) = image.Rect 0 0 w h /\
  image.Dx (image.Bounds (flatImage w h c)) = w /\
  image.Dy (image.Bounds (flatImage w h c)) = h /\
  image.Dx (image.Bounds (toRGBA (flatImage w h c))) = w /\
  image.Dy (image.Bounds (toRGBA (flatImage w h c))) = h.
Proof.
  intros Hw Hh.
  assert (Ex : image.Dx (image.Bounds (flatImage w h c)) = w)
    by (unfold flatImage, rasterOf; cbn [image.Bounds]; rewrite Rect0 by lia;
        unfold image.Dx; cbn; lia).
  assert (Ey : image.Dy (image.Bounds (flatImage w h c)) = h)
    by (unfold flatImage, rasterOf; cbn [image.Bounds]; rewrite Rect0 by lia;
        unfold image.Dy; cbn; lia).
  destruct (toRGBA_Bounds (flatImage w h c) ltac:(lia) ltac:(lia)) as [Hb [Hx Hy]].
  split; [rewrite Hb, Ex, Ey; reflexivity|]. split; [exact Ex|]. split; [exact Ey|].
  split; [rewrite Hx; exact Ex|rewrite Hy; exact Ey].
Qed.

Lemma flat_runs (w h : Z) (c : color.RGBA) (params : codec2Params)
  (stripes : list stripeInfo) (runs : list (list leafColor * list bool)) :
  1 <= w ->
  Forall (fun s => 0 <= stripe_y s /\ stripe_y s + stripe_h s <= h /\ 1 <= stripe_h s)
         stripes ->
  stripeRuns (toRGBA (flatImage w h c)) w params stripes runs ->
  Forall (fun run => run = ([mkLeafColor (opaque c)], [true])) runs.
Proof.
  intros Hw Hs Hr. unfold stripeRuns in Hr.
  induction Hr as [|s run stripes runs [fuel Hrun] Hr IH]; [constructor|].
  inversion Hs as [|? ? [Hy [Hyh Hh]] Hs']; subst.
  constructor; [|apply IH; exact Hs'].
  destruct fuel as [|fuel]; [discriminate|].
  assert (Hh0 : 0 <= h) by lia.
  destruct (flatImage_toRGBA w h c ltac:(lia) Hh0) as [Hb _].
  rewrite (collectRegionColors_flat (toRGBA (flatImage w h c)) 0 (stripe_y s) w
             (stripe_h s) c) in Hrun.
  - inversion Hrun. reflexivity.
  - exact Hw.
  - exact Hh.
  - rewrite Hb, In_Rect0 by lia. unfold inRegion.
    destruct (Z.leb_spec 0 0); [|lia]. destruct (Z.ltb_spec 0 (0 + w)); [|lia].
    destruct (Z.leb_spec 0 (stripe_y s)); [|lia].
    destruct (Z.ltb_spec (stripe_y s) (0 + h)); [|lia]. reflexivity.
  - intros xx yy Hx Hy' Hin. unfold image.RGBAAt. rewrite Hin.
    unfold toRGBA. cbn [image.Pix].
    rewrite Hb, In_Rect0 in Hin by lia. unfold inRegion in Hin.
    rewrite !andb_true_iff in Hin.
    unfold flatImage, rasterOf, image.RGBAAt. cbn [image.Bounds image.Pix].
    rewrite Rect0 by lia.
    unfold image.In. cbn [image.Min image.Max image.X image.Y].
    rewrite !Z.add_0_r.
    destruct (Z.leb_spec 0 (0 + xx)); [|lia].
    destruct (Z.ltb_spec (0 + xx) w); [|lia].
    destruct (Z.leb_spec 0 (stripe_y s + yy)); [|lia].
    destruct (Z.ltb_spec (stripe_y s + yy) h); [|lia]. reflexivity.
Qed.

Lemma concat_same {A} (x : list A) (l : list (list A)) :
  Forall (fun y => y = x) l -> concat l = concat (repeat x (length l)).
Proof.
  induction 1 as [|y l Hy _ IH]; [reflexivity|]. cbn [concat length repeat].
  rewrite Hy, IH. reflexivity.
Qed.

Lemma flat_first_pass (numCPU w h : Z) (c : color.RGBA) (params : codec2Params) :
  1 <= w -> 1 <= h -> minBlock params = 1 ->
  exists leaves pattern,
    collectRegionColorsStriped numCPU (toRGBA (flatImage w h c)) params
      = Ok (leaves, pattern) /\
    Forall (fun lf => lf = mkLeafColor (opaque c)) leaves /\
    len leaves <= h.
Proof.
  intros Hw Hh Hmb.
  destruct (flatImage_toRGBA w h c ltac:(lia) ltac:(lia)) as [Hb [_ [_ [Hx Hy]]]].
  destruct (collectRegionColorsStriped_runs numCPU (toRGBA (flatImage w h c)) params
              ltac:(lia)) as [runs [Hr Hc]].
  rewrite Hx, Hy, Hmb in Hr.
  destruct (splitStripes_layout numCPU h 1 ltac:(lia) ltac:(lia)) as [Hk [St [Th Fh]]].
  assert (Hnn : Forall (fun s => 0 <= stripe_h s) (splitStripes numCPU h 1)).
  { eapply Forall_impl; [|exact Fh]. cbn beta. intros s [_ Hs]. lia. }
  pose proof (stacked_within _ 0 St Hnn) as Hin. rewrite Th in Hin.
  assert (Hs : Forall (fun s => 0 <= stripe_y s /\ stripe_y s + stripe_h s <= h
                                /\ 1 <= stripe_h s) (splitStripes numCPU h 1)).
  { rewrite Forall_forall in *. intros s Hs.
    specialize (Hin s Hs). specialize (Fh s Hs). cbn beta in Fh. lia. }
  pose proof (flat_runs w h c params _ runs Hw Hs Hr) as Hruns.
  exists (concat (map fst runs)), (concat (map snd runs)).
  split; [exact Hc|].
  assert (Hlen : length runs = length (splitStripes numCPU h 1))
    by (symmetry; eapply Forall2_length; exact Hr).
  assert (Hf : Forall (fun y => y = [mkLeafColor (opaque c)]) (map fst runs)).
  { rewrite Forall_forall in *. intros y Hy'. apply in_map_iff in Hy'.
    destruct Hy' as [run [<- Hrun]]. rewrite (Hruns run Hrun). reflexivity. }
  rewrite (concat_same _ _ Hf), length_map.
  assert (Ec : forall n, concat (repeat [mkLeafColor (opaque c)] n)
                         = repeat (mkLeafColor (opaque c)) n).
  { induction n as [|n IHn]; [reflexivity|]. cbn [repeat concat app]. rewrite IHn.
    reflexivity. }
  rewrite Ec. split.
  - apply Forall_forall. intros lf Hlf. apply repeat_spec in Hlf. exact Hlf.
  - unfold len in *. rewrite repeat_length, Hlen, Hk.
    assert (h ÷ 1 = h) by apply Z.quot_1_r. lia.
Qed.

Lemma within_refl (tol : Z) (a : color.RGBA) : 0 <= tol -> within tol a a = true.
Proof.
  intros H. unfold within. rewrite !Z.sub_diag. change (Z.abs 0) with 0.
  destruct (Z.leb_spec 0 tol); [reflexivity|lia].
Qed.

Lemma placeGroup_same (tol : Z) (a : color.RGBA) (g : list leafColor) :
  0 <= tol -> Forall (fun lf => lf = mkLeafColor a) g ->
  fst (placeGroup tol [a] g) = [a].
Proof.
  intros Ht. induction 1 as [|lf g Hlf _ IH]; [reflexivity|].
  subst lf. cbn [placeGroup firstWithin leaf_c]. rewrite within_refl by exact Ht.
  destruct (placeGroup tol [a] g) as [pal ixs]. exact IH.
Qed.

Lemma same_leaves_palettes (tol : Z) (a : color.RGBA) (leaves : list leafColor) :
  0 <= tol -> Forall (fun lf => lf = mkLeafColor a) leaves ->
  Forall (fun p => p = [a]) (specPalettes tol leaves).
Proof.
  intros Ht Hl. unfold specPalettes. apply Forall_forall. intros p Hp.
  apply in_map_iff in Hp. destruct Hp as [k [<- Hk]]. apply in_seq in Hk.
  assert (Hg : Forall (fun lf => lf = mkLeafColor a) (group leaves k)).
  { unfold group. apply Forall_firstn_skipn. apply Forall_firstn_skipn. exact Hl. }
  assert (Hne : group leaves k <> []).
  { intros E. pose proof (group_length leaves k) as Hgl. rewrite E in Hgl.
    cbn [length] in Hgl. unfold groupCount, len in Hk. dlia. }
  destruct (group leaves k) as [|lf g]; [congruence|].
  inversion Hg as [|? ? Hlf Hg']; subst.
  cbn [placeGroup firstWithin leaf_c app length].
  pose proof (placeGroup_same tol a g Ht Hg') as E.
  destruct (placeGroup tol [a] g) as [pal ixs]. exact E.
Qed.

Lemma encodePayload_table (numCPU : Z) (rgba : image.RGBA) (w h : Z)
  (params : codec2Params) (raw : list byte) :
  encodePayload numCPU rgba w h params = Ok raw ->
  exists leaves pattern pals refs ext,
    collectRegionColorsStriped numCPU rgba params = Ok (leaves, pattern) /\
    buildPalettes leaves params = Ok (pals, refs) /\
    Forall (fun p => len (pal_colors p) <= 255) pals /\
    raw = (putUint16 (GoInt.uint16 (len pals)) ++ flat_map paletteBytes pals) ++ ext.
Proof.
  unfold encodePayload. intros H.
  bindOk H r1 H1. destruct r1 as [leaves pattern].
  bindOk H r2 H2. destruct r2 as [pals refs].
  bindOk H raw1 H3.
  bindOk H r3 H4. destruct r3 as [[bw lp] pp].
  inversion H; subst raw.
  destruct (writePalettes_inv _ _ _ H3) as [Hall Hraw1].
  destruct (NewBitWriter_ok raw1) as [Hok _].
  destruct (encodeStripes_forest _ _ _ _ _ _ _ _ _ _ _ H4 Hok ltac:(lia) ltac:(lia))
    as [ts [_ [Hok' [[e1 E1] _]]]].
  destruct (Flush_written bw Hok') as [pad [_ [e2 E2]]].
  exists leaves, pattern, pals, refs, (e1 ++ e2).
  split; [exact H1|]. split; [exact H2|]. split; [exact Hall|].
  rewrite E2, E1. cbn [NewBitWriter bw_buf]. rewrite Hraw1, <- !app_assoc. reflexivity.
Qed.

Lemma outside_negb_In (b : image.Rectangle) (p : Z * Z) :
  outside b p = negb (image.In (fst p) (snd p) b).
Proof.
  unfold outside, image.In.
  destruct (Z.ltb_spec (fst p) (image.X (image.Min b)));
    destruct (Z.leb_spec (image.X (image.Max b)) (fst p));
    destruct (Z.ltb_spec (snd p) (image.Y (image.Min b)));
    destruct (Z.leb_spec (image.Y (image.Max b)) (snd p));
    repeat match goal with
           | |- context [?a <=? ?b] => destruct (Z.leb_spec a b)
           | |- context [?a <? ?b] => destruct (Z.ltb_spec a b)
           end; try reflexivity; lia.
Qed.

Lemma smoothEdges_flat (pre : image.RGBA) (a : color.RGBA) (tol x y : Z) :
  1 <= tol <= 100 ->
  (forall px py, image.In px py (image.Bounds pre) = true -> image.RGBAAt pre px py = a) ->
  image.In x y (image.Bounds pre) = true ->
  image.RGBAAt (smoothEdges pre tol) x y = a.
Proof.
  intros Ht Hflat Hin. rewrite smoothEdges_At by exact Hin. unfold smoothPixel.
  rewrite (Hflat x y Hin).
  pose proof (edgeScan_quiet pre tol (luma a) (neigh x y) ltac:(lia)) as Hq.
  destruct (edgeScan pre tol (luma a) (neigh x y)) as [edge maxDl].
  cbn [fst] in Hq. rewrite Hq; [reflexivity|].
  intros p _ Hout. rewrite outside_negb_In in Hout.
  apply negb_false_iff in Hout. rewrite (Hflat _ _ Hout), Z.sub_diag.
  change (Z.abs 0) with 0. lia.
Qed.

Lemma flat_image_decodes_flat (z : Zstd) (numCPU w h quality : Z) (c : color.RGBA) :
  1 <= w <= 65535 -> 1 <= h <= 65535 ->
  exists art img',
    Encode z numCPU (flatImage w h c) quality = Ok art /\
    Decode z numCPU art = Ok img' /\
    image.Bounds img' = image.Rect 0 0 w h /\
    forall x y, image.In x y (image.Rect 0 0 w h) = true ->
      image.RGBAAt img' x y = opaque c.
Proof.
  intros Hw Hh.
  set (q := clampQuality quality). set (params := paramsForQuality q).
  pose proof (clampQuality_range quality) as Hq. fold q in Hq.
  assert (Hmb : minBlock params = 1) by apply minBlock_paramsForQuality.
  assert (Htol : 0 <= colorTol params).
  { unfold params. rewrite paramsForQuality_value. cbn [colorTol].
    pose proof (clampQuality_range q). dlia. }
  pose proof (maxGrad_paramsForQuality q) as Hmg. fold params in Hmg.
  destruct (flatImage_toRGBA w h c ltac:(lia) ltac:(lia)) as [Hb [Ex [Ey [Hx Hy]]]].
  destruct (flat_first_pass numCPU w h c params ltac:(lia) ltac:(lia) Hmb)
    as [leaves [pattern [Hc [Hl Hn]]]].
  pose proof (buildPalettes_spec params leaves) as Hbp.
  pose proof (same_leaves_palettes (colorTol params) (opaque c) leaves Htol Hl) as Hsp.
  set (pals := map mkPalette (specPalettes (colorTol params) leaves)) in *.
  assert (Hpals : Forall (fun p => pal_colors p = [opaque c]) pals).
  { unfold pals. apply Forall_forall. intros p Hp. apply in_map_iff in Hp.
    destruct Hp as [cs [<- Hcs]]. rewrite Forall_forall in Hsp. apply Hsp. exact Hcs. }
  assert (Hsmall : Forall (fun p => len (pal_colors p) <= 255) pals).
  { eapply Forall_impl; [|exact Hpals]. cbn beta. intros p ->. cbn. lia. }
  assert (Hcount : len pals <= 65535).
  { unfold pals, len. rewrite length_map, specPalettes_length.
    unfold groupCount. pose proof (len_nonneg leaves). dlia. }
  assert (HP : encoderPalettes numCPU (flatImage w h c) quality = Ok pals).
  { unfold encoderPalettes. fold q. fold params. rewrite Hc. cbn [bind].
    rewrite Hbp. reflexivity. }
  destruct (Encode_succeeds z numCPU (flatImage w h c) quality pals
              ltac:(lia) ltac:(lia) HP Hsmall) as [art HE].
  destruct (Decode_after_Encode z numCPU (flatImage w h c) quality art pals HE HP Hcount)
    as [img' [HD HB]].
  assert (Eu1 : GoInt.uint16 w = w) by (unfold GoInt.uint16; apply Z.mod_small; lia).
  assert (Eu2 : GoInt.uint16 h = h) by (unfold GoInt.uint16; apply Z.mod_small; lia).
  rewrite Hx, Hy, Eu1, Eu2 in HB.
  exists art, img'. split; [exact HE|]. split; [exact HD|]. split; [exact HB|].
  destruct (Encode_inv _ _ _ _ _ HE) as [raw [Hraw Hart]].
  fold q in Hraw, Hart. fold params in Hraw. rewrite Hx, Hy, Eu1, Eu2 in Hraw, Hart.
  rewrite Hart in HD. rewrite Decode_header in HD by lia.
  rewrite decompress_compress in HD. cbn [bind] in HD. fold params in HD.
  destruct (decodePayload_pixels numCPU w h params raw img' ltac:(lia) ltac:(lia)
              ltac:(lia) HD)
    as [np [r1 [palettes [reader [pre [P1 [P2 [P3 [Himg P5]]]]]]]]].
  destruct (encodePayload_table _ _ _ _ _ _ Hraw)
    as [leaves' [pattern' [pals' [refs' [ext [T1 [T2 [T3 T4]]]]]]]].
  rewrite Hc in T1. inversion T1; subst leaves' pattern'.
  rewrite Hbp in T2. inversion T2; subst pals' refs'.
  assert (Eu3 : GoInt.uint16 (len pals) = len pals)
    by (pose proof (len_nonneg pals); unfold GoInt.uint16; apply Z.mod_small; lia).
  rewrite Eu3, <- app_assoc in T4. rewrite T4 in P1.
  rewrite readUint16_putUint16 in P1 by (pose proof (len_nonneg pals); lia).
  inversion P1; subst np r1.
  unfold len in P2. rewrite Nat2Z.id, (readPalettes_ok pals ext T3) in P2.
  inversion P2; subst palettes reader.
  assert (Hpix : forall px py, image.In px py (image.Bounds pre) = true ->
                               image.RGBAAt pre px py = opaque c).
  { intros px py Hin. rewrite P3 in Hin. destruct (P5 px py Hin) as [p [Hp Hcp]].
    apply in_map_iff in Hp. destruct Hp as [pal [<- Hpal]].
    rewrite Forall_forall in Hpals. rewrite (Hpals pal Hpal) in Hcp.
    cbn [map] in Hcp. destruct Hcp as [<-|[]]. reflexivity. }
  intros x y Hin. rewrite Himg.
  apply smoothEdges_flat; [exact Hmg|exact Hpix|rewrite P3; exact Hin].
Qed.

(** X22: a raster of one color survives the codec unchanged: for every
    size from 1x1 to 65535x65535, every color, every quality and every
    worker count (the same on both sides), [Encode] succeeds, [Decode] of
    its artifact succeeds, and the decoded raster has the size of the input
    and the input's color, made opaque, in every pixel. *)
Theorem flat_image_roundtrip (z : Zstd) (numCPU w h quality : Z) (c : color.RGBA) :
  1 <= w <= 65535 -> 1 <= h <= 65535 ->
  exists art img',
    Encode z numCPU (flatImage w h c) quality = Ok art /\
    Decode z numCPU art = Ok img' /\
    image.Bounds img' = image.Rect 0 0 w h /\
    forall x y, image.In x y (image.Rect 0 0 w h) = true ->
      image.RGBAAt img' x y = opaque c.
Proof. apply flat_image_decodes_flat. Qed.

Lemma flat_image_roundtrip_witness :
  exists art img',
    Encode storeZstd 3 (flatImage 7 5 (rgb 10 20 30)) 80 = Ok art /\
    Decode storeZstd 3 art = Ok img' /\
    image.Bounds img' = image.Rect 0 0 7 5 /\
    forall x y, image.In x y (image.Rect 0 0 7 5) = true ->
      image.RGBAAt img' x y = opaque (rgb 10 20 30).
Proof.
  apply (flat_image_roundtrip storeZstd 3 7 5 80 (rgb 10 20 30)); lia.
Defined.

(* ------------------------------------------------------------------------- *)
(** ** The encoder fails only with its own errors *)

Lemma encodeRegion_safe (params : codec2Params) (leafLocal : list byte)
  (pattern : list bool) (fuel : nat) :
  forall x y w h bw lp pp,
  0 <= lp -> 0 <= pp -> Z.max 0 (len pattern - pp) < Z.of_nat fuel ->
  match encodeRegion fuel x y w h params bw leafLocal lp pattern pp with
  | Ok (_, lp', pp') => lp <= lp' /\ pp < pp'
  | Err e => regionError e
  end.
Proof.
  induction fuel as [|fuel IH]; intros x y w h bw lp pp Hlp Hpp Hf.
  - lia.
  - cbn [encodeRegion].
    destruct (Z.leb_spec (len pattern) pp) as [Hle|Hlt]; [unfold regionError; auto|].
    destruct (index_lt_Some pattern pp ltac:(lia)) as [isLeaf Hi]. rewrite Hi.
    destruct isLeaf.
    + destruct (Z.leb_spec (len leafLocal) lp) as [Hle|Hlt2]; [unfold regionError; auto|].
      destruct (index_lt_Some leafLocal lp ltac:(lia)) as [local Hl]. rewrite Hl. lia.
    + assert (Hsplit : forall x1 y1 w1 h1 x2 y2 w2 h2,
                match
                  ('(bw0, leafPos, patPos) <-
                     encodeRegion fuel x1 y1 w1 h1 params (WriteBit bw false) leafLocal lp
                                  pattern (pp + 1) ;;
                   encodeRegion fuel x2 y2 w2 h2 params bw0 leafLocal leafPos pattern patPos)
                with
                | Ok (_, lp', pp') => lp <= lp' /\ pp < pp'
                | Err e => regionError e
                end).
      { intros x1 y1 w1 h1 x2 y2 w2 h2.
        pose proof (IH x1 y1 w1 h1 (WriteBit bw false) lp (pp + 1) Hlp ltac:(lia)
                      ltac:(lia)) as H1.
        destruct (encodeRegion fuel x1 y1 w1 h1 params (WriteBit bw false) leafLocal lp
                    pattern (pp + 1)) as [[[bw1 lp1] pp1]|e]; cbn [bind]; [|exact H1].
        destruct H1 as [L1 P1].
        pose proof (IH x2 y2 w2 h2 bw1 lp1 pp1 ltac:(lia) ltac:(lia) ltac:(lia)) as H2.
        destruct (encodeRegion fuel x2 y2 w2 h2 params bw1 leafLocal lp1 pattern pp1)
          as [[[bw2 lp2] pp2]|e]; [|exact H2].
        lia. }
      destruct ((h <=? w) && (minBlock params <=? w ÷ 2)); [apply Hsplit|].
      destruct (h ÷ 2 <? minBlock params); [unfold regionError; auto|apply Hsplit].
Qed.

Lemma encodeStripes_safe (w : Z) (params : codec2Params) (leafLocal : list byte)
  (pattern : list bool) (stripes : list stripeInfo) :
  forall bw lp pp,
  0 <= lp -> 0 <= pp ->
  match encodeStripes w params bw leafLocal lp pattern pp stripes with
  | Ok _ => True
  | Err e => regionError e
  end.
Proof.
  induction stripes as [|s stripes IH]; intros bw lp pp Hlp Hpp; cbn [encodeStripes];
    [exact I|].
  pose proof (encodeRegion_safe params leafLocal pattern (S (length pattern)) 0
                (stripe_y s) w (stripe_h s) bw lp pp Hlp Hpp
                ltac:(unfold len; lia)) as H1.
  destruct (encodeRegion (S (length pattern)) 0 (stripe_y s) w (stripe_h s) params bw
              leafLocal lp pattern pp) as [[[bw1 lp1] pp1]|e]; cbn [bind]; [|exact H1].
  apply IH; lia.
Qed.

Lemma toRGBA_Dy_nonneg (img : image.RGBA) : 0 <= image.Dy (image.Bounds (toRGBA img)).
Proof.
  unfold toRGBA. cbn [image.Bounds]. unfold image.Rect, image.Dy.
  destruct (image.Dx (image.Bounds img) <? 0);
    destruct (Z.ltb_spec (image.Y (image.Max (image.Bounds img))
                          - image.Y (image.Min (image.Bounds img))) 0);
    cbn [image.Max image.Min image.Y]; lia.
Qed.

(** X23: [Encode] never faults, and the palette builder never makes it
    fail: for every raster, quality and worker count it returns an artifact
    that starts with the magic bytes, or one of four errors: its own
    palette-size error, or one of the three errors of [encodeRegion].  The
    error of [buildPalettes], an index out of its slice and an unfinished
    recursion are not among them. *)
Theorem Encode_fails_only_with_formatted_errors (z : Zstd) (numCPU : Z)
  (img : image.RGBA) (quality : Z) :
  match Encode z numCPU img quality with
  | Ok art => firstn 4 art = magicCodec2
  | Err e => encodeError e
  end.
Proof.
  destruct (Encode z numCPU img quality) as [art|e] eqn:HE.
  - destruct (Encode_inv _ _ _ _ _ HE) as [raw [_ ->]]. reflexivity.
  - unfold Encode in HE. fold (clampQuality quality) in HE. cbv zeta in HE.
    set (params := paramsForQuality (clampQuality quality)) in *.
    set (rgba := toRGBA img) in *.
    destruct (encodePayload numCPU rgba
                (GoInt.uint16 (image.Dx (image.Bounds rgba)))
                (GoInt.uint16 (image.Dy (image.Bounds rgba))) params) as [raw|e'] eqn:HP;
      cbn [bind] in HE; [discriminate|].
    inversion HE; subst e'. clear HE.
    unfold encodePayload in HP.
    destruct (collectRegionColorsStriped_runs numCPU rgba params
                (toRGBA_Dy_nonneg img)) as [runs [_ Hc]].
    rewrite Hc in HP. cbn [bind] in HP.
    rewrite buildPalettes_spec in HP. cbn [bind] in HP.
    set (pals := map mkPalette _) in HP. set (refs := map storedRef _) in HP.
    pose proof (writePalettes_cases (putUint16 (GoInt.uint16 (len pals))) pals) as HW.
    destruct (writePalettes (putUint16 (GoInt.uint16 (len pals))) pals) as [raw1|e1];
      cbn [bind] in HP.
    + pose proof (encodeStripes_safe (GoInt.uint16 (image.Dx (image.Bounds rgba))) params
                    (map ref_idx refs) (concat (map snd runs))
                    (splitStripes numCPU (GoInt.uint16 (image.Dy (image.Bounds rgba)))
                                  (minBlock params))
                    (NewBitWriter raw1) 0 0 ltac:(lia) ltac:(lia)) as HS.
      destruct (encodeStripes _ _ _ _ _ _ _ _) as [[[bw lp] pp]|e2]; cbn [bind] in HP;
        [discriminate|].
      inversion HP; subst. right. exact HS.
    + inversion HP; subst. destruct HW as [_ ->]. left. reflexivity.
Qed.

(* ------------------------------------------------------------------------- *)
(** ** The palette color of a leaf is within the tolerance *)

Lemma firstWithin_close (tol : Z) (lc : color.RGBA) (pal : list color.RGBA) :
  forall j, firstWithin tol lc pal = Some j ->
  exists pc, nth_error pal j = Some pc /\ within tol lc pc = true.
Proof.
  induction pal as [|pc pal IH]; intros j H; cbn [firstWithin] in H; [discriminate|].
  destruct (within tol lc pc) eqn:E.
  - inversion H; subst. exists pc. split; [reflexivity|exact E].
  - destruct (firstWithin tol lc pal) as [k|]; [|discriminate].
    inversion H; subst. apply IH. reflexivity.
Qed.

Lemma placeGroup_close (tol : Z) (g : list leafColor) :
  0 <= tol ->
  forall P r lf j,
  nth_error g r = Some lf ->
  nth_error (snd (placeGroup tol P g)) r = Some j ->
  exists pc, nth_error (fst (placeGroup tol P g)) j = Some pc /\
             within tol (leaf_c lf) pc = true.
Proof.
  intros Ht. induction g as [|lf0 g IH]; intros P r lf j Hg Hj;
    [destruct r; discriminate|].
  cbn [placeGroup] in *.
  destruct (firstWithin tol (leaf_c lf0) P) as [k|] eqn:Ef.
  - destruct (placeGroup_facts tol g P) as [_ [[ext [Hext _]] _]].
    specialize (IH P).
    destruct (placeGroup tol P g) as [pal' ixs]. cbn [fst snd] in *.
    destruct r as [|r]; cbn [nth_error] in Hg, Hj.
    + inversion Hg; inversion Hj; subst.
      destruct (firstWithin_close _ _ _ _ Ef) as [pc [Hpc Hw]].
      exists pc. split; [|exact Hw].
      rewrite nth_error_app1; [exact Hpc|]. apply nth_error_Some. congruence.
    + eapply IH; eassumption.
  - destruct (placeGroup_facts tol g (P ++ [leaf_c lf0])) as [_ [[ext [Hext _]] _]].
    specialize (IH (P ++ [leaf_c lf0])).
    destruct (placeGroup tol (P ++ [leaf_c lf0]) g) as [pal' ixs]. cbn [fst snd] in *.
    destruct r as [|r]; cbn [nth_error] in Hg, Hj.
    + inversion Hg; inversion Hj; subst.
      exists (leaf_c lf). split; [|apply within_refl; exact Ht].
      rewrite <- app_assoc. rewrite nth_error_app2 by lia.
      rewrite Nat.sub_diag. reflexivity.
    + eapply IH; eassumption.
Qed.

Lemma buildPalettes_close (params : codec2Params) (leaves : list leafColor) (i : Z)
  (lf : leafColor) :
  0 <= colorTol params ->
  len leaves <= 16777216 ->
  index leaves i = Some lf ->
  exists pals refs r pc,
    buildPalettes leaves params = Ok (pals, refs) /\
    index refs i = Some r /\
    resolveRef pals r = Some pc /\
    closeColor (leaf_c lf) pc (colorTol params) = true.
Proof.
  intros Ht Hmax Hlf.
  pose proof (index_Some_lt _ _ _ Hlf) as Hi.
  rewrite buildPalettes_spec.
  set (q := Z.to_nat (i / 256)). set (r := Z.to_nat (i mod 256)).
  assert (Hr : (r < 256)%nat) by (unfold r; dlia).
  assert (Hqr : Z.to_nat i = (256 * q + r)%nat) by (unfold q, r; dlia).
  assert (Hlt : (256 * q + r < length leaves)%nat) by (unfold len in Hi; lia).
  destruct (specRefs_nth (colorTol params) leaves q r Hr Hlt) as [j [Hj [Hjr Hjlt]]].
  assert (Hg : nth_error (group leaves q) r = Some lf).
  { unfold group. rewrite nth_error_firstn.
    destruct (Nat.ltb_spec r 256); [|lia].
    rewrite nth_error_skipn, <- Hqr. rewrite index_nth_error in Hlf by lia. exact Hlf. }
  destruct (placeGroup_close (colorTol params) (group leaves q) Ht [] r lf j Hg Hjr)
    as [pc [Hpc Hw]].
  pose proof (specPalettes_small (colorTol params) leaves) as Hs.
  rewrite Forall_forall in Hs.
  assert (Hq : (q < groupCount leaves)%nat) by apply (groupCount_bounds leaves q r Hr Hlt).
  pose proof (Hs _ (nth_error_In _ _ (specPalettes_nth (colorTol params) leaves q Hq)))
    as Hsmall.
  exists (map mkPalette (specPalettes (colorTol params) leaves)),
         (map storedRef (specRefs (colorTol params) leaves)),
         (storedRef (q, j)), pc.
  split; [reflexivity|]. split; [|split].
  - rewrite index_nth_error by lia. rewrite Hqr, nth_error_map, Hj. reflexivity.
  - assert (Hpal : GoInt.uint16 (Z.of_nat q) = i / 256)
      by (unfold GoInt.uint16, q; dlia).
    unfold resolveRef, storedRef. cbn [ref_pal ref_idx fst snd].
    rewrite Hpal, index_nth_error by dlia. fold q.
    rewrite nth_error_map, specPalettes_nth by exact Hq. cbn [option_map pal_colors].
    rewrite b2z_z2b by lia. rewrite index_nth_error by lia. rewrite Nat2Z.id. exact Hpc.
  - rewrite closeColor_within. exact Hw.
Qed.

(** X24: the palette builder keeps every leaf within the tolerance: for a
    tolerance that is not negative and at most 16,777,216 leaves, the
    palette entry that a leaf's reference names differs from the leaf's own
    color by at most [colorTol] in each of red, green and blue. *)
Theorem palette_color_is_within_tolerance (params : codec2Params)
  (leaves : list leafColor) (i : Z) (lf : leafColor) :
  0 <= colorTol params ->
  len leaves <= 16777216 ->
  index leaves i = Some lf ->
  exists pals refs r pc,
    buildPalettes leaves params = Ok (pals, refs) /\
    index refs i = Some r /\
    resolveRef pals r = Some pc /\
    closeColor (leaf_c lf) pc (colorTol params) = true.
Proof. apply buildPalettes_close. Qed.

Lemma palette_color_is_within_tolerance_witness :
  exists pals refs r pc,
    buildPalettes [mkLeafColor (rgb 200 100 50); mkLeafColor (rgb 203 97 55)]
                  (paramsForQuality 50) = Ok (pals, refs) /\
    index refs 1 = Some r /\
    resolveRef pals r = Some pc /\
    closeColor (leaf_c (mkLeafColor (rgb 203 97 55))) pc (colorTol (paramsForQuality 50))
      = true.
Proof.
  apply (palette_color_is_within_tolerance (paramsForQuality 50)
           [mkLeafColor (rgb 200 100 50); mkLeafColor (rgb 203 97 55)] 1
           (mkLeafColor (rgb 203 97 55))).
  - vm_compute. discriminate.
  - vm_compute. discriminate.
  - reflexivity.
Defined.

(* ------------------------------------------------------------------------- *)
(** ** Which worker counts read the same artifact alike *)

Lemma splitStripes_clamp (n H mb : Z) :
  splitStripes n H mb =
  splitStripes (Z.min (Z.max n 1) (Z.max (H ÷ mb) 1)) H mb.
Proof.
  unfold splitStripes. destruct (H <=? 0); [reflexivity|]. cbv zeta.
  set (m1 := if H ÷ mb <? 1 then 1 else H ÷ mb).
  set (k := Z.min (Z.max n 1) (Z.max (H ÷ mb) 1)).
  assert (E1 : (if m1 <? (if n <? 1 then 1 else n) then m1 else if n <? 1 then 1 else n)
               = k).
  { unfold m1, k. destruct (Z.ltb_spec n 1); destruct (Z.ltb_spec (H ÷ mb) 1);
      match goal with |- (if ?a <? ?b then _ else _) = _ => destruct (Z.ltb_spec a b) end;
      lia. }
  assert (E2 : (if m1 <? (if k <? 1 then 1 else k) then m1 else if k <? 1 then 1 else k)
               = k).
  { unfold m1, k. destruct (Z.ltb_spec (Z.min (Z.max n 1) (Z.max (H ÷ mb) 1)) 1);
      destruct (Z.ltb_spec (H ÷ mb) 1);
      match goal with |- (if ?a <? ?b then _ else _) = _ => destruct (Z.ltb_spec a b) end;
      lia. }
  rewrite E1, E2. reflexivity.
Qed.

Lemma decodePayload_clamp (n w h : Z) (params : codec2Params) (plain : list byte) :
  decodePayload n w h params plain =
  decodePayload (Z.min (Z.max n 1) (Z.max (h ÷ minBlock params) 1)) w h params plain.
Proof.
  unfold decodePayload, paintLeafJobsParallel. cbv zeta.
  rewrite (splitStripes_clamp n).
  rewrite (splitStripes_clamp (Z.min (Z.max n 1) (Z.max (h ÷ minBlock params) 1))).
  replace (Z.min (Z.max (Z.min (Z.max n 1) (Z.max (h ÷ minBlock params) 1)) 1)
                 (Z.max (h ÷ minBlock params) 1))
    with (Z.min (Z.max n 1) (Z.max (h ÷ minBlock params) 1)) by lia.
  destruct (len plain <? 2); [reflexivity|].
  destruct (readUint16 plain) as [[np r1]|e]; cbn [bind]; [|reflexivity].
  destruct (readPalettes (Z.to_nat np) r1) as [[palettes reader]|e]; cbn [bind];
    [|reflexivity].
  destruct (_ || _); [reflexivity|].
  destruct (decodeStripes _ _ _ _ _ _ _ _) as [[[br lc] jobs]|e]; cbn [bind];
    [|reflexivity].
  rewrite !paintWrites_sequential. reflexivity.
Qed.

(** X25: the decoder reads the worker count only through the stripe count:
    two hosts decode an artifact of height [h] alike (same raster or same
    error) whenever their worker counts, clamped between 1 and [h], agree;
    in particular all hosts with at least [h] workers agree, and so do all
    hosts when the height is 1. *)
Theorem Decode_agrees_on_equal_stripe_counts (z : Zstd) (n n' w h q : Z)
  (frame : list byte) :
  0 <= w < 65536 -> 0 <= h < 65536 -> 1 <= q <= 100 ->
  Z.min (Z.max n 1) (Z.max h 1) = Z.min (Z.max n' 1) (Z.max h 1) ->
  Decode z n (((magicCodec2 ++ putUint16 w) ++ putUint16 h) ++ [z2b q] ++ frame) =
  Decode z n' (((magicCodec2 ++ putUint16 w) ++ putUint16 h) ++ [z2b q] ++ frame).
Proof.
  intros Hw Hh Hq Hk. rewrite !Decode_header by assumption.
  destruct (decompress z frame) as [plain|e]; cbn [bind]; [|reflexivity].
  rewrite (decodePayload_clamp n), (decodePayload_clamp n').
  rewrite minBlock_paramsForQuality, Z.quot_1_r, Hk. reflexivity.
Qed.

Lemma Decode_agrees_on_equal_stripe_counts_witness :
  Decode storeZstd 8
    (((magicCodec2 ++ putUint16 1) ++ putUint16 4) ++ [z2b 50]
     ++ [x00; x01; x01; xc8; x64; x32; x80; x40; x20; x10; x00]) =
  Decode storeZstd 4
    (((magicCodec2 ++ putUint16 1) ++ putUint16 4) ++ [z2b 50]
     ++ [x00; x01; x01; xc8; x64; x32; x80; x40; x20; x10; x00]).
Proof.
  apply (Decode_agrees_on_equal_stripe_counts storeZstd 8 4 1 4 50); lia.
Defined.

(* ------------------------------------------------------------------------- *)
(** ** The single scan of [analyzeBlock] against the two scans it replaced *)

Lemma fold_rel {A B} (R : A -> B -> Prop) (f : A -> Z -> A) (g : B -> Z -> B)
  (cols : list Z) :
  (forall a b xx, R a b -> R (f a xx) (g b xx)) ->
  forall a b, R a b -> R (fold_left f cols a) (fold_left g cols b).
Proof.
  intros Hstep. induction cols as [|xx cols IH]; intros a b Hab; cbn [fold_left];
    [exact Hab|].
  apply IH. apply Hstep. exact Hab.
Qed.

Lemma nested_fold_rel {A B} (R : A -> B -> Prop) (f : Z -> A -> Z -> A)
  (g : Z -> B -> Z -> B) (rows cols : list Z) :
  (forall yy a b xx, R a b -> R (f yy a xx) (g yy b xx)) ->
  forall a b, R a b ->
  R (fold_left (fun a yy => fold_left (f yy) cols a) rows a)
    (fold_left (fun b yy => fold_left (g yy) cols b) rows b).
Proof.
  intros Hstep. apply fold_rel. intros a b yy Hab.
  apply fold_rel; [|exact Hab]. intros a' b' xx. apply Hstep.
Qed.

Lemma scan_lumas (img : image.RGBA) (x y w h : Z) :
  fold_left (fun st yy => fold_left (V1.lumaStep img x y yy) (zrange w) st)
            (zrange h) (255, 0)
  = (minL (scanBlock img x y w h), maxL (scanBlock img x y w h)).
Proof.
  unfold scanBlock.
  apply (nested_fold_rel (fun (st : Z * Z) (s : blockScan) => st = (minL s, maxL s))
           (V1.lumaStep img x y) (scanPixel img x y w h)); [|reflexivity].
  intros yy st s xx ->. unfold V1.lumaStep, scanPixel. cbn [fst snd].
  destruct (_ || _ || _ || _); reflexivity.
Qed.

Lemma scan_sums (img : image.RGBA) (x y w h : Z) :
  fold_left (fun st yy => fold_left (V1.sumStep img x y yy) (zrange w) st)
            (zrange h) (0, 0, 0, 0)
  = (sumR (scanBlock img x y w h), sumG (scanBlock img x y w h),
     sumB (scanBlock img x y w h), count (scanBlock img x y w h)).
Proof.
  unfold scanBlock.
  apply (nested_fold_rel
           (fun (st : Z * Z * Z * Z) (s : blockScan) =>
              st = (sumR s, sumG s, sumB s, count s))
           (V1.sumStep img x y) (scanPixel img x y w h)); [|reflexivity].
  intros yy st s xx ->. unfold V1.sumStep, scanPixel.
  destruct (_ || _ || _ || _); reflexivity.
Qed.

(** X27: the single scan of [analyzeBlock] agrees with the two scans of the
    first format: its total energy is [gradEnergy] and its average color is
    [computeLeafColor], for every raster and region (empty regions and
    regions outside the raster included). *)
Theorem analyzeBlock_agrees_with_first_format (img : image.RGBA) (x y w h : Z) :
  let '(energy, _, _, avg) := analyzeBlock img x y w h in
  energy = V1.gradEnergy img x y w h /\ avg = V1.computeLeafColor img x y w h.
Proof.
  unfold analyzeBlock, V1.gradEnergy, V1.computeLeafColor.
  rewrite scan_lumas, scan_sums. cbn [fst snd].
  destruct (scanBlock_ordered img x y w h) as [H0 [H1 [H2 _]]].
  destruct (Z.eqb_spec (count (scanBlock img x y w h)) 0) as [E|E].
  - destruct (H1 E) as [-> ->]. split; reflexivity.
  - specialize (H2 ltac:(lia)).
    destruct (Z.ltb_spec (maxL (scanBlock img x y w h)) (minL (scanBlock img x y w h)));
      [lia|]. split; reflexivity.
Qed.

(* ------------------------------------------------------------------------- *)
(** ** The palette of the first format: the key map is only a cache *)

Lemma within_opaque (tol : Z) (a a' b : color.RGBA) :
  opaque a = opaque a' -> within tol a b = within tol a' b.
Proof. unfold opaque, within. intros H. inversion H. congruence. Qed.

Lemma firstWithin_opaque (tol : Z) (a a' : color.RGBA) (P : list color.RGBA) :
  opaque a = opaque a' -> firstWithin tol a P = firstWithin tol a' P.
Proof.
  intros H. induction P as [|pc P IH]; cbn [firstWithin]; [reflexivity|].
  rewrite (within_opaque tol a a' pc H), IH. reflexivity.
Qed.

Lemma firstWithin_app_Some (tol : Z) (a : color.RGBA) (P ext : list color.RGBA) (j : nat) :
  firstWithin tol a P = Some j -> firstWithin tol a (P ++ ext) = Some j.
Proof.
  revert j. induction P as [|pc P IH]; intros j H; cbn [firstWithin app] in *;
    [discriminate|].
  destruct (within tol a pc); [exact H|].
  destruct (firstWithin tol a P) as [k|]; [|discriminate].
  rewrite (IH k eq_refl). exact H.
Qed.

Lemma firstWithin_app_None (tol : Z) (a x : color.RGBA) (P : list color.RGBA) :
  firstWithin tol a P = None -> within tol a x = true ->
  firstWithin tol a (P ++ [x]) = Some (length P).
Proof.
  intros H Hx. induction P as [|pc P IH]; cbn [firstWithin app length] in *.
  - rewrite Hx. reflexivity.
  - destruct (within tol a pc); [discriminate|].
    destruct (firstWithin tol a P) as [k|]; [discriminate|].
    rewrite (IH eq_refl). reflexivity.
Qed.

Lemma rgbKey_opaque (a a' : color.RGBA) : rgbKey a = rgbKey a' -> opaque a = opaque a'.
Proof.
  rewrite !rgbKey_value. unfold opaque.
  pose proof (b2z_range (color.R a)). pose proof (b2z_range (color.G a)).
  pose proof (b2z_range (color.B a)).
  pose proof (b2z_range (color.R a')). pose proof (b2z_range (color.G a')).
  pose proof (b2z_range (color.B a')).
  intros E.
  assert (b2z (color.R a) = b2z (color.R a') /\ b2z (color.G a) = b2z (color.G a') /\
          b2z (color.B a) = b2z (color.B a')) as [E1 [E2 E3]] by lia.
  rewrite <- (z2b_b2z (color.R a)), <- (z2b_b2z (color.G a)), <- (z2b_b2z (color.B a)),
          E1, E2, E3, !z2b_b2z. reflexivity.
Qed.

Lemma buildPaletteFrom_cache (params : codec2Params) (rest : list leafColor) :
  0 <= colorTol params ->
  forall P m ixs,
  (forall k idx, V1.lookupKey m k = Some idx ->
     exists j, idx = Z.of_nat j /\
               forall c, rgbKey c = k -> firstWithin (colorTol params) c P = Some j) ->
  len (fst (placeGroup (colorTol params) P rest)) <= 65535 ->
  V1.buildPaletteFrom params rest P m ixs =
    Ok (fst (placeGroup (colorTol params) P rest),
        ixs ++ map Z.of_nat (snd (placeGroup (colorTol params) P rest))).
Proof.
  intros Ht. induction rest as [|lf rest IH]; intros P m ixs Hm Hlen.
  - cbn [V1.buildPaletteFrom placeGroup fst snd map]. rewrite app_nil_r. reflexivity.
  - cbn [V1.buildPaletteFrom]. cbv zeta.
    assert (HP : len P <= 65535).
    { destruct (placeGroup_facts (colorTol params) (lf :: rest) P) as [_ [[ext [E _]] _]].
      rewrite E, len_app in Hlen. pose proof (len_nonneg ext). lia. }
    destruct (V1.lookupKey m (rgbKey (leaf_c lf))) as [idx|] eqn:El.
    + destruct (Hm _ _ El) as [j [-> Hj]]. specialize (Hj (leaf_c lf) eq_refl).
      cbn [placeGroup] in Hlen |- *. rewrite Hj in Hlen |- *.
      rewrite (IH P m (ixs ++ [Z.of_nat j]) Hm).
      * destruct (placeGroup (colorTol params) P rest) as [pal' ixs'].
        cbn [fst snd map]. rewrite <- app_assoc. reflexivity.
      * destruct (placeGroup (colorTol params) P rest) as [pal' ixs']. exact Hlen.
    + rewrite findClose_firstWithin.
      cbn [placeGroup] in Hlen |- *.
      destruct (firstWithin (colorTol params) (leaf_c lf) P) as [j|] eqn:Ef.
      * pose proof (firstWithin_lt _ _ _ _ Ef) as Hjlt.
        destruct (Z.leb_spec 0 (0 + Z.of_nat j)); [|lia].
        assert (Eu : GoInt.uint16 (0 + Z.of_nat j) = Z.of_nat j)
          by (unfold GoInt.uint16, len in *; rewrite Z.mod_small; lia).
        rewrite Eu.
        rewrite (IH P _ (ixs ++ [Z.of_nat j])).
        -- destruct (placeGroup (colorTol params) P rest) as [pal' ixs'].
           cbn [fst snd map]. rewrite <- app_assoc. reflexivity.
        -- intros k idx Hk. unfold V1.lookupKey in Hk. cbn [find fst snd] in Hk.
           destruct (Z.eqb_spec (rgbKey (leaf_c lf)) k) as [Ek|Ek].
           ++ inversion Hk; subst. exists j. split; [reflexivity|].
              intros c Hc. rewrite (firstWithin_opaque _ c (leaf_c lf)); [exact Ef|].
              apply rgbKey_opaque. exact Hc.
           ++ apply Hm. exact Hk.
        -- destruct (placeGroup (colorTol params) P rest) as [pal' ixs']. exact Hlen.
      * change (0 <=? -1) with false. cbv iota.
        assert (HP1 : len P < 65535).
        { destruct (placeGroup_facts (colorTol params) rest (P ++ [leaf_c lf]))
            as [_ [[ext [E _]] _]].
          destruct (placeGroup (colorTol params) (P ++ [leaf_c lf]) rest) as [pal' ixs'].
          cbn [fst] in *. rewrite E, !len_app in Hlen. pose proof (len_nonneg ext).
          change (len [leaf_c lf]) with 1 in Hlen. lia. }
        destruct (Z.leb_spec 65535 (len P)); [lia|].
        assert (Eu : GoInt.uint16 (len P) = Z.of_nat (length P))
          by (unfold GoInt.uint16, len in *; rewrite Z.mod_small; lia).
        rewrite Eu.
        rewrite (IH (P ++ [leaf_c lf]) _ (ixs ++ [Z.of_nat (length P)])).
        -- destruct (placeGroup (colorTol params) (P ++ [leaf_c lf]) rest) as [pal' ixs'].
           cbn [fst snd map]. rewrite <- app_assoc. reflexivity.
        -- intros k idx Hk. unfold V1.lookupKey in Hk. cbn [find fst snd] in Hk.
           destruct (Z.eqb_spec (rgbKey (leaf_c lf)) k) as [Ek|Ek].
           ++ inversion Hk; subst. exists (length P). split; [reflexivity|].
              intros c Hc. apply rgbKey_opaque in Hc.
              apply firstWithin_app_None.
              ** rewrite (firstWithin_opaque _ c (leaf_c lf) P Hc). exact Ef.
              ** rewrite (within_opaque _ c (leaf_c lf) _ Hc). apply within_refl. exact Ht.
           ++ destruct (Hm k idx Hk) as [j [Ej Hj]]. exists j. split; [exact Ej|].
              intros c Hc. apply firstWithin_app_Some. apply Hj. exact Hc.
        -- destruct (placeGroup (colorTol params) (P ++ [leaf_c lf]) rest) as [pal' ixs'].
           exact Hlen.
Qed.

(** X28: in the palette builder of the first format the map from exact
    color keys to indices is only a cache: for a tolerance that is not
    negative, [buildPalette] returns the palette and the indices of the plain
    rule (each leaf in order takes the first entry within the tolerance, else
    its color is appended), as long as that palette has at most 65535
    entries. *)
Theorem first_format_palette_cache_is_transparent (leaves : list leafColor)
  (params : codec2Params) :
  0 <= colorTol params ->
  len (fst (placeGroup (colorTol params) [] leaves)) <= 65535 ->
  V1.buildPalette leaves params =
    Ok (fst (placeGroup (colorTol params) [] leaves),
        map Z.of_nat (snd (placeGroup (colorTol params) [] leaves))).
Proof.
  intros Ht Hlen. unfold V1.buildPalette.
  rewrite (buildPaletteFrom_cache params leaves Ht [] [] []); [reflexivity| |exact Hlen].
  intros k idx H. discriminate H.
Qed.

Lemma first_format_palette_cache_is_transparent_witness :
  V1.buildPalette
    [mkLeafColor (rgb 200 100 50); mkLeafColor (rgb 0 0 0); mkLeafColor (rgb 200 100 50);
     mkLeafColor (rgb 201 100 50)]
    (mkParams 1 1 1) =
    Ok (fst (placeGroup (colorTol (mkParams 1 1 1)) []
               [mkLeafColor (rgb 200 100 50); mkLeafColor (rgb 0 0 0);
                mkLeafColor (rgb 200 100 50); mkLeafColor (rgb 201 100 50)]),
        map Z.of_nat
          (snd (placeGroup (colorTol (mkParams 1 1 1)) []
                  [mkLeafColor (rgb 200 100 50); mkLeafColor (rgb 0 0 0);
                   mkLeafColor (rgb 200 100 50); mkLeafColor (rgb 201 100 50)]))).
Proof.
  apply (first_format_palette_cache_is_transparent
           [mkLeafColor (rgb 200 100 50); mkLeafColor (rgb 0 0 0);
            mkLeafColor (rgb 200 100 50); mkLeafColor (rgb 201 100 50)]
           (mkParams 1 1 1)).
  - vm_compute. discriminate.
  - vm_compute. discriminate.
Defined.

(* ------------------------------------------------------------------------- *)
(** ** Decoded blocks against the source *)

(** The leaves of the first pass are the block averages of the tree that its
    pattern spells, whichever way the pattern is cut out of a longer one. *)
Lemma collect_tree (img : image.RGBA) (params : codec2Params) (fuel : nat) :
  forall x y w h L0 P0 L1 P1,
  collectRegionColors fuel img x y w h params L0 P0 = Ok (L1, P1) ->
  exists dl dp,
    L1 = L0 ++ dl /\ P1 = P0 ++ dp /\
    forall t pattern pp,
      sliceAt pattern pp dp -> sliceAt pattern pp (flagsOf t) ->
      fits params w h t ->
      flagsOf t = dp /\
      forall lc, map leaf_c dl = map (blockAvg img) (treeJobs params x y w h lc t).
Proof.
  assert (Leaf_case : forall x y w h e b i avg,
    analyzeBlock img x y w h = (e, b, i, avg) ->
    forall t pattern pp,
      sliceAt pattern pp [true] -> sliceAt pattern pp (flagsOf t) ->
      fits params w h t ->
      flagsOf t = [true] /\
      forall lc, map leaf_c [mkLeafColor avg]
                 = map (blockAvg img) (treeJobs params x y w h lc t)).
  { intros x y w h e b i avg Ea t pattern pp Hs Ht _.
    apply sliceAt_cons_inv in Hs. destruct Hs as [Hp _].
    destruct t as [local|a b0]; cbn [flagsOf] in Ht.
    - split; [reflexivity|]. intros lc. cbn [treeJobs map leaf_c].
      unfold blockAvg. cbn [job_x job_y job_w job_h]. rewrite Ea. reflexivity.
    - apply sliceAt_cons_inv in Ht. destruct Ht as [Hp' _]. congruence. }
  induction fuel as [|fuel IH]; intros x y w h L0 P0 L1 P1 H; [discriminate|].
  cbn [collectRegionColors] in H.
  destruct (analyzeBlock img x y w h) as [[[energy be] ie] avg] eqn:Ea.
  destruct ((w <=? minBlock params) && (h <=? minBlock params)).
  { inversion H; subst. exists [mkLeafColor avg], [true].
    split; [reflexivity|]. split; [reflexivity|]. eapply Leaf_case. exact Ea. }
  destruct (energy =? 0).
  { inversion H; subst. exists [mkLeafColor avg], [true].
    split; [reflexivity|]. split; [reflexivity|]. eapply Leaf_case. exact Ea. }
  destruct (negb (edgeDominated params w h be ie) && (energy <=? maxGrad params)
            && (w <=? GoInt.mul64 4 (minBlock params))
            && (h <=? GoInt.mul64 4 (minBlock params))).
  { inversion H; subst. exists [mkLeafColor avg], [true].
    split; [reflexivity|]. split; [reflexivity|]. eapply Leaf_case. exact Ea. }
  assert (Split_case : forall x1 y1 w1 h1 x2 y2 w2 h2 dla dpa dlb dpb,
    (forall t pattern pp,
       sliceAt pattern pp dpa -> sliceAt pattern pp (flagsOf t) ->
       fits params w1 h1 t ->
       flagsOf t = dpa /\
       forall lc, map leaf_c dla = map (blockAvg img) (treeJobs params x1 y1 w1 h1 lc t)) ->
    (forall t pattern pp,
       sliceAt pattern pp dpb -> sliceAt pattern pp (flagsOf t) ->
       fits params w2 h2 t ->
       flagsOf t = dpb /\
       forall lc, map leaf_c dlb = map (blockAvg img) (treeJobs params x2 y2 w2 h2 lc t)) ->
    forall a b pattern pp,
      sliceAt pattern pp (false :: dpa ++ dpb) ->
      sliceAt pattern pp (flagsOf (Internal a b)) ->
      fits params w1 h1 a -> fits params w2 h2 b ->
      flagsOf (Internal a b) = false :: dpa ++ dpb /\
      forall lc, map leaf_c (dla ++ dlb)
                 = map (blockAvg img)
                       (treeJobs params x1 y1 w1 h1 lc a
                        ++ treeJobs params x2 y2 w2 h2 (lc + len (leavesOf a)) b)).
  { intros x1 y1 w1 h1 x2 y2 w2 h2 dla dpa dlb dpb Ha Hb a b pattern pp Hs Ht Fa Fb.
    apply sliceAt_cons_inv in Hs. destruct Hs as [_ Hs].
    apply sliceAt_app_inv in Hs. destruct Hs as [Hsa Hsb].
    cbn [flagsOf] in Ht.
    apply sliceAt_cons_inv in Ht. destruct Ht as [_ Ht].
    apply sliceAt_app_inv in Ht. destruct Ht as [Hta Htb].
    destruct (Ha a pattern (pp + 1) Hsa Hta Fa) as [Efa Ja].
    rewrite Efa in Htb.
    destruct (Hb b pattern (pp + 1 + len dpa) Hsb Htb Fb) as [Efb Jb].
    split; [cbn [flagsOf]; rewrite Efa, Efb; reflexivity|].
    intros lc. rewrite !map_app, (Ja lc), (Jb (lc + len (leavesOf a))). reflexivity. }
  assert (Not_leaf : forall local pattern pp dp,
    sliceAt pattern pp (false :: dp) -> sliceAt pattern pp (flagsOf (Leaf local)) -> False).
  { intros local pattern pp dp Hs Ht. cbn [flagsOf] in Ht.
    apply sliceAt_cons_inv in Hs. apply sliceAt_cons_inv in Ht.
    destruct Hs as [Hp _], Ht as [Hp' _]. congruence. }
  destruct ((h <=? w) && (minBlock params <=? w ÷ 2)) eqn:Ec.
  - bindOk H r1 H1. destruct r1 as [La Pa].
    destruct (IH _ _ _ _ _ _ _ _ H1) as [dla [dpa [-> [-> Ha]]]].
    destruct (IH _ _ _ _ _ _ _ _ H) as [dlb [dpb [-> [-> Hb]]]].
    exists (dla ++ dlb), (false :: dpa ++ dpb).
    split; [rewrite app_assoc; reflexivity|].
    split; [rewrite <- !app_assoc; reflexivity|].
    intros t pattern pp Hs Ht Hfit.
    destruct t as [local|a b]; [exfalso; eapply Not_leaf; eassumption|].
    cbn [fits] in Hfit. rewrite Ec in Hfit. destruct Hfit as [Fa Fb].
    cbn [treeJobs]. rewrite Ec.
    eapply Split_case; eassumption.
  - destruct (h ÷ 2 <? minBlock params) eqn:Eh.
    { inversion H; subst. exists [mkLeafColor avg], [true].
      split; [reflexivity|]. split; [reflexivity|]. eapply Leaf_case. exact Ea. }
    bindOk H r1 H1. destruct r1 as [La Pa].
    destruct (IH _ _ _ _ _ _ _ _ H1) as [dla [dpa [-> [-> Ha]]]].
    destruct (IH _ _ _ _ _ _ _ _ H) as [dlb [dpb [-> [-> Hb]]]].
    exists (dla ++ dlb), (false :: dpa ++ dpb).
    split; [rewrite app_assoc; reflexivity|].
    split; [rewrite <- !app_assoc; reflexivity|].
    intros t pattern pp Hs Ht Hfit.
    destruct t as [local|a b]; [exfalso; eapply Not_leaf; eassumption|].
    cbn [fits] in Hfit. rewrite Ec in Hfit. destruct Hfit as [_ [Fa Fb]].
    cbn [treeJobs]. rewrite Ec.
    eapply Split_case; eassumption.
Qed.

(** The trees [encodeStripes] writes, with the part of the pattern they were
    read from. *)
Lemma encodeStripes_flags (w : Z) (params : codec2Params) (leafLocal : list byte)
  (pattern : list bool) (stripes : list stripeInfo) :
  forall bw lp pp bw' lp' pp',
  encodeStripes w params bw leafLocal lp pattern pp stripes = Ok (bw', lp', pp') ->
  writerOk bw -> 0 <= lp -> 0 <= pp ->
  exists ts,
    written bw' = written bw ++ flat_map nodeBits ts /\
    writerOk bw' /\ extends bw bw' /\
    Forall2 (fun s t => fits params w (stripe_h s) t) stripes ts /\
    sliceAt leafLocal lp (flat_map leavesOf ts) /\
    sliceAt pattern pp (flat_map flagsOf ts).
Proof.
  induction stripes as [|s stripes IH]; intros bw lp pp bw' lp' pp' H Hok Hlp Hpp;
    cbn [encodeStripes] in H.
  - inversion H; subst. exists []. cbn [flat_map]. rewrite app_nil_r.
    split; [reflexivity|]. split; [exact Hok|]. split; [apply extends_refl|].
    split; [constructor|]. split; apply sliceAt_nil.
  - bindOk H r1 H1. destruct r1 as [[bw1 lp1] pp1].
    destruct (encodeRegion_tree _ _ _ _ _ _ _ _ _ _ _ _ _ _ H1 Hok Hlp Hpp)
      as [t [T1 [T2 [T3 [T4 [T5 [T6 [T7 T8]]]]]]]].
    pose proof (len_nonneg (leavesOf t)). pose proof (len_nonneg (flagsOf t)).
    destruct (IH _ _ _ _ _ _ H T2 ltac:(lia) ltac:(lia))
      as [ts [S1 [S2 [S3 [S4 [S5 S6]]]]]].
    exists (t :: ts). cbn [flat_map].
    split; [rewrite S1, T1, <- app_assoc; reflexivity|].
    split; [exact S2|]. split; [eapply extends_trans; eassumption|].
    split; [constructor; assumption|].
    split; (apply sliceAt_app; [assumption|]).
    + rewrite <- T5. exact S5.
    + rewrite <- T6. exact S6.
Qed.

(** Every leaf color of the first pass is the block average of the job with
    the same number. *)
Lemma forest_leaves (img : image.RGBA) (w : Z) (params : codec2Params)
  (pattern : list bool) (stripes : list stripeInfo) :
  forall runs ts pp lc,
  stripeRuns img w params stripes runs ->
  Forall2 (fun s t => fits params w (stripe_h s) t) stripes ts ->
  sliceAt pattern pp (concat (map snd runs)) ->
  sliceAt pattern pp (flat_map flagsOf ts) ->
  map leaf_c (concat (map fst runs))
  = map (blockAvg img) (forestJobs params w stripes ts lc).
Proof.
  induction stripes as [|s stripes IH]; intros runs ts pp lc Hruns Hfit Hs Ht;
    inversion Hruns as [|s' run ss runs' [fuel Hrun] Hrest]; subst;
    inversion Hfit as [|s'' t ss' ts' Hft Hfts]; subst.
  - reflexivity.
  - destruct run as [l p]. cbn [map concat fst snd flat_map forestJobs] in *.
    apply sliceAt_app_inv in Hs. destruct Hs as [Hs1 Hs2].
    apply sliceAt_app_inv in Ht. destruct Ht as [Ht1 Ht2].
    destruct (collect_tree img params fuel _ _ _ _ _ _ _ _ Hrun)
      as [dl [dp [Edl [Edp Htree]]]].
    cbn [app] in Edl, Edp. subst dl dp.
    destruct (Htree t pattern pp Hs1 Ht1 Hft) as [Ef J].
    rewrite Ef in Ht2.
    rewrite !map_app, (J lc).
    rewrite (IH runs' ts' (pp + len p) (lc + len (leavesOf t)) Hrest Hfts Hs2 Ht2).
    reflexivity.
Qed.

Lemma numbered_app (a b : list byte) : forall lc,
  numbered lc (a ++ b) = numbered lc a ++ numbered (lc + len a) b.
Proof.
  induction a as [|x a IH]; intros lc; cbn [app numbered].
  - unfold len. simpl. rewrite Z.add_0_r. reflexivity.
  - rewrite IH, len_cons. f_equal. f_equal. f_equal. lia.
Qed.

Lemma treeJobs_numbered (params : codec2Params) (t : node) :
  forall x y w h lc,
  map (fun job => (job_pal job, job_idx job)) (treeJobs params x y w h lc t)
  = numbered lc (leavesOf t).
Proof.
  induction t as [local|a IHa b IHb]; intros x y w h lc; cbn [treeJobs leavesOf].
  - reflexivity.
  - rewrite numbered_app.
    destruct ((h <=? w) && (minBlock params <=? w ÷ 2));
      rewrite map_app, IHa, IHb; reflexivity.
Qed.

Lemma forestJobs_numbered (params : codec2Params) (w : Z) (stripes : list stripeInfo) :
  forall ts lc,
  length stripes = length ts ->
  map (fun job => (job_pal job, job_idx job)) (forestJobs params w stripes ts lc)
  = numbered lc (flat_map leavesOf ts).
Proof.
  induction stripes as [|s stripes IH]; intros [|t ts] lc Hl; try discriminate Hl.
  - reflexivity.
  - cbn [forestJobs flat_map]. rewrite map_app, treeJobs_numbered, numbered_app, IH.
    + reflexivity.
    + simpl in Hl. lia.
Qed.

Lemma numbered_nth (locals : list byte) : forall lc j p k,
  nth_error (numbered lc locals) j = Some (p, k) ->
  exists l, nth_error locals j = Some l /\ p = (lc + Z.of_nat j) ÷ 256 /\ k = b2z l.
Proof.
  induction locals as [|l locals IH]; intros lc j p k H; cbn [numbered] in H.
  - destruct j; discriminate.
  - destruct j as [|j]; cbn [nth_error] in *.
    + inversion H. exists l. rewrite Z.add_0_r. auto.
    + destruct (IH _ _ _ _ H) as [l' [H1 [H2 H3]]]. exists l'.
      split; [exact H1|]. split; [|exact H3]. rewrite H2. f_equal. lia.
Qed.

(** The jobs the decoder makes of the trees of the stripes. *)
Lemma decodeStripes_jobs (w : Z) (params : codec2Params)
  (palettes : list (list color.RGBA)) (stripes : list stripeInfo) :
  forall ts fuel br lc jobs rest,
  1 <= minBlock params ->
  Forall2 (fun s t => fits params w (stripe_h s) t) stripes ts ->
  (length (flat_map nodeBits ts) <= fuel)%nat ->
  readerOk br -> remaining br = flat_map nodeBits ts ++ rest ->
  0 <= lc ->
  leavesResolve palettes lc (flat_map leavesOf ts) ->
  exists br',
    decodeStripes fuel w params br palettes lc jobs stripes =
      Ok (br', lc + len (flat_map leavesOf ts),
          jobs ++ forestJobs params w stripes ts lc).
Proof.
  induction stripes as [|s stripes IH];
    intros ts fuel br lc jobs rest Hmb Hfit Hfuel Hok Hrem Hlc Hres;
    inversion Hfit as [|s' t stripes' ts' Ht Hts]; subst.
  - exists br. cbn [decodeStripes flat_map forestJobs]. unfold len. simpl length.
    rewrite Z.add_0_r, app_nil_r. reflexivity.
  - cbn [flat_map] in *. rewrite length_app in Hfuel. rewrite <- app_assoc in Hrem.
    apply leavesResolve_app in Hres. destruct Hres as [Hr1 Hr2].
    destruct (decodeRegionJobs_tree params palettes t fuel 0 (stripe_y s) w (stripe_h s)
                br lc jobs _ Hmb Ht ltac:(lia) Hok Hrem Hlc Hr1)
      as [br1 [D1 [D2 [D3 D4]]]].
    pose proof (len_nonneg (leavesOf t)).
    destruct (IH ts' fuel br1 (lc + len (leavesOf t))
                 (jobs ++ treeJobs params 0 (stripe_y s) w (stripe_h s) lc t) rest
                 Hmb Hts ltac:(lia) D3 D2 ltac:(lia) Hr2) as [br' E1].
    exists br'. cbn [decodeStripes forestJobs]. rewrite D1. cbn [bind].
    rewrite E1, len_app, Z.add_assoc, <- app_assoc. reflexivity.
Qed.

(** The payload of an encoder run, decoded: the jobs are those of the trees
    the encoder wrote, and they are painted from the encoder's palettes. *)
Lemma decodePayload_jobs (numCPU w h : Z) (params : codec2Params)
  (pals : list palette) (leafLocal : list byte) (pattern : list bool)
  (raw1 : list byte) (bw : BitWriter) (lp pp : Z) :
  1 <= minBlock params ->
  len pals <= 65535 ->
  writePalettes (putUint16 (GoInt.uint16 (len pals))) pals = Ok raw1 ->
  encodeStripes w params (NewBitWriter raw1) leafLocal 0 pattern 0
                (splitStripes numCPU h (minBlock params)) = Ok (bw, lp, pp) ->
  (forall i local, index leafLocal i = Some local ->
     exists p, index pals (i ÷ 256) = Some p /\ b2z local < len (pal_colors p)) ->
  exists ts ws,
    Forall2 (fun s t => fits params w (stripe_h s) t)
            (splitStripes numCPU h (minBlock params)) ts /\
    sliceAt leafLocal 0 (flat_map leavesOf ts) /\
    sliceAt pattern 0 (flat_map flagsOf ts) /\
    workerWrites (image.Rect 0 0 w h)
      (map (fun p => map opaque (pal_colors p)) pals)
      (forestJobs params w (splitStripes numCPU h (minBlock params)) ts 0) = Ok ws /\
    decodePayload numCPU w h params (bw_buf (Flush bw)) =
      Ok (smoothEdges (applyWrites (image.NewRGBA (image.Rect 0 0 w h)) ws)
                      (maxGrad params)) /\
    forall px py,
      coverCount px py (forestJobs params w (splitStripes numCPU h (minBlock params)) ts 0)
      = if inRegion 0 0 w (Z.max 0 h) px py then 1%nat else 0%nat.
Proof.
  intros Hmb Hnp Hwp Henc Hvalid.
  pose proof (len_nonneg pals) as Hnp0.
  destruct (writePalettes_inv _ _ _ Hwp) as [Hall Hraw1].
  assert (Eu : GoInt.uint16 (len pals) = len pals)
    by (unfold GoInt.uint16; apply Z.mod_small; lia).
  rewrite Eu in Hraw1.
  destruct (NewBitWriter_ok raw1) as [Hok0 Hw0].
  destruct (encodeStripes_flags _ _ _ _ _ _ _ _ _ _ _ Henc Hok0 ltac:(lia) ltac:(lia))
    as [ts [S1 [S2 [[ext1 S3] [S4 [S5 S6]]]]]].
  destruct (Flush_written bw S2) as [pad [F1 [ext2 F2]]].
  cbn [NewBitWriter bw_buf] in S3.
  set (payload := bw_buf (Flush bw)) in *.
  assert (Epay : payload = raw1 ++ (ext1 ++ ext2)).
  { rewrite F2, S3, app_assoc. reflexivity. }
  assert (Ebits : bytesBits (ext1 ++ ext2) = flat_map nodeBits ts ++ pad).
  { rewrite Epay, bytesBits_app, S1, Hw0, <- app_assoc in F1.
    apply app_inv_head in F1. exact F1. }
  set (tree := ext1 ++ ext2) in *.
  set (palettes := map (fun p => map opaque (pal_colors p)) pals).
  unfold decodePayload.
  set (stripes := splitStripes numCPU h (minBlock params)) in *.
  assert (Elen : len payload = 2 + len (flat_map paletteBytes pals) + len tree).
  { rewrite Epay, Hraw1, !len_app. unfold putUint16, len. simpl length. lia. }
  pose proof (len_nonneg (flat_map paletteBytes pals)). pose proof (len_nonneg tree).
  replace (len payload <? 2) with false by lia.
  rewrite Epay, Hraw1, <- !app_assoc.
  rewrite readUint16_putUint16 by lia. cbn [bind].
  replace (Z.to_nat (len pals)) with (length pals) by (unfold len; lia).
  rewrite readPalettes_ok by exact Hall. cbn [bind]. fold palettes.
  rewrite !app_assoc.
  replace ((len ((putUint16 (len pals) ++ flat_map paletteBytes pals) ++ tree) - len tree <? 0)
           || (len ((putUint16 (len pals) ++ flat_map paletteBytes pals) ++ tree)
               <? len ((putUint16 (len pals) ++ flat_map paletteBytes pals) ++ tree) - len tree))
    with false by (rewrite !len_app; pose proof (len_nonneg (putUint16 (len pals))); lia).
  rewrite skipn_prefix.
  assert (Hbr : readerOk (NewBitReaderFromBytes tree) /\
                remaining (NewBitReaderFromBytes tree) = flat_map nodeBits ts ++ pad).
  { unfold readerOk, remaining, NewBitReaderFromBytes.
    cbn [br_nbit br_pos br_data br_acc]. change (0 =? 0) with true. cbn iota.
    change (Z.to_nat 0) with O. cbn [skipn app]. split; [lia|exact Ebits]. }
  destruct Hbr as [Hbr1 Hbr2].
  assert (Hres : leavesResolve palettes 0 (flat_map leavesOf ts)).
  { intros j local Hj. specialize (S5 j local Hj).
    destruct (Hvalid _ _ S5) as [p [Hp Hlt]].
    exists (map opaque (pal_colors p)). unfold palettes.
    rewrite index_map, Hp, len_map. split; [reflexivity|exact Hlt]. }
  assert (Hfuel : (length (flat_map nodeBits ts)
                   <= S (8 * length ((putUint16 (len pals) ++ flat_map paletteBytes pals)
                                     ++ tree)))%nat).
  { assert (Hl : length (bytesBits tree) = (length (flat_map nodeBits ts) + length pad)%nat)
      by (rewrite Ebits, length_app; reflexivity).
    rewrite bytesBits_length in Hl. rewrite !length_app. lia. }
  destruct (decodeStripes_jobs w params palettes stripes ts _ _ 0 [] pad
              Hmb S4 Hfuel Hbr1 Hbr2 ltac:(lia) Hres) as [br' D1].
  rewrite D1. cbn [bind app].
  set (jobs := forestJobs params w stripes ts 0) in *.
  assert (Hjobs : Forall (jobValid palettes) jobs).
  { eapply decodeStripes_valid; [exact D1|constructor]. }
  destruct (splitStripes_tiles numCPU h (minBlock params) Hmb) as [St [Fh Th]].
  fold stripes in St, Fh, Th.
  destruct (decodeStripes_tiles _ _ _ _ _ _ _ _ _ _ _ _ St Fh D1) as [new [En Cn]].
  cbn [app] in En. subst new. rewrite Th in Cn.
  unfold paintLeafJobsParallel. rewrite paintWrites_sequential.
  change (image.Bounds (image.NewRGBA (image.Rect 0 0 w h))) with (image.Rect 0 0 w h).
  destruct (workerWrites_ok (image.Rect 0 0 w h) palettes jobs Hjobs) as [ws Hws].
  exists ts, ws. rewrite Hws. cbn [bind].
  split; [exact S4|]. split; [exact S5|]. split; [exact S6|].
  split; [exact Hws|]. split; [reflexivity|exact Cn].
Qed.

Lemma covered_count (px py : Z) (jobs : list leafJob) (job : leafJob) :
  In job jobs -> jobCovers px py job = true -> (1 <= coverCount px py jobs)%nat.
Proof.
  intros Hin Hc. unfold coverCount.
  assert (H : In job (filter (jobCovers px py) jobs)) by (apply filter_In; auto).
  destruct (filter (jobCovers px py) jobs); [destruct H|simpl; lia].
Qed.

(** Where exactly one job covers a pixel, that job paints it. *)
Lemma topJob_unique (px py : Z) (job : leafJob) (jobs : list leafJob) :
  coverCount px py jobs = 1%nat -> In job jobs -> jobCovers px py job = true ->
  topJob px py jobs = Some job.
Proof.
  induction jobs as [|j jobs IH]; intros Hc Hin Hcov; [destruct Hin|].
  unfold coverCount in Hc. cbn [filter] in Hc. cbn [topJob].
  destruct Hin as [->|Hin].
  - rewrite Hcov in Hc. cbn [length] in Hc.
    assert (E : coverCount px py jobs = 0%nat) by (unfold coverCount; lia).
    apply topJob_None in E. rewrite E, Hcov. reflexivity.
  - pose proof (covered_count px py jobs job Hin Hcov) as H1. unfold coverCount in H1.
    destruct (jobCovers px py j); cbn [length] in Hc; [lia|].
    rewrite (IH Hc Hin Hcov). reflexivity.
Qed.

(** The decoded raster, block by block, for an artifact of [Encode]. *)
Lemma decoded_blocks (z : Zstd) (numCPU : Z) (img : image.RGBA) (quality : Z)
  (pals : list palette) (art : list byte) :
  0 <= image.Dx (image.Bounds img) <= 65535 ->
  0 <= image.Dy (image.Bounds img) <= 65535 ->
  encoderPalettes numCPU img quality = Ok pals ->
  len pals <= 65535 ->
  Encode z numCPU img quality = Ok art ->
  exists pre jobs,
    Decode z numCPU art =
      Ok (smoothEdges pre (maxGrad (paramsForQuality (clampQuality quality)))) /\
    image.Bounds pre =
      image.Rect 0 0 (image.Dx (image.Bounds img)) (image.Dy (image.Bounds img)) /\
    (forall px py,
       coverCount px py jobs =
       if image.In px py (image.Bounds pre) then 1%nat else 0%nat) /\
    forall job, In job jobs ->
      exists c,
        closeColor (blockAvg (toRGBA img) job) c
                   (colorTol (paramsForQuality (clampQuality quality))) = true /\
        forall px py, jobCovers px py job = true -> image.RGBAAt pre px py = c.
Proof.
  intros HW HH HP Hnp HE.
  destruct (toRGBA_Bounds img ltac:(lia) ltac:(lia)) as [EB [EW EH]].
  destruct (Encode_inv _ _ _ _ _ HE) as [raw [Hraw ->]].
  rewrite Decode_header by (try apply uint16_range; apply clampQuality_range).
  rewrite decompress_compress. cbn [bind].
  set (params := paramsForQuality (clampQuality quality)) in *.
  set (rgba := toRGBA img) in *.
  rewrite EW, EH in *.
  set (W := image.Dx (image.Bounds img)) in *.
  set (H := image.Dy (image.Bounds img)) in *.
  assert (Eu1 : GoInt.uint16 W = W) by (unfold GoInt.uint16; apply Z.mod_small; lia).
  assert (Eu2 : GoInt.uint16 H = H) by (unfold GoInt.uint16; apply Z.mod_small; lia).
  rewrite Eu1, Eu2 in *.
  assert (Hmb : minBlock params = 1) by apply minBlock_paramsForQuality.
  destruct (collectRegionColorsStriped_runs numCPU rgba params ltac:(fold H; rewrite ?EH; lia))
    as [runs [Hruns Hcol]].
  fold rgba in EW, EH. rewrite EW, EH in Hruns. fold W H in Hruns.
  unfold encodePayload in Hraw. rewrite Hcol in Hraw. cbn [bind] in Hraw.
  bindOk Hraw r2 H2. destruct r2 as [pals' refs].
  bindOk Hraw raw1 H3.
  bindOk Hraw r3 H4. destruct r3 as [[bw lp] pp].
  inversion Hraw; subst raw. clear Hraw.
  unfold encoderPalettes in HP. fold params rgba in HP. rewrite Hcol in HP.
  cbn [bind] in HP. rewrite H2 in HP. cbn [bind] in HP. inversion HP; subst pals'. clear HP.
  set (leaves := concat (map fst runs)) in *.
  set (pattern := concat (map snd runs)) in *.
  destruct (decodePayload_jobs numCPU W H params pals (map ref_idx refs) pattern raw1 bw lp pp
              ltac:(lia) Hnp H3 H4 (buildPalettes_locals params leaves pals refs H2))
    as [ts [ws [Hfit [Sl [Sp [Hws [HD Htile]]]]]]].
  set (stripes := splitStripes numCPU H (minBlock params)) in *.
  set (jobs := forestJobs params W stripes ts 0) in *.
  set (palettes := map (fun p => map opaque (pal_colors p)) pals) in *.
  set (dst := image.NewRGBA (image.Rect 0 0 W H)) in *.
  exists (applyWrites dst ws), jobs.
  split; [exact HD|].
  assert (Hb : image.Bounds (applyWrites dst ws) = image.Rect 0 0 W H)
    by apply applyWrites_Bounds.
  split; [exact Hb|].
  assert (Htile' : forall px py,
            coverCount px py jobs =
            if image.In px py (image.Rect 0 0 W H) then 1%nat else 0%nat).
  { intros px py. rewrite Htile, Z.max_r by lia. rewrite In_Rect0 by lia. reflexivity. }
  split; [intros px py; rewrite Hb; apply Htile'|].
  pose proof (forest_leaves rgba W params pattern stripes runs ts 0 0 Hruns Hfit
                (sliceAt_self pattern) Sp) as Hleaves.
  fold leaves jobs in Hleaves.
  pose proof (forestJobs_numbered params W stripes ts 0 (Forall2_length Hfit)) as Hnum.
  fold jobs in Hnum.
  destruct (buildPalettes_lengths params leaves) as [pals0 [refs0 [E0 [Hlr [Hlp _]]]]].
  rewrite H2 in E0. inversion E0; subst pals0 refs0. clear E0.
  assert (Hmax : len leaves <= 16776960) by dlia.
  intros job Hin.
  destruct (In_nth_error _ _ Hin) as [n Hn].
  assert (Ha : nth_error (map leaf_c leaves) n = Some (blockAvg rgba job))
    by (rewrite Hleaves; apply map_nth_error; exact Hn).
  rewrite nth_error_map in Ha.
  destruct (nth_error leaves n) as [lf|] eqn:Elf; [|discriminate].
  cbn [option_map] in Ha. inversion Ha as [Eavg]. clear Ha.
  assert (Hi : index leaves (Z.of_nat n) = Some lf).
  { rewrite index_nth_error by lia. rewrite Nat2Z.id. exact Elf. }
  pose proof (index_Some_lt _ _ _ Hi) as Hir.
  assert (Htol : 0 <= colorTol params).
  { unfold params. rewrite paramsForQuality_value. cbn [colorTol].
    pose proof (clampQuality_range (clampQuality quality)). dlia. }
  destruct (buildPalettes_close params leaves (Z.of_nat n) lf Htol ltac:(lia) Hi)
    as [pals1 [refs1 [r [pc [E1 [Hr [Hres Hclose]]]]]]].
  rewrite H2 in E1. inversion E1; subst pals1 refs1. clear E1.
  destruct (buildPalettes_leaf params leaves (Z.of_nat n) ltac:(lia))
    as [pals2 [refs2 [j [P [E2 [Hr2 _]]]]]].
  rewrite H2 in E2. inversion E2; subst pals2 refs2. clear E2.
  rewrite Hr in Hr2. inversion Hr2 as [Er]. clear Hr2.
  assert (Epal : ref_pal r = Z.of_nat n ÷ 256).
  { rewrite Er. cbn [storedRef fst ref_pal]. unfold GoInt.uint16.
    rewrite Z.mod_small by dlia. dlia. }
  assert (Hpi : nth_error (map (fun job => (job_pal job, job_idx job)) jobs) n
                = Some (job_pal job, job_idx job))
    by (apply map_nth_error with (f := fun job => (job_pal job, job_idx job)); exact Hn).
  rewrite Hnum in Hpi.
  destruct (numbered_nth _ _ _ _ _ Hpi) as [l [Hl [Ejp Eji]]].
  specialize (Sl n l Hl). rewrite Z.add_0_l in Sl, Ejp.
  rewrite index_map, Hr in Sl. cbn [option_map] in Sl. inversion Sl as [El]. clear Sl.
  unfold resolveRef in Hres. rewrite Epal in Hres.
  destruct (index pals (Z.of_nat n ÷ 256)) as [p|] eqn:Ep; [|discriminate].
  assert (Hjc : jobColor palettes job = Ok (opaque pc)).
  { unfold jobColor, palettes. rewrite Ejp, index_map, Ep. cbn [option_map].
    rewrite Eji, <- El, index_map, Hres. reflexivity. }
  exists (opaque pc). split.
  - rewrite !closeColor_within in *.
    unfold within in *. exact Hclose.
  - intros px py Hcov.
    pose proof (covered_count px py jobs job Hin Hcov) as Hc1.
    rewrite Htile' in Hc1.
    destruct (image.In px py (image.Rect 0 0 W H)) eqn:Ein; [|lia].
    assert (Hone : coverCount px py jobs = 1%nat) by (rewrite Htile', Ein; reflexivity).
    pose proof (topJob_unique px py job jobs Hone Hin Hcov) as Etop.
    pose proof (painted_At palettes px py jobs dst ws Hws Ein) as Hp.
    rewrite Etop, Hjc in Hp. inversion Hp. reflexivity.
Qed.

(** X29: what [Decode] returns for an artifact of [Encode] is the edge
    smoothing of a raster made of blocks: rectangles that tile the image,
    each painted in one color, and that color differs from the average color
    of the same rectangle in the source (as [analyzeBlock] computes it on
    the raster moved to the origin) by at most [colorTol] in each of red,
    green and blue. *)
Theorem decoded_blocks_are_close_to_source_averages (z : Zstd) (numCPU : Z)
  (img : image.RGBA) (quality : Z) (pals : list palette) (art : list byte) :
  0 <= image.Dx (image.Bounds img) <= 65535 ->
  0 <= image.Dy (image.Bounds img) <= 65535 ->
  encoderPalettes numCPU img quality = Ok pals ->
  len pals <= 65535 ->
  Encode z numCPU img quality = Ok art ->
  exists pre jobs,
    Decode z numCPU art =
      Ok (smoothEdges pre (maxGrad (paramsForQuality (clampQuality quality)))) /\
    image.Bounds pre =
      image.Rect 0 0 (image.Dx (image.Bounds img)) (image.Dy (image.Bounds img)) /\
    (forall px py,
       coverCount px py jobs =
       if image.In px py (image.Bounds pre) then 1%nat else 0%nat) /\
    forall job, In job jobs ->
      exists c,
        closeColor (blockAvg (toRGBA img) job) c
                   (colorTol (paramsForQuality (clampQuality quality))) = true /\
        forall px py, jobCovers px py job = true -> image.RGBAAt pre px py = c.
Proof. apply decoded_blocks. Qed.

Lemma decoded_blocks_are_close_to_source_averages_witness :
  exists pre jobs,
    Decode storeZstd 2
      [x42; x41; x42; x32; x00; x02; x00; x01; x32; x00; x01; x02; x00; x00; x00;
       xff; xff; xff; x40; x20; x20] =
      Ok (smoothEdges pre (maxGrad (paramsForQuality (clampQuality 50)))) /\
    image.Bounds pre = image.Rect 0 0 2 1 /\
    (forall px py,
       coverCount px py jobs =
       if image.In px py (image.Bounds pre) then 1%nat else 0%nat) /\
    forall job, In job jobs ->
      exists c,
        closeColor
          (blockAvg
             (toRGBA (rasterOf 2 1 (fun x _ => if x =? 0 then rgb 0 0 0
                                               else rgb 255 255 255)))
             job) c
          (colorTol (paramsForQuality (clampQuality 50))) = true /\
        forall px py, jobCovers px py job = true -> image.RGBAAt pre px py = c.
Proof.
  apply (decoded_blocks_are_close_to_source_averages storeZstd 2
           (rasterOf 2 1 (fun x _ => if x =? 0 then rgb 0 0 0 else rgb 255 255 255))
           50 [mkPalette [rgb 0 0 0; rgb 255 255 255]]).
  - vm_compute. split; discriminate.
  - vm_compute. split; discriminate.
  - vm_compute. reflexivity.
  - vm_compute. discriminate.
  - vm_compute. reflexivity.
Defined.

(* ------------------------------------------------------------------------- *)
(** ** The one-palette builder glues the group palettes *)

Lemma paletteGroup_spec (params : codec2Params) (g : list leafColor) :
  forall lc l2g gp ip off,
  l2g = map (fun j => off + Z.of_nat j) (seq 0 (length lc)) ->
  len gp = off + len lc -> 0 <= off -> len gp <= 65535 ->
  exists ext,
    fst (placeGroup (colorTol params) lc g) = lc ++ ext /\
    paletteGroup params g lc l2g gp ip =
      if len gp + len ext <=? 65535
      then Ok (gp ++ ext,
               ip ++ map (fun j => off + Z.of_nat j)
                         (snd (placeGroup (colorTol params) lc g)))
      else Err (Errorf "palette too large").
Proof.
  induction g as [|lf g IH]; intros lc l2g gp ip off Hl2g Hlen Hoff Hmax.
  - exists []. cbn [placeGroup paletteGroup fst snd map]. rewrite !app_nil_r.
    split; [reflexivity|]. unfold len at 2. cbn [length].
    replace (len gp + Z.of_nat 0 <=? 65535) with true by lia. reflexivity.
  - cbn [paletteGroup placeGroup]. rewrite findClose_firstWithin.
    destruct (firstWithin (colorTol params) (leaf_c lf) lc) as [j|] eqn:Ej.
    + pose proof (firstWithin_lt _ _ _ _ Ej) as Hj.
      replace (0 <=? 0 + Z.of_nat j) with true by lia.
      assert (Ei : index l2g (0 + Z.of_nat j) = Some (off + Z.of_nat j)).
      { rewrite index_nth_error by lia. rewrite Hl2g, nth_error_map.
        replace (Z.to_nat (0 + Z.of_nat j)) with j by lia.
        rewrite nth_error_seq0 by exact Hj. reflexivity. }
      rewrite Ei.
      destruct (IH lc l2g gp (ip ++ [off + Z.of_nat j]) off Hl2g Hlen Hoff Hmax)
        as [ext [E1 E2]].
      exists ext. destruct (placeGroup (colorTol params) lc g) as [pal' ixs].
      cbn [fst snd] in *. split; [exact E1|]. rewrite E2.
      destruct (len gp + len ext <=? 65535); [|reflexivity].
      cbn [map]. rewrite <- app_assoc. reflexivity.
    + change (0 <=? -1) with false. cbn iota.
      destruct (placeGroup_facts (colorTol params) g (lc ++ [leaf_c lf]))
        as [_ [[ext1 [F1 _]] _]].
      destruct (Z.leb_spec 65535 (len gp)) as [Hfull|Hroom].
      * exists (leaf_c lf :: ext1).
        destruct (placeGroup (colorTol params) (lc ++ [leaf_c lf]) g) as [pal' ixs].
        cbn [fst] in *. split; [rewrite F1, <- app_assoc; reflexivity|].
        rewrite len_cons. pose proof (len_nonneg ext1).
        replace (len gp + (1 + len ext1) <=? 65535) with false by lia. reflexivity.
      * pose proof (len_nonneg gp) as Hgp0.
        assert (Eu : GoInt.uint16 (len gp) = len gp)
          by (unfold GoInt.uint16; apply Z.mod_small; lia).
        rewrite Eu.
        destruct (IH (lc ++ [leaf_c lf]) (l2g ++ [len gp]) (gp ++ [leaf_c lf])
                     (ip ++ [len gp]) off) as [ext [E1 E2]].
        { rewrite length_app. cbn [length]. rewrite seq_app, map_app.
          cbn [seq map Nat.add]. rewrite <- Hl2g. f_equal. f_equal.
          unfold len in *. lia. }
        { rewrite !len_app, Hlen. lia. }
        { exact Hoff. }
        { rewrite len_app. unfold len at 2. cbn [length]. lia. }
        exists (leaf_c lf :: ext).
        destruct (placeGroup (colorTol params) (lc ++ [leaf_c lf]) g) as [pal' ixs].
        cbn [fst snd] in *. split; [rewrite E1, <- app_assoc; reflexivity|].
        rewrite E2.
        replace (len (gp ++ [leaf_c lf]) + len ext) with (len gp + len (leaf_c lf :: ext))
          by (rewrite len_app, !len_cons; unfold len; cbn [length]; lia).
        destruct (len gp + len (leaf_c lf :: ext) <=? 65535); [|reflexivity].
        cbn [map]. rewrite <- !app_assoc. cbn [app].
        replace (off + Z.of_nat (length lc)) with (len gp) by (unfold len in *; lia).
        reflexivity.
Qed.

Lemma firstn_S_nth {A} (l : list A) : forall k x,
  nth_error l k = Some x -> firstn (S k) l = firstn k l ++ [x].
Proof.
  induction l as [|a l IH]; intros k x H; [destruct k; discriminate|].
  destruct k as [|k]; cbn [nth_error] in H.
  - inversion H. reflexivity.
  - cbn [firstn app]. f_equal. change (firstn (S k) l = firstn k l ++ [x]).
    apply IH. exact H.
Qed.

(** The slice [leaves[base:end]] of the outer loop is group number [k]. *)
Lemma group_slice (leaves : list leafColor) (k : nat) :
  256 * Z.of_nat k < len leaves ->
  firstn (Z.to_nat ((if len leaves <? 256 * Z.of_nat k + 256
                     then len leaves else 256 * Z.of_nat k + 256)
                    - 256 * Z.of_nat k))
         (skipn (Z.to_nat (256 * Z.of_nat k)) leaves)
  = group leaves k.
Proof.
  intros Hk. unfold group.
  replace (Z.to_nat (256 * Z.of_nat k)) with (256 * k)%nat by lia.
  destruct (Z.ltb_spec (len leaves) (256 * Z.of_nat k + 256)) as [Hs|Hs].
  - unfold len in *.
    rewrite !firstn_all2 by (rewrite length_skipn; lia). reflexivity.
  - f_equal. lia.
Qed.

Lemma paletteGroups_spec (params : codec2Params) (leaves : list leafColor) :
  forall n k fuel ip,
  (k + n = groupCount leaves)%nat -> (n < fuel)%nat ->
  len (concat (firstn k (specPalettes (colorTol params) leaves))) <= 65535 ->
  paletteGroups params leaves fuel (256 * Z.of_nat k)
    (concat (firstn k (specPalettes (colorTol params) leaves))) ip =
  if len (concat (specPalettes (colorTol params) leaves)) <=? 65535
  then Ok (concat (specPalettes (colorTol params) leaves),
           ip ++ flat_map
                   (fun k =>
                      map (fun j =>
                             len (concat (firstn k (specPalettes (colorTol params) leaves)))
                             + Z.of_nat j)
                          (snd (placeGroup (colorTol params) [] (group leaves k))))
                   (seq k n))
  else Err (Errorf "palette too large").
Proof.
  set (tol := colorTol params). set (pals := specPalettes tol leaves).
  assert (Hpl : length pals = groupCount leaves) by apply specPalettes_length.
  induction n as [|n IH]; intros k fuel ip Hk Hfuel Hmax;
    (destruct fuel as [|fuel]; [lia|]); cbn [paletteGroups].
  - assert (Ek : k = groupCount leaves) by lia.
    replace (len leaves <=? 256 * Z.of_nat k) with true
      by (rewrite Ek; unfold groupCount, len; dlia).
    rewrite firstn_all2 in * by lia.
    replace (len (concat pals) <=? 65535) with true by lia.
    cbn [seq flat_map]. rewrite app_nil_r. reflexivity.
  - assert (Hkm : (k < groupCount leaves)%nat) by lia.
    assert (Hbase : 256 * Z.of_nat k < len leaves)
      by (revert Hkm; unfold groupCount, len; dlia).
    replace (len leaves <=? 256 * Z.of_nat k) with false by lia.
    rewrite group_slice by exact Hbase.
    set (gp := concat (firstn k pals)) in *.
    pose proof (len_nonneg gp) as Hgp0.
    destruct (paletteGroup_spec params (group leaves k) [] [] gp ip (len gp)
                eq_refl ltac:(unfold len at 3; simpl; lia) Hgp0 Hmax) as [ext [E1 E2]].
    cbn [app] in E1. fold tol in E1, E2. rewrite E2.
    pose proof (specPalettes_nth tol leaves k Hkm) as Hnth. fold pals in Hnth.
    rewrite E1 in Hnth.
    assert (Enext : concat (firstn (S k) pals) = gp ++ ext).
    { rewrite (firstn_S_nth pals k ext Hnth), concat_app. cbn [concat].
      rewrite app_nil_r. reflexivity. }
    assert (Hmono : len (concat (firstn (S k) pals)) <= len (concat pals)).
    { rewrite <- (firstn_skipn (S k) pals) at 2. rewrite concat_app, len_app.
      pose proof (len_nonneg (concat (skipn (S k) pals))). lia. }
    destruct (Z.leb_spec (len gp + len ext) 65535) as [Hfit|Hover].
    + cbn [bind]. rewrite <- Enext.
      replace (256 * Z.of_nat k + 256) with (256 * Z.of_nat (S k)) by lia.
      rewrite IH; [|lia|lia|rewrite Enext, len_app; lia].
      destruct (len (concat pals) <=? 65535); [|reflexivity].
      cbn [seq flat_map]. rewrite <- app_assoc. reflexivity.
    + cbn [bind]. rewrite Enext, len_app in Hmono.
      replace (len (concat pals) <=? 65535) with false by lia. reflexivity.
Qed.

(** X30: [buildPalette] (one global palette, 16-bit indices) builds the same
    palettes as [buildPalettes], glued in order: it returns the
    concatenation of the per-group palettes, the index of each leaf being
    its entry in the palette of its group moved by the sizes of the palettes
    before it; and it fails with "palette too large" exactly when the glued
    palette would have more than 65535 colors. *)
Theorem buildPalette_glues_group_palettes (leaves : list leafColor)
  (params : codec2Params) :
  buildPalette leaves params =
  if len (concat (specPalettes (colorTol params) leaves)) <=? 65535
  then Ok (concat (specPalettes (colorTol params) leaves),
           globalIndices (colorTol params) leaves)
  else Err (Errorf "palette too large").
Proof.
  unfold buildPalette, globalIndices.
  pose proof (paletteGroups_spec params leaves (groupCount leaves) 0
                (S (length leaves)) [] eq_refl) as H.
  cbn [firstn concat Z.of_nat Z.mul app] in H. apply H.
  - unfold groupCount, len. dlia.
  - unfold len. simpl. lia.
Qed.

(* ------------------------------------------------------------------------- *)
(** ** More than 65535 palettes *)

(** A fold reaches what one of its steps sets up and the later steps keep. *)
Lemma fold_left_reach {A B} (f : A -> B -> A) (I Q : A -> Prop) (b : B) (l : list B) :
  In b l ->
  (forall s c, I s -> I (f s c)) ->
  (forall s, I s -> Q (f s b)) ->
  (forall s c, Q s -> Q (f s c)) ->
  forall s, I s -> Q (fold_left f l s).
Proof.
  intros Hin HI Hset Hkeep.
  assert (Keep : forall l s, Q s -> Q (fold_left f l s)).
  { intros l'. induction l' as [|c l' IH]; intros s Hs; cbn [fold_left]; [exact Hs|].
    apply IH. apply Hkeep. exact Hs. }
  induction l as [|c l IH]; intros s Hs; [destruct Hin|].
  cbn [fold_left]. destruct Hin as [->|Hin].
  - apply Keep. apply Hset. exact Hs.
  - apply IH; [exact Hin|]. apply HI. exact Hs.
Qed.

(** The scan of [analyzeBlock] has seen every pixel of the region that lies
    inside the raster. *)
Lemma scanBlock_covers (img : image.RGBA) (x y w h i j : Z) :
  0 <= i < w -> 0 <= j < h ->
  image.In (x + i) (y + j) (image.Bounds img) = true ->
  minL (scanBlock img x y w h) <= luma (image.RGBAAt img (x + i) (y + j))
    <= maxL (scanBlock img x y w h) /\
  0 < count (scanBlock img x y w h).
Proof.
  intros Hi Hj Hin.
  set (l := luma (image.RGBAAt img (x + i) (y + j))).
  set (I := fun s : blockScan => 0 <= count s).
  set (Q := fun s : blockScan => minL s <= l <= maxL s /\ 0 < count s).
  assert (StepI : forall s xx yy, I s -> I (scanPixel img x y w h yy s xx)).
  { intros s xx yy Hs. unfold I, scanPixel in *.
    destruct (_ || _ || _ || _); [exact Hs|]. cbn [count]. lia. }
  assert (StepQ : forall s xx yy, Q s -> Q (scanPixel img x y w h yy s xx)).
  { intros s xx yy [[H1 H2] H3]. unfold Q, scanPixel.
    destruct (_ || _ || _ || _); [split; [split|]; assumption|].
    cbn [minL maxL count].
    set (l' := luma (image.RGBAAt img (x + xx) (y + yy))).
    destruct (Z.ltb_spec l' (minL s)); destruct (Z.ltb_spec (maxL s) l'); lia. }
  assert (Reach : forall s, I s -> Q (scanPixel img x y w h j s i)).
  { intros s Hs. unfold I, Q, scanPixel in *.
    rewrite (outside_In img _ _ Hin), Hin. cbn [negb]. cbn [minL maxL count]. fold l.
    destruct (Z.ltb_spec l (minL s)); destruct (Z.ltb_spec (maxL s) l); lia. }
  assert (HQ : Q (scanBlock img x y w h)).
  { unfold scanBlock.
    apply (fold_left_reach
             (fun s yy => fold_left (scanPixel img x y w h yy) (zrange w) s) I Q j).
    - apply in_zrange. exact Hj.
    - intros s yy Hs. apply (row_fold_inv I); [|exact Hs]. intros s' xx _. apply StepI.
    - intros s Hs.
      apply (fold_left_reach (scanPixel img x y w h j) I Q i).
      + apply in_zrange. exact Hi.
      + intros s' xx. apply StepI.
      + exact Reach.
      + intros s' xx. apply StepQ.
      + exact Hs.
    - intros s yy Hs. apply (row_fold_inv Q); [|exact Hs]. intros s' xx _. apply StepQ.
    - unfold I. cbn. lia. }
  exact HQ.
Qed.

(** The total energy of a region is at least the difference in luma of any
    two of its pixels that lie inside the raster. *)
Lemma energy_at_least (img : image.RGBA) (x y w h i1 j1 i2 j2 : Z) :
  0 <= i1 < w -> 0 <= j1 < h -> 0 <= i2 < w -> 0 <= j2 < h ->
  image.In (x + i1) (y + j1) (image.Bounds img) = true ->
  image.In (x + i2) (y + j2) (image.Bounds img) = true ->
  luma (image.RGBAAt img (x + i2) (y + j2)) - luma (image.RGBAAt img (x + i1) (y + j1))
  <= fst (fst (fst (analyzeBlock img x y w h))).
Proof.
  intros Hi1 Hj1 Hi2 Hj2 In1 In2.
  destruct (scanBlock_covers img x y w h i1 j1 Hi1 Hj1 In1) as [[A1 _] C].
  destruct (scanBlock_covers img x y w h i2 j2 Hi2 Hj2 In2) as [[_ A2] _].
  unfold analyzeBlock.
  destruct (Z.eqb_spec (count (scanBlock img x y w h)) 0) as [E|E]; [lia|].
  cbn [fst]. lia.
Qed.

Section Checkerboard.

Variable img : image.RGBA.
Variable params : codec2Params.

Hypothesis Hbounds : image.Bounds img = image.mkRect (image.Pt 0 0) (image.Pt 4096 4096).
Hypothesis Hpix : forall px py, image.In px py (image.Bounds img) = true ->
  image.RGBAAt img px py = if Z.even (px + py) then rgb 0 0 0 else rgb 255 255 255.
Hypothesis HminBlock : minBlock params = 1.
Hypothesis HmaxGrad : maxGrad params < 255.

Lemma checker_In (px py : Z) :
  0 <= px < 4096 -> 0 <= py < 4096 -> image.In px py (image.Bounds img) = true.
Proof.
  intros Hx Hy. rewrite Hbounds. unfold image.In.
  cbn [image.Min image.Max image.X image.Y].
  destruct (Z.leb_spec 0 px); [|lia]. destruct (Z.ltb_spec px 4096); [|lia].
  destruct (Z.leb_spec 0 py); [|lia]. destruct (Z.ltb_spec py 4096); [|lia]. reflexivity.
Qed.

(** Two neighbours of the checkerboard differ by the whole luma range. *)
Lemma checker_neighbours (px py qx qy : Z) :
  0 <= px < 4096 -> 0 <= py < 4096 -> 0 <= qx < 4096 -> 0 <= qy < 4096 ->
  qx + qy = px + py + 1 ->
  Z.abs (luma (image.RGBAAt img qx qy) - luma (image.RGBAAt img px py)) = 255.
Proof.
  intros Hpx Hpy Hqx Hqy Hn.
  rewrite (Hpix px py (checker_In px py Hpx Hpy)), (Hpix qx qy (checker_In qx qy Hqx Hqy)).
  rewrite Hn. replace (px + py + 1) with (Z.succ (px + py)) by lia.
  rewrite Z.even_succ, <- Z.negb_even.
  destruct (Z.even (px + py)); reflexivity.
Qed.

Lemma checker_energy (x y w h : Z) :
  0 <= x -> 0 <= y -> x + w <= 4096 -> y + h <= 4096 -> 1 <= w -> 1 <= h ->
  2 <= w \/ 2 <= h ->
  fst (fst (fst (analyzeBlock img x y w h))) = 255.
Proof.
  intros Hx Hy Hxw Hyh Hw Hh Htwo.
  assert (Hup : fst (fst (fst (analyzeBlock img x y w h))) <= 255).
  { destruct (analyzeBlock img x y w h) as [[[e b] i] a] eqn:EA.
    destruct (analyzeBlock_ranges img x y w h _ _ _ _ EA) as [He _]. cbn [fst]. lia. }
  assert (Hpair : exists i2 j2, 0 <= i2 < w /\ 0 <= j2 < h /\ (x + i2) + (y + j2) = (x + 0) + (y + 0) + 1).
  { destruct Htwo; [exists 1, 0|exists 0, 1]; lia. }
  destruct Hpair as [i2 [j2 [Hi2 [Hj2 Hn]]]].
  pose proof (checker_neighbours (x + 0) (y + 0) (x + i2) (y + j2)
                ltac:(lia) ltac:(lia) ltac:(lia) ltac:(lia) Hn) as Habs.
  pose proof (checker_In (x + 0) (y + 0) ltac:(lia) ltac:(lia)) as In0.
  pose proof (checker_In (x + i2) (y + j2) ltac:(lia) ltac:(lia)) as In2.
  pose proof (energy_at_least img x y w h 0 0 i2 j2 ltac:(lia) ltac:(lia) Hi2 Hj2
                In0 In2) as H1.
  pose proof (energy_at_least img x y w h i2 j2 0 0 Hi2 Hj2 ltac:(lia) ltac:(lia)
                In2 In0) as H2.
  lia.
Qed.

(** On the checkerboard every pixel becomes a leaf of its own. *)
Lemma checker_collect (fuel : nat) :
  forall x y w h L0 P0 L1 P1,
  0 <= x -> 0 <= y -> x + w <= 4096 -> y + h <= 4096 -> 1 <= w -> 1 <= h ->
  collectRegionColors fuel img x y w h params L0 P0 = Ok (L1, P1) ->
  exists dl,
    L1 = L0 ++ dl /\ len dl = w * h /\
    Forall (fun lf => leaf_c lf = rgb 0 0 0 \/ leaf_c lf = rgb 255 255 255) dl.
Proof.
  induction fuel as [|fuel IH]; intros x y w h L0 P0 L1 P1 Hx Hy Hxw Hyh Hw Hh H;
    [discriminate|].
  assert (Split : forall x1 y1 w1 h1 x2 y2 w2 h2,
    0 <= x1 -> 0 <= y1 -> x1 + w1 <= 4096 -> y1 + h1 <= 4096 -> 1 <= w1 -> 1 <= h1 ->
    0 <= x2 -> 0 <= y2 -> x2 + w2 <= 4096 -> y2 + h2 <= 4096 -> 1 <= w2 -> 1 <= h2 ->
    w1 * h1 + w2 * h2 = w * h ->
    ('(leaves, pattern) <-
       collectRegionColors fuel img x1 y1 w1 h1 params L0 (P0 ++ [false]) ;;
     collectRegionColors fuel img x2 y2 w2 h2 params leaves pattern) = Ok (L1, P1) ->
    exists dl,
      L1 = L0 ++ dl /\ len dl = w * h /\
      Forall (fun lf => leaf_c lf = rgb 0 0 0 \/ leaf_c lf = rgb 255 255 255) dl).
  { intros x1 y1 w1 h1 x2 y2 w2 h2 A1 A2 A3 A4 A5 A6 B1 B2 B3 B4 B5 B6 Harea E.
    bindOk E r1 H1. destruct r1 as [La Pa].
    destruct (IH _ _ _ _ _ _ _ _ A1 A2 A3 A4 A5 A6 H1) as [dla [-> [Hla Hca]]].
    destruct (IH _ _ _ _ _ _ _ _ B1 B2 B3 B4 B5 B6 E) as [dlb [-> [Hlb Hcb]]].
    exists (dla ++ dlb). split; [rewrite app_assoc; reflexivity|].
    split; [rewrite len_app; lia|]. apply Forall_app. split; assumption. }
  cbn [collectRegionColors] in H. rewrite HminBlock in H.
  destruct ((w <=? 1) && (h <=? 1)) eqn:E1.
  - (* one pixel *)
    apply andb_true_iff in E1. destruct E1 as [Ew Eh].
    apply Z.leb_le in Ew. apply Z.leb_le in Eh.
    assert (w = 1) by lia. assert (h = 1) by lia. subst w h.
    pose proof (checker_In x y ltac:(lia) ltac:(lia)) as Hin.
    rewrite (analyzeBlock_flat img x y 1 1 (image.RGBAAt img x y)) in H.
    + inversion H; subst. exists [mkLeafColor (opaque (image.RGBAAt img x y))].
      split; [reflexivity|]. split; [reflexivity|].
      constructor; [|constructor]. cbn [leaf_c]. rewrite (Hpix x y Hin).
      destruct (Z.even (x + y)); [left|right]; reflexivity.
    + lia.
    + lia.
    + exact Hin.
    + intros xx yy Hxx Hyy _. replace xx with 0 by lia. replace yy with 0 by lia.
      rewrite !Z.add_0_r. reflexivity.
  - (* two pixels or more: the energy is 255 *)
    assert (Htwo : 2 <= w \/ 2 <= h).
    { apply andb_false_iff in E1. destruct E1 as [E|E]; apply Z.leb_gt in E; lia. }
    pose proof (checker_energy x y w h Hx Hy Hxw Hyh Hw Hh Htwo) as He.
    destruct (analyzeBlock img x y w h) as [[[energy be] ie] avg]. cbn [fst] in He.
    subst energy. change (255 =? 0) with false in H. cbn iota in H.
    replace (255 <=? maxGrad params) with false in H by lia.
    rewrite andb_false_r in H. cbn [andb] in H.
    destruct ((h <=? w) && (1 <=? w ÷ 2)) eqn:Ec.
    + apply andb_true_iff in Ec. destruct Ec as [Ehw Ew2].
      apply Z.leb_le in Ehw. apply Z.leb_le in Ew2.
      apply (Split x y (w ÷ 2) h (x + w ÷ 2) y (w - w ÷ 2) h); try lia; try dlia.
      exact H.
    + assert (Hh2 : 2 <= h).
      { apply andb_false_iff in Ec. destruct Ec as [E|E].
        - apply Z.leb_gt in E. lia.
        - apply Z.leb_gt in E. dlia. }
      replace (h ÷ 2 <? 1) with false in H by dlia.
      apply (Split x y w (h ÷ 2) x (y + h ÷ 2) w (h - h ÷ 2)); try lia; try dlia.
      exact H.
Qed.

End Checkerboard.

(** A first-match palette over leaves of two colors has two entries at most. *)
Lemma firstWithin_None_notin (tol : Z) (c : color.RGBA) (P : list color.RGBA) :
  0 <= tol -> firstWithin tol c P = None -> ~ In c P.
Proof.
  intros Ht. induction P as [|p P IH]; cbn [firstWithin]; intros H Hin; [destruct Hin|].
  destruct (within tol c p) eqn:E; [discriminate|].
  destruct (firstWithin tol c P); [discriminate|].
  destruct Hin as [->|Hin].
  - rewrite within_refl in E by exact Ht. discriminate.
  - apply IH; [reflexivity|exact Hin].
Qed.

Lemma placeGroup_two_colors (tol : Z) (a b : color.RGBA) (g : list leafColor) :
  0 <= tol ->
  Forall (fun lf => leaf_c lf = a \/ leaf_c lf = b) g ->
  forall P, NoDup P -> incl P [a; b] ->
  NoDup (fst (placeGroup tol P g)) /\ incl (fst (placeGroup tol P g)) [a; b].
Proof.
  intros Ht. induction 1 as [|lf g Hlf _ IH]; intros P Hnd Hincl; cbn [placeGroup].
  - split; assumption.
  - destruct (firstWithin tol (leaf_c lf) P) as [j|] eqn:Ej.
    + specialize (IH P Hnd Hincl). destruct (placeGroup tol P g) as [P' ixs]. exact IH.
    + assert (Hnd' : NoDup (P ++ [leaf_c lf])).
      { apply NoDup_app; [exact Hnd|constructor; [intros []|constructor]|].
        intros c Hc [<-|[]]. eapply firstWithin_None_notin; eassumption. }
      assert (Hincl' : incl (P ++ [leaf_c lf]) [a; b]).
      { apply incl_app; [exact Hincl|]. intros c [<-|[]].
        destruct Hlf as [->| ->]; [left|right; left]; reflexivity. }
      specialize (IH _ Hnd' Hincl').
      destruct (placeGroup tol (P ++ [leaf_c lf]) g) as [P' ixs]. exact IH.
Qed.

Lemma two_color_palettes (tol : Z) (a b : color.RGBA) (leaves : list leafColor) :
  0 <= tol ->
  Forall (fun lf => leaf_c lf = a \/ leaf_c lf = b) leaves ->
  Forall (fun P => (length P <= 2)%nat) (specPalettes tol leaves).
Proof.
  intros Ht Hall. unfold specPalettes. apply Forall_forall. intros P HP.
  apply in_map_iff in HP. destruct HP as [k [<- _]].
  assert (Hg : Forall (fun lf => leaf_c lf = a \/ leaf_c lf = b) (group leaves k)).
  { unfold group. apply Forall_forall. intros lf Hin.
    rewrite Forall_forall in Hall. apply Hall.
    rewrite <- (firstn_skipn (256 * k) leaves). apply in_or_app. right.
    rewrite <- (firstn_skipn 256 (skipn (256 * k) leaves)). apply in_or_app. left.
    exact Hin. }
  destruct (placeGroup_two_colors tol a b (group leaves k) Ht Hg [] (NoDup_nil _)
              (incl_nil_l _)) as [Hnd Hincl].
  apply (NoDup_incl_length Hnd Hincl).
Qed.

(** Without palettes the tree walk of the decoder fails at its first leaf,
    if not before. *)
Lemma decodeRegionJobs_no_palettes (params : codec2Params) (fuel : nat) :
  forall x y w h br lc jobs,
  exists e, decodeRegionJobs fuel x y w h params br [] lc jobs = Err e.
Proof.
  assert (Leaf : forall fb x y w h br lc jobs,
            exists e, decodeLeafJob fb x y w h br [] lc jobs = Err e).
  { intros fb x y w h br lc jobs. unfold decodeLeafJob.
    destruct (ReadByte br) as [[b br']|e]; cbn [bind]; [|eexists; reflexivity].
    replace ((lc ÷ 256 <? 0) || (len (@nil (list color.RGBA)) <=? lc ÷ 256)) with true.
    - eexists. reflexivity.
    - symmetry. apply orb_true_iff. unfold len. cbn [length].
      destruct (Z.ltb_spec (lc ÷ 256) 0); [left; reflexivity|right; apply Z.leb_le; lia]. }
  induction fuel as [|fuel IH]; intros x y w h br lc jobs; cbn [decodeRegionJobs].
  - eexists. reflexivity.
  - destruct (ReadBit br) as [[isLeaf br']|e]; cbn [bind]; [|eexists; reflexivity].
    destruct isLeaf; [apply Leaf|].
    destruct ((h <=? w) && (minBlock params <=? w ÷ 2)).
    + destruct (IH x y (w ÷ 2) h br' lc jobs) as [e ->]. cbn [bind]. eexists. reflexivity.
    + destruct (h ÷ 2 <=? 0); [apply Leaf|].
      destruct (IH x y w (h ÷ 2) br' lc jobs) as [e ->]. cbn [bind]. eexists. reflexivity.
Qed.

(** A payload that announces no palette is not decoded. *)
Lemma decodePayload_no_palettes (numCPU w h : Z) (params : codec2Params)
  (rest : list byte) (s : stripeInfo) (ss : list stripeInfo) :
  splitStripes numCPU h (minBlock params) = s :: ss ->
  exists e, decodePayload numCPU w h params (x00 :: x00 :: rest) = Err e.
Proof.
  intros Hs. unfold decodePayload. rewrite Hs.
  pose proof (len_nonneg rest) as Hr.
  replace (len (x00 :: x00 :: rest) <? 2) with false by (rewrite !len_cons; lia).
  cbn [readUint16 bind]. change (Z.to_nat (b2z x00 * 256 + b2z x00)) with O.
  cbn [readPalettes bind].
  replace ((len (x00 :: x00 :: rest) - len rest <? 0)
           || (len (x00 :: x00 :: rest) <? len (x00 :: x00 :: rest) - len rest))
    with false by (rewrite !len_cons; lia).
  cbn [decodeStripes].
  destruct (decodeRegionJobs_no_palettes params (S (8 * length (x00 :: x00 :: rest)))
              0 (stripe_y s) w (stripe_h s)
              (NewBitReaderFromBytes
                 (skipn (Z.to_nat (len (x00 :: x00 :: rest) - len rest))
                        (x00 :: x00 :: rest))) 0 []) as [e ->].
  cbn [bind]. eexists. reflexivity.
Qed.

Lemma checker_toRGBA :
  image.Bounds (toRGBA checker) = image.mkRect (image.Pt 0 0) (image.Pt 4096 4096) /\
  forall px py, image.In px py (image.Bounds (toRGBA checker)) = true ->
    image.RGBAAt (toRGBA checker) px py =
    if Z.even (px + py) then rgb 0 0 0 else rgb 255 255 255.
Proof.
  split; [reflexivity|].
  intros px py Hin. unfold image.RGBAAt at 1. rewrite Hin.
  change (image.Bounds (toRGBA checker))
    with (image.mkRect (image.Pt 0 0) (image.Pt 4096 4096)) in Hin.
  unfold toRGBA. cbn [image.Pix].
  change (image.Bounds checker) with (image.mkRect (image.Pt 0 0) (image.Pt 4096 4096)).
  cbn [image.Min image.X image.Y]. rewrite !Z.add_0_r.
  unfold image.RGBAAt, checker, rasterOf. cbn [image.Bounds image.Pix].
  change (image.Rect 0 0 4096 4096) with (image.mkRect (image.Pt 0 0) (image.Pt 4096 4096)).
  rewrite Hin. reflexivity.
Qed.

(** The encoder makes one leaf of every pixel of [checker] at quality 100:
    16777216 leaves, 65536 palettes of at most two colors. *)
Lemma checker_palettes :
  exists pals,
    encoderPalettes 1 checker 100 = Ok pals /\
    len pals = 65536 /\
    Forall (fun p => len (pal_colors p) <= 255) pals.
Proof.
  destruct checker_toRGBA as [Hb Hpix].
  assert (Hpar : paramsForQuality (clampQuality 100) = mkParams 1 1 1)
    by (vm_compute; reflexivity).
  unfold encoderPalettes. rewrite Hpar.
  unfold collectRegionColorsStriped.
  set (rgba := toRGBA checker) in *.
  assert (EW : image.Dx (image.Bounds rgba) = 4096) by (rewrite Hb; reflexivity).
  assert (EH : image.Dy (image.Bounds rgba) = 4096) by (rewrite Hb; reflexivity).
  rewrite EW, EH. cbn [minBlock].
  change (splitStripes 1 4096 1) with [mkStripe 0 4096].
  cbn [length]. change (Z.of_nat 1 =? 1) with true. cbn iota.
  destruct (collectRegionColors_total (Z.to_nat 4096 + Z.to_nat 4096 - 1) rgba
              (mkParams 1 1 1) 0 0 4096 4096 [] [] ltac:(lia)) as [[L1 P1] Ht].
  assert (Hrun : collectRegionColors (regionFuel 4096 4096) rgba 0 0 4096 4096
                   (mkParams 1 1 1) [] [] = Ok (L1, P1))
    by (unfold regionFuel; apply Ht; lia).
  rewrite Hrun. cbn [bind].
  destruct (checker_collect rgba (mkParams 1 1 1) Hb Hpix eq_refl ltac:(cbn; lia)
              (regionFuel 4096 4096) 0 0 4096 4096 [] [] L1 P1
              ltac:(lia) ltac:(lia) ltac:(lia) ltac:(lia) ltac:(lia) ltac:(lia) Hrun)
    as [dl [E [Hlen Hcol]]].
  cbn [app] in E. subst dl.
  rewrite buildPalettes_spec. cbn [bind colorTol]. eexists. split; [reflexivity|].
  split.
  - rewrite len_map. unfold len. rewrite specPalettes_length. unfold groupCount.
    rewrite Hlen, Z2Nat.id by (vm_compute; discriminate). reflexivity.
  - pose proof (two_color_palettes 1 (rgb 0 0 0) (rgb 255 255 255) L1 ltac:(lia) Hcol) as H2.
    apply Forall_forall. intros p Hp. apply in_map_iff in Hp. destruct Hp as [P [<- HP]].
    rewrite Forall_forall in H2. specialize (H2 P HP). cbn [pal_colors]. unfold len. lia.
Qed.

(** When the number of palettes is a multiple of 65536 the payload announces
    no palette, and the artifact [Encode] returns is not decoded. *)
Lemma wrapped_palette_count_stops_Decode (z : Zstd) (numCPU : Z) (img : image.RGBA)
  (quality : Z) (pals : list palette) (art : list byte) :
  encoderPalettes numCPU img quality = Ok pals ->
  GoInt.uint16 (len pals) = 0 ->
  Encode z numCPU img quality = Ok art ->
  exists e, Decode z numCPU art = Err e.
Proof.
  intros HP Hwrap HE.
  destruct (Encode_inv _ _ _ _ _ HE) as [raw [Hraw Hart]].
  rewrite Hart.
  rewrite Decode_header by (try apply uint16_range; apply clampQuality_range).
  rewrite decompress_compress. cbn [bind].
  set (params := paramsForQuality (clampQuality quality)) in *.
  set (rgba := toRGBA img) in *.
  set (w := GoInt.uint16 (image.Dx (image.Bounds rgba))) in *.
  set (h := GoInt.uint16 (image.Dy (image.Bounds rgba))) in *.
  unfold encodePayload in Hraw.
  bindOk Hraw r1 H1. destruct r1 as [leaves pattern].
  bindOk Hraw r2 H2. destruct r2 as [pals' refs].
  bindOk Hraw raw1 H3.
  bindOk Hraw r3 H4. destruct r3 as [[bw lp] pp].
  inversion Hraw; subst raw. clear Hraw.
  unfold encoderPalettes in HP. fold params rgba in HP. rewrite H1 in HP. cbn [bind] in HP.
  rewrite H2 in HP. cbn [bind] in HP. inversion HP; subst pals'. clear HP.
  destruct (writePalettes_inv _ _ _ H3) as [_ Hraw1].
  rewrite Hwrap in Hraw1. change (putUint16 0) with [x00; x00] in Hraw1.
  destruct (NewBitWriter_ok raw1) as [Hok0 _].
  destruct (encodeStripes_forest _ _ _ _ _ _ _ _ _ _ _ H4 Hok0 ltac:(lia) ltac:(lia))
    as [ts [_ [S2 [[ext1 S3] _]]]].
  destruct (Flush_written bw S2) as [pad [_ [ext2 F2]]].
  cbn [NewBitWriter bw_buf] in S3.
  rewrite F2, S3, Hraw1. cbn [app].
  destruct (splitStripes numCPU h (minBlock params)) as [|s ss] eqn:Es.
  - exfalso.
    destruct (splitStripes_cases numCPU h (minBlock params)) as [E|E].
    + unfold h. pose proof (uint16_range (image.Dy (image.Bounds rgba))). lia.
    + rewrite E in Es. discriminate.
    + rewrite Es in E. simpl in E. lia.
  - eapply decodePayload_no_palettes. exact Es.
Qed.

(** C1, as stated, fails also at [checker], quality 100, which is what
    bounds the number of palettes in the amended claim: the encoder builds
    65536 palettes of at most two colors, writes their number in 16 bits as
    0 and returns an artifact; the decoder reads no palette and stops at the
    first leaf of the tree, if not before. *)
Lemma checkerboard_artifact_is_not_decoded :
  image.Dx (image.Bounds checker) = 4096 /\
  image.Dy (image.Bounds checker) = 4096 /\
  exists pals art e,
    encoderPalettes 1 checker 100 = Ok pals /\
    Forall (fun p => len (pal_colors p) <= 255) pals /\
    len pals = 65536 /\
    Encode storeZstd 1 checker 100 = Ok art /\
    Decode storeZstd 1 art = Err e.
Proof.
  split; [reflexivity|]. split; [reflexivity|].
  destruct checker_palettes as [pals [HP [Hlen Hsmall]]].
  assert (EW : image.Dx (image.Bounds checker) = 4096) by reflexivity.
  assert (EH : image.Dy (image.Bounds checker) = 4096) by reflexivity.
  destruct (Encode_succeeds storeZstd 1 checker 100 pals
              ltac:(rewrite EW; lia) ltac:(rewrite EH; lia) HP Hsmall) as [art HE].
  destruct (wrapped_palette_count_stops_Decode storeZstd 1 checker 100 pals art HP
              ltac:(rewrite Hlen; reflexivity) HE) as [e HD].
  exists pals, art, e.
  split; [exact HP|]. split; [exact Hsmall|]. split; [exact Hlen|].
  split; [exact HE|exact HD].
Qed.
